(** * Quark: route patterns, route table, middleware chains, groups, dispatch

    A shallow embedding of the request-dispatch core of the Quark HTTP
    micro-framework (Go): [parsePattern], [Route.match], [Router.find],
    [Router.Handle], [Chain], [RouteGroup.Group], [RouteGroup.handle],
    [Context.Param], [App.handleError] and [App.ServeHTTP].

    Go strings are byte sequences: they are modelled as [string] (a list of
    8-bit [ascii] values), Go [int] as [Z], runes (code points) as [N],
    [map[string]string] as [gmap string string]. *)

From Stdlib Require Import ZArith NArith Ascii String Lia Bool.
From stdpp Require Import base gmap strings list.

Local Open Scope Z_scope.

(** ** The pieces of Go's [strings] and [unicode/utf8] that the router uses *)

Module GoString.

Definition len (s : string) : Z := Z.of_nat (String.length s).

(** [s[lo:hi]] and [s[lo:]]. *)
Definition slice (s : string) (lo hi : Z) : string :=
  String.substring (Z.to_nat lo) (Z.to_nat (hi - lo)) s.

Definition sliceFrom (s : string) (lo : Z) : string := slice s lo (len s).

(** [s[i]]; the router only indexes below [len s]. *)
Definition byteAt (s : string) (i : Z) : ascii :=
  match String.get (Z.to_nat i) s with
  | Some c => c
  | None => Ascii.zero
  end.

Definition HasPrefix (s pre : string) : bool := String.prefix pre s.

Definition HasSuffix (s suffix : string) : bool :=
  (len suffix <=? len s) &&
  String.eqb (sliceFrom s (len s - len suffix)) suffix.

(** [strings.TrimSuffix]: one occurrence of the suffix is removed. *)
Definition TrimSuffix (s suffix : string) : string :=
  if HasSuffix s suffix then slice s 0 (len s - len suffix) else s.

(** [strings.Index]: byte offset of the first occurrence, or [-1]. *)
Fixpoint Index (s substr : string) : Z :=
  if HasPrefix s substr then 0
  else match s with
       | EmptyString => -1
       | String _ s' =>
           let r := Index s' substr in
           if r <? 0 then -1 else r + 1
       end.

Definition byteN (c : ascii) : N := N_of_ascii c.
Definition byteOfN (n : N) : ascii := ascii_of_N n.

Definition RuneError : N := 0xFFFD%N.

(** UTF-8 encoding of a code point ([utf8.AppendRune]); this is also what
    the conversion [string(x)] of an integer or byte value [x] yields. *)
Definition encodeRune (r : N) : string :=
  let b (n : N) := byteOfN n in
  let three (r : N) :=
    String (b (N.lor 0xE0 (N.shiftr r 12)))
      (String (b (N.lor 0x80 (N.land (N.shiftr r 6) 0x3F)))
         (String (b (N.lor 0x80 (N.land r 0x3F))) EmptyString)) in
  (if r <=? 0x7F then String (b r) EmptyString
   else if r <=? 0x7FF then
     String (b (N.lor 0xC0 (N.shiftr r 6)))
       (String (b (N.lor 0x80 (N.land r 0x3F))) EmptyString)
   else if (0x10FFFF <? r) || ((0xD800 <=? r) && (r <=? 0xDFFF)) then
     three RuneError
   else if r <=? 0xFFFF then three r
   else
     String (b (N.lor 0xF0 (N.shiftr r 18)))
       (String (b (N.lor 0x80 (N.land (N.shiftr r 12) 0x3F)))
          (String (b (N.lor 0x80 (N.land (N.shiftr r 6) 0x3F)))
             (String (b (N.lor 0x80 (N.land r 0x3F))) EmptyString))))%N.

(** [string(b)] for a byte [b]: the UTF-8 encoding of the code point whose
    number is the byte's value (one byte below 0x80, two bytes from 0x80). *)
Definition stringOfByte (c : ascii) : string := encodeRune (byteN c).

(** [utf8.DecodeRuneInString]: the first rune of [s] and its width in
    bytes; [(RuneError, 0)] on the empty string and [(RuneError, 1)] on an
    invalid encoding. *)
Definition decodeRune (s : string) : N * nat :=
  let inr (lo hi x : N) := ((lo <=? x) && (x <=? hi))%N in
  let cont (x : N) := inr 0x80%N 0xBF%N x in
  match s with
  | EmptyString => (RuneError, 0%nat)
  | String c0 t0 =>
      let s0 := byteN c0 in
      if (s0 <? 0x80)%N then (s0, 1%nat)
      else
        (* size and accepted range of the second byte, from [first] and
           [acceptRanges] *)
        let info : option (nat * N * N) :=
          (if inr 0xC2 0xDF s0 then Some (2%nat, 0x80, 0xBF)
           else if s0 =? 0xE0 then Some (3%nat, 0xA0, 0xBF)
           else if inr 0xE1 0xEC s0 then Some (3%nat, 0x80, 0xBF)
           else if s0 =? 0xED then Some (3%nat, 0x80, 0x9F)
           else if inr 0xEE 0xEF s0 then Some (3%nat, 0x80, 0xBF)
           else if s0 =? 0xF0 then Some (4%nat, 0x90, 0xBF)
           else if inr 0xF1 0xF3 s0 then Some (4%nat, 0x80, 0xBF)
           else if s0 =? 0xF4 then Some (4%nat, 0x80, 0x8F)
           else None)%N in
        match info with
        | None => (RuneError, 1%nat)
        | Some (sz, lo, hi) =>
            match t0 with
            | EmptyString => (RuneError, 1%nat)
            | String c1 t1 =>
                let s1 := byteN c1 in
                if negb (inr lo hi s1) then (RuneError, 1%nat)
                else if (sz <=? 2)%nat then
                  (N.lor (N.shiftl (N.land s0 0x1F) 6) (N.land s1 0x3F), 2%nat)
                else
                  match t1 with
                  | EmptyString => (RuneError, 1%nat)
                  | String c2 t2 =>
                      let s2 := byteN c2 in
                      if negb (cont s2) then (RuneError, 1%nat)
                      else if (sz <=? 3)%nat then
                        (N.lor (N.shiftl (N.land s0 0x0F) 12)
                           (N.lor (N.shiftl (N.land s1 0x3F) 6)
                              (N.land s2 0x3F)), 3%nat)
                      else
                        match t2 with
                        | EmptyString => (RuneError, 1%nat)
                        | String c3 _ =>
                            let s3 := byteN c3 in
                            if negb (cont s3) then (RuneError, 1%nat)
                            else
                              (N.lor (N.shiftl (N.land s0 0x07) 18)
                                 (N.lor (N.shiftl (N.land s1 0x3F) 12)
                                    (N.lor (N.shiftl (N.land s2 0x3F) 6)
                                       (N.land s3 0x3F))), 4%nat)
                        end
                  end
            end
        end
  end.

(** [s[n:]] for a width [n] returned by [decodeRune]. *)
Fixpoint skip (n : nat) (s : string) : string :=
  match n, s with
  | O, _ => s
  | S n', String _ s' => skip n' s'
  | S _, EmptyString => EmptyString
  end.

(** [regexp.QuoteMeta]: a backslash before each of the bytes
    [\.+*?()|[]{}^$]. *)
Definition special (c : ascii) : bool :=
  existsb (Ascii.eqb c)
    ["\"; "."; "+"; "*"; "?"; "("; ")"; "|"; "["; "]"; "{"; "}"; "^"; "$"]%char.

Fixpoint QuoteMeta (s : string) : string :=
  match s with
  | EmptyString => EmptyString
  | String c s' =>
      if special c then String "\" (String c (QuoteMeta s'))
      else String c (QuoteMeta s')
  end.

End GoString.

(** ** A model of Go's [regexp] package

    [regexp] belongs to Go's standard library, not to the repository.  The
    model covers the syntax the router generates and the usual constraints
    ([regexp/syntax] with the [Perl] flags): literals, escaped punctuation,
    [.], bracket classes with ranges and negation, the Perl classes
    [\d \w \s], capturing and [(?:...)] groups, alternation, the greedy and
    lazy [* + ?], [^] and [$].  Matching is leftmost-first ("the match a
    backtracking search finds first"), over runes decoded from the UTF-8
    text.  A pattern outside this fragment yields [ErrOutsideFragment]; one
    that Go rejects yields [ErrSyntax] ([MustCompile] panics).  Go's limits
    on the size and nesting depth of an expression are not modelled. *)

Module Regexp.
Import GoString.

Inductive regex : Type :=
| Eps
| Lit (c : N)
| AnyNotNL
| Class (neg : bool) (ranges : list (N * N))
| BeginText
| EndText
| Cat (a b : regex)
| Alt (a b : regex)
| Star (greedy : bool) (a : regex)
| Plus (greedy : bool) (a : regex)
| Quest (greedy : bool) (a : regex)
| Group (idx : nat) (a : regex).

(** A compiled expression: the syntax tree and [NumSubexp]. *)
Record Regexp : Type := mkRegexp { prog : regex; numSubexp : nat }.

Inductive CompileError : Type := ErrSyntax | ErrOutsideFragment.

Inductive res (A : Type) : Type :=
| Ok (a : A)
| Err (e : CompileError).
Arguments Ok {A} a.
Arguments Err {A} e.

Definition ch (c : ascii) : N := byteN c.

(** The runes of a pattern; [None] on invalid UTF-8 ([checkUTF8]). *)
Fixpoint runes (fuel : nat) (s : string) : option (list N) :=
  match fuel with
  | O => match s with EmptyString => Some [] | _ => None end
  | S fuel' =>
      match s with
      | EmptyString => Some []
      | _ =>
          let '(r, w) := decodeRune s in
          if (r =? RuneError)%N && (w =? 1)%nat then None
          else option_map (cons r) (runes fuel' (skip w s))
      end
  end.

Definition isalnum (c : N) : bool :=
  ((ch "0" <=? c) && (c <=? ch "9") || (ch "A" <=? c) && (c <=? ch "Z")
   || (ch "a" <=? c) && (c <=? ch "z"))%N.

Definition isdigit (c : N) : bool := ((ch "0" <=? c) && (c <=? ch "9"))%N.

(** An escaped rune that stands for itself: ASCII and not alphanumeric. *)
Definition isPunctEscape (c : N) : bool := (c <? 0x80)%N && negb (isalnum c).

Definition perlClass (c : N) : option regex :=
  let d := [(ch "0", ch "9")] in
  let w := [(ch "0", ch "9"); (ch "A", ch "Z"); (ch "_", ch "_"); (ch "a", ch "z")] in
  let s := [(9, 10); (12, 13); (32, 32)]%N in
  if (c =? ch "d")%N then Some (Class false d)
  else if (c =? ch "D")%N then Some (Class true d)
  else if (c =? ch "w")%N then Some (Class false w)
  else if (c =? ch "W")%N then Some (Class true w)
  else if (c =? ch "s")%N then Some (Class false s)
  else if (c =? ch "S")%N then Some (Class true s)
  else None.

(** Can the expression match the empty string? *)
Fixpoint nullable (r : regex) : bool :=
  match r with
  | Eps | BeginText | EndText => true
  | Lit _ | AnyNotNL | Class _ _ => false
  | Cat a b => nullable a && nullable b
  | Alt a b => nullable a || nullable b
  | Star _ _ | Quest _ _ => true
  | Plus _ a => nullable a
  | Group _ a => nullable a
  end.

(** The concatenation held on the parse stack (top first). *)
Definition catOf (stack : list regex) : regex :=
  fold_left (fun acc r => Cat r acc) stack Eps.

Fixpoint altOf (alts : list regex) (last : regex) : regex :=
  match alts with
  | [] => last
  | a :: alts' => Alt a (altOf alts' last)
  end.

(** Does [{] start a counted repetition [{n}], [{n,}] or [{n,m}]?  The
    argument is the text after the brace. *)
Fixpoint digitsThen (fuel : nat) (t : list N) (k : list N -> bool) (seen : bool) : bool :=
  match fuel, t with
  | S fuel', c :: t' =>
      if isdigit c then digitsThen fuel' t' k true
      else seen && k t
  | _, _ => false
  end.

Definition looksLikeRepeat (t : list N) : bool :=
  digitsThen (S (length t)) t
    (fun t1 =>
       match t1 with
       | c :: t2 =>
           if (c =? ch "}")%N then true
           else if (c =? ch ",")%N then
             match t2 with
             | c2 :: _ =>
                 if (c2 =? ch "}")%N then true
                 else digitsThen (S (length t2)) t2
                        (fun t3 => match t3 with
                                   | c3 :: _ => (c3 =? ch "}")%N
                                   | [] => false
                                   end) false
             | [] => false
             end
           else false
       | [] => false
       end) false.

(** One character of a bracket class ([parseClassChar]). *)
Definition classChar (t : list N) : res (N * list N) :=
  match t with
  | [] => Err ErrSyntax
  | c :: t' =>
      if (c =? ch "\")%N then
        match t' with
        | [] => Err ErrSyntax
        | e :: t'' =>
            if isPunctEscape e then Ok (e, t'')
            else if (e <? 0x80)%N then Err ErrOutsideFragment
            else Err ErrSyntax
        end
      else Ok (c, t')
  end.

(** The body of a bracket class, after [[] and an optional [^]
    ([parseClass]); a [']'] in first position is a literal. *)
Fixpoint classLoop (fuel : nat) (t : list N) (first : bool)
    (acc : list (N * N)) : res (list (N * N) * list N) :=
  match fuel with
  | O => Err ErrSyntax
  | S fuel' =>
      match t with
      | [] => Err ErrSyntax
      | c :: t' =>
          if (c =? ch "]")%N && negb first then Ok (rev acc, t')
          else if (c =? ch "[")%N
                  && match t' with c' :: _ => (c' =? ch ":")%N | [] => false end
          then Err ErrOutsideFragment
          else
            match classChar t with
            | Err e => Err e
            | Ok (lo, t1) =>
                match t1 with
                | d :: (c2 :: _) as t2 =>
                    if (d =? ch "-")%N && negb (c2 =? ch "]")%N then
                      match classChar t2 with
                      | Err e => Err e
                      | Ok (hi, t3) =>
                          if (hi <? lo)%N then Err ErrSyntax
                          else classLoop fuel' t3 false ((lo, hi) :: acc)
                      end
                    else classLoop fuel' t1 false ((lo, lo) :: acc)
                | _ => classLoop fuel' t1 false ((lo, lo) :: acc)
                end
            end
      end
  end.

Definition parseClass (t : list N) : res (regex * list N) :=
  let '(neg, t1) :=
    match t with
    | c :: t' => if (c =? ch "^")%N then (true, t') else (false, t)
    | [] => (false, t)
    end in
  match classLoop (length t1) t1 true [] with
  | Err e => Err e
  | Ok (rs, rest) => Ok (Class neg rs, rest)
  end.

Definition repeatOf (op : N) (greedy : bool) (a : regex) : regex :=
  if (op =? ch "*")%N then Star greedy a
  else if (op =? ch "+")%N then Plus greedy a
  else Quest greedy a.

(** The parser: one pass over the runes with the stack of the current
    concatenation ([stack], top first), the alternatives already closed
    in the current group ([alts]), the number of capturing groups opened
    so far ([ng]) and whether the previous token was a repetition
    operator ([rep]).  It returns at the [)] that closes the current
    group ([inGroup]) or at the end of the text. *)
Fixpoint parse (fuel : nat) (t : list N) (ng : nat) (alts stack : list regex)
    (rep inGroup : bool) : res (regex * list N * nat) :=
  match fuel with
  | O => Err ErrOutsideFragment
  | S fuel' =>
      match t with
      | [] =>
          if inGroup then Err ErrSyntax
          else Ok (altOf alts (catOf stack), [], ng)
      | c :: t' =>
          let push (r : regex) (rest : list N) (ng' : nat) :=
            parse fuel' rest ng' alts (r :: stack) false inGroup in
          if (c =? ch "(")%N then
            match t' with
            | q :: t'' =>
                if (q =? ch "?")%N then
                  match t'' with
                  | q2 :: t3 =>
                      if (q2 =? ch ":")%N then
                        match parse fuel' t3 ng [] [] false true with
                        | Err e => Err e
                        | Ok (r, rest, ng') => push r rest ng'
                        end
                      else Err ErrOutsideFragment
                  | [] => Err ErrSyntax
                  end
                else
                  match parse fuel' t' (S ng) [] [] false true with
                  | Err e => Err e
                  | Ok (r, rest, ng') => push (Group (S ng) r) rest ng'
                  end
            | [] => Err ErrSyntax
            end
          else if (c =? ch ")")%N then
            if inGroup then Ok (altOf alts (catOf stack), t', ng)
            else Err ErrSyntax
          else if (c =? ch "|")%N then
            parse fuel' t' ng (alts ++ [catOf stack]) [] false inGroup
          else if ((c =? ch "*") || (c =? ch "+") || (c =? ch "?"))%N then
            let lazy := match t' with q :: _ => (q =? ch "?")%N | [] => false end in
            let rest := if lazy then tl t' else t' in
            if rep then Err ErrSyntax
            else
              match stack with
              | [] => Err ErrSyntax
              | a :: stack' =>
                  if negb (c =? ch "?")%N && nullable a then Err ErrOutsideFragment
                  else parse fuel' rest ng alts
                         (repeatOf c (negb lazy) a :: stack') true inGroup
              end
          else if (c =? ch "{")%N then
            if looksLikeRepeat t' then Err ErrOutsideFragment
            else push (Lit c) t' ng
          else if (c =? ch "[")%N then
            match parseClass t' with
            | Err e => Err e
            | Ok (r, rest) => push r rest ng
            end
          else if (c =? ch ".")%N then push AnyNotNL t' ng
          else if (c =? ch "^")%N then push BeginText t' ng
          else if (c =? ch "$")%N then push EndText t' ng
          else if (c =? ch "\")%N then
            match t' with
            | [] => Err ErrSyntax
            | e :: t'' =>
                if isPunctEscape e then push (Lit e) t'' ng
                else match perlClass e with
                     | Some r => push r t'' ng
                     | None =>
                         if (e <? 0x80)%N then Err ErrOutsideFragment
                         else Err ErrSyntax
                     end
            end
          else push (Lit c) t' ng
      end
  end.

(** [regexp.Compile]. *)
Definition Compile (expr : string) : res Regexp :=
  match runes (String.length expr) expr with
  | None => Err ErrSyntax
  | Some t =>
      match parse (S (length t)) t 0 [] [] false false with
      | Err e => Err e
      | Ok (r, _, ng) => Ok (mkRegexp r ng)
      end
  end.

(** Does the rune belong to the class? *)
Definition inClass (neg : bool) (ranges : list (N * N)) (r : N) : bool :=
  xorb neg (existsb (fun '(lo, hi) => (lo <=? r) && (r <=? hi))%N ranges).

(** One rune of the text against a predicate; the empty text has none. *)
Definition step {A : Type} (p : N -> bool) (rest : string) (pos : nat)
    (k : string -> nat -> option A) : option A :=
  let '(r, w) := decodeRune rest in
  if (0 <? w)%nat && p r then k (skip w rest) (pos + w)%nat else None.

Definition caps : Type := list (option (nat * nat)).

(** Backtracking search with a continuation: [rest] is the text from byte
    offset [pos] on, [cs] the capture registers.  The first alternative
    that lets the continuation succeed wins. *)
Fixpoint run (r : regex) (rest : string) (pos : nat) (cs : caps)
    (k : string -> nat -> caps -> option caps) {struct r} : option caps :=
  let orElse (x : option caps) (y : unit -> option caps) :=
    match x with Some c => Some c | None => y tt end in
  let star (greedy : bool) (a : regex) :=
    fix loop (n : nat) (rest : string) (pos : nat) (cs : caps) {struct n}
        : option caps :=
      match n with
      | O => k rest pos cs
      | S n' =>
          let again (_ : unit) :=
            run a rest pos cs
              (fun rest' pos' cs' =>
                 if (pos <? pos')%nat then loop n' rest' pos' cs' else None) in
          if greedy then orElse (again tt) (fun _ => k rest pos cs)
          else orElse (k rest pos cs) again
      end in
  match r with
  | Eps => k rest pos cs
  | Lit c => step (N.eqb c) rest pos (fun rest' pos' => k rest' pos' cs)
  | AnyNotNL =>
      step (fun x => negb (x =? 10)%N) rest pos (fun rest' pos' => k rest' pos' cs)
  | Class neg ranges =>
      step (inClass neg ranges) rest pos (fun rest' pos' => k rest' pos' cs)
  | BeginText => if (pos =? 0)%nat then k rest pos cs else None
  | EndText => match rest with EmptyString => k rest pos cs | _ => None end
  | Cat a b => run a rest pos cs (fun rest' pos' cs' => run b rest' pos' cs' k)
  | Alt a b => orElse (run a rest pos cs k) (fun _ => run b rest pos cs k)
  | Star greedy a => star greedy a (S (String.length rest)) rest pos cs
  | Plus greedy a =>
      run a rest pos cs
        (fun rest' pos' cs' =>
           star greedy a (S (String.length rest')) rest' pos' cs')
  | Quest greedy a =>
      if greedy then orElse (run a rest pos cs k) (fun _ => k rest pos cs)
      else orElse (k rest pos cs) (fun _ => run a rest pos cs k)
  | Group idx a =>
      run a rest pos cs
        (fun rest' pos' cs' => k rest' pos' (<[idx := Some (pos, pos')]> cs'))
  end.

(** The leftmost match: every start offset in turn, rune by rune. *)
Fixpoint search (fuel : nat) (re : Regexp) (rest : string) (pos : nat)
    : option caps :=
  match run (prog re) rest pos (replicate (S (numSubexp re)) None)
          (fun _ pos' cs => Some (<[0%nat := Some (pos, pos')]> cs)) with
  | Some cs => Some cs
  | None =>
      match fuel, rest with
      | S fuel', String _ _ =>
          let '(_, w) := decodeRune rest in
          search fuel' re (skip w rest) (pos + w)%nat
      | _, _ => None
      end
  end.

(** [Regexp.FindStringSubmatch]: [None] is Go's [nil]; entry [0] is the
    whole match, entry [i] the text of group [i], empty when the group
    took no part in the match. *)
Definition FindStringSubmatch (re : Regexp) (s : string) : option (list string) :=
  match search (String.length s) re s 0 with
  | None => None
  | Some cs =>
      Some (map (fun c => match c with
                          | Some (a, b) => String.substring a (b - a) s
                          | None => EmptyString
                          end) cs)
  end.

Definition MatchString (re : Regexp) (s : string) : bool :=
  match FindStringSubmatch re s with Some _ => true | None => false end.

End Regexp.

(** ** The request context and handlers (context.go, response.go, errors.go) *)

Import GoString.

Inductive JSONValue : Type :=
| JNil
| JInt (n : Z)
| JString (s : string)
| JObject (fields : JSONFields)
with JSONFields : Type :=
| JEnd
| JField (name : string) (value : JSONValue) (rest : JSONFields).

(** The calls made on the [http.ResponseWriter], in order; a [Write] is
    recorded whether or not the connection takes it. *)
Inductive WriterEvent : Type :=
| SetHeaderEv (name value : string)
| WriteHeaderEv (code : Z)
| WriteEv (body : string)
| EncodeJSONEv (data : JSONValue).

(** What the server hands to [ServeHTTP]: the request, with its method
    and path, and the [http.ResponseWriter] that comes with it.  Of the
    writer, [WriteErr] is what the connection does to a [Write]: given the
    calls made on the writer so far, the text of the error the next
    [Write] returns, [None] when it takes the bytes. *)
Record Request : Type := mkRequestOn {
  Method : string;
  URLPath : string;
  WriteErr : list WriterEvent -> option string
}.

(** A request on a connection that takes every write. *)
Definition mkRequest (method path : string) : Request :=
  mkRequestOn method path (fun _ => None).

(** [Context]; [Writer] is the log of what was sent so far.  The [app]
    back-pointer is left out: no operation modelled here reads it. *)
Record Context : Type := mkContext {
  Req : Request;
  Writer : list WriterEvent;
  params : gmap string string;
  store : gmap string JSONValue;
  response : bool
}.

(** What the [Error] method of an error value does: it returns a text,
    or it panics (as the method of a nil pointer can). *)
Inductive errorText : Type :=
| Text (s : string)
| Panics (v : string).

Coercion Text : string >-> errorText.

(** The values of the interface [error] that are not [nil]: a
    [*HTTPError] with its fields ([Err] is [None] for [nil]), a nil
    [*HTTPError] held by the interface, any value of another type.
    Wrapped and other errors count by what their [Error] method does. *)
Inductive error : Type :=
| HTTPError (Code : Z) (Message : string) (Err : option errorText)
| OtherError (text : errorText)
| NilHTTPError.

(** What a call of a handler does: it returns, having updated the context
    it was given and with an [error] or [nil], or it panics, leaving the
    context as it was at that point. *)
Inductive Outcome : Type :=
| Return (c : Context) (err : option error)
| Panic (c : Context) (v : string).

(** A call whose result is dropped: it returns, or its panic goes on. *)
Definition dropResult (o : Outcome) : Outcome :=
  match o with
  | Return c _ => Return c None
  | Panic c v => Panic c v
  end.

Abbreviation HandlerFunc := (Context -> Outcome).

(** A middleware wraps a handler; [None] when the wrapping call itself
    panics, as a call of the [nil] function does. *)
Abbreviation MiddlewareFunc := (HandlerFunc -> option HandlerFunc).

Definition nilMiddleware : MiddlewareFunc := fun _ => None.

(** ** Errors (errors.go)

    [http.StatusText], at the codes the framework names. *)

Definition statusText (code : Z) : string :=
  if code =? 400 then "Bad Request"
  else if code =? 401 then "Unauthorized"
  else if code =? 403 then "Forbidden"
  else if code =? 404 then "Not Found"
  else if code =? 405 then "Method Not Allowed"
  else if code =? 409 then "Conflict"
  else if code =? 422 then "Unprocessable Entity"
  else if code =? 429 then "Too Many Requests"
  else if code =? 500 then "Internal Server Error"
  else if code =? 503 then "Service Unavailable"
  else EmptyString.

Definition NewHTTPError (code : Z) (message : string) : error :=
  HTTPError code message None.

(** [WrapError]; [None] for a [nil] error to wrap. *)
Definition WrapError (code : Z) (message : string) (err : option errorText) : error :=
  HTTPError code message err.

(** [if msg == "" { msg = http.StatusText(code) }]. *)
Definition orStatusText (code : Z) (msg : string) : string :=
  if String.eqb msg EmptyString then statusText code else msg.

Definition ErrBadRequest (msg : string) : error :=
  NewHTTPError 400 (orStatusText 400 msg).

Definition ErrUnauthorized (msg : string) : error :=
  NewHTTPError 401 (orStatusText 401 msg).

Definition ErrForbidden (msg : string) : error :=
  NewHTTPError 403 (orStatusText 403 msg).

Definition ErrNotFound (msg : string) : error :=
  NewHTTPError 404 (orStatusText 404 msg).

Definition ErrMethodNotAllowed (msg : string) : error :=
  NewHTTPError 405 (orStatusText 405 msg).

Definition ErrConflict (msg : string) : error :=
  NewHTTPError 409 (orStatusText 409 msg).

Definition ErrUnprocessableEntity (msg : string) : error :=
  NewHTTPError 422 (orStatusText 422 msg).

Definition ErrTooManyRequests (msg : string) : error :=
  NewHTTPError 429 (orStatusText 429 msg).

Definition ErrInternal (msg : string) : error :=
  NewHTTPError 500 (orStatusText 500 msg).

Definition ErrServiceUnavailable (msg : string) : error :=
  NewHTTPError 503 (orStatusText 503 msg).

(** ** The pieces of Go's [strconv] and [net/url] that the context uses

    Both belong to Go's standard library.  [int] and [int64] are 64 bits
    wide; [wrap64] is the wrap-around of their arithmetic. *)

Definition minInt64 : Z := - 2 ^ 63.
Definition maxInt64 : Z := 2 ^ 63 - 1.

Definition wrap64 (z : Z) : Z := (z + 2 ^ 63) mod 2 ^ 64 - 2 ^ 63.

Module Strconv.

Inductive Err : Type := ErrSyntax | ErrRange.

(** [*NumError]: the function, the input and the reason. *)
Record NumError : Type := mkNumError { Func : string; Num : string; Reason : Err }.

Definition maxUint64 : Z := 2 ^ 64 - 1.

(** The loop of [ParseUint(s, 10, 64)] over the bytes of [s], [n] the
    number read so far: a byte that is not a decimal digit is a syntax
    error, a number beyond 64 bits a range error. *)
Fixpoint parseUintLoop (s : string) (n : Z) : Z * option Err :=
  match s with
  | EmptyString => (n, None)
  | String c s' =>
      let b := Z.of_N (byteN c) in
      if (48 <=? b) && (b <=? 57) then
        let d := b - 48 in
        if maxUint64 / 10 + 1 <=? n then (maxUint64, Some ErrRange)
        else
          let n := n * 10 in
          let n1 := (n + d) mod 2 ^ 64 in
          if (n1 <? n) || (maxUint64 <? n1) then (maxUint64, Some ErrRange)
          else parseUintLoop s' n1
      else (0, Some ErrSyntax)
  end.

Definition ParseUint (s : string) : Z * option Err :=
  match s with
  | EmptyString => (0, Some ErrSyntax)
  | _ => parseUintLoop s 0
  end.

(** [ParseInt(s, 10, 64)], the reason of the error only. *)
Definition parseInt (s : string) : Z * option Err :=
  match s with
  | EmptyString => (0, Some ErrSyntax)
  | String c0 s' =>
      let neg := Ascii.eqb c0 "-" in
      let digits := if Ascii.eqb c0 "+" || Ascii.eqb c0 "-" then s' else s in
      match ParseUint digits with
      | (_, Some ErrSyntax) => (0, Some ErrSyntax)
      | (un, _) =>
          let cutoff := 2 ^ 63 in
          if negb neg && (cutoff <=? un) then (cutoff - 1, Some ErrRange)
          else if neg && (cutoff <? un) then (- cutoff, Some ErrRange)
          else (if neg then - un else un, None)
      end
  end.

Definition ParseInt (s : string) : Z * option NumError :=
  let '(n, e) := parseInt s in
  (n, option_map (mkNumError "ParseInt" s) e).

(** The loop of the fast path of [Atoi]. *)
Fixpoint atoiLoop (s : string) (n : Z) : option Z :=
  match s with
  | EmptyString => Some n
  | String c s' =>
      let ch := (Z.of_N (byteN c) - 48) mod 256 in
      if 9 <? ch then None else atoiLoop s' (n * 10 + ch)
  end.

(** [Atoi]: inputs of 1 to 18 bytes take the fast path, the others go
    through [ParseInt(s, 10, 0)]. *)
Definition Atoi (s : string) : Z * option NumError :=
  let sLen := len s in
  if (0 <? sLen) && (sLen <? 19) then
    let signed := match s with
                  | String c0 _ => Ascii.eqb c0 "-" || Ascii.eqb c0 "+"
                  | EmptyString => false
                  end in
    let digits := if signed then sliceFrom s 1 else s in
    if signed && (len digits <? 1) then (0, Some (mkNumError "Atoi" s ErrSyntax))
    else
      match atoiLoop digits 0 with
      | None => (0, Some (mkNumError "Atoi" s ErrSyntax))
      | Some n =>
          (if match s with String c0 _ => Ascii.eqb c0 "-" | EmptyString => false end
           then - n else n, None)
      end
  else
    let '(n, e) := parseInt s in
    (n, option_map (mkNumError "Atoi" s) e).

(** The decimal digits of a natural number, most significant first;
    [fuel] bounds their number. *)
Fixpoint digitsOf (fuel : nat) (n : Z) (acc : string) : string :=
  let d := String (ascii_of_N (Z.to_N (48 + n mod 10))) acc in
  match fuel with
  | O => d
  | S fuel' => if n <? 10 then d else digitsOf fuel' (n / 10) d
  end.

(** [Itoa], [FormatInt(i, 10)] and the verb [%d] of [fmt]. *)
Definition Itoa (i : Z) : string :=
  if i <? 0 then String "-" (digitsOf 20 (- i) EmptyString)
  else digitsOf 20 i EmptyString.

End Strconv.

Module URL.

(** [url.Values], what [Request.URL.Query()] returns. *)
Abbreviation Values := (gmap string (list string)).

Definition Get (v : Values) (key : string) : string :=
  match v !! key with
  | Some (x :: _) => x
  | _ => EmptyString
  end.

End URL.

Module Ctx.

Definition newContext (r : Request) : Context :=
  mkContext r [] ∅ ∅ false.

(** [reset] keeps nothing of the previous request. *)
Definition reset (c : Context) (r : Request) : Context :=
  mkContext r [] ∅ ∅ false.

Definition SetParams (c : Context) (ps : gmap string string) : Context :=
  mkContext (Req c) (Writer c) ps (store c) (response c).

(** [c.params[name]]: reading a Go map at an absent key gives the zero
    value. *)
Definition Param (c : Context) (name : string) : string :=
  default EmptyString (params c !! name).

Definition Get (c : Context) (key : string) : JSONValue :=
  default JNil (store c !! key).

Definition Set_ (c : Context) (key : string) (value : JSONValue) : Context :=
  mkContext (Req c) (Writer c) (params c) (<[key := value]> (store c)) (response c).

Definition Method_ (c : Context) : string := Method (Req c).
Definition Path (c : Context) : string := URLPath (Req c).

Definition IsWritten (c : Context) : bool := response c.

Definition emit (c : Context) (ev : WriterEvent) : Context :=
  mkContext (Req c) (Writer c ++ [ev]) (params c) (store c) (response c).

Definition markWritten (c : Context) : Context :=
  mkContext (Req c) (Writer c) (params c) (store c) true.

Definition SetHeader (c : Context) (name value : string) : Context :=
  emit c (SetHeaderEv name value).

(** The writer is the one [net/http] passes to a handler.  The header of
    the response is out once [WriteHeader] was called with a code that is
    not informational (100 to 199 but 101), or something was written. *)
Definition informational (code : Z) : bool :=
  (100 <=? code) && (code <=? 199) && negb (code =? 101).

Definition wroteHeader (log : list WriterEvent) : bool :=
  existsb (fun ev => match ev with
                     | SetHeaderEv _ _ => false
                     | WriteHeaderEv code => negb (informational code)
                     | WriteEv _ => true
                     | EncodeJSONEv _ => true
                     end) log.

(** [c.Writer.WriteHeader(code)]: before the header is out, a code
    outside 100..999 panics; once it is out the call sends nothing and
    returns.  [inr] is the value of the panic. *)
Definition WriteHeader (c : Context) (code : Z) : Context + string :=
  if wroteHeader (Writer c) then inl (emit c (WriteHeaderEv code))
  else if (code <? 100) || (999 <? code)
       then inr ("invalid WriteHeader code " +:+ Strconv.Itoa code)
       else inl (emit c (WriteHeaderEv code)).

(** The error the writer returns to a [Write] made now. *)
Definition writeError (c : Context) : option error :=
  option_map (fun text => OtherError (Text text)) (WriteErr (Req c) (Writer c)).

(** [c.Writer.Write(data)] and its error. *)
Definition Write (c : Context) (data : string) : Context * option error :=
  (emit c (WriteEv data), writeError c).

(** [json.NewEncoder(c.Writer).Encode(data)]: one [Write] of the encoded
    value, whose error is returned; the values of [JSONValue] can all be
    encoded. *)
Definition Encode (c : Context) (data : JSONValue) : Context * option error :=
  (emit c (EncodeJSONEv data), writeError c).

(** [return c.X(...)] at the end of a handler. *)
Definition ret (r : Context * option error) : Outcome := Return (fst r) (snd r).

(** [c.JSON]. *)
Definition JSON (c : Context) (code : Z) (data : JSONValue) : Outcome :=
  let c := SetHeader c "Content-Type" "application/json; charset=utf-8" in
  match WriteHeader c code with
  | inr v => Panic c v
  | inl c =>
      let c := markWritten c in
      match data with
      | JNil => Return c None
      | _ => ret (Encode c data)
      end
  end.

Definition String_ (c : Context) (code : Z) (s : string) : Outcome :=
  let c := SetHeader c "Content-Type" "text/plain; charset=utf-8" in
  match WriteHeader c code with
  | inr v => Panic c v
  | inl c =>
      let c := markWritten c in
      ret (Write c s)
  end.

Definition Error (c : Context) (code : Z) (message : string) : Outcome :=
  JSON c code
    (JObject (JField "error"
                (JObject (JField "code" (JInt code)
                            (JField "message" (JString message) JEnd))) JEnd)).

Definition StatusInternalServerError : Z := 500.
Definition StatusNotFound : Z := 404.
Definition StatusMethodNotAllowed : Z := 405.

(** [http.StatusText], at the codes used here. *)
Definition StatusText (code : Z) : string :=
  if code =? 500 then "Internal Server Error"
  else if code =? 404 then "Not Found"
  else if code =? 405 then "Method Not Allowed"
  else EmptyString.

Definition InternalError (c : Context) (msg : string) : Outcome :=
  let msg := if String.eqb msg EmptyString then StatusText StatusInternalServerError else msg in
  Error c StatusInternalServerError msg.

Definition NotFound (c : Context) (msg : string) : Outcome :=
  let msg := if String.eqb msg EmptyString then StatusText StatusNotFound else msg in
  Error c StatusNotFound msg.

(** The other response helpers of response.go. *)

Definition HTML (c : Context) (code : Z) (html : string) : Outcome :=
  let c := SetHeader c "Content-Type" "text/html; charset=utf-8" in
  match WriteHeader c code with
  | inr v => Panic c v
  | inl c =>
      let c := markWritten c in
      ret (Write c html)
  end.

Definition Blob (c : Context) (code : Z) (contentType data : string) : Outcome :=
  let c := SetHeader c "Content-Type" contentType in
  match WriteHeader c code with
  | inr v => Panic c v
  | inl c =>
      let c := markWritten c in
      ret (Write c data)
  end.

(** [NoContent] and [Redirect] give [WriteHeader] a code it takes: they
    do not panic. *)
Definition NoContent (c : Context) : Context * option error :=
  let c := emit c (WriteHeaderEv 204) in
  (markWritten c, None).

(** [Redirect]: outside 300..308 nothing is sent. *)
Definition Redirect (c : Context) (code : Z) (url : string) : Context * option error :=
  if (code <? 300) || (308 <? code) then
    (c, Some (ErrBadRequest "invalid redirect status code"))
  else
    let c := SetHeader c "Location" url in
    let c := emit c (WriteHeaderEv code) in
    (markWritten c, None).

Definition Created (c : Context) (data : JSONValue) : Outcome :=
  JSON c 201 data.

Definition Accepted (c : Context) (data : JSONValue) : Outcome :=
  JSON c 202 data.

Definition ErrorWithDetails (c : Context) (code : Z) (message : string)
    (details : JSONValue) : Outcome :=
  JSON c code
    (JObject (JField "error"
                (JObject (JField "code" (JInt code)
                            (JField "message" (JString message)
                               (JField "details" details JEnd)))) JEnd)).

Definition BadRequest (c : Context) (msg : string) : Outcome :=
  Error c 400 (orStatusText 400 msg).

Definition Unauthorized (c : Context) (msg : string) : Outcome :=
  Error c 401 (orStatusText 401 msg).

Definition Forbidden (c : Context) (msg : string) : Outcome :=
  Error c 403 (orStatusText 403 msg).

Definition Conflict (c : Context) (msg : string) : Outcome :=
  Error c 409 (orStatusText 409 msg).

(** [GetString]: the stored value when it is a string, else [""]. *)
Definition GetString (c : Context) (key : string) : string :=
  match store c !! key with
  | Some (JString val) => val
  | _ => EmptyString
  end.

(** [ParamInt]: the error is an [*HTTPError] for a missing parameter and
    a [*strconv.NumError] for one that is not a 64-bit decimal number. *)
Definition ParamInt (c : Context) (name : string)
    : Z * option (error + Strconv.NumError) :=
  let val := Param c name in
  if String.eqb val EmptyString then
    (0, Some (inl (ErrBadRequest ("missing parameter: " +:+ name))))
  else
    let '(n, e) := Strconv.ParseInt val in
    (n, option_map inr e).

Definition ParamIntDefault (c : Context) (name : string) (def : Z) : Z :=
  match ParamInt c name with
  | (_, Some _) => def
  | (val, None) => val
  end.

(** The query of the request is an argument of the functions that read
    it: [q] is [c.Request.URL.Query()]. *)
Definition Query (q : URL.Values) (name : string) : string := URL.Get q name.

Definition QueryDefault (q : URL.Values) (name def : string) : string :=
  let val := Query q name in
  if String.eqb val EmptyString then def else val.

Definition QueryInt (q : URL.Values) (name : string) (def : Z) : Z :=
  let val := Query q name in
  if String.eqb val EmptyString then def
  else match Strconv.Atoi val with
       | (_, Some _) => def
       | (i, None) => i
       end.

Definition QueryInt64 (q : URL.Values) (name : string) (def : Z) : Z :=
  let val := Query q name in
  if String.eqb val EmptyString then def
  else match Strconv.ParseInt val with
       | (_, Some _) => def
       | (i, None) => i
       end.

Definition QuerySlice (q : URL.Values) (name : string) : list string :=
  default [] (q !! name).

Record PaginationParams : Type := mkPaginationParams {
  Page : Z;
  PerPage : Z;
  Offset : Z
}.

Definition Pagination (q : URL.Values) (defaultPerPage maxPerPage : Z)
    : PaginationParams :=
  let page := QueryInt q "page" 1 in
  let page := if page <? 1 then 1 else page in
  let perPage := QueryInt q "per_page" 0 in
  let perPage := if perPage =? 0 then QueryInt q "limit" defaultPerPage else perPage in
  let perPage := if perPage <? 1 then defaultPerPage else perPage in
  let perPage := if maxPerPage <? perPage then maxPerPage else perPage in
  let offset := wrap64 (wrap64 (page - 1) * perPage) in
  mkPaginationParams page perPage offset.

(** The [Pagination] value [JSONPaginated] puts in its response. *)
Record PaginationMeta : Type := mkPaginationMeta {
  MetaPage : Z;
  MetaPerPage : Z;
  MetaTotal : Z;
  TotalPages : Z;
  HasMore : bool
}.

Definition paginationMeta (page perPage total : Z) : PaginationMeta :=
  let totalPages :=
    if 0 <? perPage
    then wrap64 (Z.quot (wrap64 (wrap64 (total + perPage) - 1)) perPage)
    else 0 in
  mkPaginationMeta page perPage total totalPages (page <? totalPages).

End Ctx.

(** ** Slices of middleware

    A Go slice is a window on a backing array that other slices may share.
    The arrays live in a heap and are addressed by their position in it. *)

Module Slice.

Abbreviation heap := (list (list MiddlewareFunc)).

Record t : Type := mk { arr : nat; off : nat; len : nat; cap : nat }.

(** The [nil] slice: with capacity 0, nothing is read or written
    through it. *)
Definition nil : t := mk 0 0 0 0.

Definition array (h : heap) (a : nat) : list MiddlewareFunc :=
  default [] (h !! a).

(** The elements seen through the slice. *)
Definition view (h : heap) (s : t) : list MiddlewareFunc :=
  take (len s) (drop (off s) (array h (arr s))).

(** [s[i]], for [i] below [len(s)]. *)
Definition index (h : heap) (s : t) (i : nat) : MiddlewareFunc :=
  default nilMiddleware (view h s !! i).

(** [make([]MiddlewareFunc, n)]: a new array of [n] nil entries. *)
Definition make (h : heap) (n : nat) : heap * t :=
  (h ++ [replicate n nilMiddleware], mk (length h) 0 n n).

(** [s[n:]]. *)
Definition from (s : t) (n : nat) : t :=
  mk (arr s) (off s + n) (len s - n) (cap s - n).

Fixpoint writeAt (l : list MiddlewareFunc) (i : nat) (xs : list MiddlewareFunc)
    : list MiddlewareFunc :=
  match xs with
  | [] => l
  | x :: xs' => writeAt (<[i := x]> l) (S i) xs'
  end.

(** [copy(dst, src)]: the first [min(len(dst), len(src))] elements of
    [src] are stored into [dst]'s array. *)
Definition copy (h : heap) (dst : t) (src : list MiddlewareFunc) : heap :=
  <[arr dst := writeAt (array h (arr dst)) (off dst) (take (len dst) src)]> h.

(** [append(s, xs...)]: in place when the capacity allows, otherwise into
    a new array (its capacity taken to be exactly what is needed). *)
Definition append (h : heap) (s : t) (xs : list MiddlewareFunc) : heap * t :=
  if (len s + length xs <=? cap s)%nat then
    (<[arr s := writeAt (array h (arr s)) (off s + len s) xs]> h,
     mk (arr s) (off s) (len s + length xs) (cap s))
  else
    let n := (len s + length xs)%nat in
    (h ++ [view h s ++ xs], mk (length h) 0 n n).

(** The slice Go builds for the arguments of a variadic call. *)
Definition ofList (h : heap) (xs : list MiddlewareFunc) : heap * t :=
  (h ++ [xs], mk (length h) 0 (length xs) (length xs)).

(** The slice lies within an array of the heap. *)
Definition valid (h : heap) (s : t) : Prop :=
  (len s <= cap s)%nat /\
  (cap s = 0%nat \/
   ((arr s < length h)%nat /\ (off s + cap s <= length (array h (arr s)))%nat)).

End Slice.

(** ** Composition of middleware (middleware.go)

    The loop [for i := len(middleware) - 1; i >= 0; i-- { next =
    middleware[i](next) }], with [n] the number of entries still to
    apply; [None] when one of the calls panics. *)

Fixpoint wrapLoop (middleware : list MiddlewareFunc) (n : nat) (next : HandlerFunc)
    : option HandlerFunc :=
  match n with
  | O => Some next
  | S i =>
      match middleware !! i with
      | Some mw =>
          match mw next with
          | Some next' => wrapLoop middleware i next'
          | None => None
          end
      | None => None
      end
  end.

Definition Chain (middleware : list MiddlewareFunc) : MiddlewareFunc :=
  fun next => wrapLoop middleware (length middleware) next.

Definition WrapMiddleware (h : HandlerFunc) (middleware : list MiddlewareFunc)
    : option HandlerFunc :=
  wrapLoop middleware (length middleware) h.

(** ** The router (router.go) *)

Import Regexp.

(** The loop of [parsePattern]: [i] is the scan position, [regexPattern]
    the expression text built so far.  Every turn moves [i] forward, so
    [len(pattern)] turns are enough. *)
Fixpoint parseLoop (fuel : nat) (pattern : string) (i : Z)
    (regexPattern : string) (paramNames : list string) : string * list string :=
  match fuel with
  | O => (regexPattern, paramNames)
  | S fuel' =>
      if i <? len pattern then
        if Ascii.eqb (byteAt pattern i) "{" then
          let end_ := Index (sliceFrom pattern i) "}" in
          if end_ =? -1 then
            parseLoop fuel' pattern (i + 1)
              (regexPattern +:+ QuoteMeta (stringOfByte (byteAt pattern i)))
              paramNames
          else
            let end_ := end_ + i in
            let paramSpec := slice pattern (i + 1) end_ in
            let colonIdx := Index paramSpec ":" in
            let '(paramName, paramRegex) :=
              if negb (colonIdx =? -1) then
                (slice paramSpec 0 colonIdx, sliceFrom paramSpec (colonIdx + 1))
              else (paramSpec, "[^/]+") in
            parseLoop fuel' pattern (end_ + 1)
              (regexPattern +:+ "(" +:+ paramRegex +:+ ")")
              (paramNames ++ [paramName])
        else
          parseLoop fuel' pattern (i + 1)
            (regexPattern +:+ QuoteMeta (stringOfByte (byteAt pattern i)))
            paramNames
      else (regexPattern, paramNames)
  end.

(** The pattern as [parsePattern] scans it: one trailing [/] removed, the
    empty pattern replaced by [/]. *)
Definition normalizePattern (pattern : string) : string :=
  let pattern := TrimSuffix pattern "/" in
  if String.eqb pattern EmptyString then "/" else pattern.

(** The text handed to [regexp.MustCompile], and the parameter names. *)
Definition patternSource (pattern : string) : string * list string :=
  let pattern := normalizePattern pattern in
  let '(regexPattern, paramNames) :=
    parseLoop (String.length pattern) pattern 0 "^" [] in
  (regexPattern +:+ "/?$", paramNames).

(** [parsePattern]; [Err] is the panic of [MustCompile]. *)
Definition parsePattern (pattern : string) : res (Regexp * list string) :=
  let '(regexPattern, paramNames) := patternSource pattern in
  match Compile regexPattern with
  | Ok re => Ok (re, paramNames)
  | Err e => Err e
  end.

Module Route.

Record t : Type := mk {
  method : string;
  pattern : string;
  handler : HandlerFunc;
  middleware : Slice.t;
  regex : Regexp;
  paramNames : list string
}.

(** The loop of [match] over [paramNames], [i] the index reached. *)
Fixpoint matchLoop (names : list string) (i : nat) (matches : list string)
    (ps : gmap string string) : gmap string string :=
  match names with
  | [] => ps
  | name :: names' =>
      matchLoop names' (S i) matches
        (if (i + 1 <? length matches)%nat
         then <[name := nth (i + 1) matches EmptyString]> ps
         else ps)
  end.

(** [Route.match]: [None] is the [nil] map (no match); a match gives a
    map made by [make], empty or not. *)
Definition match_ (route : t) (path : string) : option (gmap string string) :=
  match FindStringSubmatch (regex route) path with
  | None => None
  | Some matches => Some (matchLoop (paramNames route) 0 matches ∅)
  end.

Definition RouteInfo (route : t) : string * string :=
  (method route, pattern route).

End Route.

Module Router.

Record t : Type := mk {
  routes : list Route.t;
  notFound : HandlerFunc;
  methodNotAllowed : HandlerFunc
}.

Definition NewRouter : t :=
  mk []
    (fun c => Ctx.NotFound c "route not found")
    (fun c => Ctx.Error c Ctx.StatusMethodNotAllowed "method not allowed").

Definition SetNotFound (r : t) (h : HandlerFunc) : t :=
  mk (routes r) h (methodNotAllowed r).

Definition SetMethodNotAllowed (r : t) (h : HandlerFunc) : t :=
  mk (routes r) (notFound r) h.

(** [Handle]: the route goes to the end of the table; [Err] when
    [parsePattern] panics. *)
Definition Handle (r : t) (method pattern : string) (h : HandlerFunc)
    (middleware : Slice.t) : res t :=
  match parsePattern pattern with
  | Err e => Err e
  | Ok (re, names) =>
      Ok (mk (routes r ++ [Route.mk method pattern h middleware re names])
            (notFound r) (methodNotAllowed r))
  end.

(** The loop of [find], with its flag [pathMatched]. *)
Fixpoint findLoop (rs : list Route.t) (method path : string) (pathMatched : bool)
    : option Route.t * option (gmap string string) * bool :=
  match rs with
  | [] => (None, None, pathMatched)
  | route :: rs' =>
      match Route.match_ route path with
      | Some ps =>
          if String.eqb (Route.method route) method
          then (Some route, Some ps, false)
          else findLoop rs' method path true
      | None => findLoop rs' method path pathMatched
      end
  end.

Definition find (r : t) (method path : string)
    : option Route.t * option (gmap string string) * bool :=
  findLoop (routes r) method path false.

(** [handleRequest]; the middleware of the route is read from the heap
    of slices. *)
Definition handleRequest (r : t) (h : Slice.heap) (c : Context) : Outcome :=
  match find r (Ctx.Method_ c) (Ctx.Path c) with
  | (None, _, pathMatched) =>
      if pathMatched then methodNotAllowed r c else notFound r c
  | (Some route, ps, _) =>
      let c := Ctx.SetParams c (default ∅ ps) in
      let mws := Slice.view h (Route.middleware route) in
      match wrapLoop mws (length mws) (Route.handler route) with
      | Some handler => handler c
      | None => Panic c "invalid memory address or nil pointer dereference"
      end
  end.

Definition GET (r : t) (pattern : string) (h : HandlerFunc) (mw : Slice.t) : res t :=
  Handle r "GET" pattern h mw.

Definition POST (r : t) (pattern : string) (h : HandlerFunc) (mw : Slice.t) : res t :=
  Handle r "POST" pattern h mw.

Definition PUT (r : t) (pattern : string) (h : HandlerFunc) (mw : Slice.t) : res t :=
  Handle r "PUT" pattern h mw.

Definition PATCH (r : t) (pattern : string) (h : HandlerFunc) (mw : Slice.t) : res t :=
  Handle r "PATCH" pattern h mw.

Definition DELETE (r : t) (pattern : string) (h : HandlerFunc) (mw : Slice.t) : res t :=
  Handle r "DELETE" pattern h mw.

Definition OPTIONS (r : t) (pattern : string) (h : HandlerFunc) (mw : Slice.t) : res t :=
  Handle r "OPTIONS" pattern h mw.

Definition HEAD (r : t) (pattern : string) (h : HandlerFunc) (mw : Slice.t) : res t :=
  Handle r "HEAD" pattern h mw.

(** The methods [Any] registers, in its order. *)
Definition anyMethods : list string :=
  ["GET"; "POST"; "PUT"; "PATCH"; "DELETE"; "OPTIONS"; "HEAD"].

(** The loop [for _, method := range methods { r.Handle(method, ...) }];
    the first panic ends it. *)
Fixpoint handleEach (r : t) (methods : list string) (pattern : string)
    (h : HandlerFunc) (mw : Slice.t) : res t :=
  match methods with
  | [] => Ok r
  | method :: methods' =>
      match Handle r method pattern h mw with
      | Ok r' => handleEach r' methods' pattern h mw
      | Err e => Err e
      end
  end.

Definition Any (r : t) (pattern : string) (h : HandlerFunc) (mw : Slice.t) : res t :=
  handleEach r anyMethods pattern h mw.

(** [Static]: [files] stands for the file server of [root] behind
    [http.StripPrefix], by what it sends for a request.  The handler
    writes through [c.Writer] directly and returns [nil]. *)
Definition Static (r : t) (prefix : string) (files : Request -> list WriterEvent)
    : res t :=
  GET r (prefix +:+ "/{filepath:.*}")
    (fun c => Return (mkContext (Req c) (Writer c ++ files (Req c)) (params c)
                        (store c) (response c)) None)
    Slice.nil.

(** [Routes]: a copy of the table. *)
Definition Routes (r : t) : list Route.t := routes r.

End Router.

(** ** Route groups (group.go)

    A group points to the router it registers into; the router and the
    heap of slices are passed along. *)

Module RouteGroup.

Record t : Type := mk { prefix : string; middleware : Slice.t }.

Definition NewRouteGroup (prefix : string) (middleware : Slice.t) : t :=
  mk (TrimSuffix prefix "/") middleware.

Definition Use (h : Slice.heap) (g : t) (mw : list MiddlewareFunc)
    : Slice.heap * t :=
  let '(h', s) := Slice.append h (middleware g) mw in
  (h', mk (prefix g) s).

Definition Group (h : Slice.heap) (g : t) (prefix_ : string) (mw : Slice.t)
    : Slice.heap * t :=
  let '(h1, combinedMiddleware) :=
    Slice.make h (Slice.len (middleware g) + Slice.len mw) in
  let h2 := Slice.copy h1 combinedMiddleware (Slice.view h1 (middleware g)) in
  let h3 := Slice.copy h2 (Slice.from combinedMiddleware (Slice.len (middleware g)))
              (Slice.view h2 mw) in
  (h3, mk (prefix g +:+ TrimSuffix prefix_ "/") combinedMiddleware).

Definition handle (h : Slice.heap) (router : Router.t) (g : t)
    (method pattern : string) (hd : HandlerFunc) (mw : Slice.t)
    : Slice.heap * res Router.t :=
  let '(h1, allMiddleware) :=
    Slice.make h (Slice.len (middleware g) + Slice.len mw) in
  let h2 := Slice.copy h1 allMiddleware (Slice.view h1 (middleware g)) in
  let h3 := Slice.copy h2 (Slice.from allMiddleware (Slice.len (middleware g)))
              (Slice.view h2 mw) in
  let fullPattern := prefix g +:+ pattern in
  (h3, Router.Handle router method fullPattern hd allMiddleware).

Definition GET (h : Slice.heap) (router : Router.t) (g : t) (pattern : string)
    (hd : HandlerFunc) (mw : Slice.t) : Slice.heap * res Router.t :=
  handle h router g "GET" pattern hd mw.

Definition Prefix (g : t) : string := prefix g.

Definition POST (h : Slice.heap) (router : Router.t) (g : t) (pattern : string)
    (hd : HandlerFunc) (mw : Slice.t) : Slice.heap * res Router.t :=
  handle h router g "POST" pattern hd mw.

Definition PUT (h : Slice.heap) (router : Router.t) (g : t) (pattern : string)
    (hd : HandlerFunc) (mw : Slice.t) : Slice.heap * res Router.t :=
  handle h router g "PUT" pattern hd mw.

Definition PATCH (h : Slice.heap) (router : Router.t) (g : t) (pattern : string)
    (hd : HandlerFunc) (mw : Slice.t) : Slice.heap * res Router.t :=
  handle h router g "PATCH" pattern hd mw.

Definition DELETE (h : Slice.heap) (router : Router.t) (g : t) (pattern : string)
    (hd : HandlerFunc) (mw : Slice.t) : Slice.heap * res Router.t :=
  handle h router g "DELETE" pattern hd mw.

Definition OPTIONS (h : Slice.heap) (router : Router.t) (g : t) (pattern : string)
    (hd : HandlerFunc) (mw : Slice.t) : Slice.heap * res Router.t :=
  handle h router g "OPTIONS" pattern hd mw.

Definition HEAD (h : Slice.heap) (router : Router.t) (g : t) (pattern : string)
    (hd : HandlerFunc) (mw : Slice.t) : Slice.heap * res Router.t :=
  handle h router g "HEAD" pattern hd mw.

Definition Static (router : Router.t) (g : t) (relativePath : string)
    (files : Request -> list WriterEvent) : res Router.t :=
  Router.Static router (prefix g +:+ relativePath) files.

End RouteGroup.

(** ** The recovery middleware (middleware/recovery.go), with the default
    configuration; the stack trace written to [Output] is not modelled. *)

Module Middleware.

Definition sendDefaultPanicResponse (c : Context) : Outcome :=
  if Ctx.IsWritten c then Return c None
  else dropResult
         (Ctx.JSON c Ctx.StatusInternalServerError
            (JObject (JField "error"
               (JObject (JField "code" (JInt Ctx.StatusInternalServerError)
                  (JField "message" (JString "Internal Server Error") JEnd)))
               JEnd))).

(** The deferred function recovers the panic and answers 500; the
    handler then returns the zero value of [error].  A panic of the
    deferred function itself would go on to the caller. *)
Definition Recovery : MiddlewareFunc :=
  fun next => Some (fun c =>
    match next c with
    | Return c' err => Return c' err
    | Panic c' _ => sendDefaultPanicResponse c'
    end).

End Middleware.

(** ** The application (quark.go) *)

Module App.

Record t : Type := mk {
  router : Router.t;
  middleware : Slice.t;
  debug : bool;
  contextPool : list Context
}.

(** [contextPool.Get]: an idle context, or a new one from [New]. *)
Definition poolGet (pool : list Context) : Context * list Context :=
  match pool with
  | c :: pool' => (c, pool')
  | [] => (mkContext (mkRequest EmptyString EmptyString) [] ∅ ∅ false, [])
  end.

Definition poolPut (pool : list Context) (c : Context) : list Context :=
  c :: pool.

Definition Use (h : Slice.heap) (a : t) (mw : list MiddlewareFunc) : Slice.heap * t :=
  let '(h', s) := Slice.append h (middleware a) mw in
  (h', mk (router a) s (debug a) (contextPool a)).

(** [handleError] returns nothing: [Return c None] is its return, the
    value returned by the writing call being dropped.  It panics where
    the code does: on the fields of a nil [*HTTPError], in the [Error]
    method of the error in debug mode, in [WriteHeader]. *)
Definition handleError (a : t) (c : Context) (err : error) : Outcome :=
  if Ctx.IsWritten c then Return c None
  else
    match err with
    | NilHTTPError => Panic c "invalid memory address or nil pointer dereference"
    | HTTPError code message cause =>
        match debug a, cause with
        | true, Some (Text text) =>
            dropResult
              (Ctx.JSON c code
                 (JObject (JField "error"
                    (JObject (JField "code" (JInt code)
                       (JField "message" (JString message)
                          (JField "debug" (JString text) JEnd)))) JEnd)))
        | true, Some (Panics v) => Panic c v
        | _, _ => dropResult (Ctx.Error c code message)
        end
    | OtherError text =>
        if debug a then
          match text with
          | Text text =>
              dropResult
                (Ctx.JSON c Ctx.StatusInternalServerError
                   (JObject (JField "error"
                      (JObject (JField "code" (JInt Ctx.StatusInternalServerError)
                         (JField "message" (JString "Internal Server Error")
                            (JField "debug" (JString text) JEnd)))) JEnd)))
          | Panics v => Panic c v
          end
        else dropResult (Ctx.InternalError c EmptyString)
    end.

(** The loop of [ServeHTTP] that wraps the global middleware around the
    router, last entry first; each wrapper calls its middleware when the
    request reaches it. *)
Fixpoint globalLoop (middleware : list MiddlewareFunc) (n : nat) (handler : HandlerFunc)
    : HandlerFunc :=
  match n with
  | O => handler
  | S i =>
      let mw := default nilMiddleware (middleware !! i) in
      let next := handler in
      globalLoop middleware i
        (fun ctx =>
           match mw (fun c => next c) with
           | Some wrapped => wrapped ctx
           | None => Panic ctx "invalid memory address or nil pointer dereference"
           end)
  end.

(** What [ServeHTTP] leaves behind: it returns, or a panic of the
    handler chain or of [handleError] goes on to its caller. *)
Inductive Served : Type :=
| Done (a : t) (c : Context)
| Escaped (a : t) (c : Context) (v : string).

(** The handler [ServeHTTP] builds: the global middleware around
    [router.handleRequest]. *)
Definition chain (a : t) (h : Slice.heap) : HandlerFunc :=
  let mws := Slice.view h (middleware a) in
  globalLoop mws (length mws) (Router.handleRequest (router a) h).

Definition ServeHTTP (a : t) (h : Slice.heap) (r : Request) : Served :=
  let '(c, pool) := poolGet (contextPool a) in
  let a := mk (router a) (middleware a) (debug a) pool in
  let c := Ctx.reset c r in
  let handler := chain a h in
  match handler c with
  | Return c err =>
      match (match err with
             | Some e => handleError a c e
             | None => Return c None
             end) with
      | Return c _ =>
          Done (mk (router a) (middleware a) (debug a) (poolPut (contextPool a) c)) c
      | Panic c v => Escaped a c v
      end
  | Panic c v => Escaped a c v
  end.

(** Registration through the application goes to its router. *)
Definition withRouter (a : t) (r : res Router.t) : res t :=
  match r with
  | Ok r' => Ok (mk r' (middleware a) (debug a) (contextPool a))
  | Err e => Err e
  end.

Definition GET (a : t) (pattern : string) (h : HandlerFunc) (mw : Slice.t) : res t :=
  withRouter a (Router.GET (router a) pattern h mw).

Definition POST (a : t) (pattern : string) (h : HandlerFunc) (mw : Slice.t) : res t :=
  withRouter a (Router.POST (router a) pattern h mw).

Definition Any (a : t) (pattern : string) (h : HandlerFunc) (mw : Slice.t) : res t :=
  withRouter a (Router.Any (router a) pattern h mw).

Definition Group (a : t) (prefix : string) (mw : Slice.t) : RouteGroup.t :=
  RouteGroup.NewRouteGroup prefix mw.

End App.

(** ** The service container (container.go)

    Services are values of type [interface{}], modelled like the values
    of the context store; errors are kept by their [Error()] text.  A
    factory is given by what it does with the container it receives: it
    returns an instance and an error, or it calls [Get] on the container
    and goes on with what [Get] returned.  The container's [RWMutex] is
    modelled for one goroutine: [locked] says that this goroutine holds
    the write lock, and acquiring the lock, for reading or writing, while
    it is held never returns. *)

Module Container.

Inductive Factory : Type :=
| FReturn (instance : JSONValue) (err : option string)
| FGet (name : string) (k : JSONValue -> option string -> Factory).

Record t : Type := mk {
  factories : gmap string Factory;
  instances : gmap string JSONValue;
  locked : bool
}.

(** What a call does: it returns, leaving the container in a new state,
    or it blocks for ever on the mutex; [OutOfFuel] is for the model's
    bound on nested calls. *)
Inductive Result (A : Type) : Type :=
| Returned (c : t) (a : A)
| Blocked
| OutOfFuel.
Arguments Returned {A} c a.
Arguments Blocked {A}.
Arguments OutOfFuel {A}.

Definition NewContainer : t := mk ∅ ∅ false.

Definition withLock (c : t) (l : bool) : t := mk (factories c) (instances c) l.

Definition Register (c : t) (name : string) (factory : Factory) : Result unit :=
  if locked c then Blocked
  else Returned (mk (<[name := factory]> (factories c)) (instances c) false) tt.

Definition RegisterInstance (c : t) (name : string) (instance : JSONValue)
    : Result unit :=
  if locked c then Blocked
  else Returned (mk (factories c) (<[name := instance]> (instances c)) false) tt.

(** [Get]: the instance and the error.  The factory runs between [Lock]
    and the deferred [Unlock], on the locked container.  With one
    goroutine the second look at [instances], after [Lock], sees what the
    first saw. *)
Fixpoint Get (fuel : nat) (c : t) (name : string)
    : Result (JSONValue * option string) :=
  match fuel with
  | O => OutOfFuel
  | S fuel' =>
      if locked c then Blocked
      else
        match instances c !! name with
        | Some instance => Returned c (instance, None)
        | None =>
            match factories c !! name with
            | None =>
                Returned c (JNil, Some ("service not found: " +:+ name))
            | Some factory =>
                let call :=
                  (fix call (c : t) (f : Factory) {struct f}
                       : Result (JSONValue * option string) :=
                     match f with
                     | FReturn instance err => Returned c (instance, err)
                     | FGet dep k =>
                         match Get fuel' c dep with
                         | Returned c' (v, e) => call c' (k v e)
                         | Blocked => Blocked
                         | OutOfFuel => OutOfFuel
                         end
                     end) in
                match call (withLock c true) factory with
                | Returned c1 (instance, None) =>
                    Returned (mk (factories c1) (<[name := instance]> (instances c1))
                                false) (instance, None)
                | Returned c1 (_, Some err) =>
                    Returned (withLock c1 false)
                      (JNil, Some ("failed to create service " +:+ name +:+ ": " +:+ err))
                | Blocked => Blocked
                | OutOfFuel => OutOfFuel
                end
            end
        end
  end.

(** [MustGet]: the instance, or the panic with the error. *)
Inductive Must : Type :=
| Gave (c : t) (instance : JSONValue)
| Panicked (c : t) (err : string)
| Hangs
| Unfinished.

Definition MustGet (fuel : nat) (c : t) (name : string) : Must :=
  match Get fuel c name with
  | Returned c' (instance, None) => Gave c' instance
  | Returned c' (_, Some err) => Panicked c' err
  | Blocked => Hangs
  | OutOfFuel => Unfinished
  end.

Definition Has (c : t) (name : string) : Result bool :=
  if locked c then Blocked
  else Returned c (match instances c !! name with
                   | Some _ => true
                   | None => bool_decide (is_Some (factories c !! name))
                   end).

Definition Reset (c : t) : Result unit :=
  if locked c then Blocked else Returned (mk (factories c) ∅ false) tt.

Definition Clear (c : t) : Result unit :=
  if locked c then Blocked else Returned (mk ∅ ∅ false) tt.

(** [Alias]: a factory that asks the container for the target. *)
Definition Alias (c : t) (alias target : string) : Result unit :=
  Register c alias (FGet target (fun v e => FReturn v e)).

(** [Keys]: every registered name once; Go leaves the order open, here
    it is the order of the set's enumeration. *)
Definition Keys (c : t) : Result (list string) :=
  if locked c then Blocked
  else Returned c (elements (dom (factories c) ∪ dom (instances c) : gset string)).

(** A service provider, by its two methods. *)
Record ServiceProvider : Type := mkProvider {
  RegisterIn : t -> t * option string;
  Boot : t -> t * option string
}.

(** One of the two loops of [RegisterProviders]. *)
Fixpoint eachProvider (step : ServiceProvider -> t -> t * option string)
    (providers : list ServiceProvider) (c : t) : t * option string :=
  match providers with
  | [] => (c, None)
  | p :: providers' =>
      match step p c with
      | (c', Some err) => (c', Some err)
      | (c', None) => eachProvider step providers' c'
      end
  end.

Definition RegisterProviders (c : t) (providers : list ServiceProvider)
    : t * option string :=
  match eachProvider RegisterIn providers c with
  | (c1, Some err) => (c1, Some ("provider registration failed: " +:+ err))
  | (c1, None) =>
      match eachProvider Boot providers c1 with
      | (c2, Some err) => (c2, Some ("provider boot failed: " +:+ err))
      | (c2, None) => (c2, None)
      end
  end.

Definition BaseProvider : ServiceProvider :=
  mkProvider (fun c => (c, None)) (fun c => (c, None)).

End Container.

(** ** The logger middleware (middleware/logger.go): how the line is built

    The clock, the latency and the writer the line goes to are outside
    the model; the line is a function of the texts put into it. *)

Module Logger.

Definition reset : string := String "027" "[0m".
Definition green : string := String "027" "[32m".
Definition yellow : string := String "027" "[33m".
Definition red : string := String "027" "[31m".
Definition blue : string := String "027" "[34m".
Definition cyan : string := String "027" "[36m".

(** The loop [for i := 0; i < len(s)-len(old)+1; i++] that [replaceTag]
    and [colorizeStatus] both write out, [n] the number of turns left:
    the first [i] with [s[i:i+len(old)] == old] ends it. *)
Fixpoint replaceLoop (n : nat) (s old new : string) (i : Z) : string :=
  match n with
  | O => s
  | S n' =>
      if String.eqb (slice s i (i + len old)) old
      then slice s 0 i +:+ new +:+ sliceFrom s (i + len old)
      else replaceLoop n' s old new (i + 1)
  end.

Definition replaceTag (format tag value : string) : string :=
  replaceLoop (Z.to_nat (len format - len tag + 1)) format tag value 0.

Definition colorOf (status : Z) : string :=
  if 500 <=? status then red
  else if 400 <=? status then yellow
  else if 300 <=? status then cyan
  else if 200 <=? status then green
  else blue.

Definition colorizeStatus (log : string) (status : Z) : string :=
  let statusStr := Strconv.Itoa status in
  let coloredStatus := colorOf status +:+ statusStr +:+ reset in
  replaceLoop (Z.to_nat (len log - len statusStr + 1)) log statusStr coloredStatus 0.

Definition DefaultFormat : string :=
  "${time} | ${status} | ${latency} | ${ip} | ${method} ${path}".

(** The status that is logged: the last code given to [WriteHeader]
    ([swStatus], 200 when there was none) unless the handler returned an
    error; [None] where reading the code of a nil [*HTTPError] panics. *)
Definition statusOf (swStatus : Z) (err : option error) : option Z :=
  match err with
  | None => Some swStatus
  | Some (HTTPError code _ _) => Some code
  | Some (OtherError _) => Some 500
  | Some NilHTTPError => None
  end.

(** The line [LoggerWithConfig] prints for a request that is not
    skipped. *)
Definition logLine (format timeStr method path : string) (status : Z)
    (latencyStr ip userAgent : string) : string :=
  let format := if String.eqb format EmptyString then DefaultFormat else format in
  let log := format in
  let log := replaceTag log "${time}" timeStr in
  let log := replaceTag log "${method}" method in
  let log := replaceTag log "${path}" path in
  let log := replaceTag log "${status}" (Strconv.Itoa status) in
  let log := replaceTag log "${latency}" latencyStr in
  let log := replaceTag log "${ip}" ip in
  let log := replaceTag log "${user_agent}" userAgent in
  colorizeStatus log status.

End Logger.

(** ** The CORS middleware (middleware/cors.go) *)

Module CORS.

Record CORSConfig : Type := mkCORSConfig {
  AllowOrigins : list string;
  AllowMethods : list string;
  AllowHeaders : list string;
  ExposeHeaders : list string;
  AllowCredentials : bool;
  MaxAge : Z
}.

Definition DefaultCORSConfig : CORSConfig :=
  mkCORSConfig ["*"]
    ["GET"; "POST"; "PUT"; "PATCH"; "DELETE"; "OPTIONS"; "HEAD"]
    ["Origin"; "Content-Type"; "Accept"; "Authorization"; "X-Requested-With"]
    [] false 86400.

(** [strings.Join]. *)
Fixpoint Join (elems : list string) (sep : string) : string :=
  match elems with
  | [] => EmptyString
  | [x] => x
  | x :: rest => x +:+ sep +:+ Join rest sep
  end.

(** The loop over [AllowOrigins]: it fills the map and stops at the
    first ["*"]. *)
Fixpoint originsLoop (origins : list string) (allowedOrigins : gmap string bool)
    : bool * gmap string bool :=
  match origins with
  | [] => (false, allowedOrigins)
  | origin :: rest =>
      if String.eqb origin "*" then (true, allowedOrigins)
      else originsLoop rest (<[origin := true]> allowedOrigins)
  end.

Section Headers.

(** [c.Header(name)]: the header fields of the request, which the
    record [Request] leaves out. *)
Variable Header : Context -> string -> string.

Definition CORS (config : CORSConfig) : MiddlewareFunc :=
  let '(allowAllOrigins, allowedOrigins) := originsLoop (AllowOrigins config) ∅ in
  let allowMethodsHeader := Join (AllowMethods config) ", " in
  let allowHeadersHeader := Join (AllowHeaders config) ", " in
  let exposeHeadersHeader := Join (ExposeHeaders config) ", " in
  let maxAgeHeader := Strconv.Itoa (MaxAge config) in
  fun next => Some (fun c =>
    let origin := Header c "Origin" in
    let allowedOrigin :=
      if negb (String.eqb origin EmptyString) then
        if allowAllOrigins then
          if AllowCredentials config then origin else "*"
        else if default false (allowedOrigins !! origin) then origin
        else EmptyString
      else EmptyString in
    let c :=
      if negb (String.eqb allowedOrigin EmptyString) then
        let c := Ctx.SetHeader c "Access-Control-Allow-Origin" allowedOrigin in
        let c := if AllowCredentials config
                 then Ctx.SetHeader c "Access-Control-Allow-Credentials" "true"
                 else c in
        if negb (String.eqb exposeHeadersHeader EmptyString)
        then Ctx.SetHeader c "Access-Control-Expose-Headers" exposeHeadersHeader
        else c
      else c in
    if String.eqb (Ctx.Method_ c) "OPTIONS" then
      let c :=
        if negb (String.eqb allowedOrigin EmptyString) then
          let c := Ctx.SetHeader c "Access-Control-Allow-Methods" allowMethodsHeader in
          let c := Ctx.SetHeader c "Access-Control-Allow-Headers" allowHeadersHeader in
          Ctx.SetHeader c "Access-Control-Max-Age" maxAgeHeader
        else c in
      let c := Ctx.SetHeader c "Content-Length" "0" in
      Return (Ctx.emit c (WriteHeaderEv 204)) None
    else next c).

Definition CORSDefault : MiddlewareFunc := CORS DefaultCORSConfig.

End Headers.

Definition AllowOrigins_ (origins : list string) : CORSConfig :=
  mkCORSConfig origins (AllowMethods DefaultCORSConfig) (AllowHeaders DefaultCORSConfig)
    (ExposeHeaders DefaultCORSConfig) (AllowCredentials DefaultCORSConfig)
    (MaxAge DefaultCORSConfig).

Definition AllowAllOrigins : CORSConfig := DefaultCORSConfig.

Definition AllowOriginsWithCredentials (origins : list string) : CORSConfig :=
  mkCORSConfig origins (AllowMethods DefaultCORSConfig) (AllowHeaders DefaultCORSConfig)
    (ExposeHeaders DefaultCORSConfig) true (MaxAge DefaultCORSConfig).

End CORS.

(** * Definitions used in the statements *)

(** A handler that answers 200 with a short text. *)
Definition okHandler : HandlerFunc := fun c => Ctx.String_ c 200 "ok".

(** The route [Handle] builds for a pattern. *)
Definition routeOf (method pattern : string) : res Route.t :=
  match parsePattern pattern with
  | Ok (re, names) => Ok (Route.mk method pattern okHandler Slice.nil re names)
  | Err e => Err e
  end.

(** The parameters [match] extracts for a path, for the route of a pattern. *)
Definition matchOf (pattern path : string) : res (option (gmap string string)) :=
  match routeOf "GET" pattern with
  | Ok route => Ok (Route.match_ route path)
  | Err e => Err e
  end.

(** The matcher of the route accepts the path. *)
Definition accepts (route : Route.t) (path : string) : bool :=
  bool_decide (is_Some (Route.match_ route path)).

(** The route accepts the path and has the method. *)
Definition serves (route : Route.t) (method path : string) : bool :=
  accepts route path && String.eqb (Route.method route) method.

(** The table after the registrations of the example: [/a/{x}] first,
    then [/a/fixed], both for GET. *)
Definition overlapRouter : res Router.t :=
  match Router.GET Router.NewRouter "/a/{x}" okHandler Slice.nil with
  | Ok r => Router.GET r "/a/fixed" okHandler Slice.nil
  | Err e => Err e
  end.

Definition userCtx : Context :=
  Ctx.SetParams (Ctx.newContext (mkRequest "GET" "/users/7")) {[ "id" := "7" ]}.

(** A middleware whose wrapping call does not panic. *)
Definition total (f : HandlerFunc -> HandlerFunc) : MiddlewareFunc :=
  fun next => Some (f next).

(** A middleware with logic before and after the call of [next]: it sends
    [pre], calls [next], and when [next] returns sends [post]. *)
Definition around (pre post : string) : HandlerFunc -> HandlerFunc :=
  fun next c =>
    match next (Ctx.emit c (WriteEv pre)) with
    | Return c' err => Return (Ctx.emit c' (WriteEv post)) err
    | Panic c' v => Panic c' v
    end.

Definition emitAll (c : Context) (bodies : list string) : Context :=
  mkContext (Req c) (Writer c ++ map WriteEv bodies) (params c) (store c) (response c).

(** [m1(m2(...(mn(h))))], a call that panics making the whole panic. *)
Definition nest (middleware : list MiddlewareFunc) (h : HandlerFunc) : option HandlerFunc :=
  foldr (fun m acc => acc ≫= m) (Some h) middleware.

(** The context [ServeHTTP] starts from, and the pool once it is taken. *)
Definition acquired (a : App.t) (r : Request) : Context :=
  Ctx.reset (fst (App.poolGet (App.contextPool a))) r.

Definition idle (a : App.t) : list Context := snd (App.poolGet (App.contextPool a)).

(** The context a call leaves, returning or not. *)
Definition ctxOf (o : Outcome) : Context :=
  match o with
  | Return c _ => c
  | Panic c _ => c
  end.

(** A handler that sends a text response and then returns an error. *)
Definition writeThenFail : HandlerFunc :=
  fun c =>
    match Ctx.String_ c 200 "done" with
    | Return c' _ => Return c' (Some (OtherError "late failure"))
    | Panic c' v => Panic c' v
    end.

(** An application with one GET route and no global middleware. *)
Definition appWith (pattern : string) (h : HandlerFunc) (pool : list Context) : res App.t :=
  match Router.GET Router.NewRouter pattern h Slice.nil with
  | Ok r => Ok (App.mk r Slice.nil false pool)
  | Err e => Err e
  end.

Definition failingApp : App.t :=
  match appWith "/job" writeThenFail [] with
  | Ok a => a
  | Err _ => App.mk Router.NewRouter Slice.nil false []
  end.

Definition jobRequest : Request := mkRequest "GET" "/job".

Definition jobDone : Context :=
  ctxOf (Ctx.String_ (Ctx.SetParams (Ctx.newContext jobRequest) ∅) 200 "done").

(** [net/http] above [ServeHTTP]: the server recovers a panic of the
    handler, and the application goes on as the panic left it. *)
Definition supervised (a : App.t) (h : Slice.heap) (r : Request) : App.t :=
  match App.ServeHTTP a h r with
  | App.Done a' _ => a'
  | App.Escaped a' _ _ => a'
  end.

Definition boom : HandlerFunc := fun c => Panic c "boom".

Definition boomApp : App.t :=
  match appWith "/boom" boom [Ctx.newContext (mkRequest "GET" "/earlier")] with
  | Ok a => a
  | Err _ => App.mk Router.NewRouter Slice.nil false []
  end.

(** The same application with [Recovery] as its one global middleware,
    and the heap that holds the slice. *)
Definition guardedHeap : Slice.heap := fst (Slice.ofList [] [Middleware.Recovery]).

Definition guardedApp : App.t :=
  App.mk (App.router boomApp) (snd (Slice.ofList [] [Middleware.Recovery]))
    false (App.contextPool boomApp).

(** A handler that returns an error whose status code is 0. *)
Definition zeroCode : HandlerFunc :=
  fun c => Return c (Some (NewHTTPError 0 "oops")).

(** An application with [Recovery] as its one global middleware and the
    route [/zero] of that handler; one context is idle in its pool. *)
Definition zeroApp : App.t :=
  match Router.GET Router.NewRouter "/zero" zeroCode Slice.nil with
  | Ok r => App.mk r (snd (Slice.ofList [] [Middleware.Recovery])) false
              [Ctx.newContext (mkRequest "GET" "/earlier")]
  | Err _ => App.mk Router.NewRouter Slice.nil false []
  end.

(** Later [Use] calls on a group, one list of middleware per call. *)
Fixpoint useAll (h : Slice.heap) (g : RouteGroup.t) (calls : list (list MiddlewareFunc))
    : Slice.heap * RouteGroup.t :=
  match calls with
  | [] => (h, g)
  | mw :: calls' =>
      let '(h', g') := RouteGroup.Use h g mw in
      useAll h' g' calls'
  end.

(** The slice [s] lives in [h'] in an array that [h0] does not have, and
    [h'] still has the arrays of [h0] as they were. *)
Definition apart (h0 h' : Slice.heap) (s : Slice.t) : Prop :=
  Slice.valid h' s /\
  (length h0 <= Slice.arr s)%nat /\
  (length h0 <= length h')%nat /\
  (forall a, (a < length h0)%nat -> h' !! a = h0 !! a).

Definition authMw : MiddlewareFunc := total (around "auth-pre" "auth-post").
Definition adminMw : MiddlewareFunc := total (around "admin-pre" "admin-post").

(** [api := NewRouteGroup(router, "/api/v1/", authMw)], and the slice of
    the arguments of [api.Group("/admin/", adminMw)]. *)
Definition apiHeap : Slice.heap :=
  fst (Slice.ofList (fst (Slice.ofList [] [authMw])) [adminMw]).

Definition apiGroup : RouteGroup.t :=
  RouteGroup.NewRouteGroup "/api/v1/" (snd (Slice.ofList [] [authMw])).

Definition adminArgs : Slice.t :=
  snd (Slice.ofList (fst (Slice.ofList [] [authMw])) [adminMw]).

Ltac valid_slice :=
  split; [simpl; lia|right; split; simpl; lia].

(** Does the byte occur in the string? *)
Fixpoint occurs (c : ascii) (s : string) : bool :=
  match s with
  | EmptyString => false
  | String x s' => Ascii.eqb x c || occurs c s'
  end.

(** Name and expression of a placeholder, from the text between its
    braces. *)
Definition paramOf (paramSpec : string) : string * string :=
  let colonIdx := Index paramSpec ":" in
  if negb (colonIdx =? -1) then
    (slice paramSpec 0 colonIdx, sliceFrom paramSpec (colonIdx + 1))
  else (paramSpec, "[^/]+").

(** What the loop appends for a byte taken as a literal. *)
Definition quoteByte (c : ascii) : string := QuoteMeta (stringOfByte c).

(** The loop of [parsePattern] as a recursion on what is left to scan. *)
Fixpoint scan (fuel : nat) (s : string) (re : string) (names : list string)
    : string * list string :=
  match fuel with
  | O => (re, names)
  | S fuel' =>
      match s with
      | EmptyString => (re, names)
      | String c s' =>
          if Ascii.eqb c "{" then
            let e := Index s "}" in
            if e =? -1 then scan fuel' s' (re +:+ quoteByte c) names
            else
              let '(n, r) := paramOf (slice s 1 e) in
              scan fuel' (sliceFrom s (e + 1)) (re +:+ "(" +:+ r +:+ ")") (names ++ [n])
          else scan fuel' s' (re +:+ quoteByte c) names
      end
  end.

(** The expression text of a run of literal bytes. *)
Fixpoint quoteAll (s : string) : string :=
  match s with
  | EmptyString => EmptyString
  | String c s' => quoteByte c +:+ quoteAll s'
  end.

(** No [{] of the string has a [}] after it. *)
Fixpoint noPlaceholder (s : string) : bool :=
  match s with
  | EmptyString => true
  | String c s' =>
      (negb (Ascii.eqb c "{") || negb (occurs "}" s')) && noPlaceholder s'
  end.

(** Is [c] the last byte of the string? *)
Fixpoint lastIs (c : ascii) (s : string) : bool :=
  match s with
  | EmptyString => false
  | String x EmptyString => Ascii.eqb x c
  | String _ s' => lastIs c s'
  end.

(** A pattern cut into pieces: literal text without [{], and placeholders
    [{spec}] whose text has no [}]. *)
Inductive token : Type :=
| TLit (text : string)
| TParam (spec : string).

Definition renderToken (t : token) : string :=
  match t with
  | TLit text => text
  | TParam spec => "{" +:+ spec +:+ "}"
  end.

Fixpoint render (toks : list token) : string :=
  match toks with
  | [] => EmptyString
  | t :: toks' => renderToken t +:+ render toks'
  end.

Definition wfToken (t : token) : bool :=
  match t with
  | TLit text => negb (occurs "{" text)
  | TParam spec => negb (occurs "}" spec)
  end.

(** The names of the placeholders, left to right. *)
Fixpoint namesOf (toks : list token) : list string :=
  match toks with
  | [] => []
  | TLit _ :: toks' => namesOf toks'
  | TParam spec :: toks' => fst (paramOf spec) :: namesOf toks'
  end.

Fixpoint sourceOf (toks : list token) : string :=
  match toks with
  | [] => EmptyString
  | TLit text :: toks' => quoteAll text +:+ sourceOf toks'
  | TParam spec :: toks' => "(" +:+ snd (paramOf spec) +:+ ")" +:+ sourceOf toks'
  end.

(** The assignments [params[name] = value], carried out in list order. *)
Definition assignAll (ps : gmap string string) (pairs : list (string * string))
    : gmap string string :=
  foldl (fun m p => <[p.1 := p.2]> m) ps pairs.

Definition postsRoute : Route.t :=
  match routeOf "GET" "/users/{userId}/posts/{postId:[0-9]+}" with
  | Ok route => route
  | Err _ => Route.mk "GET" EmptyString okHandler Slice.nil (mkRegexp Eps 0) []
  end.

Fixpoint isASCII (s : string) : bool :=
  match s with
  | EmptyString => true
  | String c s' => (byteN c <? 0x80)%N && isASCII s'
  end.

(** The bytes of a string as numbers; for ASCII text, its runes. *)
Fixpoint bytesN (s : string) : list N :=
  match s with
  | EmptyString => []
  | String c s' => byteN c :: bytesN s'
  end.

(** The runes of the text that quotes a byte. *)
Definition quoteRunes (c : ascii) : list N :=
  if special c then [ch "\"; byteN c] else [byteN c].

Fixpoint quoteRunesAll (s : string) : list N :=
  match s with
  | EmptyString => []
  | String c s' => quoteRunes c ++ quoteRunesAll s'
  end.

(** The chain of literals an expression for literal text is. *)
Definition litChain (lits : list N) (tail : regex) : regex :=
  foldr (fun l acc => Cat (Lit l) acc) tail lits.

(** The optional separator and the end of the text. *)
Definition slashEnd : regex := Cat (Quest true (Lit (ch "/"))) (Cat EndText Eps).

Ltac bool_facts :=
  repeat match goal with
    | H : (_ && _) = true |- _ => apply andb_true_iff in H as [? ?]
    | H : negb _ = false |- _ => apply negb_false_iff in H
    | H : negb _ = true |- _ => apply negb_true_iff in H
    | H : (_ <=? _)%N = true |- _ => apply N.leb_le in H
    | H : (_ <=? _)%N = false |- _ => apply N.leb_gt in H
    | H : (_ <? _)%N = true |- _ => apply N.ltb_lt in H
    | H : (_ <? _)%N = false |- _ => apply N.ltb_ge in H
    | H : (_ =? _)%N = true |- _ => apply N.eqb_eq in H
    | H : (_ =? _)%N = false |- _ => apply N.eqb_neq in H
    end.

(** What the expression of a literal text accepts: the text, and the
    text with one more separator. *)
Definition acceptsLiteral (lit path : string) : bool :=
  String.eqb path lit || String.eqb path (lit +:+ "/").

(** The bytes of U+00E9 in UTF-8, and the UTF-8 text of the two code
    points U+00C3 U+00A9 that [string(b)] makes of these bytes. *)
Definition eAcute : string := String "195" (String "169" EmptyString).
Definition eAcuteByteWise : string :=
  String "195" (String "131" (String "194" (String "169" EmptyString))).

Definition sent (c : Context) (evs : list WriterEvent) : Context :=
  mkContext (Req c) (Writer c ++ evs) (params c) (store c) true.

Definition errorEvents (code : Z) (message : string) : list WriterEvent :=
  [SetHeaderEv "Content-Type" "application/json; charset=utf-8";
   WriteHeaderEv code;
   EncodeJSONEv
     (JObject (JField "error"
                 (JObject (JField "code" (JInt code)
                             (JField "message" (JString message) JEnd))) JEnd))].

(** [WriteHeader(code)] returns on the context: the header is out
    already, or the code is one the writer takes. *)
Definition headerTaken (c : Context) (code : Z) : bool :=
  Ctx.wroteHeader (Writer c) || ((100 <=? code) && (code <=? 999)).

(** The error of a [Write] made once [evs] have followed what the
    context had sent. *)
Definition writeErrorAfter (c : Context) (evs : list WriterEvent) : option error :=
  option_map (fun text => OtherError (Text text)) (WriteErr (Req c) (Writer c ++ evs)).

(** The two calls that come before the body of a JSON response. *)
Definition jsonHead (code : Z) : list WriterEvent :=
  [SetHeaderEv "Content-Type" "application/json; charset=utf-8"; WriteHeaderEv code].

(** The error translation of [ServeHTTP]: [handleError] when the chain
    returned an error. *)
Definition translated (a : App.t) (c : Context) (err : option error) : Outcome :=
  match err with
  | Some e => App.handleError a c e
  | None => Return c None
  end.

(** [handleError] gets through the error on a context not yet written:
    the error is not a nil pointer, its text is there where debug mode
    asks for it, and the writer takes its code. *)
Definition translatable (a : App.t) (c : Context) (e : error) : bool :=
  match e with
  | NilHTTPError => false
  | HTTPError code _ cause =>
      match App.debug a, cause with
      | true, Some (Panics _) => false
      | _, _ => headerTaken c code
      end
  | OtherError text =>
      match App.debug a, text with
      | true, Panics _ => false
      | _, _ => true
      end
  end.

Definition answer (s : App.Served) : Context * option string :=
  match s with
  | App.Done _ c => (c, None)
  | App.Escaped _ c v => (c, Some v)
  end.

Definition withPool (a : App.t) (pool : list Context) : App.t :=
  App.mk (App.router a) (App.middleware a) (App.debug a) pool.

Definition errConstructors : list ((string -> error) * Z) :=
  [(ErrBadRequest, 400); (ErrUnauthorized, 401); (ErrForbidden, 403);
   (ErrNotFound, 404); (ErrMethodNotAllowed, 405); (ErrConflict, 409);
   (ErrUnprocessableEntity, 422); (ErrTooManyRequests, 429);
   (ErrInternal, 500); (ErrServiceUnavailable, 503)].

Definition usersRouter : Router.t :=
  match Router.GET Router.NewRouter "/users/{id}" okHandler Slice.nil with
  | Ok r => r
  | Err _ => Router.NewRouter
  end.

Definition usersRoute : Route.t :=
  match routeOf "GET" "/users/{id}" with
  | Ok route => route
  | Err _ => Route.mk "GET" EmptyString okHandler Slice.nil (mkRegexp Eps 0) []
  end.

Definition anyRouter : Router.t :=
  match Router.Any usersRouter "/ping" okHandler Slice.nil with
  | Ok r => r
  | Err _ => Router.NewRouter
  end.

Definition lostRequest : Context := Ctx.newContext (mkRequest "GET" "/nope").
Definition postRequest : Context := Ctx.newContext (mkRequest "POST" "/users/7").

(** An application with [authMw] as global middleware and one GET route,
    [/admin], with [adminMw] as its own middleware. *)
Definition adminApp : App.t :=
  match Router.GET Router.NewRouter "/admin" okHandler adminArgs with
  | Ok r => App.mk r (snd (Slice.ofList [] [authMw])) false []
  | Err _ => App.mk Router.NewRouter Slice.nil false []
  end.

Definition adminRequest : Context := Ctx.newContext (mkRequest "GET" "/admin").

Definition adminRoute : Route.t :=
  match Router.routes (App.router adminApp) with
  | route :: _ => route
  | [] => usersRoute
  end.

Definition starLoop (greedy : bool) (a : regex)
    (k : string -> nat -> caps -> option caps)
    : nat -> string -> nat -> caps -> option caps :=
  fix loop (n : nat) (rest : string) (pos : nat) (cs : caps) {struct n} : option caps :=
    match n with
    | O => k rest pos cs
    | S n' =>
        let again (_ : unit) :=
          run a rest pos cs
            (fun rest' pos' cs' =>
               if (pos <? pos')%nat then loop n' rest' pos' cs' else None) in
        if greedy then match again tt with Some c => Some c | None => k rest pos cs end
        else match k rest pos cs with Some c => Some c | None => again tt end
    end.

Definition notSlash : regex := Class true [(ch "/", ch "/")].

(** An expression that takes one rune, any but the ASCII byte [b]. *)
Definition allBut (b : ascii) (A : regex) : Prop :=
  forall rest pos cs k,
    run A rest pos cs k
    = step (fun r => negb (r =? byteN b)%N) rest pos (fun rest' pos' => k rest' pos' cs).

Definition newline : ascii := ascii_of_nat 10.

(** The continuation of the search at the end of the expression. *)
Definition wholeMatch : string -> nat -> caps -> option caps :=
  fun _ pos' cs => Some (<[0%nat := Some (0%nat, pos')]> cs).

(** After the capture that started at [from]: the rest of the expression. *)
Definition afterCapture (from : nat) (l2 : string)
    : string -> nat -> caps -> option caps :=
  fun r p c =>
    run (litChain (bytesN l2) slashEnd) r p (<[1%nat := Some (from, p)]> c) wholeMatch.

Definition oneParam (R : regex) (l1 l2 : string) : Regexp :=
  mkRegexp
    (Cat BeginText
       (litChain (bytesN l1)
          (Cat (Group 1 (Cat R Eps)) (litChain (bytesN l2) slashEnd)))) 1.

Definition isDigit (c : ascii) : bool := ((48 <=? byteN c) && (byteN c <=? 57))%N.

Definition digit : regex := Class false [(ch "0", ch "9")].

Fixpoint allDigits (s : string) : bool :=
  match s with
  | EmptyString => true
  | String c s' => isDigit c && allDigits s'
  end.

Definition noFiles : Request -> list WriterEvent := fun _ => [].

(** A container with one factory, as in the tests of the alias. *)
Definition originalContainer : Container.t :=
  Container.mk {[ "original" := Container.FReturn (JString "value") None ]} ∅ false.

Definition failingProvider : Container.ServiceProvider :=
  Container.mkProvider (fun c => (c, Some "register failed")) (fun c => (c, None)).

(** The text of a list of decimal digits. *)
Definition digitChar (d : Z) : ascii := ascii_of_N (Z.to_N (48 + d)).

Fixpoint renderDigits (ds : list Z) : string :=
  match ds with
  | [] => EmptyString
  | d :: ds' => String (digitChar d) (renderDigits ds')
  end.

Definition valueOf (a : Z) (ds : list Z) : Z := foldl (fun v d => v * 10 + d) a ds.

Inductive Sign : Type := NoSign | PlusSign | MinusSign.

Definition signText (sgn : Sign) : string :=
  match sgn with
  | NoSign => EmptyString
  | PlusSign => "+"
  | MinusSign => "-"
  end.

Definition signed (sgn : Sign) (v : Z) : Z :=
  match sgn with MinusSign => - v | _ => v end.

(** An optional sign and decimal digits. *)
Definition decimal (sgn : Sign) (ds : list Z) : string :=
  signText sgn +:+ renderDigits ds.

(** What [ParseInt] and [Atoi] return for a number, in or out of the
    range of 64 bits. *)
Definition clamped (v : Z) : Z * option Strconv.Err :=
  if v <? minInt64 then (minInt64, Some Strconv.ErrRange)
  else if maxInt64 <? v then (maxInt64, Some Strconv.ErrRange)
  else (v, None).

(** A text is a decimal number when it is an optional sign and at least
    one decimal digit. *)
Definition isDecimal (s : string) : Prop :=
  exists sgn ds, Forall (fun d => 0 <= d <= 9) ds /\ ds <> [] /\ s = decimal sgn ds.

Definition inInt64 (v : Z) : Prop := minInt64 <= v <= maxInt64.

(** The text after an optional sign. *)
Definition unsignedPart (s : string) : string :=
  match s with
  | String c s' => if Ascii.eqb c "+" || Ascii.eqb c "-" then s' else s
  | EmptyString => EmptyString
  end.

(** What is not a decimal number: nothing after the sign, or a byte that
    is not a decimal digit. *)
Definition malformed (s : string) : Prop :=
  unsignedPart s = EmptyString \/ allDigits (unsignedPart s) = false.

(** A query asking for the last page there can be. *)
Definition farQuery : URL.Values :=
  {[ "page" := ["9223372036854775807"]; "per_page" := ["20"] ]}.

Definition pageQuery : URL.Values :=
  {[ "page" := ["3"]; "per_page" := ["500"]; "limit" := ["7"] ]}.

(** [pre] and [post] are what stands before and after the first
    occurrence of [t] in [s]. *)
Definition firstOccurrence (s t pre post : string) : Prop :=
  s = pre +:+ t +:+ post /\
  forall pre' post', s = pre' +:+ t +:+ post' -> len pre <= len pre'.

Definition absent (s t : string) : Prop :=
  forall pre post, s <> pre +:+ t +:+ post.

(** [a] and [t] differ at a place both have. *)
Fixpoint mismatch (a t : string) : bool :=
  match a, t with
  | String x a', String y t' => if Ascii.eqb x y then mismatch a' t' else true
  | _, _ => false
  end.

(** No occurrence of [t] can start in [a], whatever follows [a]. *)
Fixpoint startsNowhere (a t : string) : bool :=
  match a with
  | EmptyString => true
  | String _ a' => mismatch a t && startsNowhere a' t
  end.

(** The line of the default format before the colour is put in. *)
Definition plainLine (timeStr method path : string) (status : Z)
    (latencyStr ip : string) : string :=
  timeStr +:+ " | " +:+ Strconv.Itoa status +:+ " | " +:+ latencyStr +:+ " | " +:+
  ip +:+ " | " +:+ method +:+ " " +:+ path.

(** The context after [evs] went to the writer directly: the flag of a
    written response is as it was. *)
Definition wrote (c : Context) (evs : list WriterEvent) : Context :=
  mkContext (Req c) (Writer c ++ evs) (params c) (store c) (response c).

(** The origin the CORS middleware allows for a request, empty for
    none. *)
Definition allowedOriginOf (config : CORS.CORSConfig) (origin : string) : string :=
  if String.eqb origin EmptyString then EmptyString
  else if bool_decide ("*" ∈ CORS.AllowOrigins config) then
    if CORS.AllowCredentials config then origin else "*"
  else if bool_decide (origin ∈ CORS.AllowOrigins config) then origin
  else EmptyString.

(** The headers CORS sets on every request, for an allowed origin. *)
Definition originHeaders (config : CORS.CORSConfig) (allowed : string)
    : list WriterEvent :=
  if String.eqb allowed EmptyString then []
  else
    SetHeaderEv "Access-Control-Allow-Origin" allowed ::
    (if CORS.AllowCredentials config
     then [SetHeaderEv "Access-Control-Allow-Credentials" "true"] else []) ++
    (if String.eqb (CORS.Join (CORS.ExposeHeaders config) ", ") EmptyString then []
     else [SetHeaderEv "Access-Control-Expose-Headers"
             (CORS.Join (CORS.ExposeHeaders config) ", ")]).

(** What CORS sends more to answer a preflight request. *)
Definition preflightEvents (config : CORS.CORSConfig) (allowed : string)
    : list WriterEvent :=
  (if String.eqb allowed EmptyString then []
   else [SetHeaderEv "Access-Control-Allow-Methods"
           (CORS.Join (CORS.AllowMethods config) ", ");
         SetHeaderEv "Access-Control-Allow-Headers"
           (CORS.Join (CORS.AllowHeaders config) ", ");
         SetHeaderEv "Access-Control-Max-Age" (Strconv.Itoa (CORS.MaxAge config))]) ++
  [SetHeaderEv "Content-Length" "0"; WriteHeaderEv 204].

(** A request header table with an origin only. *)
Definition originOnly (origin : string) : Context -> string -> string :=
  fun _ name => if String.eqb name "Origin" then origin else EmptyString.

(** An application with the default CORS middleware before everything
    else, and its heap. *)
Definition corsHeap : Slice.heap :=
  fst (Slice.ofList [] [CORS.CORSDefault (originOnly "https://app.example")]).

Definition corsApp : App.t :=
  App.mk usersRouter
    (snd (Slice.ofList [] [CORS.CORSDefault (originOnly "https://app.example")]))
    false [].

(** * Properties *)

(** ** The pattern language on the examples of the specification *)

(** C3: [/users/{id}] accepts [/users/123] with [id = 123] and rejects
    [/users/] and [/users/123/x]; [/users/{id:[0-9]+}] rejects [/users/abc]
    and accepts [/users/42] with [id = 42]; [/files/{path:.*}] accepts
    [/files/a/b/c.txt] with [path = a/b/c.txt], a capture over several
    segments. *)
Theorem pattern_language_examples :
  matchOf "/users/{id}" "/users/123" = Ok (Some {[ "id" := "123" ]}) /\
  matchOf "/users/{id}" "/users/" = Ok None /\
  matchOf "/users/{id}" "/users/123/x" = Ok None /\
  matchOf "/users/{id:[0-9]+}" "/users/abc" = Ok None /\
  matchOf "/users/{id:[0-9]+}" "/users/42" = Ok (Some {[ "id" := "42" ]}) /\
  matchOf "/files/{path:.*}" "/files/a/b/c.txt" = Ok (Some {[ "path" := "a/b/c.txt" ]}).
Proof. repeat split; vm_compute; reflexivity. Qed.

(** ** The route table: first match wins *)

Lemma accepts_Some route path ps :
  Route.match_ route path = Some ps -> accepts route path = true.
Proof. intros H. unfold accepts. rewrite H. apply bool_decide_eq_true. eauto. Qed.

Lemma accepts_None route path :
  Route.match_ route path = None -> accepts route path = false.
Proof.
  intros H. unfold accepts. rewrite H. apply bool_decide_eq_false.
  intros [x Hx]. discriminate.
Qed.

(** The loop of [find] against its specification: the first route that
    serves the request, or the flag telling whether some route (seen
    before or in the rest of the table) accepted the path. *)
Lemma findLoop_spec rs method path flag :
  (exists pre route post ps,
      rs = pre ++ route :: post /\
      Forall (fun x => serves x method path = false) pre /\
      Route.match_ route path = Some ps /\
      Route.method route = method /\
      Router.findLoop rs method path flag = (Some route, Some ps, false)) \/
  (Forall (fun x => serves x method path = false) rs /\
   Router.findLoop rs method path flag
   = (None, None, flag || existsb (fun x => accepts x path) rs)).
Proof.
  revert flag. induction rs as [|route rs IH]; intros flag; simpl.
  - right. split; [constructor|]. by rewrite orb_false_r.
  - destruct (Route.match_ route path) as [ps|] eqn:Hm.
    + destruct (String.eqb (Route.method route) method) eqn:He.
      * left. exists [], route, rs, ps. repeat split; try done.
        by apply String.eqb_eq.
      * assert (Hs : serves route method path = false).
        { unfold serves. by rewrite He, andb_false_r. }
        rewrite (accepts_Some _ _ _ Hm).
        destruct (IH true) as [(pre & r0 & post & ps0 & -> & Hpre & H1 & H2 & H3)|[Hall Hf]].
        -- left. exists (route :: pre), r0, post, ps0. repeat split; try done.
           by constructor.
        -- right. split; [by constructor|]. rewrite Hf. simpl.
           by rewrite orb_true_r.
    + assert (Hs : serves route method path = false).
      { unfold serves. by rewrite (accepts_None _ _ Hm). }
      rewrite (accepts_None _ _ Hm). simpl.
      destruct (IH flag) as [(pre & r0 & post & ps0 & -> & Hpre & H1 & H2 & H3)|[Hall Hf]].
      * left. exists (route :: pre), r0, post, ps0. repeat split; try done.
        by constructor.
      * right. split; [by constructor|]. done.
Qed.

(** C1: [find] returns the first route, in registration order, whose
    matcher accepts the path and whose method is the requested one, with
    the parameters that route extracts; when no route does, it returns no
    route and the flag is true exactly when some route accepted the path
    (method not allowed) and false otherwise (not found).  With [/a/{x}]
    registered before [/a/fixed], GET [/a/fixed] goes to the parametric
    route. *)
Theorem find_first_match_wins :
  (forall (r : Router.t) (method path : string),
      (exists pre route post ps,
          Router.routes r = pre ++ route :: post /\
          Forall (fun x => serves x method path = false) pre /\
          Route.match_ route path = Some ps /\
          Route.method route = method /\
          Router.find r method path = (Some route, Some ps, false)) \/
      (Forall (fun x => serves x method path = false) (Router.routes r) /\
       Router.find r method path
       = (None, None, existsb (fun x => accepts x path) (Router.routes r)))) /\
  (forall (r : Router.t) (method pattern : string) h mw r',
      Router.Handle r method pattern h mw = Ok r' ->
      exists route, Router.routes r' = Router.routes r ++ [route] /\
                    Route.method route = method /\ Route.pattern route = pattern) /\
  (exists r first second,
      overlapRouter = Ok r /\ Router.routes r = [first; second] /\
      Route.pattern first = "/a/{x}" /\ Route.pattern second = "/a/fixed" /\
      Router.find r "GET" "/a/fixed" = (Some first, Some {[ "x" := "fixed" ]}, false) /\
      Router.find r "POST" "/a/fixed" = (None, None, true) /\
      Router.find r "GET" "/q" = (None, None, false) /\
      Router.find r "DELETE" "/q" = (None, None, false)).
Proof.
  split; [|split].
  - intros r method path. unfold Router.find.
    destruct (findLoop_spec (Router.routes r) method path false) as [H|H]; [by left|by right].
  - intros r method pattern h mw r'. unfold Router.Handle.
    destruct (parsePattern pattern) as [[re names]|e]; [|discriminate].
    intros [= <-]. eexists. simpl. repeat split.
  - unfold overlapRouter.
    destruct (Router.GET Router.NewRouter "/a/{x}" okHandler Slice.nil) as [r1|] eqn:H1;
      [|by vm_compute in H1].
    vm_compute in H1. injection H1 as <-.
    eexists _, _, _. split; [vm_compute; reflexivity|].
    repeat split; vm_compute; reflexivity.
Qed.

Lemma find_first_match_wins_witness :
  Router.Handle Router.NewRouter "GET" "/r" okHandler Slice.nil
  = Ok (Router.mk [Route.mk "GET" "/r" okHandler Slice.nil
                     (Route.regex (match routeOf "GET" "/r" with
                                   | Ok route => route
                                   | Err _ => Route.mk "" "" okHandler Slice.nil
                                                (mkRegexp Eps 0) []
                                   end)) []]
          (Router.notFound Router.NewRouter)
          (Router.methodNotAllowed Router.NewRouter)) /\
  exists route,
    [Route.mk "GET" "/r" okHandler Slice.nil
       (Route.regex (match routeOf "GET" "/r" with
                     | Ok route => route
                     | Err _ => Route.mk "" "" okHandler Slice.nil (mkRegexp Eps 0) []
                     end)) []]
    = [] ++ [route] /\
    Route.method route = "GET" /\ Route.pattern route = "/r".
Proof.
  assert (H : Router.Handle Router.NewRouter "GET" "/r" okHandler Slice.nil
              = Ok (Router.mk [Route.mk "GET" "/r" okHandler Slice.nil
                                 (Route.regex (match routeOf "GET" "/r" with
                                               | Ok route => route
                                               | Err _ => Route.mk "" "" okHandler Slice.nil
                                                            (mkRegexp Eps 0) []
                                               end)) []]
                      (Router.notFound Router.NewRouter)
                      (Router.methodNotAllowed Router.NewRouter)))
    by (vm_compute; reflexivity).
  split; [exact H|].
  exact (proj1 (proj2 find_first_match_wins) Router.NewRouter "GET" "/r" okHandler
           Slice.nil _ H).
Defined.

(** ** Path parameters of a context *)

(** C10: for a name absent from the parameter map of a context, [Param]
    returns the empty string, the same answer as for a context in which the
    name was captured as the empty string. *)
Theorem Param_absent_is_empty (c : Context) (name : string) :
  params c !! name = None ->
  Ctx.Param c name = EmptyString /\
  Ctx.Param c name
  = Ctx.Param (Ctx.SetParams c (<[name := EmptyString]> (params c))) name.
Proof.
  intros H. unfold Ctx.Param. rewrite H. simpl. split; [done|].
  by rewrite lookup_insert_eq.
Qed.

Lemma Param_absent_is_empty_witness :
  params userCtx !! "page" = None /\
  Ctx.Param userCtx "page" = EmptyString /\
  Ctx.Param userCtx "page"
  = Ctx.Param (Ctx.SetParams userCtx (<["page" := EmptyString]> (params userCtx))) "page".
Proof.
  assert (H : params userCtx !! "page" = None) by (vm_compute; reflexivity).
  split; [exact H|]. exact (Param_absent_is_empty userCtx "page" H).
Defined.

(** ** Composition of middleware *)

Lemma wrapLoop_app ms1 ms2 next :
  wrapLoop (ms1 ++ ms2) (length ms1) next = wrapLoop ms1 (length ms1) next.
Proof.
  remember (length ms1) as n eqn:Hn.
  assert (Hle : (n <= length ms1)%nat) by lia. clear Hn.
  revert next. induction n as [|n IH]; intros next; simpl; [done|].
  rewrite lookup_app_l by lia.
  destruct (ms1 !! n) as [mw|]; [|done].
  destruct (mw next); [|done]. apply IH. lia.
Qed.

Lemma wrapLoop_snoc ms m next :
  wrapLoop (ms ++ [m]) (S (length ms)) next
  = m next ≫= wrapLoop ms (length ms).
Proof.
  simpl. rewrite lookup_app_r by lia. rewrite Nat.sub_diag. simpl.
  destruct (m next) as [next'|]; simpl; [|done].
  apply wrapLoop_app.
Qed.

Lemma nest_snoc ms m h : nest (ms ++ [m]) h = m h ≫= nest ms.
Proof.
  unfold nest. rewrite foldr_app. simpl.
  destruct (m h) as [h'|]; simpl; [done|].
  induction ms as [|m' ms IH]; simpl; [done|]. by rewrite IH.
Qed.

Lemma wrapLoop_nest ms h : wrapLoop ms (length ms) h = nest ms h.
Proof.
  revert h. induction ms as [|m ms IH] using rev_ind; intros h; [done|].
  rewrite length_app. simpl. rewrite Nat.add_1_r.
  rewrite wrapLoop_snoc, nest_snoc.
  destruct (m h) as [h'|]; simpl; [apply IH|done].
Qed.

Lemma nest_total fs h :
  nest (map total fs) h = Some (foldr (fun f acc => f acc) h fs).
Proof.
  induction fs as [|f fs IH]; simpl; [done|].
  unfold nest in *. simpl. by rewrite IH.
Qed.

Lemma emitAll_nil c : emitAll c [] = c.
Proof. destruct c. unfold emitAll. simpl. by rewrite app_nil_r. Qed.

Lemma emitAll_cons c x xs : emitAll (Ctx.emit c (WriteEv x)) xs = emitAll c (x :: xs).
Proof. unfold emitAll, Ctx.emit. simpl. by rewrite <- app_assoc. Qed.

Lemma emitAll_snoc c x xs : Ctx.emit (emitAll c xs) (WriteEv x) = emitAll c (xs ++ [x]).
Proof.
  unfold emitAll, Ctx.emit. simpl. by rewrite map_app, <- app_assoc.
Qed.

Lemma onion_order (marks : list (string * string)) (h : HandlerFunc) c c' err :
  h (emitAll c (map fst marks)) = Return c' err ->
  foldr (fun f acc => f acc) h (map (fun m => around (fst m) (snd m)) marks) c
  = Return (emitAll c' (rev (map snd marks))) err.
Proof.
  revert c. induction marks as [|[pre post] marks IH]; intros c; simpl.
  - rewrite !emitAll_nil. done.
  - intros H. unfold around at 1. simpl.
    rewrite <- emitAll_cons in H. rewrite (IH _ H).
    by rewrite emitAll_snoc.
Qed.

(** C2: [Chain] of [m1, ..., mn] applied to [h] is [m1(m2(...(mn(h))))];
    run on a context it therefore performs the pre-logic of [m1], then of
    [m2], ..., then [h], then the post-logic from [mn] back to [m1]; with no
    middleware it is [h] itself. *)
Theorem Chain_is_nested_application :
  (forall (middleware : list MiddlewareFunc) (h : HandlerFunc),
      Chain middleware h = nest middleware h) /\
  (forall (fs : list (HandlerFunc -> HandlerFunc)) (h : HandlerFunc),
      Chain (map total fs) h = Some (foldr (fun f acc => f acc) h fs)) /\
  (forall (marks : list (string * string)) (h : HandlerFunc) c c' err,
      h (emitAll c (map fst marks)) = Return c' err ->
      exists composed,
        Chain (map (fun m => total (around (fst m) (snd m))) marks) h = Some composed /\
        composed c = Return (emitAll c' (rev (map snd marks))) err) /\
  (forall h : HandlerFunc, Chain [] h = Some h).
Proof.
  split; [|split; [|split]].
  - intros. apply wrapLoop_nest.
  - intros. unfold Chain. by rewrite wrapLoop_nest, nest_total.
  - intros marks h c c' err H. eexists. split.
    + unfold Chain. rewrite wrapLoop_nest.
      rewrite <- (map_map (fun m => around (fst m) (snd m)) total).
      apply nest_total.
    + by apply onion_order.
  - done.
Qed.

Lemma Chain_is_nested_application_witness :
  exists composed,
    Chain (map (fun m => total (around (fst m) (snd m)))
             [("m1-pre", "m1-post"); ("m2-pre", "m2-post")]) okHandler = Some composed /\
    composed (Ctx.newContext (mkRequest "GET" "/"))
    = Return (emitAll (ctxOf (Ctx.String_
                              (emitAll (Ctx.newContext (mkRequest "GET" "/"))
                                 ["m1-pre"; "m2-pre"]) 200 "ok"))
                ["m2-post"; "m1-post"]) None.
Proof.
  apply (proj1 (proj2 (proj2 Chain_is_nested_application))
           [("m1-pre", "m1-post"); ("m2-pre", "m2-post")] okHandler
           (Ctx.newContext (mkRequest "GET" "/"))).
  reflexivity.
Defined.

(** ** Dispatch: error translation and the context pool *)

Lemma chain_pool_irrelevant a h pool :
  App.chain (App.mk (App.router a) (App.middleware a) (App.debug a) pool) h
  = App.chain a h.
Proof. reflexivity. Qed.

Lemma ServeHTTP_Return a h r c err c' e' :
  App.chain a h (acquired a r) = Return c err ->
  translated a c err = Return c' e' ->
  exists a',
    App.ServeHTTP a h r = App.Done a' c' /\
    App.contextPool a' = c' :: idle a.
Proof.
  intros H Ht. unfold App.ServeHTTP, acquired, idle, translated in *.
  destruct (App.poolGet (App.contextPool a)) as [c0 pool]. simpl in *.
  rewrite chain_pool_irrelevant, H.
  change (App.handleError (App.mk (App.router a) (App.middleware a) (App.debug a) pool))
    with (App.handleError a).
  rewrite Ht. eexists. split; reflexivity.
Qed.

Lemma ServeHTTP_translation_panics a h r c err c' v :
  App.chain a h (acquired a r) = Return c err ->
  translated a c err = Panic c' v ->
  exists a',
    App.ServeHTTP a h r = App.Escaped a' c' v /\ App.contextPool a' = idle a.
Proof.
  intros H Ht. unfold App.ServeHTTP, acquired, idle, translated in *.
  destruct (App.poolGet (App.contextPool a)) as [c0 pool]. simpl in *.
  rewrite chain_pool_irrelevant, H.
  change (App.handleError (App.mk (App.router a) (App.middleware a) (App.debug a) pool))
    with (App.handleError a).
  rewrite Ht. eexists. split; reflexivity.
Qed.

Lemma ServeHTTP_Panic a h r c v :
  App.chain a h (acquired a r) = Panic c v ->
  exists a',
    App.ServeHTTP a h r = App.Escaped a' c v /\ App.contextPool a' = idle a.
Proof.
  intros H. unfold App.ServeHTTP, acquired, idle in *.
  destruct (App.poolGet (App.contextPool a)) as [c0 pool]. simpl in *.
  rewrite chain_pool_irrelevant, H.
  eexists. split; reflexivity.
Qed.

(** C5: on a context whose response-written flag is set, [handleError]
    changes nothing, whatever the error: it returns, nothing is sent and
    the context is the one the first writer left.  So when the handler
    chain has written a response and returns an error, [ServeHTTP] ends
    with exactly what the chain had sent. *)
Theorem handleError_written_is_noop :
  (forall (a : App.t) (c : Context) (err : error),
      Ctx.IsWritten c = true ->
      App.handleError a c err = Return c None /\
      Writer (ctxOf (App.handleError a c err)) = Writer c) /\
  (forall (a : App.t) (h : Slice.heap) (r : Request) (c : Context) (e : error),
      App.chain a h (acquired a r) = Return c (Some e) ->
      Ctx.IsWritten c = true ->
      exists a', App.ServeHTTP a h r = App.Done a' c).
Proof.
  split.
  - intros a c err H. unfold App.handleError. rewrite H. done.
  - intros a h r c e Hc Hw.
    assert (Ht : translated a c (Some e) = Return c None).
    { unfold translated, App.handleError. by rewrite Hw. }
    destruct (ServeHTTP_Return _ _ _ _ _ _ _ Hc Ht) as (a' & Hs & _).
    by exists a'.
Qed.

Lemma handleError_written_is_noop_witness :
  (Ctx.IsWritten jobDone = true /\
   App.handleError failingApp jobDone (OtherError "late failure") = Return jobDone None /\
   Writer (ctxOf (App.handleError failingApp jobDone (OtherError "late failure")))
   = Writer jobDone) /\
  (App.chain failingApp [] (acquired failingApp jobRequest)
   = Return jobDone (Some (OtherError "late failure")) /\
   exists a', App.ServeHTTP failingApp [] jobRequest = App.Done a' jobDone).
Proof.
  assert (Hw : Ctx.IsWritten jobDone = true) by reflexivity.
  assert (Hc : App.chain failingApp [] (acquired failingApp jobRequest)
               = Return jobDone (Some (OtherError "late failure")))
    by (vm_compute; reflexivity).
  split.
  - split; [exact Hw|].
    exact (proj1 handleError_written_is_noop failingApp jobDone
             (OtherError "late failure") Hw).
  - split; [exact Hc|].
    exact (proj2 handleError_written_is_noop failingApp [] jobRequest jobDone
             (OtherError "late failure") Hc Hw).
Defined.

(** *** Release of the pooled context *)

Lemma globalLoop_cons m rest n handler :
  (n <= length rest)%nat ->
  App.globalLoop (m :: rest) (S n) handler
  = App.globalLoop [m] 1 (App.globalLoop rest n handler).
Proof.
  revert handler. induction n as [|n IH]; intros handler Hn; [reflexivity|].
  change (App.globalLoop (m :: rest) (S (S n)) handler)
    with (App.globalLoop (m :: rest) (S n)
            (fun ctx =>
               match default nilMiddleware ((m :: rest) !! S n) (fun c => handler c) with
               | Some wrapped => wrapped ctx
               | None => Panic ctx "invalid memory address or nil pointer dereference"
               end)).
  rewrite IH by lia. reflexivity.
Qed.

Lemma wroteHeader_app xs ys :
  Ctx.wroteHeader (xs ++ ys) = Ctx.wroteHeader xs || Ctx.wroteHeader ys.
Proof. unfold Ctx.wroteHeader. apply existsb_app. Qed.

Lemma WriteHeader_taken c code :
  headerTaken c code = true ->
  Ctx.WriteHeader c code = inl (Ctx.emit c (WriteHeaderEv code)).
Proof.
  unfold headerTaken, Ctx.WriteHeader. intros H.
  destruct (Ctx.wroteHeader (Writer c)); [done|]. simpl in H.
  apply andb_true_iff in H as [H1 H2]. apply Z.leb_le in H1, H2.
  destruct (Z.ltb_spec code 100); [lia|]. destruct (Z.ltb_spec 999 code); [lia|]. done.
Qed.

Lemma WriteHeader_refused c code :
  headerTaken c code = false ->
  Ctx.WriteHeader c code = inr ("invalid WriteHeader code " +:+ Strconv.Itoa code).
Proof.
  unfold headerTaken, Ctx.WriteHeader. intros H.
  apply orb_false_iff in H as [-> H]. apply andb_false_iff in H.
  destruct (Z.ltb_spec code 100); [done|]. destruct (Z.ltb_spec 999 code); [done|].
  destruct H as [H|H]; apply Z.leb_gt in H; lia.
Qed.

Lemma headerTaken_SetHeader c name value code :
  headerTaken (Ctx.SetHeader c name value) code = headerTaken c code.
Proof.
  unfold headerTaken, Ctx.SetHeader, Ctx.emit. simpl.
  rewrite wroteHeader_app. simpl. by rewrite orb_false_r.
Qed.

(** [c.JSON] with a body: the response and the error of the write of the
    body when the writer takes the code, a panic after the content type
    has been set when it does not. *)
Lemma JSON_taken c code data :
  headerTaken c code = true -> data <> JNil ->
  Ctx.JSON c code data
  = Return (sent c (jsonHead code ++ [EncodeJSONEv data]))
      (writeErrorAfter c (jsonHead code)).
Proof.
  intros H Hd. unfold Ctx.JSON. cbv zeta.
  rewrite WriteHeader_taken by (by rewrite headerTaken_SetHeader).
  assert (He : Ctx.ret (Ctx.Encode
                 (Ctx.markWritten
                    (Ctx.emit (Ctx.SetHeader c "Content-Type"
                                 "application/json; charset=utf-8")
                       (WriteHeaderEv code))) data)
               = Return (sent c (jsonHead code ++ [EncodeJSONEv data]))
                   (writeErrorAfter c (jsonHead code))).
  { unfold Ctx.ret, Ctx.Encode, Ctx.writeError, writeErrorAfter, sent, jsonHead,
      Ctx.markWritten, Ctx.emit, Ctx.SetHeader. simpl. by rewrite <- !app_assoc. }
  by destruct data.
Qed.

Lemma JSON_refused c code data :
  headerTaken c code = false ->
  Ctx.JSON c code data
  = Panic (Ctx.SetHeader c "Content-Type" "application/json; charset=utf-8")
      ("invalid WriteHeader code " +:+ Strconv.Itoa code).
Proof.
  intros H. unfold Ctx.JSON. cbv zeta.
  by rewrite WriteHeader_refused by (by rewrite headerTaken_SetHeader).
Qed.

Lemma Error_sent c code message :
  headerTaken c code = true ->
  Ctx.Error c code message
  = Return (sent c (errorEvents code message)) (writeErrorAfter c (jsonHead code)).
Proof. intros H. unfold Ctx.Error. by rewrite JSON_taken. Qed.

Lemma headerTaken_valid c code : 100 <= code <= 999 -> headerTaken c code = true.
Proof.
  intros H. unfold headerTaken. apply orb_true_iff. right.
  apply andb_true_iff. split; apply Z.leb_le; lia.
Qed.

(** [handleError] returns exactly when the response is written already
    or the error is one it gets through; otherwise it panics, and has
    sent no status. *)
Lemma handleError_returns a c e :
  Ctx.IsWritten c || translatable a c e = true ->
  exists c', App.handleError a c e = Return c' None.
Proof.
  unfold App.handleError, translatable. destruct (Ctx.IsWritten c); [by eexists|].
  cbn [orb]. intros H. destruct e as [code message cause|text|]; [| |done].
  - destruct (App.debug a), cause as [[text|v]|]; try done.
    + rewrite JSON_taken by done. by eexists.
    + rewrite Error_sent by done. by eexists.
    + rewrite Error_sent by done. by eexists.
    + rewrite Error_sent by done. by eexists.
    + rewrite Error_sent by done. by eexists.
  - destruct (App.debug a).
    + destruct text as [text|v]; [|done].
      rewrite JSON_taken by (done || by apply headerTaken_valid). by eexists.
    + unfold Ctx.InternalError. cbv zeta.
      rewrite Error_sent by (by apply headerTaken_valid). by eexists.
Qed.

Lemma handleError_panics a c e :
  Ctx.IsWritten c || translatable a c e = false ->
  exists c' v,
    App.handleError a c e = Panic c' v /\
    Forall (fun ev => match ev with SetHeaderEv _ _ => True | _ => False end)
      (drop (length (Writer c)) (Writer c')) /\
    take (length (Writer c)) (Writer c') = Writer c.
Proof.
  unfold App.handleError, translatable. destruct (Ctx.IsWritten c); [done|].
  cbn [orb]. intros H.
  assert (Hsame : Forall (fun ev => match ev with SetHeaderEv _ _ => True | _ => False end)
                    (drop (length (Writer c)) (Writer c)) /\
                  take (length (Writer c)) (Writer c) = Writer c).
  { rewrite drop_all, firstn_all. by split. }
  assert (Hset : forall name value,
            Forall (fun ev => match ev with SetHeaderEv _ _ => True | _ => False end)
              (drop (length (Writer c)) (Writer (Ctx.SetHeader c name value))) /\
            take (length (Writer c)) (Writer (Ctx.SetHeader c name value)) = Writer c).
  { intros name value. unfold Ctx.SetHeader, Ctx.emit. simpl.
    rewrite drop_app_length, take_app_length. split; [|done]. by repeat constructor. }
  destruct e as [code message cause|text|].
  - destruct (App.debug a), cause as [[text|v]|].
    + rewrite JSON_refused by done. eexists _, _. split; [reflexivity|]. apply Hset.
    + eexists _, _. split; [reflexivity|]. exact Hsame.
    + unfold Ctx.Error. rewrite JSON_refused by done.
      eexists _, _. split; [reflexivity|]. apply Hset.
    + unfold Ctx.Error. rewrite JSON_refused by done.
      eexists _, _. split; [reflexivity|]. apply Hset.
    + unfold Ctx.Error. rewrite JSON_refused by done.
      eexists _, _. split; [reflexivity|]. apply Hset.
    + unfold Ctx.Error. rewrite JSON_refused by done.
      eexists _, _. split; [reflexivity|]. apply Hset.
  - destruct (App.debug a), text as [text|v]; try done.
    eexists _, _. split; [reflexivity|]. exact Hsame.
  - eexists _, _. split; [reflexivity|]. exact Hsame.
Qed.

Lemma sendDefaultPanicResponse_returns c :
  exists c', Middleware.sendDefaultPanicResponse c = Return c' None.
Proof.
  unfold Middleware.sendDefaultPanicResponse. destruct (Ctx.IsWritten c); [by eexists|].
  rewrite JSON_taken by (done || by apply headerTaken_valid). by eexists.
Qed.

Lemma Recovery_outermost_returns rest handler c :
  exists c' err,
    App.globalLoop (Middleware.Recovery :: rest) (S (length rest)) handler c
    = Return c' err /\
    (forall c1 v, App.globalLoop rest (length rest) handler c = Panic c1 v -> err = None).
Proof.
  rewrite globalLoop_cons by lia. simpl.
  destruct (App.globalLoop rest (length rest) handler c) as [c' err|c' v].
  - eexists _, _. split; [reflexivity|]. by intros.
  - destruct (sendDefaultPanicResponse_returns c') as [c'' ->].
    eexists _, _. split; [reflexivity|]. done.
Qed.

(** C4, as stated, fails, in two ways.  A handler panics, nothing in the
    chain recovers it, the server above [ServeHTTP] does: the context
    taken from the pool is not put back (the pool held one idle context
    before the request and holds none after it).  And a handler returns
    an error with the status code 0, with [Recovery] as the first global
    middleware: the chain returns, [handleError] panics in [WriteHeader]
    outside the chain, and the context is not put back either. *)
Lemma release_not_unconditional :
  (App.contextPool boomApp = [Ctx.newContext (mkRequest "GET" "/earlier")] /\
   (exists a' c, App.ServeHTTP boomApp [] (mkRequest "GET" "/boom")
                 = App.Escaped a' c "boom") /\
   App.contextPool (supervised boomApp [] (mkRequest "GET" "/boom")) = [] /\
   ~ (exists c, App.contextPool (supervised boomApp [] (mkRequest "GET" "/boom"))
                = c :: idle boomApp)) /\
  (App.contextPool zeroApp = [Ctx.newContext (mkRequest "GET" "/earlier")] /\
   Slice.view guardedHeap (App.middleware zeroApp) = [Middleware.Recovery] /\
   App.chain zeroApp guardedHeap (acquired zeroApp (mkRequest "GET" "/zero"))
   = Return (Ctx.SetParams (Ctx.newContext (mkRequest "GET" "/zero")) ∅)
       (Some (NewHTTPError 0 "oops")) /\
   (exists a' c, App.ServeHTTP zeroApp guardedHeap (mkRequest "GET" "/zero")
                 = App.Escaped a' c "invalid WriteHeader code 0") /\
   App.contextPool (supervised zeroApp guardedHeap (mkRequest "GET" "/zero")) = []).
Proof.
  split.
  - split; [reflexivity|]. split; [|split].
    + eexists _, _. vm_compute. reflexivity.
    + vm_compute. reflexivity.
    + intros [c H]. vm_compute in H. discriminate.
  - split; [reflexivity|]. split; [reflexivity|]. split; [|split].
    + vm_compute. reflexivity.
    + eexists _, _. vm_compute. reflexivity.
    + vm_compute. reflexivity.
Qed.

(** C4, amended: [ServeHTTP] puts the context back exactly when the
    handler chain returns and the error translation that follows
    returns: the pool is then the context as the request left it, on top
    of the contexts that were idle.  The translation returns when the
    chain returned no error, when the response is written already, and
    when [handleError] gets through the error (it is not a nil
    [*HTTPError], its text is there where debug mode asks for it, and the
    writer takes its status code).  With [Recovery] as the first global
    middleware the chain always returns, with no error after a panic
    it recovered, and the context is then put back.  A panic that leaves
    the chain leaves [ServeHTTP] before the release, and so does a panic
    of [handleError], which runs outside the chain. *)
Theorem release_when_translation_returns :
  (forall (a : App.t) (h : Slice.heap) (r : Request) c err c' e',
      App.chain a h (acquired a r) = Return c err ->
      translated a c err = Return c' e' ->
      exists a',
        App.ServeHTTP a h r = App.Done a' c' /\
        App.contextPool a' = c' :: idle a /\
        App.contextPool (supervised a h r) = c' :: idle a) /\
  (forall (a : App.t) (c : Context) (err : option error),
      (exists c', translated a c err = Return c' None) <->
      match err with
      | None => True
      | Some e => Ctx.IsWritten c || translatable a c e = true
      end) /\
  (forall (a : App.t) (h : Slice.heap) (r : Request) rest,
      Slice.view h (App.middleware a) = Middleware.Recovery :: rest ->
      exists c err,
        App.chain a h (acquired a r) = Return c err /\
        (forall c1 v,
            App.globalLoop rest (length rest) (Router.handleRequest (App.router a) h)
              (acquired a r) = Panic c1 v ->
            err = None /\
            exists a',
              App.ServeHTTP a h r = App.Done a' c /\
              App.contextPool a' = c :: idle a)) /\
  (forall (a : App.t) (h : Slice.heap) (r : Request) c v,
      App.chain a h (acquired a r) = Panic c v ->
      exists a',
        App.ServeHTTP a h r = App.Escaped a' c v /\
        App.contextPool a' = idle a) /\
  (forall (a : App.t) (h : Slice.heap) (r : Request) c err c' v,
      App.chain a h (acquired a r) = Return c err ->
      translated a c err = Panic c' v ->
      exists a',
        App.ServeHTTP a h r = App.Escaped a' c' v /\
        App.contextPool a' = idle a /\
        App.contextPool (supervised a h r) = idle a).
Proof.
  split; [|split; [|split; [|split]]].
  - intros a h r c err c' e' H Ht.
    destruct (ServeHTTP_Return _ _ _ _ _ _ _ H Ht) as (a' & Hs & Hp).
    exists a'. repeat split; try done.
    unfold supervised. by rewrite Hs.
  - intros a c [e|]; cbn [translated].
    + split.
      * intros [c' Hr].
        destruct (Ctx.IsWritten c || translatable a c e) eqn:Ht; [done|].
        destruct (handleError_panics a c e Ht) as (c1 & v & Hp & _). congruence.
      * apply handleError_returns.
    + split; [done|]. intros _. by eexists.
  - intros a h r rest Hv.
    destruct (Recovery_outermost_returns rest
                (Router.handleRequest (App.router a) h) (acquired a r))
      as (c & err & H & Hnone).
    assert (Hc : App.chain a h (acquired a r) = Return c err).
    { unfold App.chain. rewrite Hv. exact H. }
    exists c, err. split; [exact Hc|]. intros c1 v Hp.
    specialize (Hnone c1 v Hp). subst err. split; [done|].
    by apply (ServeHTTP_Return a h r c None c None).
  - intros a h r c v H. by apply ServeHTTP_Panic.
  - intros a h r c err c' v H Ht.
    destruct (ServeHTTP_translation_panics _ _ _ _ _ _ _ H Ht) as (a' & Hs & Hp).
    exists a'. repeat split; try done.
    unfold supervised. by rewrite Hs.
Qed.

Lemma release_when_translation_returns_witness :
  (App.chain failingApp [] (acquired failingApp jobRequest)
   = Return jobDone (Some (OtherError "late failure")) /\
   translated failingApp jobDone (Some (OtherError "late failure")) = Return jobDone None /\
   exists a',
     App.ServeHTTP failingApp [] jobRequest = App.Done a' jobDone /\
     App.contextPool a' = jobDone :: idle failingApp /\
     App.contextPool (supervised failingApp [] jobRequest) = jobDone :: idle failingApp) /\
  (Slice.view guardedHeap (App.middleware guardedApp) = [Middleware.Recovery] /\
   exists c err,
     App.chain guardedApp guardedHeap (acquired guardedApp (mkRequest "GET" "/boom"))
     = Return c err) /\
  (App.chain boomApp [] (acquired boomApp (mkRequest "GET" "/boom"))
   = Panic (Ctx.SetParams (Ctx.newContext (mkRequest "GET" "/boom")) ∅) "boom" /\
   exists a',
     App.ServeHTTP boomApp [] (mkRequest "GET" "/boom")
     = App.Escaped a' (Ctx.SetParams (Ctx.newContext (mkRequest "GET" "/boom")) ∅) "boom" /\
     App.contextPool a' = idle boomApp).
Proof.
  assert (H1 : App.chain failingApp [] (acquired failingApp jobRequest)
               = Return jobDone (Some (OtherError "late failure")))
    by (vm_compute; reflexivity).
  assert (H1' : translated failingApp jobDone (Some (OtherError "late failure"))
                = Return jobDone None) by reflexivity.
  assert (H2 : Slice.view guardedHeap (App.middleware guardedApp) = [Middleware.Recovery])
    by reflexivity.
  assert (H3 : App.chain boomApp [] (acquired boomApp (mkRequest "GET" "/boom"))
               = Panic (Ctx.SetParams (Ctx.newContext (mkRequest "GET" "/boom")) ∅) "boom")
    by (vm_compute; reflexivity).
  split; [|split].
  - split; [exact H1|]. split; [exact H1'|].
    exact (proj1 release_when_translation_returns failingApp [] jobRequest _ _ _ _ H1 H1').
  - split; [exact H2|].
    destruct (proj1 (proj2 (proj2 release_when_translation_returns)) guardedApp
                guardedHeap (mkRequest "GET" "/boom") [] H2) as (c & err & Hc & _).
    by exists c, err.
  - split; [exact H3|].
    exact (proj1 (proj2 (proj2 (proj2 release_when_translation_returns))) boomApp []
             (mkRequest "GET" "/boom") _ _ H3).
Defined.

(** ** Slices and route groups *)

Lemma writeAt_spec (xs l : list MiddlewareFunc) (i : nat) :
  (i + length xs <= length l)%nat ->
  Slice.writeAt l i xs = take i l ++ xs ++ drop (i + length xs) l.
Proof.
  revert l i. induction xs as [|x xs IH]; intros l i H; simpl in *.
  - by rewrite Nat.add_0_r, take_drop.
  - rewrite IH by (rewrite length_insert; lia).
    rewrite (take_S_r _ _ x) by (apply list_lookup_insert_eq; lia).
    rewrite take_insert_ge by lia.
    rewrite drop_insert_lt by lia.
    rewrite <- app_assoc. simpl. do 4 f_equal. lia.
Qed.

Lemma view_length h s : Slice.valid h s -> length (Slice.view h s) = Slice.len s.
Proof.
  intros [Hle [H0|[Ha Hc]]]; unfold Slice.view.
  - assert (Slice.len s = 0)%nat as -> by lia. by rewrite take_0.
  - rewrite length_take, length_drop. lia.
Qed.

(** A slice that was valid sees the same elements in any heap that kept
    the arrays it had. *)
Lemma view_frame h h' s :
  Slice.valid h s ->
  (forall a, (a < length h)%nat -> h' !! a = h !! a) ->
  Slice.view h' s = Slice.view h s.
Proof.
  intros [Hle [H0|[Ha Hc]]] Hf; unfold Slice.view, Slice.array.
  - assert (Slice.len s = 0)%nat as -> by lia. by rewrite !take_0.
  - by rewrite Hf.
Qed.

Lemma valid_frame h h' s :
  Slice.valid h s ->
  (length h <= length h')%nat ->
  (forall a, (a < length h)%nat -> h' !! a = h !! a) ->
  Slice.valid h' s.
Proof.
  intros [Hle [H0|[Ha Hc]]] Hl Hf; split; try done.
  - by left.
  - right. split; [lia|]. unfold Slice.array in *. by rewrite Hf.
Qed.

Lemma snoc_frame (h : Slice.heap) x a : (a < length h)%nat -> (h ++ [x]) !! a = h !! a.
Proof. intros. by apply lookup_app_l. Qed.

Lemma array_snoc (h : Slice.heap) x : Slice.array (h ++ [x]) (length h) = x.
Proof.
  unfold Slice.array. rewrite lookup_app_r by lia. by rewrite Nat.sub_diag.
Qed.

Lemma insert_snoc (h : Slice.heap) x y : <[length h := y]> (h ++ [x]) = h ++ [y].
Proof.
  replace (length h) with (length h + 0)%nat at 1 by lia.
  by rewrite insert_app_r.
Qed.

(** [make] then the two [copy] calls of [Group] and [handle]: the heap
    gains one array, the concatenation; nothing else changes. *)
Lemma concat_into_fresh h G MW :
  Slice.valid h G -> Slice.valid h MW ->
  let '(h1, combined) := Slice.make h (Slice.len G + Slice.len MW) in
  let h2 := Slice.copy h1 combined (Slice.view h1 G) in
  let h3 := Slice.copy h2 (Slice.from combined (Slice.len G)) (Slice.view h2 MW) in
  h3 = h ++ [Slice.view h G ++ Slice.view h MW] /\
  combined = Slice.mk (length h) 0 (Slice.len G + Slice.len MW)
               (Slice.len G + Slice.len MW).
Proof.
  intros HG HMW. unfold Slice.make. split; [|reflexivity].
  pose proof (view_length _ _ HG) as HlG.
  pose proof (view_length _ _ HMW) as HlMW.
  set (n := Slice.len G) in *. set (m := Slice.len MW) in *.
  set (A0 := replicate (n + m) nilMiddleware).
  assert (H1 : Slice.view (h ++ [A0]) G = Slice.view h G)
    by (apply view_frame; [done|intros; by apply snoc_frame]).
  rewrite H1.
  assert (H2 : Slice.copy (h ++ [A0]) (Slice.mk (length h) 0 (n + m) (n + m))
                 (Slice.view h G)
               = h ++ [Slice.view h G ++ replicate m nilMiddleware]).
  { unfold Slice.copy. simpl. rewrite array_snoc.
    rewrite take_ge by lia.
    rewrite writeAt_spec by (unfold A0; rewrite length_replicate; lia).
    rewrite take_0. simpl. rewrite HlG. unfold A0.
    rewrite drop_replicate. replace (n + m - n)%nat with m by lia.
    apply insert_snoc. }
  rewrite H2.
  assert (H3 : Slice.view (h ++ [Slice.view h G ++ replicate m nilMiddleware]) MW
               = Slice.view h MW)
    by (apply view_frame; [done|intros; by apply snoc_frame]).
  rewrite H3.
  unfold Slice.copy, Slice.from. simpl. rewrite array_snoc.
  replace (n + m - n)%nat with m by lia.
  rewrite take_ge by lia.
  rewrite writeAt_spec
    by (rewrite length_app, length_replicate; lia).
  rewrite take_app_length' by lia.
  rewrite drop_ge by (rewrite length_app, length_replicate; lia).
  rewrite app_nil_r. apply insert_snoc.
Qed.

Lemma view_whole (h : Slice.heap) xs k :
  k = length xs ->
  Slice.view (h ++ [xs]) (Slice.mk (length h) 0 k k) = xs.
Proof.
  intros ->. unfold Slice.view. simpl. rewrite array_snoc.
  by rewrite drop_0, take_ge.
Qed.

Lemma valid_whole (h : Slice.heap) xs k :
  k = length xs -> Slice.valid (h ++ [xs]) (Slice.mk (length h) 0 k k).
Proof.
  intros ->. split; [done|]. right. simpl. rewrite array_snoc, length_app. simpl.
  split; lia.
Qed.

(** [append]: the slice returned shows the old elements and then the new
    ones; arrays other than the slice's own are left as they were. *)
Lemma append_spec h s xs :
  Slice.valid h s ->
  let '(h', s') := Slice.append h s xs in
  Slice.view h' s' = Slice.view h s ++ xs /\
  Slice.valid h' s' /\
  (length h <= length h')%nat /\
  (Slice.arr s' = Slice.arr s \/ Slice.arr s' = length h) /\
  (forall a, (a < length h)%nat -> a <> Slice.arr s -> h' !! a = h !! a).
Proof.
  intros Hv. pose proof (view_length _ _ Hv) as Hl.
  unfold Slice.append.
  destruct (Nat.leb_spec (Slice.len s + length xs) (Slice.cap s)) as [Hfit|Hgrow].
  - destruct Hv as [Hle [H0|[Ha Hc]]].
    + assert (length xs = 0)%nat as Hx by lia.
      assert (Slice.len s = 0)%nat as Hs by lia.
      destruct xs; [|discriminate]. simpl.
      assert (Hid : <[Slice.arr s := Slice.array h (Slice.arr s)]> h = h).
      { apply list_insert_id'. intros Hlt. unfold Slice.array.
        destruct (lookup_lt_is_Some_2 h _ Hlt) as [x ->]. done. }
      rewrite Hid, Nat.add_0_r, app_nil_r.
      split; [|split; [|split; [|split]]]; simpl; try done; try lia;
        try (by left); try (split; [done|by left]).
    + set (A := Slice.array h (Slice.arr s)) in *.
      set (A' := Slice.writeAt A (Slice.off s + Slice.len s) xs).
      assert (HA' : A' = take (Slice.off s + Slice.len s) A ++ xs
                         ++ drop (Slice.off s + Slice.len s + length xs) A)
        by (apply writeAt_spec; lia).
      assert (Harr : Slice.array (<[Slice.arr s := A']> h) (Slice.arr s) = A').
      { unfold Slice.array. by rewrite list_lookup_insert_eq. }
      split; [|split; [|split; [|split]]]; simpl.
      * unfold Slice.view. simpl. rewrite Harr, HA'. fold A.
        assert (E : take (Slice.off s + Slice.len s) A
                    = take (Slice.off s) A ++ take (Slice.len s) (drop (Slice.off s) A)).
        { rewrite <- (take_drop (Slice.off s) A) at 1.
          apply take_app_add'. rewrite length_take. lia. }
        rewrite E, <- app_assoc.
        rewrite drop_app_length' by (rewrite length_take; lia).
        rewrite app_assoc.
        apply take_app_length'.
        rewrite length_app, length_take, length_drop. lia.
      * split; [simpl; lia|]. right. rewrite length_insert. split; [done|]. simpl.
        rewrite Harr, HA'. rewrite !length_app, length_take, length_drop. lia.
      * by rewrite length_insert.
      * by left.
      * intros a _ Hne. by rewrite list_lookup_insert_ne.
  - split; [|split; [|split; [|split]]]; simpl.
    + apply view_whole. rewrite length_app. lia.
    + apply valid_whole. rewrite length_app. lia.
    + rewrite length_app. lia.
    + by right.
    + intros a Ha _. by apply snoc_frame.
Qed.

Lemma useAll_apart h0 calls :
  forall h' g,
    apart h0 h' (RouteGroup.middleware g) ->
    let '(h'', g') := useAll h' g calls in
    apart h0 h'' (RouteGroup.middleware g') /\
    Slice.view h'' (RouteGroup.middleware g')
    = Slice.view h' (RouteGroup.middleware g) ++ concat calls /\
    RouteGroup.prefix g' = RouteGroup.prefix g.
Proof.
  induction calls as [|mw calls IH]; intros h' g Hap; simpl.
  - by rewrite app_nil_r.
  - destruct Hap as (Hv & Harr & Hlen & Hfr).
    unfold RouteGroup.Use.
    pose proof (append_spec h' (RouteGroup.middleware g) mw Hv) as Happ.
    destruct (Slice.append h' (RouteGroup.middleware g) mw) as [h1 s1].
    destruct Happ as (Hview & Hv1 & Hlen1 & Harr1 & Hfr1).
    assert (Hap1 : apart h0 h1 (RouteGroup.middleware (RouteGroup.mk (RouteGroup.prefix g) s1))).
    { simpl. split; [done|]. split; [destruct Harr1; lia|]. split; [lia|].
      intros a Ha. rewrite Hfr1 by lia. by apply Hfr. }
    specialize (IH h1 (RouteGroup.mk (RouteGroup.prefix g) s1) Hap1).
    destruct (useAll h1 (RouteGroup.mk (RouteGroup.prefix g) s1) calls) as [h2 g2].
    destruct IH as (Hap2 & Hview2 & Hpre2).
    split; [done|]. split; [|done].
    rewrite Hview2. simpl. rewrite Hview. by rewrite <- app_assoc.
Qed.

(** C9: the child of a group has the parent's prefix followed by the new
    prefix without its trailing separator, and the parent's middleware
    followed by the new ones, in an array of its own: no slice that
    existed, the parent's included, shows other elements afterwards, also
    after later [Use] calls on the child.  A route registered on a group
    goes to the end of the router's table under the group's prefix followed
    by the pattern, with the group's middleware followed by the ones given
    at the call. *)
Theorem group_prefix_and_middleware :
  (forall (h : Slice.heap) (g : RouteGroup.t) (q : string) (mw : Slice.t),
      Slice.valid h (RouteGroup.middleware g) -> Slice.valid h mw ->
      let '(h', child) := RouteGroup.Group h g q mw in
      RouteGroup.prefix child = RouteGroup.prefix g +:+ TrimSuffix q "/" /\
      Slice.view h' (RouteGroup.middleware child)
      = Slice.view h (RouteGroup.middleware g) ++ Slice.view h mw /\
      (length h <= Slice.arr (RouteGroup.middleware child))%nat /\
      (forall s, Slice.valid h s -> Slice.view h' s = Slice.view h s) /\
      (forall calls,
          let '(h'', child') := useAll h' child calls in
          Slice.view h'' (RouteGroup.middleware g)
          = Slice.view h (RouteGroup.middleware g) /\
          Slice.view h'' (RouteGroup.middleware child')
          = (Slice.view h (RouteGroup.middleware g) ++ Slice.view h mw) ++ concat calls)) /\
  (forall (h : Slice.heap) (router : Router.t) (g : RouteGroup.t)
          (method pattern : string) (hd : HandlerFunc) (mw : Slice.t),
      Slice.valid h (RouteGroup.middleware g) -> Slice.valid h mw ->
      let '(h', result) := RouteGroup.handle h router g method pattern hd mw in
      (forall s, Slice.valid h s -> Slice.view h' s = Slice.view h s) /\
      match parsePattern (RouteGroup.prefix g +:+ pattern) with
      | Ok (re, names) =>
          exists route,
            result = Ok (Router.mk (Router.routes router ++ [route])
                           (Router.notFound router) (Router.methodNotAllowed router)) /\
            Route.method route = method /\
            Route.pattern route = RouteGroup.prefix g +:+ pattern /\
            Route.handler route = hd /\
            Slice.view h' (Route.middleware route)
            = Slice.view h (RouteGroup.middleware g) ++ Slice.view h mw
      | Err e => result = Err e
      end).
Proof.
  split.
  - intros h g q mw HG HMW. unfold RouteGroup.Group.
    pose proof (concat_into_fresh h _ _ HG HMW) as Hc.
    destruct (Slice.make h _) as [h1 combined].
    destruct Hc as [-> ->].
    pose proof (view_length _ _ HG) as HlG.
    pose proof (view_length _ _ HMW) as HlMW.
    assert (Hview : Slice.view
                      (h ++ [Slice.view h (RouteGroup.middleware g) ++ Slice.view h mw])
                      (Slice.mk (length h) 0
                         (Slice.len (RouteGroup.middleware g) + Slice.len mw)
                         (Slice.len (RouteGroup.middleware g) + Slice.len mw))
                    = Slice.view h (RouteGroup.middleware g) ++ Slice.view h mw)
      by (apply view_whole; rewrite length_app; lia).
    split; [done|]. split; [done|]. split; [simpl; lia|]. split.
    + intros s Hs. apply view_frame; [done|]. intros. by apply snoc_frame.
    + intros calls.
      match goal with |- context [useAll ?h1 ?c calls] =>
        pose proof (useAll_apart h calls h1 c) as Hu;
        destruct (useAll h1 c calls) as [h2 child'] end.
      destruct Hu as ((_ & _ & Hlen & Hfr) & Hv2 & _).
      { split; [|split; [simpl; lia|split]].
        - apply valid_whole. rewrite length_app. simpl. lia.
        - rewrite length_app. lia.
        - intros. by apply snoc_frame. }
      split.
      * by apply view_frame.
      * rewrite Hv2. simpl. by rewrite Hview.
  - intros h router g method pattern hd mw HG HMW. unfold RouteGroup.handle.
    pose proof (concat_into_fresh h _ _ HG HMW) as Hc.
    destruct (Slice.make h _) as [h1 combined].
    destruct Hc as [-> ->].
    pose proof (view_length _ _ HG) as HlG.
    pose proof (view_length _ _ HMW) as HlMW.
    split.
    + intros s Hs. apply view_frame; [done|]. intros. by apply snoc_frame.
    + unfold Router.Handle.
      destruct (parsePattern (RouteGroup.prefix g +:+ pattern)) as [[re names]|e]; [|done].
      eexists. split; [reflexivity|]. simpl. repeat split.
      apply view_whole. rewrite length_app. lia.
Qed.

Lemma group_prefix_and_middleware_witness :
  (exists h' child,
      RouteGroup.Group apiHeap apiGroup "/admin/" adminArgs = (h', child) /\
      RouteGroup.prefix child = "/api/v1/admin" /\
      Slice.view h' (RouteGroup.middleware child) = [authMw; adminMw] /\
      (forall calls,
          Slice.view (fst (useAll h' child calls)) (RouteGroup.middleware apiGroup)
          = [authMw])) /\
  (exists h' router route,
      RouteGroup.handle apiHeap Router.NewRouter apiGroup "GET" "/users/{id}"
        okHandler adminArgs = (h', Ok router) /\
      Router.routes router = [route] /\
      Route.pattern route = "/api/v1/users/{id}" /\
      Slice.view h' (Route.middleware route) = [authMw; adminMw]).
Proof.
  assert (Hg : Slice.valid apiHeap (RouteGroup.middleware apiGroup)) by valid_slice.
  assert (Ha : Slice.valid apiHeap adminArgs) by valid_slice.
  split.
  - pose proof (proj1 group_prefix_and_middleware apiHeap apiGroup "/admin/" adminArgs Hg Ha)
      as H.
    destruct (RouteGroup.Group apiHeap apiGroup "/admin/" adminArgs) as [h' child].
    destruct H as (Hp & Hv & _ & _ & Hu).
    exists h', child. split; [reflexivity|]. split; [exact Hp|]. split; [exact Hv|].
    intros calls. specialize (Hu calls).
    destruct (useAll h' child calls) as [h'' child']. exact (proj1 Hu).
  - pose proof (proj2 group_prefix_and_middleware apiHeap Router.NewRouter apiGroup
                  "GET" "/users/{id}" okHandler adminArgs Hg Ha) as H.
    destruct (RouteGroup.handle apiHeap Router.NewRouter apiGroup "GET" "/users/{id}"
                okHandler adminArgs) as [h' result].
    destruct H as [_ H].
    destruct (parsePattern (RouteGroup.prefix apiGroup +:+ "/users/{id}"))
      as [[re names]|e] eqn:Hpp; [|by vm_compute in Hpp].
    destruct H as (route & -> & _ & Hpat & _ & Hview).
    eexists h', _, route. split; [reflexivity|]. split; [reflexivity|].
    split; [exact Hpat|exact Hview].
Defined.

(** ** Strings: slices, prefixes and [Index] *)

Lemma skip_length n s : String.length (skip n s) = (String.length s - n)%nat.
Proof.
  revert s. induction n as [|n IH]; intros [|c s]; simpl; try done; lia.
Qed.

Lemma app_cons x a b : String x a +:+ b = String x (a +:+ b).
Proof. reflexivity. Qed.

Lemma app_nil_s b : EmptyString +:+ b = b.
Proof. reflexivity. Qed.

Lemma skip_app a b : skip (String.length a) (a +:+ b) = b.
Proof. induction a as [|c a IH]; [done|]. rewrite app_cons. simpl. done. Qed.

Lemma skip_skip n m s : skip n (skip m s) = skip (m + n) s.
Proof.
  revert s. induction m as [|m IH]; intros s; simpl; [done|].
  destruct s as [|c s]; [by destruct n|]. apply IH.
Qed.

Lemma substring_skip a b m s :
  String.substring (a + b) m s = String.substring b m (skip a s).
Proof.
  revert s. induction a as [|a IH]; intros s; simpl; [done|].
  destruct s as [|c s]; [|apply IH].
  by destruct b, m.
Qed.

Lemma substring_0_app a b : String.substring 0 (String.length a) (a +:+ b) = a.
Proof.
  induction a as [|c a IH]; [rewrite app_nil_s; by destruct b|].
  rewrite app_cons. simpl. by rewrite IH.
Qed.

Lemma substring_0_all s : String.substring 0 (String.length s) s = s.
Proof. induction s as [|c s IH]; simpl; [done|]. by rewrite IH. Qed.

Lemma app_length a b :
  String.length (a +:+ b) = (String.length a + String.length b)%nat.
Proof.
  induction a as [|c a IH]; [done|]. rewrite app_cons. simpl. by rewrite IH.
Qed.

Lemma app_assoc_s a b c : (a +:+ b) +:+ c = a +:+ (b +:+ c).
Proof.
  induction a as [|x a IH]; [done|]. rewrite !app_cons. by rewrite IH.
Qed.

Lemma app_empty_r s : s +:+ EmptyString = s.
Proof.
  induction s as [|c s IH]; [done|]. rewrite app_cons. by rewrite IH.
Qed.

Lemma sliceFrom_skip s i :
  0 <= i <= len s -> sliceFrom s i = skip (Z.to_nat i) s.
Proof.
  intros Hi. unfold sliceFrom, slice, len in *.
  replace (Z.to_nat i) with (Z.to_nat i + 0)%nat at 1 by lia.
  rewrite substring_skip.
  replace (Z.to_nat (Z.of_nat (String.length s) - i))
    with (String.length (skip (Z.to_nat i) s)) by (rewrite skip_length; lia).
  apply substring_0_all.
Qed.

Lemma slice_skip s lo hi :
  0 <= lo ->
  slice s lo hi = String.substring 0 (Z.to_nat (hi - lo)) (skip (Z.to_nat lo) s).
Proof.
  intros Hlo. unfold slice.
  replace (Z.to_nat lo) with (Z.to_nat lo + 0)%nat at 1 by lia.
  apply substring_skip.
Qed.

Lemma byteAt_skip s i :
  0 <= i ->
  byteAt s i = match skip (Z.to_nat i) s with
               | String c _ => c
               | EmptyString => Ascii.zero
               end.
Proof.
  intros Hi. unfold byteAt. generalize (Z.to_nat i) as n. clear.
  intros n. revert s. induction n as [|n IH]; intros [|c s]; simpl; done.
Qed.

Lemma HasPrefix_byte x s c :
  HasPrefix (String x s) (String c EmptyString) = Ascii.eqb x c.
Proof.
  unfold HasPrefix. simpl.
  destruct (ascii_dec c x) as [->|Hne].
  - rewrite Ascii.eqb_refl. by destruct s.
  - symmetry. apply Ascii.eqb_neq. congruence.
Qed.

Lemma Index_cons x s c :
  Index (String x s) (String c EmptyString)
  = if Ascii.eqb x c then 0
    else let r := Index s (String c EmptyString) in if r <? 0 then -1 else r + 1.
Proof.
  change (Index (String x s) (String c EmptyString))
    with (if HasPrefix (String x s) (String c EmptyString) then 0
          else let r := Index s (String c EmptyString) in if r <? 0 then -1 else r + 1).
  by rewrite HasPrefix_byte.
Qed.

Lemma Index_nil c : Index EmptyString (String c EmptyString) = -1.
Proof. reflexivity. Qed.

Lemma Index_range s c :
  Index s (String c EmptyString) = -1 \/
  0 <= Index s (String c EmptyString) < len s.
Proof.
  induction s as [|x s IH]; [by left|].
  rewrite Index_cons. unfold len in *. simpl String.length.
  destruct (Ascii.eqb x c); [right; lia|].
  cbv zeta. destruct IH as [->|IH]; [by left|].
  destruct (Z.ltb_spec (Index s (String c EmptyString)) 0); [lia|right; lia].
Qed.

Lemma Index_absent s c :
  occurs c s = false -> Index s (String c EmptyString) = -1.
Proof.
  induction s as [|x s IH]; [done|]. intros H. simpl in H.
  apply orb_false_iff in H as [Hx Hs]. rewrite Index_cons, Hx.
  by rewrite (IH Hs).
Qed.

Lemma Index_found u c v :
  occurs c u = false ->
  Index (u +:+ String c v) (String c EmptyString) = len u.
Proof.
  induction u as [|x u IH]; intros H; simpl in H.
  - by rewrite app_nil_s, Index_cons, Ascii.eqb_refl.
  - apply orb_false_iff in H as [Hx Hu]. rewrite app_cons, Index_cons, Hx.
    rewrite (IH Hu). unfold len. simpl String.length.
    destruct (Z.ltb_spec (Z.of_nat (String.length u)) 0); lia.
Qed.

(** Where [Index] finds the byte, the string splits there. *)
Lemma Index_split s c :
  Index s (String c EmptyString) <> -1 ->
  exists u v, s = u +:+ String c v /\ occurs c u = false /\
              Index s (String c EmptyString) = len u.
Proof.
  induction s as [|x s IH]; [done|].
  rewrite Index_cons. destruct (Ascii.eqb x c) eqn:Hx.
  - intros _. apply Ascii.eqb_eq in Hx as ->.
    by exists EmptyString, s.
  - cbv zeta.
    destruct (Z.ltb_spec (Index s (String c EmptyString)) 0) as [Hlt|Hge]; [done|].
    intros _. destruct IH as (u & v & -> & Hu & Hi).
    { destruct (Index_range s c); lia. }
    exists (String x u), v. rewrite app_cons. simpl. rewrite Hx, Hu. repeat split.
    rewrite Hi. unfold len. simpl String.length. lia.
Qed.

Lemma occurs_app c a b : occurs c (a +:+ b) = occurs c a || occurs c b.
Proof.
  induction a as [|x a IH]; [done|]. rewrite app_cons. simpl.
  by rewrite IH, orb_assoc.
Qed.

(** ** The scan of [parsePattern], read on the rest of the pattern *)

Lemma length_zero s : String.length s = 0%nat -> s = EmptyString.
Proof. by destruct s. Qed.

Lemma skip_succ n s c s' : skip n s = String c s' -> skip (S n) s = s'.
Proof.
  intros H. replace (S n) with (n + 1)%nat by lia.
  by rewrite <- skip_skip, H.
Qed.

Lemma parseLoop_scan fuel pattern :
  forall i re names,
    0 <= i <= len pattern ->
    parseLoop fuel pattern i re names = scan fuel (sliceFrom pattern i) re names.
Proof.
  induction fuel as [|fuel IH]; intros i re names Hi; [done|].
  rewrite (sliceFrom_skip _ _ Hi).
  pose proof (skip_length (Z.to_nat i) pattern) as Hlen.
  cbn [parseLoop scan].
  destruct (Z.ltb_spec i (len pattern)) as [Hlt|Hge].
  - destruct (skip (Z.to_nat i) pattern) as [|c rest] eqn:Hs.
    { unfold len in *. simpl in Hlen. lia. }
    assert (Hc : byteAt pattern i = c).
    { rewrite byteAt_skip by lia. by rewrite Hs. }
    assert (Hnext : sliceFrom pattern (i + 1) = rest).
    { rewrite sliceFrom_skip by lia.
      replace (Z.to_nat (i + 1)) with (S (Z.to_nat i)) by lia.
      by apply skip_succ with c. }
    rewrite Hc. rewrite (sliceFrom_skip _ _ Hi), Hs.
    destruct (Ascii.eqb c "{") eqn:Hbrace.
    + destruct (Z.eqb_spec (Index (String c rest) "}") (-1)) as [He|He].
      * rewrite IH by lia. by rewrite Hnext.
      * pose proof (Index_range (String c rest) "}") as Hrg.
        assert (He1 : 1 <= Index (String c rest) "}").
        { apply Ascii.eqb_eq in Hbrace as ->.
          rewrite Index_cons in *. simpl in *.
          destruct (Z.ltb_spec (Index rest "}") 0); lia. }
        remember (Index (String c rest) "}") as e eqn:Heqe. clear Heqe.
        assert (Hl : len (String c rest) = len pattern - i).
        { unfold len in *. simpl String.length in *. lia. }
        assert (Hr : 0 <= e < len (String c rest)) by lia.
        assert (Hspec : slice pattern (i + 1) (e + i) = slice (String c rest) 1 e).
        { rewrite !slice_skip by lia. rewrite <- Hs, skip_skip.
          do 2 f_equal; lia. }
        assert (Hrest : sliceFrom pattern (e + i + 1) = sliceFrom (String c rest) (e + 1)).
        { rewrite !sliceFrom_skip by lia. rewrite <- Hs, skip_skip.
          f_equal. lia. }
        cbv zeta. rewrite Hspec.
        change (if negb (Index (slice (String c rest) 1 e) ":" =? -1)
                then (slice (slice (String c rest) 1 e) 0
                        (Index (slice (String c rest) 1 e) ":"),
                      sliceFrom (slice (String c rest) 1 e)
                        (Index (slice (String c rest) 1 e) ":" + 1))
                else (slice (String c rest) 1 e, "[^/]+"))
          with (paramOf (slice (String c rest) 1 e)).
        destruct (paramOf (slice (String c rest) 1 e)) as [n r].
        rewrite IH by lia. by rewrite Hrest.
    + rewrite IH by lia. by rewrite Hnext.
  - assert (skip (Z.to_nat i) pattern = EmptyString) as ->.
    { apply length_zero. unfold len in *. lia. }
    done.
Qed.

Lemma patternSource_scan pattern :
  patternSource pattern
  = let p := normalizePattern pattern in
    let '(re, names) := scan (String.length p) p "^" [] in
    (re +:+ "/?$", names).
Proof.
  unfold patternSource. cbv zeta.
  rewrite parseLoop_scan by (unfold len; lia).
  rewrite sliceFrom_skip by (unfold len; lia). done.
Qed.

Lemma substring_app_l s w a m :
  (a + m <= String.length s)%nat ->
  String.substring a m (s +:+ w) = String.substring a m s.
Proof.
  revert a m. induction s as [|c s IH]; intros a m H; simpl in H.
  - assert (a = 0 /\ m = 0)%nat as [-> ->] by lia. rewrite app_nil_s. by destruct w.
  - rewrite app_cons. destruct a as [|a]; simpl.
    + destruct m as [|m]; [done|]. f_equal. apply IH. lia.
    + apply IH. lia.
Qed.

Lemma slice_app_l s w lo hi :
  0 <= lo -> hi <= len s -> slice (s +:+ w) lo hi = slice s lo hi.
Proof.
  intros Hlo Hhi. unfold slice, len in *.
  destruct (Z.le_gt_cases hi lo) as [Hle|Hgt].
  - replace (Z.to_nat (hi - lo)) with 0%nat by lia.
    generalize (Z.to_nat lo). clear. intros a.
    assert (H0 : forall t, String.substring a 0 t = EmptyString).
    { induction a as [|a IH]; intros [|x t]; simpl; done. }
    by rewrite !H0.
  - apply substring_app_l. lia.
Qed.

Lemma skip_app_l s w n :
  (n <= String.length s)%nat -> skip n (s +:+ w) = skip n s +:+ w.
Proof.
  revert n. induction s as [|c s IH]; intros n H; simpl in H.
  - by assert (n = 0)%nat as -> by lia.
  - rewrite app_cons. destruct n as [|n]; simpl; [done|]. apply IH. lia.
Qed.

Lemma sliceFrom_app s w k :
  0 <= k <= len s -> sliceFrom (s +:+ w) k = sliceFrom s k +:+ w.
Proof.
  intros Hk. rewrite !sliceFrom_skip.
  - apply skip_app_l. unfold len in *. lia.
  - done.
  - unfold len in *. rewrite app_length. lia.
Qed.

Lemma Index_present s c :
  occurs c s = true -> Index s (String c EmptyString) <> -1.
Proof.
  induction s as [|x s IH]; [done|]. intros H. simpl in H.
  rewrite Index_cons. destruct (Ascii.eqb x c); [done|]. simpl in H.
  cbv zeta. specialize (IH H).
  destruct (Index_range s c); [done|].
  destruct (Z.ltb_spec (Index s (String c EmptyString)) 0); lia.
Qed.

(** Enough fuel is enough. *)
Lemma scan_fuel f1 :
  forall f2 s re names,
    (String.length s <= f1)%nat -> (String.length s <= f2)%nat ->
    scan f1 s re names = scan f2 s re names.
Proof.
  induction f1 as [|f1 IH]; intros f2 s re names H1 H2.
  - assert (s = EmptyString) as -> by (apply length_zero; lia). by destruct f2.
  - destruct s as [|c s]; [by destruct f2|].
    destruct f2 as [|f2]; [simpl in H2; lia|].
    simpl in H1, H2. cbn [scan].
    destruct (Ascii.eqb c "{").
    + destruct (Z.eqb_spec (Index (String c s) "}") (-1)); [apply IH; lia|].
      cbv zeta. destruct (paramOf _) as [nm r].
      pose proof (Index_range (String c s) "}") as Hr.
      assert (Hl : (String.length (sliceFrom (String c s) (Index (String c s) "}" + 1))
                    <= String.length s)%nat).
      { rewrite sliceFrom_skip by lia. rewrite skip_length.
        unfold len in *. simpl String.length in *. lia. }
      apply IH; lia.
    + apply IH; lia.
Qed.

Lemma scan_literal s :
  forall f re names,
    noPlaceholder s = true -> (String.length s <= f)%nat ->
    scan f s re names = (re +:+ quoteAll s, names).
Proof.
  induction s as [|c s IH]; intros f re names Hn Hf.
  - destruct f; simpl; by rewrite app_empty_r.
  - destruct f as [|f]; [simpl in Hf; lia|]. simpl in Hn, Hf.
    apply andb_true_iff in Hn as [Hc Hs].
    cbn [scan quoteAll]. rewrite <- app_assoc_s.
    destruct (Ascii.eqb c "{") eqn:Hb; [|apply IH; [done|lia]].
    simpl in Hc. apply negb_true_iff in Hc.
    rewrite Index_absent.
    + simpl. apply IH; [done|lia].
    + simpl. rewrite Hc. apply Ascii.eqb_eq in Hb as ->. done.
Qed.

Lemma no_close_noPlaceholder w : occurs "}" w = false -> noPlaceholder w = true.
Proof.
  induction w as [|c w IH]; [done|]. simpl. intros H.
  apply orb_false_iff in H as [_ H]. rewrite H, (IH H). simpl.
  by rewrite orb_true_r.
Qed.

(** Text without [}] after a pattern is scanned as literal bytes, and
    the pattern before it as it would be on its own. *)
Lemma scan_app w :
  occurs "}" w = false ->
  forall n s f re names,
    (String.length s <= n)%nat -> (String.length (s +:+ w) <= f)%nat ->
    scan f (s +:+ w) re names
    = (fst (scan n s re names) +:+ quoteAll w, snd (scan n s re names)).
Proof.
  intros Hw. induction n as [|n IH]; intros s f re names Hn Hf.
  - assert (s = EmptyString) as -> by (apply length_zero; lia).
    rewrite app_nil_s in *. simpl.
    apply scan_literal; [by apply no_close_noPlaceholder|done].
  - destruct s as [|c s].
    { rewrite app_nil_s in *. simpl.
      apply scan_literal; [by apply no_close_noPlaceholder|done]. }
    rewrite app_cons in *. destruct f as [|f]; [simpl in Hf; lia|].
    simpl in Hn, Hf. cbn [scan].
    destruct (Ascii.eqb c "{") eqn:Hb; [|apply IH; lia].
    rewrite <- app_cons.
    destruct (occurs "}" (String c s)) eqn:Ho.
    + destruct (Index_split _ _ (Index_present _ _ Ho)) as (u & v & Hsplit & Hu & Hi).
      assert (Hi' : Index (String c s +:+ w) "}" = len u).
      { rewrite Hsplit, app_assoc_s, app_cons. by apply Index_found. }
      assert (Hlu : len u < len (String c s)).
      { rewrite Hsplit. unfold len. rewrite app_length. simpl. lia. }
      rewrite Hi', Hi.
      destruct (Z.eqb_spec (len u) (-1)) as [Hneg|_]; [unfold len in Hneg; lia|].
      rewrite slice_app_l by (unfold len in *; lia).
      destruct (paramOf (slice (String c s) 1 (len u))) as [nm r].
      rewrite sliceFrom_app by (unfold len in *; lia).
      apply IH.
      * rewrite sliceFrom_skip by (unfold len in *; lia). rewrite skip_length.
        unfold len in *. simpl String.length in *. lia.
      * rewrite <- sliceFrom_app by (unfold len in *; lia).
        rewrite sliceFrom_skip
          by (unfold len in *; rewrite app_length; simpl String.length in *; lia).
        rewrite skip_length. rewrite app_cons. simpl String.length.
        unfold len in *. lia.
    + rewrite !Index_absent; [|done|by rewrite occurs_app, Ho, Hw].
      simpl. apply IH; lia.
Qed.

(** ** [TrimSuffix] and the normal form of a pattern *)

Lemma snoc_cases s :
  s = EmptyString \/ exists s0 x, s = s0 +:+ String x EmptyString.
Proof.
  induction s as [|c s IH]; [by left|]. right.
  destruct IH as [->|(s0 & x & ->)].
  - by exists EmptyString, c.
  - by exists (String c s0), x.
Qed.

Lemma lastIs_snoc c s x : lastIs c (s +:+ String x EmptyString) = Ascii.eqb x c.
Proof.
  induction s as [|y s IH]; [done|]. rewrite app_cons. simpl.
  destruct (s +:+ String x EmptyString) eqn:E; [by destruct s|done].
Qed.

Lemma HasSuffix_snoc s x :
  HasSuffix (s +:+ String x EmptyString) "/" = Ascii.eqb x "/".
Proof.
  unfold HasSuffix.
  assert (Hl : len (s +:+ String x EmptyString) = len s + 1).
  { unfold len. rewrite app_length. simpl. lia. }
  rewrite Hl. replace (len s + 1 - len "/") with (len s) by (unfold len; simpl; lia).
  rewrite sliceFrom_skip by (unfold len in *; lia).
  unfold len at 3. rewrite Nat2Z.id, skip_app.
  replace (len "/" <=? len s + 1) with true
    by (symmetry; apply Z.leb_le; unfold len; simpl; lia).
  simpl. destruct (Ascii.eqb x "/"); done.
Qed.

Lemma TrimSuffix_slash s : TrimSuffix (s +:+ "/") "/" = s.
Proof.
  unfold TrimSuffix. rewrite HasSuffix_snoc. simpl.
  unfold slice, len. rewrite app_length. simpl.
  replace (Z.to_nat (Z.of_nat (String.length s + 1) - Z.of_nat 1 - 0))
    with (String.length s) by lia.
  apply substring_0_app.
Qed.

Lemma TrimSuffix_other s : lastIs "/" s = false -> TrimSuffix s "/" = s.
Proof.
  intros H. unfold TrimSuffix.
  destruct (snoc_cases s) as [->|(s0 & x & ->)]; [done|].
  rewrite lastIs_snoc in H. by rewrite HasSuffix_snoc, H.
Qed.

Lemma last_cases s :
  (exists s0, s = s0 +:+ "/") \/ lastIs "/" s = false.
Proof.
  destruct (snoc_cases s) as [->|(s0 & x & ->)]; [by right|].
  rewrite lastIs_snoc. destruct (Ascii.eqb x "/") eqn:E; [|by right].
  apply Ascii.eqb_eq in E as ->. left. by exists s0.
Qed.

(** ** Parameter names follow the pattern *)

Lemma scan_text text :
  occurs "{" text = false ->
  forall rest f re names,
    (String.length (text +:+ rest) <= f)%nat ->
    scan f (text +:+ rest) re names
    = scan (String.length rest) rest (re +:+ quoteAll text) names.
Proof.
  induction text as [|c text IH]; intros Ht rest f re names Hf.
  - rewrite app_nil_s in *. simpl. rewrite app_empty_r. by apply scan_fuel.
  - simpl in Ht. apply orb_false_iff in Ht as [Hc Ht].
    rewrite app_cons in *. destruct f as [|f]; [simpl in Hf; lia|].
    simpl in Hf. cbn [scan quoteAll]. rewrite Hc, <- app_assoc_s.
    apply IH; [done|lia].
Qed.

Lemma scan_param spec :
  occurs "}" spec = false ->
  forall rest f re names,
    (String.length ("{" +:+ spec +:+ "}" +:+ rest) <= f)%nat ->
    scan f ("{" +:+ spec +:+ "}" +:+ rest) re names
    = scan (String.length rest) rest
        (re +:+ "(" +:+ snd (paramOf spec) +:+ ")") (names ++ [fst (paramOf spec)]).
Proof.
  intros Hs rest f re names Hf.
  change ("{" +:+ spec +:+ "}" +:+ rest) with (String "{" (spec +:+ "}" +:+ rest)) in *.
  destruct f as [|f]; [simpl in Hf; lia|].
  assert (Hi : Index (String "{" (spec +:+ "}" +:+ rest)) "}" = len spec + 1).
  { change (String "{" (spec +:+ "}" +:+ rest))
      with (String "{" spec +:+ String "}" rest).
    rewrite Index_found by (simpl; done).
    unfold len. simpl String.length. lia. }
  cbn [scan]. simpl Ascii.eqb. cbv iota.
  rewrite Hi.
  destruct (Z.eqb_spec (len spec + 1) (-1)) as [Hneg|_]; [unfold len in Hneg; lia|].
  assert (Hspec : slice (String "{" (spec +:+ "}" +:+ rest)) 1 (len spec + 1) = spec).
  { rewrite slice_skip by lia. simpl skip.
    replace (Z.to_nat (len spec + 1 - 1)) with (String.length spec) by (unfold len; lia).
    apply substring_0_app. }
  assert (Hrest : sliceFrom (String "{" (spec +:+ "}" +:+ rest)) (len spec + 1 + 1) = rest).
  { rewrite sliceFrom_skip.
    - replace (Z.to_nat (len spec + 1 + 1)) with (S (String.length spec + 1))
        by (unfold len; lia).
      simpl skip. rewrite <- skip_skip, skip_app. done.
    - unfold len. simpl String.length. rewrite !app_length. simpl. lia. }
  rewrite Hspec, Hrest. destruct (paramOf spec) as [nm r]. simpl.
  apply scan_fuel; [|done].
  simpl in Hf. rewrite !app_length in Hf. simpl in Hf. lia.
Qed.

Lemma scan_tokens toks tail :
  forallb wfToken toks = true -> noPlaceholder tail = true ->
  forall f re names,
    (String.length (render toks +:+ tail) <= f)%nat ->
    scan f (render toks +:+ tail) re names
    = (re +:+ sourceOf toks +:+ quoteAll tail, names ++ namesOf toks).
Proof.
  intros Hwf Htail. induction toks as [|t toks IH]; intros f re names Hf.
  - simpl. rewrite app_nil_s in *. rewrite app_nil_r. by apply scan_literal.
  - simpl in Hwf. apply andb_true_iff in Hwf as [Ht Hwf].
    destruct t as [text|spec]; simpl in *.
    + apply negb_true_iff in Ht.
      rewrite app_assoc_s in *. rewrite scan_text by done.
      rewrite IH by done. by rewrite !app_assoc_s.
    + apply negb_true_iff in Ht.
      rewrite !app_assoc_s in *. rewrite scan_param by done.
      rewrite IH by done. rewrite <- app_assoc. simpl.
      by rewrite !app_assoc_s.
Qed.

Lemma normalizePattern_slash s :
  normalizePattern (s +:+ "/") = if String.eqb s EmptyString then "/" else s.
Proof. unfold normalizePattern. by rewrite TrimSuffix_slash. Qed.

Lemma normalizePattern_other s :
  lastIs "/" s = false ->
  normalizePattern s = if String.eqb s EmptyString then "/" else s.
Proof. intros H. unfold normalizePattern. by rewrite TrimSuffix_other. Qed.

(** Removing the trailing separator does not change the names. *)
Lemma names_normalize p :
  snd (patternSource p) = snd (scan (String.length p) p "^" []).
Proof.
  rewrite patternSource_scan. cbv zeta.
  destruct (last_cases p) as [[s0 ->]|Hl].
  - rewrite normalizePattern_slash.
    destruct (String.eqb_spec s0 EmptyString) as [->|Hne]; [done|].
    rewrite (scan_app "/" eq_refl (String.length s0) s0) by (rewrite ?app_length; lia).
    simpl. by destruct (scan (String.length s0) s0 "^" []).
  - rewrite (normalizePattern_other _ Hl).
    destruct (String.eqb_spec p EmptyString) as [->|Hne]; [done|].
    by destruct (scan (String.length p) p "^" []).
Qed.

Lemma noPlaceholder_text u w :
  occurs "{" u = false -> noPlaceholder (u +:+ w) = noPlaceholder w.
Proof.
  induction u as [|c u IH]; [done|]. intros H. simpl in H.
  apply orb_false_iff in H as [Hc Hu]. rewrite app_cons.
  cbn [noPlaceholder]. by rewrite Hc, (IH Hu).
Qed.

Lemma no_open_noPlaceholder w : occurs "{" w = false -> noPlaceholder w = true.
Proof.
  intros H. rewrite <- (app_empty_r w). by rewrite noPlaceholder_text.
Qed.

Lemma split_first c p :
  occurs c p = true ->
  exists u v, p = u +:+ String c v /\ occurs c u = false.
Proof.
  intros H. destruct (Index_split _ _ (Index_present _ _ H)) as (u & v & -> & Hu & _).
  eauto.
Qed.

(** Every pattern is a sequence of such pieces, followed by text that
    has no placeholder. *)
Lemma tokens_exist n :
  forall p, (String.length p <= n)%nat ->
    exists toks tail,
      p = render toks +:+ tail /\ forallb wfToken toks = true /\
      noPlaceholder tail = true.
Proof.
  induction n as [|n IH]; intros p Hn.
  - assert (p = EmptyString) as -> by (apply length_zero; lia).
    by exists [], EmptyString.
  - destruct (noPlaceholder p) eqn:Hp; [by exists [], p|].
    destruct (occurs "{" p) eqn:Ho;
      [|by rewrite no_open_noPlaceholder in Hp].
    destruct (split_first _ _ Ho) as (u & v & -> & Hu).
    rewrite (noPlaceholder_text _ _ Hu) in Hp. simpl in Hp.
    destruct (occurs "}" v) eqn:Hv;
      [|by rewrite (no_close_noPlaceholder _ Hv) in Hp].
    destruct (split_first _ _ Hv) as (spec & rest & -> & Hspec).
    destruct (IH rest) as (toks & tail & -> & Hwf & Htail).
    { rewrite !app_length in Hn. simpl in Hn. rewrite app_length in Hn.
      simpl in Hn. lia. }
    exists (TLit u :: TParam spec :: toks), tail. split; [|split; [|done]].
    + simpl. by rewrite !app_assoc_s.
    + simpl. by rewrite Hu, Hspec.
Qed.

Lemma matchLoop_beyond names :
  forall i matches ps,
    (length matches <= i + 1)%nat -> Route.matchLoop names i matches ps = ps.
Proof.
  induction names as [|n names IH]; intros i matches ps H; [done|].
  simpl. destruct (Nat.ltb_spec (i + 1) (length matches)); [lia|].
  apply IH. lia.
Qed.

Lemma matchLoop_assign names :
  forall i matches ps,
    Route.matchLoop names i matches ps
    = assignAll ps (zip names (drop (i + 1) matches)).
Proof.
  induction names as [|n names IH]; intros i matches ps; [done|].
  simpl. destruct (Nat.ltb_spec (i + 1) (length matches)) as [Hlt|Hge].
  - destruct (lookup_lt_is_Some_2 matches (i + 1) Hlt) as [x Hx].
    rewrite (drop_S _ x (i + 1)) by done.
    rewrite (nth_lookup_Some _ _ _ _ Hx). rewrite IH.
    replace (S i + 1)%nat with (S (i + 1)) by lia. done.
  - rewrite drop_ge by lia. rewrite matchLoop_beyond by lia.
    by destruct names.
Qed.

Lemma assignAll_last pairs :
  forall ps i name v,
    pairs !! i = Some (name, v) ->
    (forall j v', (i < j)%nat -> pairs !! j <> Some (name, v')) ->
    assignAll ps pairs !! name = Some v.
Proof.
  induction pairs as [|[n x] pairs IH] using rev_ind; intros ps i name v Hi Hlast;
    [done|].
  unfold assignAll. rewrite foldl_app. simpl. fold (assignAll ps pairs).
  destruct (decide (i = length pairs)) as [->|Hne].
  - rewrite lookup_app_r, Nat.sub_diag in Hi by lia. injection Hi as -> ->.
    by rewrite lookup_insert_eq.
  - assert (Hlt : (i < length pairs)%nat).
    { apply lookup_lt_Some in Hi. rewrite length_app in Hi. simpl in Hi. lia. }
    rewrite lookup_app_l in Hi by done.
    rewrite lookup_insert_ne.
    + apply (IH ps i); [done|]. intros j v' Hj Hp.
      apply (Hlast j v' Hj). by apply lookup_app_l_Some.
    + intros ->. apply (Hlast (length pairs) x Hlt).
      by rewrite lookup_app_r, Nat.sub_diag by lia.
Qed.

(** The parameter names of a compiled pattern are the names of its
    placeholders from left to right, and, for a path the matcher accepts,
    [match] assigns the submatch of index [i + 1] of the expression to
    the i-th name, one name after the other in that order; the map
    therefore holds, under a name, the submatch of its last position.
    Whether that submatch is the text of the placeholder of the name
    depends on the groups of the constraints before it. *)
Lemma names_and_captures_align :
  (forall p : string,
      exists toks tail,
        p = render toks +:+ tail /\ forallb wfToken toks = true /\
        noPlaceholder tail = true) /\
  (forall (toks : list token) (tail method : string) (route : Route.t),
      forallb wfToken toks = true -> noPlaceholder tail = true ->
      routeOf method (render toks +:+ tail) = Ok route ->
      Route.paramNames route = namesOf toks) /\
  (forall (route : Route.t) (path : string) (matches : list string),
      FindStringSubmatch (Route.regex route) path = Some matches ->
      Route.match_ route path
      = Some (assignAll ∅ (zip (Route.paramNames route) (drop 1 matches)))) /\
  (forall (route : Route.t) (path : string) (matches : list string)
          (ps : gmap string string) (i : nat) (name v : string),
      FindStringSubmatch (Route.regex route) path = Some matches ->
      Route.match_ route path = Some ps ->
      Route.paramNames route !! i = Some name ->
      drop 1 matches !! i = Some v ->
      (forall j, (i < j < length (drop 1 matches))%nat ->
                 Route.paramNames route !! j <> Some name) ->
      ps !! name = Some v).
Proof.
  split; [|split; [|split]].
  - intros p. by apply (tokens_exist (String.length p)).
  - intros toks tail method route Hwf Htail. unfold routeOf, parsePattern.
    pose proof (names_normalize (render toks +:+ tail)) as Hn.
    destruct (patternSource (render toks +:+ tail)) as [src names].
    destruct (Compile src) as [re|e]; [|done].
    intros [= <-]. simpl in *. rewrite Hn.
    by rewrite scan_tokens.
  - intros route path matches Hm. unfold Route.match_. rewrite Hm.
    by rewrite matchLoop_assign.
  - intros route path matches ps i name v Hm Hps Hname Hv Hlast.
    unfold Route.match_ in Hps. rewrite Hm in Hps. injection Hps as <-.
    rewrite matchLoop_assign. apply (assignAll_last _ _ i).
    + apply lookup_zip_with_Some. eauto.
    + intros j v' Hj Hp. apply lookup_zip_with_Some in Hp as (n' & x' & [= -> ->] & Hn' & Hx').
      apply (Hlast j); [|done]. apply lookup_lt_Some in Hx'. simpl in *. lia.
Qed.

(** The captured substrings are the submatches of the whole expression:
    a constraint with a group of its own takes the next index, and a
    repeated name keeps its last capture. *)
Lemma captures_by_submatch_index :
  matchOf "/{a:(x)y}/{b}" "/xy/z" = Ok (Some {[ "a" := "xy"; "b" := "x" ]}) /\
  matchOf "/{a}/{a}" "/x/y" = Ok (Some {[ "a" := "y" ]}) /\
  matchOf "/{a:?:x}/{b}" "/x/y" = Ok (Some {[ "a" := "y" ]}).
Proof. repeat split; vm_compute; reflexivity. Qed.

(** C6: the names are collected in pattern order, but the values are
    assigned by submatch index, and the two orders differ as soon as a
    constraint has a group of its own.  The pattern
    [/{lang:(en|fr)}/{page}] compiles to [^/((en|fr))/([^/]+)/?$] with
    the names [lang], [page]; on the path [/fr/home] the submatches are
    [fr], [fr], [home], and [match] gives [page], the second name, the
    text of the group inside the constraint of [lang]: [page] is [fr],
    and [home], the text of the second placeholder, is assigned to no
    name. *)
Theorem constraint_group_shifts_captures :
  exists route : Route.t,
    routeOf "GET" "/{lang:(en|fr)}/{page}" = Ok route /\
    patternSource "/{lang:(en|fr)}/{page}"
    = ("^/((en|fr))/([^/]+)/?$", ["lang"; "page"]) /\
    Route.paramNames route = ["lang"; "page"] /\
    FindStringSubmatch (Route.regex route) "/fr/home"
    = Some ["/fr/home"; "fr"; "fr"; "home"] /\
    Route.match_ route "/fr/home" = Some {[ "lang" := "fr"; "page" := "fr" ]} /\
    Ctx.Param (Ctx.SetParams (Ctx.newContext (mkRequest "GET" "/fr/home"))
                 (default ∅ (Route.match_ route "/fr/home"))) "page" = "fr".
Proof.
  destruct (routeOf "GET" "/{lang:(en|fr)}/{page}") as [route|e] eqn:Hr;
    [|by vm_compute in Hr].
  exists route. split; [done|].
  assert (Hs : patternSource "/{lang:(en|fr)}/{page}"
               = ("^/((en|fr))/([^/]+)/?$", ["lang"; "page"]))
    by (vm_compute; reflexivity).
  split; [exact Hs|].
  unfold routeOf, parsePattern in Hr. rewrite Hs in Hr.
  destruct (Compile "^/((en|fr))/([^/]+)/?$") as [re|e] eqn:Hc; [|done].
  injection Hr as <-. cbn [Route.paramNames Route.regex].
  assert (Hm : FindStringSubmatch re "/fr/home" = Some ["/fr/home"; "fr"; "fr"; "home"]).
  { vm_compute in Hc. injection Hc as <-. vm_compute. reflexivity. }
  split; [done|]. split; [exact Hm|].
  assert (Hp : Route.match_ (Route.mk "GET" "/{lang:(en|fr)}/{page}" okHandler Slice.nil
                               re ["lang"; "page"]) "/fr/home"
               = Some {[ "lang" := "fr"; "page" := "fr" ]}).
  { unfold Route.match_. cbn [Route.regex Route.paramNames]. rewrite Hm.
    vm_compute. reflexivity. }
  split; [exact Hp|]. rewrite Hp. vm_compute. reflexivity.
Qed.

Lemma names_and_captures_align_witness :
  Route.paramNames postsRoute = ["userId"; "postId"] /\
  Route.match_ postsRoute "/users/1/posts/99"
  = Some (assignAll ∅ [("userId", "1"); ("postId", "99")]) /\
  ({[ "userId" := "1"; "postId" := "99" ]} : gmap string string) !! "postId" = Some "99".
Proof.
  assert (Hr : routeOf "GET"
                 (render [TLit "/users/"; TParam "userId"; TLit "/posts/";
                          TParam "postId:[0-9]+"] +:+ EmptyString) = Ok postsRoute)
    by (vm_compute; reflexivity).
  assert (Hm : FindStringSubmatch (Route.regex postsRoute) "/users/1/posts/99"
               = Some ["/users/1/posts/99"; "1"; "99"])
    by (vm_compute; reflexivity).
  assert (Hps : Route.match_ postsRoute "/users/1/posts/99"
                = Some {[ "userId" := "1"; "postId" := "99" ]})
    by (vm_compute; reflexivity).
  split; [|split].
  - exact (proj1 (proj2 names_and_captures_align)
             [TLit "/users/"; TParam "userId"; TLit "/posts/"; TParam "postId:[0-9]+"]
             EmptyString "GET" postsRoute eq_refl eq_refl Hr).
  - exact (proj1 (proj2 (proj2 names_and_captures_align)) postsRoute
             "/users/1/posts/99" _ Hm).
  - apply (proj2 (proj2 (proj2 names_and_captures_align)) postsRoute
             "/users/1/posts/99" _ _ 1%nat "postId" "99" Hm Hps eq_refl eq_refl).
    intros j Hj. simpl in Hj. lia.
Defined.

(** ** Literal text: what the expression is and what it accepts *)

Lemma byteN_eqb c m : (byteN c =? byteN m)%N = Ascii.eqb c m.
Proof.
  unfold byteN. destruct (Ascii.eqb_spec c m) as [->|Hne].
  - apply N.eqb_refl.
  - apply N.eqb_neq. intros H. apply Hne.
    by rewrite <- (ascii_N_embedding c), <- (ascii_N_embedding m), H.
Qed.

Lemma stringOfByte_ascii c :
  (byteN c <? 0x80)%N = true -> stringOfByte c = String c EmptyString.
Proof.
  intros H. apply N.ltb_lt in H. unfold stringOfByte, encodeRune.
  replace (byteN c <=? 0x7F)%N with true by (symmetry; apply N.leb_le; lia).
  unfold byteOfN, byteN. by rewrite ascii_N_embedding.
Qed.

Lemma quoteByte_ascii c :
  (byteN c <? 0x80)%N = true ->
  quoteByte c = if special c then String "\" (String c EmptyString)
                else String c EmptyString.
Proof. intros H. unfold quoteByte. by rewrite stringOfByte_ascii. Qed.

Lemma special_ascii c : special c = true -> (byteN c <? 0x80)%N = true.
Proof.
  unfold special. intros H. apply existsb_exists in H as (m & Hin & Hm).
  apply Ascii.eqb_eq in Hm as ->.
  simpl in Hin. repeat (destruct Hin as [<-|Hin]; [reflexivity|]). done.
Qed.

Lemma isASCII_app a b : isASCII (a +:+ b) = isASCII a && isASCII b.
Proof.
  induction a as [|c a IH]; [done|]. rewrite app_cons. simpl.
  by rewrite IH, andb_assoc.
Qed.

Lemma bytesN_app a b : bytesN (a +:+ b) = bytesN a ++ bytesN b.
Proof.
  induction a as [|c a IH]; [done|]. rewrite app_cons. simpl. by rewrite IH.
Qed.

Lemma quoteAll_ascii s :
  isASCII s = true ->
  isASCII (quoteAll s) = true /\ bytesN (quoteAll s) = quoteRunesAll s.
Proof.
  induction s as [|c s IH]; [done|]. simpl. intros H.
  apply andb_true_iff in H as [Hc Hs]. destruct (IH Hs) as [IH1 IH2].
  rewrite isASCII_app, bytesN_app, IH1, IH2, (quoteByte_ascii _ Hc).
  unfold quoteRunes. destruct (special c); simpl; by rewrite Hc.
Qed.

Lemma decodeRune_ascii c s :
  (byteN c <? 0x80)%N = true -> decodeRune (String c s) = (byteN c, 1%nat).
Proof. intros H. unfold decodeRune. by rewrite H. Qed.

Lemma runes_ascii s :
  forall f, isASCII s = true -> (String.length s <= f)%nat ->
            runes f s = Some (bytesN s).
Proof.
  induction s as [|c s IH]; intros f Hs Hf; [by destruct f|].
  destruct f as [|f]; [simpl in Hf; lia|]. simpl in Hs, Hf.
  apply andb_true_iff in Hs as [Hc Hs].
  cbn [runes]. rewrite (decodeRune_ascii _ _ Hc).
  replace (byteN c =? RuneError)%N with false.
  - simpl. rewrite IH by (done || lia). done.
  - symmetry. apply N.eqb_neq. apply N.ltb_lt in Hc. unfold RuneError. lia.
Qed.

Lemma parse_plain c f t ng alts stack rep inGroup :
  special c = false ->
  parse (S f) (byteN c :: t) ng alts stack rep inGroup
  = parse f t ng alts (Lit (byteN c) :: stack) false inGroup.
Proof.
  intros Hs. unfold special in Hs. cbn [existsb] in Hs.
  repeat (apply orb_false_iff in Hs as [? Hs]).
  cbn [parse]. unfold ch. rewrite !byteN_eqb.
  repeat match goal with H : Ascii.eqb c _ = false |- _ => rewrite H; clear H end.
  done.
Qed.

Lemma parse_escaped c f t ng alts stack rep inGroup :
  special c = true ->
  parse (S f) (ch "\" :: byteN c :: t) ng alts stack rep inGroup
  = parse f t ng alts (Lit (byteN c) :: stack) false inGroup.
Proof.
  intros Hs. unfold special in Hs. apply existsb_exists in Hs as (m & Hin & Hm).
  apply Ascii.eqb_eq in Hm as ->.
  simpl in Hin. repeat (destruct Hin as [<-|Hin]; [reflexivity|]). done.
Qed.

Lemma parse_quoted lit :
  forall f rest ng alts stack inGroup,
    parse (String.length lit + f) (quoteRunesAll lit ++ rest) ng alts stack false inGroup
    = parse f rest ng alts (rev (map Lit (bytesN lit)) ++ stack) false inGroup.
Proof.
  induction lit as [|c lit IH]; intros f rest ng alts stack inGroup; [done|].
  cbn [String.length quoteRunesAll bytesN map rev Nat.add].
  rewrite <- !app_assoc. cbn [app]. unfold quoteRunes.
  destruct (special c) eqn:Hs; cbn [app].
  - rewrite parse_escaped by done. apply IH.
  - rewrite parse_plain by done. apply IH.
Qed.

Lemma Compile_literal p :
  isASCII p = true ->
  Compile ("^" +:+ quoteAll p +:+ "/?$")
  = Ok (mkRegexp (Cat BeginText (litChain (bytesN p) slashEnd)) 0).
Proof.
  intros Hp. destruct (quoteAll_ascii _ Hp) as [Hq Hb].
  unfold Compile.
  rewrite runes_ascii; [|by rewrite !isASCII_app, Hq|done].
  rewrite !bytesN_app, Hb.
  change (bytesN "^") with [ch "^"]. change (bytesN "/?$") with [ch "/"; ch "?"; ch "$"].
  cbn [app]. cbn [length].
  change (parse (S (S (length (quoteRunesAll p ++ [ch "/"; ch "?"; ch "$"]))))
            (ch "^" :: quoteRunesAll p ++ [ch "/"; ch "?"; ch "$"]) 0 [] [] false false)
    with (parse (S (length (quoteRunesAll p ++ [ch "/"; ch "?"; ch "$"])))
            (quoteRunesAll p ++ [ch "/"; ch "?"; ch "$"]) 0 [] [BeginText] false false).
  assert (Hlen : (String.length p <= length (quoteRunesAll p))%nat).
  { clear. induction p as [|c p IH]; [done|]. simpl. rewrite length_app.
    unfold quoteRunes. destruct (special c); simpl; lia. }
  rewrite length_app. cbn [length].
  replace (S (length (quoteRunesAll p) + 3))
    with (String.length p + (4 + (length (quoteRunesAll p) - String.length p)))%nat
    by lia.
  rewrite parse_quoted.
  generalize (length (quoteRunesAll p) - String.length p)%nat as k. intros k.
  change (parse (4 + k) [ch "/"; ch "?"; ch "$"] 0 [] (rev (map Lit (bytesN p)) ++ [BeginText])
            false false)
    with (Ok (catOf (EndText :: Quest true (Lit (ch "/"))
                       :: rev (map Lit (bytesN p)) ++ [BeginText]), @nil N, 0%nat)).
  do 2 f_equal. unfold catOf. cbn [fold_left]. rewrite fold_left_app. cbn [fold_left].
  f_equal. fold slashEnd. generalize slashEnd as T. generalize (bytesN p) as L.
  induction L as [|l L IH]; intros T; [done|].
  cbn [map rev litChain foldr]. rewrite fold_left_app. cbn [fold_left].
  f_equal. apply IH.
Qed.

Lemma lor_ge_l a b : (a <= N.lor a b)%N.
Proof.
  apply N.ldiff_le. apply N.bits_inj. intros n.
  rewrite N.ldiff_spec, N.lor_spec, N.bits_0.
  by destruct (N.testbit a n), (N.testbit b n).
Qed.

Lemma lor_ge_r a b : (b <= N.lor a b)%N.
Proof. rewrite N.lor_comm. apply lor_ge_l. Qed.

(** The low bits of a number known up to them. *)
Lemma land_mask a mask k m q :
  mask = N.ones k -> m = (2 ^ k)%N ->
  (m * q <= a < m * q + m)%N ->
  N.land a mask = (a - m * q)%N.
Proof.
  intros -> -> H. rewrite N.land_ones. symmetry.
  apply (N.mod_unique _ _ q); lia.
Qed.

Lemma decodeRune_width c s : (1 <= snd (decodeRune (String c s)))%nat.
Proof.
  unfold decodeRune. cbv zeta beta.
  repeat case_match; simplify_eq; simpl; lia.
Qed.

(** A text that does not start with an ASCII byte does not start with an
    ASCII rune. *)
Lemma decodeRune_high c s :
  (0x80 <= byteN c)%N -> (0x80 <= fst (decodeRune (String c s)))%N.
Proof.
  intros Hc. unfold decodeRune. cbv zeta beta.
  destruct (byteN c <? 0x80)%N eqn:Hlow; [apply N.ltb_lt in Hlow; lia|].
  assert (Herr : (0x80 <= RuneError)%N) by (unfold RuneError; lia).
  repeat case_match; simplify_eq; try exact Herr; bool_facts; cbn [fst].
  all: try (eapply N.le_trans; [|apply lor_ge_l]; rewrite N.shiftl_mul_pow2;
            first [ rewrite (land_mask _ 0x1F 5 32 6) by (reflexivity || lia)
                  | rewrite (land_mask _ 0x0F 4 16 14) by (reflexivity || lia)
                  | rewrite (land_mask _ 0x07 3 8 30) by (reflexivity || lia) ];
            lia).
  all: try (eapply N.le_trans; [|apply lor_ge_r];
            eapply N.le_trans; [|apply lor_ge_l]; rewrite N.shiftl_mul_pow2;
            rewrite (land_mask _ 0x3F 6 64 2) by (reflexivity || lia); lia).
Qed.

Lemma step_nil {A} p pos (k : string -> nat -> option A) :
  step p EmptyString pos k = None.
Proof. reflexivity. Qed.

Lemma step_lit {A} c x rest pos (k : string -> nat -> option A) :
  (byteN c <? 0x80)%N = true ->
  step (N.eqb (byteN c)) (String x rest) pos k
  = if Ascii.eqb c x then k rest (pos + 1)%nat else None.
Proof.
  intros Hc. unfold step.
  destruct (byteN x <? 0x80)%N eqn:Hx.
  - rewrite (decodeRune_ascii _ _ Hx), byteN_eqb. simpl.
    by destruct (Ascii.eqb c x).
  - pose proof (decodeRune_high x rest) as Hh.
    destruct (decodeRune (String x rest)) as [r w]. simpl in Hh.
    bool_facts.
    replace (byteN c =? r)%N with false by (symmetry; apply N.eqb_neq; lia).
    rewrite andb_false_r.
    destruct (Ascii.eqb_spec c x) as [->|_]; [lia|done].
Qed.

Lemma run_litChain lit T :
  isASCII lit = true ->
  forall rest pos cs k,
    run (litChain (bytesN lit) T) rest pos cs k
    = if HasPrefix rest lit
      then run T (skip (String.length lit) rest) (pos + String.length lit) cs k
      else None.
Proof.
  unfold HasPrefix.
  induction lit as [|c lit IH]; intros Hl rest pos cs k.
  - simpl. rewrite Nat.add_0_r. by destruct rest.
  - simpl in Hl. apply andb_true_iff in Hl as [Hc Hl].
    cbn [bytesN litChain foldr run]. fold (litChain (bytesN lit) T).
    destruct rest as [|x rest]; [done|].
    rewrite (step_lit _ _ _ _ _ Hc). simpl.
    destruct (ascii_dec c x) as [->|Hne].
    + rewrite Ascii.eqb_refl, (IH Hl).
      by replace (pos + 1 + String.length lit)%nat with (pos + S (String.length lit))%nat by lia.
    + by replace (Ascii.eqb c x) with false by (symmetry; by apply Ascii.eqb_neq).
Qed.

Lemma run_slashEnd rest pos cs k :
  run slashEnd rest pos cs k
  = if String.eqb rest EmptyString then k EmptyString pos cs
    else if String.eqb rest "/" then k EmptyString (pos + 1)%nat cs
    else None.
Proof.
  unfold slashEnd. cbn [run]. destruct rest as [|x rest]; [done|].
  unfold ch. rewrite (step_lit "/" x rest pos _ eq_refl).
  cbn [String.eqb]. rewrite (Ascii.eqb_sym x "/").
  destruct (Ascii.eqb "/" x); [|done].
  destruct rest; [|done]. simpl. by destruct (k EmptyString (pos + 1)%nat cs).
Qed.

Lemma search_anchored R n f :
  forall rest pos, (0 < pos)%nat ->
    search f (mkRegexp (Cat BeginText R) n) rest pos = None.
Proof.
  induction f as [|f IH]; intros rest pos Hpos; cbn [search prog run].
  - destruct (Nat.eqb_spec pos 0); [lia|]. by destruct rest.
  - destruct (Nat.eqb_spec pos 0); [lia|]. destruct rest as [|x rest]; [done|].
    destruct (decodeRune (String x rest)) as [r w]. apply IH. lia.
Qed.

Lemma prefix_skip lit : forall path,
  String.prefix lit path = true -> path = lit +:+ skip (String.length lit) path.
Proof.
  induction lit as [|c lit IH]; intros path H; [done|].
  destruct path as [|x path]; [done|]. simpl in H.
  destruct (ascii_dec c x) as [->|]; [|done].
  rewrite app_cons. simpl. f_equal. by apply IH.
Qed.

Lemma prefix_app lit rest : String.prefix lit (lit +:+ rest) = true.
Proof.
  induction lit as [|c lit IH]; [by destruct rest|].
  rewrite app_cons. simpl. by destruct (ascii_dec c c).
Qed.

Lemma Find_literal lit path :
  isASCII lit = true ->
  FindStringSubmatch (mkRegexp (Cat BeginText (litChain (bytesN lit) slashEnd)) 0) path
  = if acceptsLiteral lit path then Some [path] else None.
Proof.
  intros Hl. unfold FindStringSubmatch, acceptsLiteral.
  assert (Hrun : run (Cat BeginText (litChain (bytesN lit) slashEnd)) path 0
                   (replicate 1 None)
                   (fun _ pos' cs => Some (<[0%nat := Some (0%nat, pos')]> cs))
                 = if String.eqb path lit then Some [Some (0%nat, String.length path)]
                   else if String.eqb path (lit +:+ "/")
                        then Some [Some (0%nat, String.length path)]
                        else None).
  { cbn [run]. simpl Nat.eqb. cbv iota. rewrite (run_litChain _ _ Hl), run_slashEnd.
    unfold HasPrefix. destruct (String.prefix lit path) eqn:Hp.
    - pose proof (prefix_skip _ _ Hp) as Hpath.
      destruct (String.eqb_spec (skip (String.length lit) path) EmptyString) as [He|He].
      + rewrite He, app_empty_r in Hpath. subst path. by rewrite String.eqb_refl.
      + destruct (String.eqb_spec path lit) as [->|Hne].
        { rewrite <- (app_empty_r lit) in He at 2. by rewrite skip_app in He. }
        destruct (String.eqb_spec (skip (String.length lit) path) "/") as [Hs|Hs].
        * rewrite Hs in Hpath. subst path. rewrite String.eqb_refl.
          simpl. rewrite app_length. done.
        * destruct (String.eqb_spec path (lit +:+ "/")) as [->|]; [|done].
          by rewrite skip_app in Hs.
    - destruct (String.eqb_spec path lit) as [->|_].
      { rewrite <- (app_empty_r lit) in Hp at 2. by rewrite prefix_app in Hp. }
      destruct (String.eqb_spec path (lit +:+ "/")) as [->|_]; [|done].
      by rewrite prefix_app in Hp. }
  assert (Hsearch : search (String.length path)
                      (mkRegexp (Cat BeginText (litChain (bytesN lit) slashEnd)) 0) path 0
                    = if String.eqb path lit || String.eqb path (lit +:+ "/")
                      then Some [Some (0%nat, String.length path)] else None).
  { destruct (String.length path) as [|f] eqn:Hf.
    - cbn [search prog numSubexp]. rewrite Hrun.
      destruct (String.eqb path lit); [done|].
      by destruct (String.eqb path (lit +:+ "/")).
    - cbn [search prog numSubexp]. rewrite Hrun.
      destruct (String.eqb path lit); [done|].
      destruct (String.eqb path (lit +:+ "/")); [done|]. simpl.
      destruct path as [|x path]; [done|].
      pose proof (decodeRune_width x path) as Hw.
      destruct (decodeRune (String x path)) as [r w]. simpl in Hw.
      apply search_anchored. lia. }
  rewrite Hsearch.
  destruct (String.eqb path lit || String.eqb path (lit +:+ "/")); [|done].
  simpl. by rewrite Nat.sub_0_r, substring_0_all.
Qed.

Lemma noPlaceholder_app_l a b : noPlaceholder (a +:+ b) = true -> noPlaceholder a = true.
Proof.
  induction a as [|c a IH]; [done|]. rewrite app_cons. simpl. intros H.
  apply andb_true_iff in H as [Hc Ha]. rewrite (IH Ha), andb_true_r.
  rewrite occurs_app in Hc. destruct (Ascii.eqb c "{"); [|done]. simpl in *.
  apply negb_true_iff in Hc. apply orb_false_iff in Hc as [-> _]. done.
Qed.

Lemma normalizePattern_cases p :
  (p = EmptyString \/ p = "/") /\ normalizePattern p = "/" \/
  (exists s, p = s +:+ "/" /\ normalizePattern p = s) \/
  lastIs "/" p = false /\ normalizePattern p = p.
Proof.
  destruct (last_cases p) as [[s0 ->]|Hl].
  - rewrite normalizePattern_slash.
    destruct (String.eqb_spec s0 EmptyString) as [->|_]; [left; split; [by right|done]|].
    right. left. by exists s0.
  - rewrite (normalizePattern_other _ Hl).
    destruct (String.eqb_spec p EmptyString) as [->|_]; [left; split; [by left|done]|].
    right. by right.
Qed.

Lemma normalizePattern_keeps p :
  isASCII p = true -> noPlaceholder p = true ->
  isASCII (normalizePattern p) = true /\ noPlaceholder (normalizePattern p) = true.
Proof.
  intros Ha Hn.
  destruct (normalizePattern_cases p) as [[_ ->]|[(s & -> & ->)|[_ ->]]]; [done| |done].
  rewrite isASCII_app in Ha. apply andb_true_iff in Ha as [Ha _].
  split; [done|]. by apply noPlaceholder_app_l in Hn.
Qed.

Lemma patternSource_literal p :
  noPlaceholder (normalizePattern p) = true ->
  patternSource p = ("^" +:+ quoteAll (normalizePattern p) +:+ "/?$", []).
Proof.
  intros Hn. rewrite patternSource_scan. cbv zeta.
  rewrite scan_literal by done. by rewrite app_assoc_s.
Qed.

Lemma matchOf_literal pattern path :
  isASCII pattern = true -> noPlaceholder pattern = true ->
  matchOf pattern path
  = Ok (if acceptsLiteral (normalizePattern pattern) path then Some ∅ else None).
Proof.
  intros Ha Hn. destruct (normalizePattern_keeps _ Ha Hn) as [Ha' Hn'].
  unfold matchOf, routeOf, parsePattern.
  rewrite (patternSource_literal _ Hn'), (Compile_literal _ Ha').
  unfold Route.match_. cbn [Route.regex Route.paramNames].
  rewrite (Find_literal _ _ Ha').
  by destruct (acceptsLiteral (normalizePattern pattern) path).
Qed.

Lemma acceptsLiteral_trim q path :
  lastIs "/" q = false ->
  acceptsLiteral q path = true <-> TrimSuffix path "/" = q.
Proof.
  intros Hq. unfold acceptsLiteral. rewrite orb_true_iff, !String.eqb_eq. split.
  - intros [->| ->]; [by apply TrimSuffix_other|apply TrimSuffix_slash].
  - destruct (last_cases path) as [[s0 ->]|Hl].
    + rewrite TrimSuffix_slash. intros ->. by right.
    + rewrite (TrimSuffix_other _ Hl). intros ->. by left.
Qed.

(** C7, as stated, fails: [/a//] accepts [/a/] and not [/a], while [/a/]
    accepts both [/a] and [/a/], so no normal form of paths and patterns
    decides acceptance by equality; and the root matcher accepts [//]
    besides [/]. *)
Lemma literal_pattern_not_by_normal_form :
  matchOf "/a//" "/a/" = Ok (Some ∅) /\
  matchOf "/a//" "/a" = Ok None /\
  matchOf "/a/" "/a" = Ok (Some ∅) /\
  matchOf "/" "//" = Ok (Some ∅) /\
  matchOf "" "//" = Ok (Some ∅) /\
  ~ (exists norm : string -> string,
       forall pattern path,
         occurs "{" pattern = false ->
         (matchOf pattern path = Ok (Some ∅) <-> norm path = norm pattern)).
Proof.
  assert (H1 : matchOf "/a//" "/a/" = Ok (Some ∅)) by (vm_compute; reflexivity).
  assert (H2 : matchOf "/a//" "/a" = Ok None) by (vm_compute; reflexivity).
  assert (H3 : matchOf "/a/" "/a" = Ok (Some ∅)) by (vm_compute; reflexivity).
  repeat (split; [done || (vm_compute; reflexivity)|]).
  intros [norm H].
  apply (H "/a//" "/a/" eq_refl) in H1.
  apply (H "/a/" "/a" eq_refl) in H3.
  assert (H4 : norm "/a" = norm "/a//") by congruence.
  apply (H "/a//" "/a" eq_refl) in H4. rewrite H2 in H4. discriminate.
Qed.

(** C7, amended: for a pattern of ASCII bytes that holds no placeholder,
    the matcher accepts exactly the pattern in its normal form (one
    trailing separator removed, the empty pattern read as [/]) and that
    text followed by one separator, with no parameter; when the normal form
    does not end in a separator, these are the paths that give it once one
    trailing separator is removed; the empty pattern and [/] have the same
    expression, which accepts [/] and [//] and nothing else. *)
Theorem literal_pattern_accepts :
  (forall pattern path : string,
      isASCII pattern = true -> noPlaceholder pattern = true ->
      matchOf pattern path
      = Ok (if acceptsLiteral (normalizePattern pattern) path then Some ∅ else None)) /\
  (forall pattern path : string,
      isASCII pattern = true -> noPlaceholder pattern = true ->
      lastIs "/" (normalizePattern pattern) = false ->
      (matchOf pattern path = Ok (Some ∅)
       <-> TrimSuffix path "/" = normalizePattern pattern)) /\
  (patternSource EmptyString = patternSource "/" /\
   forall path : string,
     matchOf EmptyString path = matchOf "/" path /\
     (matchOf "/" path = Ok (Some ∅) <-> path = "/" \/ path = "//")).
Proof.
  split; [|split].
  - intros. by apply matchOf_literal.
  - intros pattern path Ha Hn Hl. rewrite (matchOf_literal _ _ Ha Hn).
    rewrite <- (acceptsLiteral_trim _ _ Hl).
    destruct (acceptsLiteral (normalizePattern pattern) path); split; congruence.
  - split; [reflexivity|]. intros path.
    rewrite (matchOf_literal EmptyString path eq_refl eq_refl).
    rewrite (matchOf_literal "/" path eq_refl eq_refl).
    split; [done|].
    change (normalizePattern "/") with "/". unfold acceptsLiteral.
    change ("/" +:+ "/") with "//".
    destruct (String.eqb_spec path "/") as [->|H1]; simpl.
    + split; [by left|done].
    + destruct (String.eqb_spec path "//") as [->|H2].
      * split; [by right|done].
      * split; [done|]. intros [?|?]; done.
Qed.

Lemma literal_pattern_accepts_witness :
  (matchOf "/users" "/users/"
   = Ok (if acceptsLiteral (normalizePattern "/users") "/users/" then Some ∅ else None)) /\
  (matchOf "/users/" "/users" = Ok (Some ∅)
   <-> TrimSuffix "/users" "/" = normalizePattern "/users/").
Proof.
  split.
  - exact (proj1 literal_pattern_accepts "/users" "/users/" eq_refl eq_refl).
  - exact (proj1 (proj2 literal_pattern_accepts) "/users/" "/users" eq_refl eq_refl eq_refl).
Defined.

(** ** An opening brace that is never closed *)

Lemma quoteAll_brace rest : quoteAll ("{" +:+ rest) = "\{" +:+ quoteAll rest.
Proof. reflexivity. Qed.

(** Whatever comes before it, a [{] with no [}] after it is scanned as the
    literal [\{], the scan goes on with the bytes that follow, and what
    comes before is scanned as it would be on its own. *)
Lemma unterminated_brace_scan pre rest :
  occurs "}" rest = false ->
  scan (String.length (pre +:+ "{" +:+ rest)) (pre +:+ "{" +:+ rest) "^" []
  = (fst (scan (String.length pre) pre "^" []) +:+ "\{" +:+ quoteAll rest,
     snd (scan (String.length pre) pre "^" [])).
Proof.
  intros Hr.
  rewrite (scan_app ("{" +:+ rest)) with (n := String.length pre); done.
Qed.

(** C8 at a pattern with a byte above 0x7F after the unclosed brace: the
    pattern compiles, but the text the matcher wants is not the text of the
    pattern: each byte above 0x7F went through [string(pattern[i])], which
    gives the UTF-8 encoding of the code point with the byte's number.  The
    same happens to any literal byte above 0x7F, brace or not. *)
Theorem unterminated_brace_non_ascii :
  stringOfByte "195" +:+ stringOfByte "169" = eAcuteByteWise /\
  patternSource ("/{" +:+ eAcute) = ("^/\{" +:+ eAcuteByteWise +:+ "/?$", []) /\
  matchOf ("/{" +:+ eAcute) ("/{" +:+ eAcute) = Ok None /\
  matchOf ("/{" +:+ eAcute) ("/{" +:+ eAcuteByteWise) = Ok (Some ∅) /\
  matchOf ("/caf" +:+ eAcute) ("/caf" +:+ eAcute) = Ok None /\
  matchOf ("/caf" +:+ eAcute) ("/caf" +:+ eAcuteByteWise) = Ok (Some ∅).
Proof. repeat split; vm_compute; reflexivity. Qed.

(** X1: an unclosed brace in a pattern of ASCII bytes: scanned as a literal,
    whatever precedes it; and when nothing before it is a placeholder, the
    pattern compiles and the matcher accepts the pattern text itself (in
    normal form), with or without one more separator, and nothing else. *)
Theorem unterminated_brace_is_literal :
  (forall pre rest : string,
      occurs "}" rest = false ->
      scan (String.length (pre +:+ "{" +:+ rest)) (pre +:+ "{" +:+ rest) "^" []
      = (fst (scan (String.length pre) pre "^" []) +:+ "\{" +:+ quoteAll rest,
         snd (scan (String.length pre) pre "^" []))) /\
  (forall pre rest path : string,
      isASCII (pre +:+ "{" +:+ rest) = true ->
      occurs "{" pre = false -> occurs "}" rest = false ->
      matchOf (pre +:+ "{" +:+ rest) path
      = Ok (if acceptsLiteral (normalizePattern (pre +:+ "{" +:+ rest)) path
            then Some ∅ else None)).
Proof.
  split.
  - intros. by apply unterminated_brace_scan.
  - intros pre rest path Ha Hpre Hrest. apply matchOf_literal; [done|].
    rewrite (noPlaceholder_text _ _ Hpre). apply no_close_noPlaceholder.
    rewrite app_cons, app_nil_s. simpl. done.
Qed.

Lemma unterminated_brace_is_literal_witness :
  (scan (String.length ("/users/{id}/" +:+ "{" +:+ "oops"))
     ("/users/{id}/" +:+ "{" +:+ "oops") "^" []
   = ("^/users/([^/]+)/\{oops", ["id"])) /\
  (matchOf ("/files/" +:+ "{" +:+ "name") "/files/{name/" = Ok (Some ∅)).
Proof.
  split.
  - exact (proj1 unterminated_brace_is_literal "/users/{id}/" "oops" eq_refl).
  - exact (proj2 unterminated_brace_is_literal "/files/" "name" "/files/{name/"
             eq_refl eq_refl eq_refl).
Defined.

(** ** More on the route table, the chain and the answers *)
Lemma findLoop_snoc rs route method path flag :
  Router.findLoop (rs ++ [route]) method path flag
  = match Router.findLoop rs method path flag with
    | (Some won, ps, f) => (Some won, ps, f)
    | (None, _, f) => Router.findLoop [route] method path f
    end.
Proof.
  revert flag. induction rs as [|x rs IH]; intros flag; [done|].
  cbn [app Router.findLoop].
  destruct (Route.match_ x path) as [ps|].
  - destruct (String.eqb (Route.method x) method); [done|]. apply IH.
  - apply IH.
Qed.

Lemma findLoop_None rs method path flag ps f :
  Router.findLoop rs method path flag = (None, ps, f) -> ps = None.
Proof.
  revert flag. induction rs as [|x rs IH]; intros flag; simpl.
  - by intros [= <- _].
  - destruct (Route.match_ x path); [destruct (String.eqb _ _); [done|]|]; apply IH.
Qed.

(** X2: registering a route never changes the answer to a request that
    an earlier route serves: [Handle] puts the new route last and leaves
    the two fallback handlers alone, so after it [find] gives what it gave
    before whenever it had found a route; only where it had found none can
    the new route win (when it accepts the path and has the method), or
    turn a 404 into a 405 (when it accepts the path under another
    method). *)
Theorem registration_keeps_earlier_answers
    (r : Router.t) (method pattern : string) (h : HandlerFunc) (mw : Slice.t)
    (r' : Router.t) :
  Router.Handle r method pattern h mw = Ok r' ->
  Router.notFound r' = Router.notFound r /\
  Router.methodNotAllowed r' = Router.methodNotAllowed r /\
  exists re names,
    parsePattern pattern = Ok (re, names) /\
    Router.routes r' = Router.routes r ++ [Route.mk method pattern h mw re names] /\
    forall m path,
      Router.find r' m path
      = match Router.find r m path with
        | (Some won, ps, flag) => (Some won, ps, flag)
        | (None, _, matched) =>
            match Route.match_ (Route.mk method pattern h mw re names) path with
            | Some ps =>
                if String.eqb method m
                then (Some (Route.mk method pattern h mw re names), Some ps, false)
                else (None, None, true)
            | None => (None, None, matched)
            end
        end.
Proof.
  unfold Router.Handle. destruct (parsePattern pattern) as [[re names]|e]; [|done].
  intros [= <-]. simpl. split; [done|]. split; [done|].
  exists re, names. split; [done|]. split; [done|].
  intros m path. unfold Router.find. simpl. rewrite findLoop_snoc.
  destruct (Router.findLoop (Router.routes r) m path false) as [[[won|] ps] f]; [done|].
  simpl. destruct (Route.match_ _ path); [|done].
  by destruct (String.eqb method m).
Qed.

Lemma findLoop_app rs rs' method path flag :
  Router.findLoop (rs ++ rs') method path flag
  = match Router.findLoop rs method path flag with
    | (Some won, ps, f) => (Some won, ps, f)
    | (None, _, f) => Router.findLoop rs' method path f
    end.
Proof.
  revert flag. induction rs as [|x rs IH]; intros flag; [done|].
  cbn [app Router.findLoop].
  destruct (Route.match_ x path) as [ps|].
  - destruct (String.eqb (Route.method x) method); [done|]. apply IH.
  - apply IH.
Qed.

Lemma handleEach_routes methods : forall r pattern h mw,
  Router.handleEach r methods pattern h mw
  = match methods, parsePattern pattern with
    | [], _ => Ok r
    | _ :: _, Err e => Err e
    | _ :: _, Ok (re, names) =>
        Ok (Router.mk
              (Router.routes r
               ++ map (fun m => Route.mk m pattern h mw re names) methods)
              (Router.notFound r) (Router.methodNotAllowed r))
    end.
Proof.
  induction methods as [|m ms IH]; intros r pattern h mw; simpl.
  - done.
  - unfold Router.Handle. destruct (parsePattern pattern) as [[re names]|e] eqn:Hp; [|done].
    rewrite IH, Hp. destruct ms as [|m' ms]; simpl.
    + by destruct r.
    + by rewrite <- app_assoc.
Qed.

Lemma match_same_matcher m1 m2 pattern h mw re names path :
  Route.match_ (Route.mk m1 pattern h mw re names) path
  = Route.match_ (Route.mk m2 pattern h mw re names) path.
Proof. reflexivity. Qed.

Lemma findLoop_each ms pattern h mw re names m path ps :
  Route.match_ (Route.mk m pattern h mw re names) path = Some ps ->
  forall flag,
    Router.findLoop (map (fun x => Route.mk x pattern h mw re names) ms) m path flag
    = if existsb (String.eqb m) ms
      then (Some (Route.mk m pattern h mw re names), Some ps, false)
      else (None, None, flag || negb (Nat.eqb (length ms) 0)).
Proof.
  intros Hm. induction ms as [|x ms IH]; intros flag; simpl.
  - by rewrite orb_false_r.
  - rewrite (match_same_matcher x m), Hm.
    rewrite (String.eqb_sym m x).
    destruct (String.eqb_spec x m) as [->|Hne]; [done|].
    simpl. rewrite IH. destruct (existsb _ ms); [done|].
    simpl. by rewrite orb_true_r.
Qed.

(** X3: [Any] registers the pattern once per method, in the order GET,
    POST, PUT, PATCH, DELETE, OPTIONS, HEAD, after the routes already
    there.  A request that no earlier route serves and whose path the
    pattern accepts goes to the [Any] route when its method is one of the
    seven, and is answered 405 otherwise; requests an earlier route serves
    keep that route. *)
Theorem Any_registers_every_method
    (r : Router.t) (pattern : string) (h : HandlerFunc) (mw : Slice.t)
    (r' : Router.t) :
  Router.Any r pattern h mw = Ok r' ->
  exists re names,
    parsePattern pattern = Ok (re, names) /\
    Router.routes r'
    = Router.routes r
      ++ map (fun m => Route.mk m pattern h mw re names) Router.anyMethods /\
    forall m path,
      Router.find r' m path
      = match Router.find r m path with
        | (Some won, ps, flag) => (Some won, ps, flag)
        | (None, _, matched) =>
            match Route.match_ (Route.mk m pattern h mw re names) path with
            | Some ps =>
                if existsb (String.eqb m) Router.anyMethods
                then (Some (Route.mk m pattern h mw re names), Some ps, false)
                else (None, None, true)
            | None => (None, None, matched)
            end
        end.
Proof.
  unfold Router.Any. rewrite handleEach_routes.
  change Router.anyMethods with ("GET" :: tl Router.anyMethods) at 1.
  cbv iota. destruct (parsePattern pattern) as [[re names]|e]; [|done].
  intros Heq.
  assert (r' = Router.mk
                 (Router.routes r
                  ++ map (fun m => Route.mk m pattern h mw re names) Router.anyMethods)
                 (Router.notFound r) (Router.methodNotAllowed r)) as -> by congruence.
  clear Heq. exists re, names. split; [done|]. split; [done|].
  intros m path. unfold Router.find. cbn [Router.routes]. rewrite findLoop_app.
  destruct (Router.findLoop (Router.routes r) m path false) as [[[won|] ps] f]; [done|].
  destruct (Route.match_ (Route.mk m pattern h mw re names) path) as [ps'|] eqn:Hm.
  - rewrite (findLoop_each _ _ _ _ _ _ _ _ _ Hm).
    destruct (existsb _ _); [done|]. simpl. by rewrite orb_true_r.
  - clear -Hm. generalize Router.anyMethods as ms. intros ms. revert f.
    induction ms as [|x ms IH]; intros f; simpl; [done|].
    rewrite (match_same_matcher x m), Hm. apply IH.
Qed.

(** X4: with the fallback handlers [NewRouter] installs, a request that
    no route serves is answered by exactly one JSON error response: 405
    with the message [method not allowed] when some route accepts the
    path, 404 with the message [route not found] otherwise.  The handler
    does not panic; the error it returns is the one the writer gave to
    the write of the body, [nil] when the connection took it.
    Parameters and store of the context are not touched. *)
Theorem unmatched_request_defaults (r : Router.t) (h : Slice.heap) (c : Context) :
  Router.notFound r = Router.notFound Router.NewRouter ->
  Router.methodNotAllowed r = Router.methodNotAllowed Router.NewRouter ->
  Forall (fun x => serves x (Ctx.Method_ c) (Ctx.Path c) = false) (Router.routes r) ->
  Router.handleRequest r h c
  = Return (sent c (if existsb (fun x => accepts x (Ctx.Path c)) (Router.routes r)
                    then errorEvents 405 "method not allowed"
                    else errorEvents 404 "route not found"))
      (writeErrorAfter c
         (jsonHead (if existsb (fun x => accepts x (Ctx.Path c)) (Router.routes r)
                    then 405 else 404))) /\
  ((forall evs, WriteErr (Req c) evs = None) ->
   Router.handleRequest r h c
   = Return (sent c (if existsb (fun x => accepts x (Ctx.Path c)) (Router.routes r)
                     then errorEvents 405 "method not allowed"
                     else errorEvents 404 "route not found")) None).
Proof.
  intros Hnf Hmna Hall.
  assert (H : Router.handleRequest r h c
              = Return (sent c (if existsb (fun x => accepts x (Ctx.Path c))
                                     (Router.routes r)
                                then errorEvents 405 "method not allowed"
                                else errorEvents 404 "route not found"))
                  (writeErrorAfter c
                     (jsonHead (if existsb (fun x => accepts x (Ctx.Path c))
                                     (Router.routes r)
                                then 405 else 404)))).
  { unfold Router.handleRequest, Router.find.
    destruct (findLoop_spec (Router.routes r) (Ctx.Method_ c) (Ctx.Path c) false)
      as [(pre & route & post & ps & Hrs & _ & Hm & Hmeth & _)|[_ ->]].
    - exfalso. rewrite Hrs in Hall. apply Forall_app in Hall as [_ Hall].
      apply Forall_cons in Hall as [Hs _]. unfold serves in Hs.
      rewrite (accepts_Some _ _ _ Hm), Hmeth, String.eqb_refl in Hs. done.
    - simpl. destruct (existsb _ _).
      + rewrite Hmna.
        change (Router.methodNotAllowed Router.NewRouter c)
          with (Ctx.Error c 405 "method not allowed").
        by rewrite Error_sent by (by apply headerTaken_valid).
      + rewrite Hnf.
        change (Router.notFound Router.NewRouter c)
          with (Ctx.Error c 404 "route not found").
        by rewrite Error_sent by (by apply headerTaken_valid). }
  split; [exact H|]. intros Hok. rewrite H. unfold writeErrorAfter. by rewrite Hok.
Qed.

Lemma globalLoop_total fs handler :
  App.globalLoop (map total fs) (length fs) handler
  = foldr (fun f acc => f acc) handler fs.
Proof.
  revert handler. induction fs as [|f fs IH]; intros handler; [done|].
  cbn [map length]. rewrite globalLoop_cons by (rewrite length_map; lia).
  rewrite IH. reflexivity.
Qed.

Lemma emitAll_app c xs ys : emitAll (emitAll c xs) ys = emitAll c (xs ++ ys).
Proof. unfold emitAll. simpl. by rewrite map_app, app_assoc. Qed.

Lemma emitAll_SetParams c ps xs :
  emitAll (Ctx.SetParams c ps) xs = Ctx.SetParams (emitAll c xs) ps.
Proof. reflexivity. Qed.

(** X5: the handler [ServeHTTP] runs is the global middleware, first
    registered outermost, around [handleRequest]; [handleRequest] sets the
    path parameters and then runs the middleware of the matched route,
    first given outermost, around its handler.  So the pre-logic runs in
    the order global, route, handler and the post-logic in the reverse
    order, and the global middleware runs before the parameters are
    set. *)
Theorem global_middleware_wraps_route_middleware :
  (forall (a : App.t) (h : Slice.heap) (gs : list (HandlerFunc -> HandlerFunc)),
      Slice.view h (App.middleware a) = map total gs ->
      App.chain a h
      = foldr (fun f acc => f acc) (Router.handleRequest (App.router a) h) gs) /\
  (forall (r : Router.t) (h : Slice.heap) (c : Context) route ps flag
          (rs : list (HandlerFunc -> HandlerFunc)),
      Router.find r (Ctx.Method_ c) (Ctx.Path c) = (Some route, Some ps, flag) ->
      Slice.view h (Route.middleware route) = map total rs ->
      Router.handleRequest r h c
      = foldr (fun f acc => f acc) (Route.handler route) rs (Ctx.SetParams c ps)) /\
  (forall (a : App.t) (h : Slice.heap) (c : Context) route ps flag
          (gm rm : list (string * string)) c' err,
      Slice.view h (App.middleware a)
      = map (fun m => total (around (fst m) (snd m))) gm ->
      Router.find (App.router a) (Ctx.Method_ c) (Ctx.Path c) = (Some route, Some ps, flag) ->
      Slice.view h (Route.middleware route)
      = map (fun m => total (around (fst m) (snd m))) rm ->
      Route.handler route (emitAll (Ctx.SetParams c ps) (map fst gm ++ map fst rm))
      = Return c' err ->
      App.chain a h c
      = Return (emitAll c' (rev (map snd rm) ++ rev (map snd gm))) err).
Proof.
  split; [|split].
  - intros a h gs Hv. unfold App.chain. rewrite Hv, length_map. apply globalLoop_total.
  - intros r h c route ps flag rs Hf Hv. unfold Router.handleRequest.
    rewrite Hf, Hv. simpl. rewrite wrapLoop_nest, nest_total. done.
  - intros a h c route ps flag gm rm c' err Hg Hf Hr Hh.
    unfold App.chain. rewrite Hg, length_map.
    rewrite <- (map_map (fun m => around (fst m) (snd m)) total).
    rewrite <- (length_map (fun m => around (fst m) (snd m)) gm), globalLoop_total.
    rewrite <- emitAll_app.
    apply (onion_order gm _ c (emitAll c' (rev (map snd rm))) err).
    unfold Router.handleRequest.
    change (Ctx.Method_ (emitAll c (map fst gm))) with (Ctx.Method_ c).
    change (Ctx.Path (emitAll c (map fst gm))) with (Ctx.Path c).
    rewrite Hf. cbn [default]. rewrite Hr.
    rewrite <- (map_map (fun m => around (fst m) (snd m)) total).
    rewrite wrapLoop_nest, nest_total.
    apply onion_order. rewrite <- emitAll_SetParams, emitAll_app. exact Hh.
Qed.

Lemma nest_app ms1 ms2 h : nest (ms1 ++ ms2) h = nest ms2 h ≫= nest ms1.
Proof.
  unfold nest. rewrite foldr_app.
  destruct (foldr (fun m acc => acc ≫= m) (Some h) ms2) as [h'|]; simpl; [done|].
  induction ms1 as [|m ms IH]; simpl; [done|]. by rewrite IH.
Qed.

(** X6: chaining is associative in the expected way: the chain of
    [ms1 ++ ms2] is the chain of [ms1] applied to the chain of [ms2], a
    chain of two chains is the chain of the concatenation, and
    [WrapMiddleware h ms] is [Chain ms h].  A middleware that does not
    call [next] cuts the chain: everything registered after it, and the
    handler, are replaced by what it returns. *)
Theorem Chain_composes :
  (forall (ms1 ms2 : list MiddlewareFunc) (h : HandlerFunc),
      Chain (ms1 ++ ms2) h = Chain ms2 h ≫= Chain ms1) /\
  (forall (ms1 ms2 : list MiddlewareFunc) (h : HandlerFunc),
      Chain [Chain ms1; Chain ms2] h = Chain (ms1 ++ ms2) h) /\
  (forall (h : HandlerFunc) (ms : list MiddlewareFunc),
      WrapMiddleware h ms = Chain ms h) /\
  (forall (outer inner : list MiddlewareFunc) (g h h' : HandlerFunc),
      Chain inner h = Some h' ->
      Chain (outer ++ total (fun _ => g) :: inner) h = Chain outer g).
Proof.
  assert (Happ : forall ms1 ms2 h, Chain (ms1 ++ ms2) h = Chain ms2 h ≫= Chain ms1).
  { intros. unfold Chain. rewrite !wrapLoop_nest, nest_app.
    destruct (nest ms2 h); simpl; [by rewrite wrapLoop_nest|done]. }
  split; [exact Happ|]. split; [|split].
  - intros ms1 ms2 h. rewrite Happ.
    unfold Chain at 1. rewrite wrapLoop_nest. unfold nest. simpl.
    destruct (Chain ms2 h); done.
  - done.
  - intros outer inner g h h' Hin. rewrite Happ.
    change (total (fun _ => g) :: inner) with ([total (fun _ : HandlerFunc => g)] ++ inner).
    rewrite Happ, Hin. simpl. done.
Qed.

Lemma sendDefaultPanicResponse_sent c :
  Middleware.sendDefaultPanicResponse c
  = Return (if Ctx.IsWritten c then c
            else sent c (errorEvents 500 "Internal Server Error")) None.
Proof.
  unfold Middleware.sendDefaultPanicResponse. destruct (Ctx.IsWritten c); [done|].
  change (Ctx.JSON c Ctx.StatusInternalServerError _)
    with (Ctx.Error c 500 "Internal Server Error").
  by rewrite Error_sent by (by apply headerTaken_valid).
Qed.

(** X7: [Recovery] is transparent when the wrapped handler returns.
    When it panics, [Recovery] returns [nil], and the response is the JSON
    error 500 [Internal Server Error] unless a response had been written
    before the panic, in which case nothing more is sent; either way the
    context ends up marked as written. *)
Theorem Recovery_answers_a_panic (next : HandlerFunc) :
  exists wrapped,
    Middleware.Recovery next = Some wrapped /\
    (forall c c' err, next c = Return c' err -> wrapped c = Return c' err) /\
    (forall c c' v,
        next c = Panic c' v ->
        wrapped c
        = Return (if Ctx.IsWritten c' then c'
                  else sent c' (errorEvents 500 "Internal Server Error")) None) /\
    (forall c, exists c' err,
        wrapped c = Return c' err /\
        (forall c0 v, next c = Panic c0 v -> Ctx.IsWritten c' = true /\ err = None)).
Proof.
  eexists. split; [reflexivity|]. split; [|split].
  - intros c c' err H. cbv beta. by rewrite H.
  - intros c c' v H. cbv beta. rewrite H. by rewrite sendDefaultPanicResponse_sent.
  - intros c. cbv beta. destruct (next c) as [c' err|c' v] eqn:H.
    + exists c', err. split; [done|]. intros c0 v0 [=].
    + rewrite sendDefaultPanicResponse_sent.
      eexists _, _. split; [reflexivity|]. intros c0 v0 _. split; [|done].
      destruct (Ctx.IsWritten c') eqn:Hw; [done|]. reflexivity.
Qed.

(** X8: a context taken from the pool carries nothing over: whatever
    the pool holds, the handler chain starts from the context a fresh
    [newContext] would give, so the answer of [ServeHTTP] to a request
    does not depend on the content of the pool. *)
Theorem pooled_context_carries_nothing :
  (forall (a : App.t) (r : Request), acquired a r = Ctx.newContext r) /\
  (forall (a : App.t) (h : Slice.heap) (r : Request) (pool pool' : list Context),
      answer (App.ServeHTTP (withPool a pool) h r)
      = answer (App.ServeHTTP (withPool a pool') h r)) /\
  (forall (a : App.t) (h : Slice.heap) (r : Request),
      answer (App.ServeHTTP a h r)
      = match App.chain a h (Ctx.newContext r) with
        | Return c (Some e) =>
            match App.handleError a c e with
            | Return c' _ => (c', None)
            | Panic c' v => (c', Some v)
            end
        | Return c None => (c, None)
        | Panic c v => (c, Some v)
        end).
Proof.
  assert (H3 : forall a h r,
             answer (App.ServeHTTP a h r)
             = match App.chain a h (Ctx.newContext r) with
               | Return c (Some e) =>
                   match App.handleError a c e with
                   | Return c' _ => (c', None)
                   | Panic c' v => (c', Some v)
                   end
               | Return c None => (c, None)
               | Panic c v => (c, Some v)
               end).
  { intros a h r. unfold App.ServeHTTP.
    destruct (App.poolGet (App.contextPool a)) as [c0 pool0].
    rewrite chain_pool_irrelevant.
    change (Ctx.reset c0 r) with (Ctx.newContext r).
    destruct (App.chain a h (Ctx.newContext r)) as [c [e|]|c v]; try reflexivity.
    change (App.handleError
              (App.mk (App.router a) (App.middleware a) (App.debug a) pool0))
      with (App.handleError a).
    by destruct (App.handleError a c e). }
  split; [done|]. split; [|exact H3].
  intros a h r pool pool'. rewrite !H3. unfold withPool.
  rewrite !chain_pool_irrelevant. reflexivity.
Qed.

Lemma handleError_sent (a : App.t) (c : Context) code message cause :
  Ctx.IsWritten c = false ->
  headerTaken c code = true ->
  App.debug a = false \/ cause = None ->
  App.handleError a c (HTTPError code message cause)
  = Return (sent c (errorEvents code message)) None.
Proof.
  intros Hw Ht H. unfold App.handleError. rewrite Hw. destruct H as [Hd| ->].
  - rewrite Hd. by rewrite Error_sent.
  - destruct (App.debug a); by rewrite Error_sent.
Qed.

(** X9: [handleError] on a context not yet written.  When the writer
    takes the status code (the header is not out yet and the code lies in
    100..999, or the header is out already) it sends one JSON error
    response and returns.  Outside debug mode the response is built from
    the code and message of an [HTTPError] only, and is the fixed 500
    [Internal Server Error] for any other error: neither the wrapped
    cause nor the text of a generic error reaches the client.  In debug
    mode the text of the cause of an [HTTPError] is sent in the [debug]
    field.  [handleError] panics, with no status sent, on a status code
    the writer refuses, on a nil [*HTTPError], and in debug mode on an
    error whose [Error] method panics. *)
Theorem handleError_translation (a : App.t) (c : Context) :
  Ctx.IsWritten c = false ->
  (forall code message cause,
      headerTaken c code = true ->
      App.debug a = false \/ cause = None ->
      App.handleError a c (HTTPError code message cause)
      = Return (sent c (errorEvents code message)) None) /\
  (forall text,
      App.debug a = false ->
      App.handleError a c (OtherError text)
      = Return (sent c (errorEvents 500 "Internal Server Error")) None) /\
  (forall code message (text : string),
      App.debug a = true ->
      headerTaken c code = true ->
      App.handleError a c (HTTPError code message (Some (Text text)))
      = Return (sent c (jsonHead code ++
                        [EncodeJSONEv
                           (JObject (JField "error"
                              (JObject (JField "code" (JInt code)
                                 (JField "message" (JString message)
                                    (JField "debug" (JString text) JEnd)))) JEnd))]))
          None) /\
  (forall code message cause,
      headerTaken c code = false ->
      (App.debug a = false \/ forall v, cause <> Some (Panics v)) ->
      App.handleError a c (HTTPError code message cause)
      = Panic (Ctx.SetHeader c "Content-Type" "application/json; charset=utf-8")
          ("invalid WriteHeader code " +:+ Strconv.Itoa code)) /\
  App.handleError a c NilHTTPError
  = Panic c "invalid memory address or nil pointer dereference" /\
  (forall code message v,
      App.debug a = true ->
      App.handleError a c (HTTPError code message (Some (Panics v))) = Panic c v /\
      App.handleError a c (OtherError (Panics v)) = Panic c v).
Proof.
  intros Hw. split; [|split; [|split; [|split; [|split]]]].
  - intros code message cause Ht H. by apply handleError_sent.
  - intros text Hd. unfold App.handleError. rewrite Hw, Hd.
    change (Ctx.InternalError c EmptyString) with (Ctx.Error c 500 "Internal Server Error").
    by rewrite Error_sent by (by apply headerTaken_valid).
  - intros code message text Hd Ht. unfold App.handleError. rewrite Hw, Hd.
    by rewrite JSON_taken.
  - intros code message cause Ht H. unfold App.handleError. rewrite Hw.
    destruct (App.debug a) eqn:Hd, cause as [[text|v]|];
      unfold Ctx.Error; rewrite ?JSON_refused by done; try done.
    destruct H as [H|H]; [done|]. by destruct (H v).
  - unfold App.handleError. by rewrite Hw.
  - intros code message v Hd. unfold App.handleError. by rewrite Hw, Hd.
Qed.

(** X10: each of the ten constructors of errors.go returns an
    [HTTPError] with its own status code, no wrapped error, and a message
    that is never empty: the one given, or the status text of the code when
    the empty string is given.  Returned from a handler before anything
    was written, it is answered with that code and message, in debug mode
    or not. *)
Theorem Err_constructors_answer (a : App.t) (c : Context) (msg : string) :
  Ctx.IsWritten c = false ->
  Forall (fun p : (string -> error) * Z =>
            exists message,
              p.1 msg = HTTPError p.2 message None /\
              message = (if String.eqb msg EmptyString then statusText p.2 else msg) /\
              message <> EmptyString /\
              App.handleError a c (p.1 msg)
              = Return (sent c (errorEvents p.2 message)) None)
    errConstructors.
Proof.
  intros Hw.
  pose proof (fun code message cause Hc H =>
                handleError_sent a c code message cause Hw (headerTaken_valid c code Hc) H)
    as H1.
  unfold errConstructors.
  repeat (apply Forall_cons; split;
          [eexists; split; [reflexivity|]; split; [reflexivity|]; split;
           [unfold orStatusText; destruct (String.eqb_spec msg EmptyString); done|];
           apply H1; [simpl; lia|by right]|]).
  apply Forall_nil_2.
Qed.

(** X11: [Redirect] sends the [Location] header and the status, and
    marks the context written, exactly when the code lies in 300..308.
    For any other code it sends nothing, leaves the context as it was and
    returns the 400 error [invalid redirect status code], which
    [handleError] then turns into the response. *)
Theorem Redirect_only_with_a_redirect_code (c : Context) (code : Z) (url : string) :
  (300 <= code <= 308 ->
   Ctx.Redirect c code url
   = (mkContext (Req c) (Writer c ++ [SetHeaderEv "Location" url; WriteHeaderEv code])
        (params c) (store c) true, None)) /\
  (code < 300 \/ 308 < code ->
   Ctx.Redirect c code url
   = (c, Some (HTTPError 400 "invalid redirect status code" None)) /\
   forall a : App.t,
     Ctx.IsWritten c = false ->
     App.handleError a (fst (Ctx.Redirect c code url))
       (HTTPError 400 "invalid redirect status code" None)
     = Return (sent c (errorEvents 400 "invalid redirect status code")) None).
Proof.
  unfold Ctx.Redirect. split.
  - intros H.
    replace ((code <? 300) || (308 <? code)) with false
      by (symmetry; apply orb_false_iff; split; apply Z.ltb_ge; lia).
    unfold Ctx.SetHeader, Ctx.emit, Ctx.markWritten. simpl. by rewrite <- app_assoc.
  - intros H.
    replace ((code <? 300) || (308 <? code)) with true
      by (symmetry; apply orb_true_iff; destruct H; [left|right]; apply Z.ltb_lt; lia).
    split; [done|]. intros a Hw. simpl.
    apply handleError_sent; [done|by apply headerTaken_valid|by right].
Qed.

Lemma registration_keeps_earlier_answers_witness :
  Router.Handle Router.NewRouter "GET" "/users/{id}" okHandler Slice.nil = Ok usersRouter /\
  Router.notFound usersRouter = Router.notFound Router.NewRouter /\
  Router.methodNotAllowed usersRouter = Router.methodNotAllowed Router.NewRouter /\
  exists re names,
    parsePattern "/users/{id}" = Ok (re, names) /\
    Router.routes usersRouter
    = Router.routes Router.NewRouter
      ++ [Route.mk "GET" "/users/{id}" okHandler Slice.nil re names] /\
    forall m path,
      Router.find usersRouter m path
      = match Router.find Router.NewRouter m path with
        | (Some won, ps, flag) => (Some won, ps, flag)
        | (None, _, matched) =>
            match Route.match_
                    (Route.mk "GET" "/users/{id}" okHandler Slice.nil re names) path with
            | Some ps =>
                if String.eqb "GET" m
                then (Some (Route.mk "GET" "/users/{id}" okHandler Slice.nil re names),
                      Some ps, false)
                else (None, None, true)
            | None => (None, None, matched)
            end
        end.
Proof.
  assert (H : Router.Handle Router.NewRouter "GET" "/users/{id}" okHandler Slice.nil
              = Ok usersRouter) by (vm_compute; reflexivity).
  split; [exact H|].
  exact (registration_keeps_earlier_answers Router.NewRouter "GET" "/users/{id}"
           okHandler Slice.nil usersRouter H).
Defined.

Lemma Any_registers_every_method_witness :
  Router.Any usersRouter "/ping" okHandler Slice.nil = Ok anyRouter /\
  exists re names,
    parsePattern "/ping" = Ok (re, names) /\
    Router.routes anyRouter
    = Router.routes usersRouter
      ++ map (fun m => Route.mk m "/ping" okHandler Slice.nil re names) Router.anyMethods /\
    forall m path,
      Router.find anyRouter m path
      = match Router.find usersRouter m path with
        | (Some won, ps, flag) => (Some won, ps, flag)
        | (None, _, matched) =>
            match Route.match_ (Route.mk m "/ping" okHandler Slice.nil re names) path with
            | Some ps =>
                if existsb (String.eqb m) Router.anyMethods
                then (Some (Route.mk m "/ping" okHandler Slice.nil re names), Some ps, false)
                else (None, None, true)
            | None => (None, None, matched)
            end
        end.
Proof.
  assert (H : Router.Any usersRouter "/ping" okHandler Slice.nil = Ok anyRouter)
    by (vm_compute; reflexivity).
  split; [exact H|].
  exact (Any_registers_every_method usersRouter "/ping" okHandler Slice.nil anyRouter H).
Defined.

Lemma unmatched_request_defaults_witness :
  (Router.notFound usersRouter = Router.notFound Router.NewRouter /\
   Router.methodNotAllowed usersRouter = Router.methodNotAllowed Router.NewRouter /\
   Forall (fun x => serves x (Ctx.Method_ postRequest) (Ctx.Path postRequest) = false)
     (Router.routes usersRouter)) /\
  Router.handleRequest usersRouter [] postRequest
  = Return (sent postRequest
              (if existsb (fun x => accepts x (Ctx.Path postRequest))
                    (Router.routes usersRouter)
               then errorEvents 405 "method not allowed"
               else errorEvents 404 "route not found")) None.
Proof.
  assert (H1 : Router.notFound usersRouter = Router.notFound Router.NewRouter)
    by reflexivity.
  assert (H2 : Router.methodNotAllowed usersRouter
               = Router.methodNotAllowed Router.NewRouter) by reflexivity.
  assert (H3 : Forall (fun x => serves x (Ctx.Method_ postRequest) (Ctx.Path postRequest)
                                = false) (Router.routes usersRouter)).
  { let l := eval vm_compute in (Router.routes usersRouter) in
    change (Router.routes usersRouter) with l.
    repeat constructor. }
  split; [by repeat split|].
  exact (proj1 (unmatched_request_defaults usersRouter [] postRequest H1 H2 H3)).
Defined.

Lemma global_middleware_wraps_route_middleware_witness :
  (Slice.view apiHeap (App.middleware adminApp)
   = map (fun m => total (around (fst m) (snd m))) [("auth-pre", "auth-post")] /\
   Router.find (App.router adminApp) (Ctx.Method_ adminRequest) (Ctx.Path adminRequest)
   = (Some adminRoute, Some ∅, false) /\
   Slice.view apiHeap (Route.middleware adminRoute)
   = map (fun m => total (around (fst m) (snd m))) [("admin-pre", "admin-post")] /\
   Route.handler adminRoute
     (emitAll (Ctx.SetParams adminRequest ∅)
        (map fst [("auth-pre", "auth-post")] ++ map fst [("admin-pre", "admin-post")]))
   = Return (ctxOf (Ctx.String_
                    (emitAll (Ctx.SetParams adminRequest ∅) ["auth-pre"; "admin-pre"])
                    200 "ok")) None) /\
  App.chain adminApp apiHeap adminRequest
  = Return (emitAll (ctxOf (Ctx.String_
                            (emitAll (Ctx.SetParams adminRequest ∅)
                               ["auth-pre"; "admin-pre"]) 200 "ok"))
              (rev (map snd [("admin-pre", "admin-post")])
               ++ rev (map snd [("auth-pre", "auth-post")]))) None.
Proof.
  assert (H1 : Slice.view apiHeap (App.middleware adminApp)
               = map (fun m => total (around (fst m) (snd m))) [("auth-pre", "auth-post")])
    by reflexivity.
  assert (H2 : Router.find (App.router adminApp) (Ctx.Method_ adminRequest)
                 (Ctx.Path adminRequest) = (Some adminRoute, Some ∅, false))
    by (vm_compute; reflexivity).
  assert (H3 : Slice.view apiHeap (Route.middleware adminRoute)
               = map (fun m => total (around (fst m) (snd m)))
                   [("admin-pre", "admin-post")]) by reflexivity.
  assert (H4 : Route.handler adminRoute
                 (emitAll (Ctx.SetParams adminRequest ∅)
                    (map fst [("auth-pre", "auth-post")]
                     ++ map fst [("admin-pre", "admin-post")]))
               = Return (ctxOf (Ctx.String_
                                (emitAll (Ctx.SetParams adminRequest ∅)
                                   ["auth-pre"; "admin-pre"]) 200 "ok")) None)
    by reflexivity.
  split; [by repeat split|].
  exact (proj2 (proj2 global_middleware_wraps_route_middleware) adminApp apiHeap
           adminRequest adminRoute ∅ false [("auth-pre", "auth-post")]
           [("admin-pre", "admin-post")] _ None H1 H2 H3 H4).
Defined.

Lemma Chain_composes_witness :
  Chain [adminMw] boom = Some (around "admin-pre" "admin-post" boom) /\
  Chain ([authMw] ++ total (fun _ => okHandler) :: [adminMw]) boom
  = Chain [authMw] okHandler.
Proof.
  assert (H : Chain [adminMw] boom = Some (around "admin-pre" "admin-post" boom))
    by reflexivity.
  split; [exact H|].
  exact (proj2 (proj2 (proj2 Chain_composes)) [authMw] [adminMw] okHandler boom _ H).
Defined.

Lemma Recovery_answers_a_panic_witness :
  exists wrapped,
    Middleware.Recovery boom = Some wrapped /\
    boom lostRequest = Panic lostRequest "boom" /\
    wrapped lostRequest
    = Return (if Ctx.IsWritten lostRequest then lostRequest
              else sent lostRequest (errorEvents 500 "Internal Server Error")) None.
Proof.
  destruct (Recovery_answers_a_panic boom) as (wrapped & Hw & _ & Hp & _).
  exists wrapped. split; [exact Hw|]. split; [reflexivity|].
  apply (Hp lostRequest lostRequest "boom"). reflexivity.
Defined.

Lemma handleError_translation_witness :
  Ctx.IsWritten lostRequest = false /\
  App.handleError failingApp lostRequest (HTTPError 418 "teapot" (Some (Text "cause")))
  = Return (sent lostRequest (errorEvents 418 "teapot")) None /\
  App.handleError failingApp lostRequest (HTTPError 0 "oops" None)
  = Panic (Ctx.SetHeader lostRequest "Content-Type" "application/json; charset=utf-8")
      "invalid WriteHeader code 0" /\
  App.handleError failingApp lostRequest NilHTTPError
  = Panic lostRequest "invalid memory address or nil pointer dereference".
Proof.
  assert (H : Ctx.IsWritten lostRequest = false) by reflexivity.
  destruct (handleError_translation failingApp lostRequest H)
    as (H1 & _ & _ & H4 & H5 & _).
  split; [exact H|]. split; [|split].
  - exact (H1 418 "teapot" (Some (Text "cause")) eq_refl (or_introl eq_refl)).
  - exact (H4 0 "oops" None eq_refl (or_introl eq_refl)).
  - exact H5.
Defined.

Lemma Err_constructors_answer_witness :
  Ctx.IsWritten lostRequest = false /\
  Forall (fun p : (string -> error) * Z =>
            exists message,
              p.1 EmptyString = HTTPError p.2 message None /\
              message = (if String.eqb EmptyString EmptyString
                         then statusText p.2 else EmptyString) /\
              message <> EmptyString /\
              App.handleError failingApp lostRequest (p.1 EmptyString)
              = Return (sent lostRequest (errorEvents p.2 message)) None)
    errConstructors.
Proof.
  assert (H : Ctx.IsWritten lostRequest = false) by reflexivity.
  split; [exact H|].
  exact (Err_constructors_answer failingApp lostRequest EmptyString H).
Defined.

Lemma Redirect_only_with_a_redirect_code_witness :
  (300 <= 302 <= 308 /\
   Ctx.Redirect lostRequest 302 "/login"
   = (mkContext (Req lostRequest)
        (Writer lostRequest ++ [SetHeaderEv "Location" "/login"; WriteHeaderEv 302])
        (params lostRequest) (store lostRequest) true, None)) /\
  ((200 < 300 \/ 308 < 200) /\
   Ctx.Redirect lostRequest 200 "/login"
   = (lostRequest, Some (HTTPError 400 "invalid redirect status code" None))).
Proof.
  assert (H1 : 300 <= 302 <= 308) by lia.
  assert (H2 : 200 < 300 \/ 308 < 200) by (left; lia).
  split.
  - split; [exact H1|].
    exact (proj1 (Redirect_only_with_a_redirect_code lostRequest 302 "/login") H1).
  - split; [exact H2|].
    exact (proj1 (proj2 (Redirect_only_with_a_redirect_code lostRequest 200 "/login") H2)).
Defined.

(** ** One placeholder between literal texts *)
Lemma run_Star g a rest pos cs k :
  run (Star g a) rest pos cs k = starLoop g a k (S (String.length rest)) rest pos cs.
Proof. reflexivity. Qed.

Lemma run_Plus g a rest pos cs k :
  run (Plus g a) rest pos cs k
  = run a rest pos cs (fun rest' pos' cs' => run (Star g a) rest' pos' cs' k).
Proof. reflexivity. Qed.

Lemma fold_lits L : forall rest T,
  fold_left (fun acc r => Cat r acc) (rev (map Lit L) ++ rest) T
  = fold_left (fun acc r => Cat r acc) rest (litChain L T).
Proof.
  induction L as [|l L IH]; intros rest T; [done|].
  cbn [map rev]. rewrite <- app_assoc. cbn [app]. rewrite IH. done.
Qed.

Lemma parse_default_param f tail ng alts stack inGroup :
  parse (S (S (S (S f)))) (bytesN "([^/]+)" ++ tail) ng alts stack false inGroup
  = parse (S (S (S f))) tail (S ng) alts
      (Group (S ng) (Cat (Plus true notSlash) Eps) :: stack) false inGroup.
Proof. reflexivity. Qed.

Lemma parse_catch_all f tail ng alts stack inGroup :
  parse (S (S (S (S f)))) (bytesN "(.*)" ++ tail) ng alts stack false inGroup
  = parse (S (S (S f))) tail (S ng) alts
      (Group (S ng) (Cat (Star true AnyNotNL) Eps) :: stack) false inGroup.
Proof. reflexivity. Qed.

Lemma quoteRunesAll_length p : (String.length p <= length (quoteRunesAll p))%nat.
Proof.
  induction p as [|c p IH]; [done|]. simpl. rewrite length_app.
  unfold quoteRunes. destruct (special c); simpl; lia.
Qed.

Lemma parse_end k L : forall ng,
  parse (4 + k) [ch "/"; ch "?"; ch "$"] ng [] L false false
  = Ok (catOf (EndText :: Quest true (Lit (ch "/")) :: L), @nil N, ng).
Proof.
  intros ng. destruct L as [|a L]; reflexivity.
Qed.

Lemma Compile_one_param lit1 lit2 gtext R :
  isASCII lit1 = true -> isASCII lit2 = true -> isASCII gtext = true ->
  (forall f tail ng alts stack inGroup,
      parse (S (S (S (S f)))) (bytesN gtext ++ tail) ng alts stack false inGroup
      = parse (S (S (S f))) tail (S ng) alts (Group (S ng) R :: stack) false inGroup) ->
  Compile ("^" +:+ quoteAll lit1 +:+ gtext +:+ quoteAll lit2 +:+ "/?$")
  = Ok (mkRegexp
          (Cat BeginText
             (litChain (bytesN lit1)
                (Cat (Group 1 R) (litChain (bytesN lit2) slashEnd)))) 1).
Proof.
  intros H1 H2 Hg Hparse.
  destruct (quoteAll_ascii _ H1) as [Hq1 Hb1].
  destruct (quoteAll_ascii _ H2) as [Hq2 Hb2].
  unfold Compile.
  rewrite runes_ascii; [|by rewrite !isASCII_app, Hq1, Hq2, Hg|done].
  rewrite !bytesN_app, Hb1, Hb2.
  change (bytesN "^") with [ch "^"]. change (bytesN "/?$") with [ch "/"; ch "?"; ch "$"].
  cbn [app length].
  set (E := [ch "/"; ch "?"; ch "$"]).
  set (t := quoteRunesAll lit1 ++ bytesN gtext ++ quoteRunesAll lit2 ++ E).
  change (parse (S (S (length t))) (ch "^" :: t) 0 [] [] false false)
    with (parse (S (length t)) t 0 [] [BeginText] false false).
  pose proof (quoteRunesAll_length lit1) as Hl1.
  pose proof (quoteRunesAll_length lit2) as Hl2.
  subst t. rewrite !length_app. subst E. cbn [length].
  set (k1 := (length (quoteRunesAll lit1) - String.length lit1)%nat).
  set (k2 := (length (quoteRunesAll lit2) - String.length lit2)%nat).
  replace (S (length (quoteRunesAll lit1)
              + (length (bytesN gtext) + (length (quoteRunesAll lit2) + 3))))
    with (String.length lit1
          + S (S (S (S (String.length lit2 + (k1 + k2 + length (bytesN gtext)))))))%nat
    by lia.
  rewrite parse_quoted, Hparse.
  replace (S (S (S (String.length lit2 + (k1 + k2 + length (bytesN gtext))))))
    with (String.length lit2 + (4 + (k1 + k2 + length (bytesN gtext) - 1 + 0)))%nat.
  2:{ assert (1 <= length (bytesN gtext))%nat; [|lia].
      specialize (Hparse 0%nat [] 0%nat [] [] false).
      destruct (bytesN gtext); [|simpl; lia]. simpl in Hparse. discriminate. }
  rewrite parse_quoted, parse_end.
  do 2 f_equal. unfold catOf. cbn [fold_left].
  rewrite fold_lits. cbn [fold_left]. rewrite fold_lits. cbn [fold_left]. done.
Qed.

Lemma decodeRune_within b c seg' rem :
  (byteN b < 0x80)%N ->
  (rem = EmptyString \/ exists rem', rem = String b rem') ->
  (snd (decodeRune (String c (seg' +:+ rem))) <= S (String.length seg'))%nat.
Proof.
  intros Hb Hrem.
  assert (Hnc : forall lo hi, (0x80 <= lo)%N ->
                  ((lo <=? byteN b) && (byteN b <=? hi))%N = false).
  { intros lo hi Hlo. apply andb_false_iff. left. apply N.leb_gt. lia. }
  destruct seg' as [|c1 [|c2 [|c3 seg4]]];
    destruct Hrem as [->|[rem' ->]];
    unfold decodeRune; cbv zeta beta; rewrite ?app_cons, ?app_nil_s;
    rewrite ?Hnc by lia;
    repeat case_match; simplify_eq; cbn [snd String.length]; try lia.
  all: try match goal with
       | H : negb ((_ <=? byteN ?x) && _)%N = false |- _ =>
           rewrite Hnc in H by lia; discriminate H
       end.
Qed.

Lemma decodeRune_other b c s :
  (byteN b < 0x80)%N -> Ascii.eqb c b = false ->
  (fst (decodeRune (String c s)) =? byteN b)%N = false.
Proof.
  intros Hb Hc. destruct (byteN c <? 0x80)%N eqn:Hlow.
  - rewrite (decodeRune_ascii _ _ Hlow). simpl. by rewrite byteN_eqb.
  - apply N.ltb_ge in Hlow. pose proof (decodeRune_high c s Hlow).
    apply N.eqb_neq. lia.
Qed.

Lemma occurs_skip b n : forall s, occurs b s = false -> occurs b (skip n s) = false.
Proof.
  induction n as [|n IH]; intros s H; [done|].
  destruct s as [|x s]; [done|]. simpl in *.
  apply orb_false_iff in H as [_ H]. by apply IH.
Qed.

Lemma allBut_stop b A rem pos cs k :
  allBut b A -> (byteN b < 0x80)%N ->
  (rem = EmptyString \/ exists rem', rem = String b rem') ->
  run A rem pos cs k = None.
Proof.
  intros HA Hb [->|[rem' ->]]; rewrite HA; [done|].
  unfold step. rewrite decodeRune_ascii by (by apply N.ltb_lt).
  by rewrite N.eqb_refl.
Qed.

Lemma allBut_step b A c seg' rem pos cs k :
  allBut b A -> (byteN b < 0x80)%N ->
  occurs b (String c seg') = false ->
  (rem = EmptyString \/ exists rem', rem = String b rem') ->
  exists w, (1 <= w <= S (String.length seg'))%nat /\
            run A (String c seg' +:+ rem) pos cs k
            = k (skip w (String c seg') +:+ rem) (pos + w)%nat cs.
Proof.
  intros HA Hb Hocc Hrem. rewrite HA. unfold step. rewrite app_cons.
  pose proof (decodeRune_within b c seg' rem Hb Hrem) as Hw.
  pose proof (decodeRune_width c (seg' +:+ rem)) as Hw1.
  simpl in Hocc. apply orb_false_iff in Hocc as [Hc Hocc].
  pose proof (decodeRune_other b c (seg' +:+ rem) Hb Hc) as Hr.
  destruct (decodeRune (String c (seg' +:+ rem))) as [r w]. simpl in *.
  exists w. split; [lia|]. rewrite Hr.
  replace (0 <? w)%nat with true by (symmetry; apply Nat.ltb_lt; lia). simpl.
  f_equal. rewrite <- app_cons. apply skip_app_l. simpl. lia.
Qed.

Lemma star_success b A K :
  allBut b A -> (byteN b < 0x80)%N ->
  forall n seg rem pos cs res,
    occurs b seg = false ->
    (rem = EmptyString \/ exists rem', rem = String b rem') ->
    (String.length seg <= n)%nat ->
    K rem (pos + String.length seg)%nat cs = Some res ->
    starLoop true A K n (seg +:+ rem) pos cs = Some res.
Proof.
  intros HA Hb. induction n as [|n IH]; intros seg rem pos cs res Hocc Hrem Hn HK.
  - assert (seg = EmptyString) as -> by (apply length_zero; lia).
    simpl in *. by rewrite Nat.add_0_r in HK.
  - destruct seg as [|c seg'].
    + rewrite app_nil_s. cbn [starLoop]. rewrite (allBut_stop b) by done.
      simpl in HK. by rewrite Nat.add_0_r in HK.
    + cbn [starLoop].
      destruct (allBut_step b A c seg' rem pos cs
                  (fun rest' pos' cs' =>
                     if (pos <? pos')%nat then starLoop true A K n rest' pos' cs' else None)
                  HA Hb Hocc Hrem) as (w & Hw & ->).
      replace (pos <? pos + w)%nat with true by (symmetry; apply Nat.ltb_lt; lia).
      rewrite (IH _ rem _ cs res); try done.
      * by apply occurs_skip.
      * rewrite skip_length. simpl in *. lia.
      * rewrite skip_length. simpl in *.
        replace (pos + w + (S (String.length seg') - w))%nat
          with (pos + S (String.length seg'))%nat by lia. done.
Qed.

Lemma skip_suffix n : forall s, exists s1, s = s1 +:+ skip n s.
Proof.
  induction n as [|n IH]; intros s; [by exists EmptyString|].
  destruct s as [|x s]; [by exists EmptyString|].
  destruct (IH s) as [s1 Hs]. exists (String x s1). simpl. rewrite app_cons. by f_equal.
Qed.

Lemma star_failure b A K :
  allBut b A -> (byteN b < 0x80)%N ->
  forall n seg rem pos cs,
    occurs b seg = false ->
    (rem = EmptyString \/ exists rem', rem = String b rem') ->
    (forall s1 s2 p, seg = s1 +:+ s2 -> K (s2 +:+ rem) p cs = None) ->
    starLoop true A K n (seg +:+ rem) pos cs = None.
Proof.
  intros HA Hb. induction n as [|n IH]; intros seg rem pos cs Hocc Hrem HK.
  - simpl. by apply (HK EmptyString seg).
  - cbn [starLoop]. rewrite (HK EmptyString seg) by done.
    destruct seg as [|c seg'].
    + rewrite app_nil_s. by rewrite (allBut_stop b).
    + destruct (allBut_step b A c seg' rem pos cs
                  (fun rest' pos' cs' =>
                     if (pos <? pos')%nat then starLoop true A K n rest' pos' cs' else None)
                  HA Hb Hocc Hrem) as (w & Hw & ->).
      replace (pos <? pos + w)%nat with true by (symmetry; apply Nat.ltb_lt; lia).
      rewrite IH; try done.
      * by apply occurs_skip.
      * intros s1 s2 p Hs. destruct (skip_suffix w (String c seg')) as [s0 Hs0].
        apply (HK (s0 +:+ s1) s2). rewrite Hs0 at 1. rewrite Hs. by rewrite app_assoc_s.
Qed.

Lemma step_ext {A} (p q : N -> bool) rest pos (k : string -> nat -> option A) :
  (forall r, p r = q r) -> step p rest pos k = step q rest pos k.
Proof. intros H. unfold step. destruct (decodeRune rest) as [r w]. by rewrite H. Qed.

Lemma allBut_notSlash : allBut "/" notSlash.
Proof.
  intros rest pos cs k. unfold notSlash. cbn [run]. apply step_ext.
  intros r. unfold inClass. cbn [existsb]. rewrite orb_false_r.
  change (byteN "/") with (ch "/").
  replace ((ch "/" <=? r) && (r <=? ch "/"))%N with (r =? ch "/")%N;
    [by destruct (r =? ch "/")%N|].
  destruct (N.eqb_spec r (ch "/")) as [->|Hne].
  - by rewrite !N.leb_refl.
  - symmetry. apply andb_false_iff.
    destruct (N.leb_spec (ch "/") r) as [Hle|Hlt]; [right; apply N.leb_gt; lia|by left].
Qed.

Lemma allBut_AnyNotNL : allBut newline AnyNotNL.
Proof. intros rest pos cs k. reflexivity. Qed.

Lemma split_at b s :
  exists seg rem, s = seg +:+ rem /\ occurs b seg = false /\
                  (rem = EmptyString \/ exists rem', rem = String b rem').
Proof.
  induction s as [|x s (seg & rem & Hs & Ho & Hr)].
  - exists EmptyString, EmptyString. split; [done|]. split; [done|]. by left.
  - destruct (Ascii.eqb_spec x b) as [->|Hne].
    + exists EmptyString, (String b s). split; [done|]. split; [done|].
      right. by exists s.
    + exists (String x seg), rem. rewrite app_cons, <- Hs.
      split; [done|]. split; [|done].
      simpl. rewrite Ho, orb_false_r. by apply Ascii.eqb_neq.
Qed.

Lemma search_anchored_0 R n path :
  search (String.length path) (mkRegexp (Cat BeginText R) n) path 0
  = run (Cat BeginText R) path 0 (replicate (S n) None) wholeMatch.
Proof.
  assert (Hlater : forall f, match path with
                             | String _ _ =>
                                 let '(_, w) := decodeRune path in
                                 search f (mkRegexp (Cat BeginText R) n) (skip w path) (0 + w)
                             | EmptyString => None
                             end = None).
  { intros f. destruct path as [|x path]; [done|].
    pose proof (decodeRune_width x path) as Hw.
    destruct (decodeRune (String x path)) as [r w]. simpl in Hw.
    apply search_anchored. lia. }
  destruct (String.length path) as [|f] eqn:Hf; cbn [search prog numSubexp].
  - change (fun (_ : string) (pos' : nat) (cs : caps) =>
              Some (<[0%nat := Some (0%nat, pos')]> cs)) with wholeMatch.
    by destruct (run (Cat BeginText R) path 0 (replicate (S n) None) wholeMatch).
  - change (fun (_ : string) (pos' : nat) (cs : caps) =>
              Some (<[0%nat := Some (0%nat, pos')]> cs)) with wholeMatch.
    destruct (run (Cat BeginText R) path 0 (replicate (S n) None) wholeMatch); [done|].
    apply (Hlater f).
Qed.

(** What is left to match after the capture: the literal text [l2], then
    an optional separator and the end. *)
Lemma run_tail l2 r p c :
  isASCII l2 = true ->
  run (litChain (bytesN l2) slashEnd) r p c wholeMatch
  = if String.eqb r l2 then wholeMatch EmptyString (p + String.length l2)%nat c
    else if String.eqb r (l2 +:+ "/")
         then wholeMatch EmptyString (p + String.length l2 + 1)%nat c
         else None.
Proof.
  intros Hl. rewrite (run_litChain _ _ Hl), run_slashEnd. unfold HasPrefix.
  destruct (String.prefix l2 r) eqn:Hp.
  - pose proof (prefix_skip _ _ Hp) as Hr. set (t := skip (String.length l2) r) in *.
    destruct (String.eqb_spec t EmptyString) as [Ht|Ht].
    + rewrite Ht, app_empty_r in Hr. subst r. by rewrite String.eqb_refl.
    + destruct (String.eqb_spec r l2) as [->|Hne].
      { subst t. rewrite <- (app_empty_r l2) in Ht at 2. by rewrite skip_app in Ht. }
      destruct (String.eqb_spec t "/") as [Hs|Hs].
      * rewrite Hs in Hr. subst r. by rewrite String.eqb_refl.
      * destruct (String.eqb_spec r (l2 +:+ "/")) as [->|]; [|done].
        subst t. by rewrite skip_app in Hs.
  - destruct (String.eqb_spec r l2) as [->|_].
    { rewrite <- (app_empty_r l2) in Hp at 2. by rewrite prefix_app in Hp. }
    destruct (String.eqb_spec r (l2 +:+ "/")) as [->|_]; [|done].
    by rewrite prefix_app in Hp.
Qed.

Lemma run_capture_plus A l2 rest pos cs :
  run (Cat (Group 1 (Cat (Plus true A) Eps)) (litChain (bytesN l2) slashEnd))
    rest pos cs wholeMatch
  = run A rest pos cs
      (fun r' p' c' =>
         starLoop true A (afterCapture pos l2) (S (String.length r')) r' p' c').
Proof. reflexivity. Qed.

Lemma run_capture_star A l2 rest pos cs :
  run (Cat (Group 1 (Cat (Star true A) Eps)) (litChain (bytesN l2) slashEnd))
    rest pos cs wholeMatch
  = starLoop true A (afterCapture pos l2) (S (String.length rest)) rest pos cs.
Proof. reflexivity. Qed.

Lemma afterCapture_eval from l2 r p c :
  isASCII l2 = true ->
  afterCapture from l2 r p c
  = if String.eqb r l2
    then Some (<[0%nat := Some (0%nat, (p + String.length l2)%nat)]>
                 (<[1%nat := Some (from, p)]> c))
    else if String.eqb r (l2 +:+ "/")
         then Some (<[0%nat := Some (0%nat, (p + String.length l2 + 1)%nat)]>
                      (<[1%nat := Some (from, p)]> c))
         else None.
Proof. intros Hl. unfold afterCapture. by rewrite run_tail. Qed.

Lemma eqb_cons_neq x r y t : x <> y -> String.eqb (String x r) (String y t) = false.
Proof.
  intros H. simpl. by replace (Ascii.eqb x y) with false by (symmetry; by apply Ascii.eqb_neq).
Qed.

(** With [l2] empty or starting with the separator, nothing after the
    capture accepts a text that starts with another byte. *)
Lemma afterCapture_needs_slash from l2 x r p c :
  isASCII l2 = true ->
  (l2 = EmptyString \/ exists t, l2 = String "/" t) ->
  x <> "/"%char ->
  afterCapture from l2 (String x r) p c = None.
Proof.
  intros Hl [->|[t ->]] Hx; rewrite afterCapture_eval by done.
  - rewrite app_nil_s. by rewrite eqb_cons_neq.
  - rewrite app_cons. by rewrite !eqb_cons_neq.
Qed.

Lemma occurs_head_neq b x s : occurs b (String x s) = false -> x <> b.
Proof.
  simpl. intros H. apply orb_false_iff in H as [H _]. by apply Ascii.eqb_neq.
Qed.

Lemma run_default_param l2 seg rem pos cs :
  isASCII l2 = true ->
  (l2 = EmptyString \/ exists t, l2 = String "/" t) ->
  occurs "/" seg = false ->
  (rem = EmptyString \/ exists rem', rem = String "/" rem') ->
  run (Cat (Group 1 (Cat (Plus true notSlash) Eps)) (litChain (bytesN l2) slashEnd))
    (seg +:+ rem) pos cs wholeMatch
  = if String.eqb seg EmptyString then None
    else afterCapture pos l2 rem (pos + String.length seg)%nat cs.
Proof.
  intros Hl Hl2 Hseg Hrem. rewrite run_capture_plus.
  assert (Hb : (byteN "/" < 0x80)%N) by (vm_compute; reflexivity).
  destruct seg as [|c seg'].
  - rewrite app_nil_s. simpl String.eqb. cbv iota.
    by apply (allBut_stop "/" notSlash _ _ _ _ allBut_notSlash Hb).
  - cbn [String.eqb].
    destruct (allBut_step "/" notSlash c seg' rem pos cs
                (fun r' p' c' =>
                   starLoop true notSlash (afterCapture pos l2) (S (String.length r')) r' p' c')
                allBut_notSlash Hb Hseg Hrem) as (w & Hw & ->).
    destruct (afterCapture pos l2 rem (pos + String.length (String c seg'))%nat cs)
      as [res|] eqn:HK.
    + apply (star_success "/" notSlash _ allBut_notSlash Hb); try done.
      * by apply occurs_skip.
      * rewrite app_length. lia.
      * rewrite skip_length.
        replace (pos + w + (String.length (String c seg') - w))%nat
          with (pos + String.length (String c seg'))%nat by (simpl; lia).
        done.
    + apply (star_failure "/" notSlash _ allBut_notSlash Hb); try done.
      * by apply occurs_skip.
      * intros s1 s2 p Hs. destruct s2 as [|x s2].
        -- rewrite app_nil_s. rewrite afterCapture_eval in * by done.
           destruct (String.eqb rem l2); [done|].
           by destruct (String.eqb rem (l2 +:+ "/")).
        -- rewrite app_cons. apply afterCapture_needs_slash; try done.
           apply (occurs_head_neq _ _ s2).
           destruct (skip_suffix w (String c seg')) as [s0 Hs0].
           rewrite Hs0, Hs, !occurs_app in Hseg.
           apply orb_false_iff in Hseg as [_ Hseg].
           by apply orb_false_iff in Hseg as [_ Hseg].
Qed.

Lemma run_oneParam R l1 l2 path cs k :
  isASCII l1 = true ->
  run (prog (oneParam R l1 l2)) path 0 cs k
  = if String.prefix l1 path
    then run (Cat (Group 1 (Cat R Eps)) (litChain (bytesN l2) slashEnd))
           (skip (String.length l1) path) (String.length l1) cs k
    else None.
Proof.
  intros Hl. unfold oneParam. cbn [prog].
  change (run (Cat BeginText ?X) path 0 cs k) with (run X path 0 cs k).
  by rewrite (run_litChain _ _ Hl).
Qed.

Lemma captures_text l1 seg rem n :
  n = String.length (l1 +:+ seg +:+ rem) ->
  map (fun c : option (nat * nat) =>
         match c with
         | Some (a, b) => String.substring a (b - a) (l1 +:+ seg +:+ rem)
         | None => EmptyString
         end)
    [Some (0%nat, n);
     Some (String.length l1, (String.length l1 + String.length seg)%nat)]
  = [l1 +:+ seg +:+ rem; seg].
Proof.
  intros ->. cbn [map]. f_equal; [|f_equal].
  - by rewrite Nat.sub_0_r, substring_0_all.
  - replace (String.length l1 + String.length seg - String.length l1)%nat
      with (String.length seg) by lia.
    rewrite <- (Nat.add_0_r (String.length l1)) at 1.
    by rewrite substring_skip, skip_app, substring_0_app.
Qed.

Lemma Find_default_param l1 l2 seg rem :
  isASCII l1 = true -> isASCII l2 = true ->
  (l2 = EmptyString \/ exists t, l2 = String "/" t) ->
  occurs "/" seg = false ->
  (rem = EmptyString \/ exists rem', rem = String "/" rem') ->
  FindStringSubmatch (oneParam (Plus true notSlash) l1 l2) (l1 +:+ seg +:+ rem)
  = if negb (String.eqb seg EmptyString)
       && (String.eqb rem l2 || String.eqb rem (l2 +:+ "/"))
    then Some [l1 +:+ seg +:+ rem; seg] else None.
Proof.
  intros H1 H2 Hl2 Hseg Hrem. unfold FindStringSubmatch.
  change (search ?f (oneParam ?R l1 l2) ?p 0)
    with (search f (mkRegexp (Cat BeginText
                                (litChain (bytesN l1)
                                   (Cat (Group 1 (Cat R Eps))
                                      (litChain (bytesN l2) slashEnd)))) 1) p 0).
  rewrite search_anchored_0.
  change (run (Cat BeginText ?X) ?p 0 ?cs ?k)
    with (run (prog (oneParam (Plus true notSlash) l1 l2)) p 0 cs k).
  rewrite run_oneParam by done. rewrite prefix_app, skip_app.
  rewrite run_default_param by done.
  destruct (String.eqb seg EmptyString); [done|]. cbn [negb andb].
  rewrite afterCapture_eval by done.
  destruct (String.eqb_spec rem l2) as [->|Hne].
  - cbn [orb]. cbn [replicate]. simpl list_insert.
    cbv beta iota. f_equal. apply captures_text.
    rewrite !app_length. lia.
  - cbn [orb]. destruct (String.eqb_spec rem (l2 +:+ "/")) as [->|Hne2]; [|done].
    cbn [replicate]. simpl list_insert.
    cbv beta iota. f_equal.
    apply (captures_text l1 seg (l2 +:+ "/")).
    rewrite !app_length. simpl. lia.
Qed.

Lemma Find_no_prefix R l1 l2 path :
  isASCII l1 = true -> String.prefix l1 path = false ->
  FindStringSubmatch (oneParam R l1 l2) path = None.
Proof.
  intros H1 Hp. unfold FindStringSubmatch.
  change (search ?f (oneParam ?R l1 l2) ?p 0)
    with (search f (mkRegexp (Cat BeginText
                                (litChain (bytesN l1)
                                   (Cat (Group 1 (Cat R Eps))
                                      (litChain (bytesN l2) slashEnd)))) 1) p 0).
  rewrite search_anchored_0.
  change (run (Cat BeginText ?X) ?p 0 ?cs ?k)
    with (run (prog (oneParam R l1 l2)) p 0 cs k).
  rewrite run_oneParam by done. by rewrite Hp.
Qed.

Lemma lastIs_app c a b :
  lastIs c (a +:+ b) = if String.eqb b EmptyString then lastIs c a else lastIs c b.
Proof.
  induction a as [|x a IH].
  - rewrite app_nil_s. by destruct b.
  - rewrite app_cons. destruct b as [|y b].
    + rewrite app_empty_r. done.
    + assert (Hne : exists z s', a +:+ String y b = String z s').
      { destruct a as [|a0 a']; [rewrite app_nil_s|rewrite app_cons]; eauto. }
      destruct Hne as (z & s' & Hz). cbn [String.eqb] in *.
      rewrite Hz. change (lastIs c (String x (String z s'))) with (lastIs c (String z s')).
      rewrite <- Hz. exact IH.
Qed.

Lemma paramOf_plain name :
  occurs ":" name = false -> paramOf name = (name, "[^/]+").
Proof. intros H. unfold paramOf. by rewrite (Index_absent _ _ H). Qed.

Lemma paramOf_constrained name re :
  occurs ":" name = false -> paramOf (name +:+ ":" +:+ re) = (name, re).
Proof.
  intros H. unfold paramOf.
  change (name +:+ ":" +:+ re) with (name +:+ String ":" re).
  rewrite (Index_found _ _ _ H).
  assert (Hlen : 0 <= len name) by (unfold len; lia).
  replace (len name =? -1) with false by (symmetry; apply Z.eqb_neq; lia).
  cbn [negb]. f_equal.
  - unfold slice. rewrite Z.sub_0_r. unfold len. rewrite Nat2Z.id. simpl Z.to_nat.
    apply substring_0_app.
  - rewrite sliceFrom_skip.
    + unfold len. replace (Z.to_nat (Z.of_nat (String.length name) + 1))
        with (String.length name + 1)%nat by lia.
      rewrite <- skip_skip, skip_app. done.
    + unfold len. rewrite app_length. simpl. lia.
Qed.

Lemma patternSource_one_param l1 spec l2 :
  occurs "{" l1 = false -> occurs "}" spec = false -> occurs "{" l2 = false ->
  lastIs "/" l2 = false ->
  patternSource (l1 +:+ "{" +:+ spec +:+ "}" +:+ l2)
  = ("^" +:+ quoteAll l1 +:+ ("(" +:+ snd (paramOf spec) +:+ ")") +:+ quoteAll l2 +:+ "/?$",
     [fst (paramOf spec)]).
Proof.
  intros H1 Hs H2 Hlast. rewrite patternSource_scan. cbv zeta.
  rewrite normalizePattern_other.
  2:{ rewrite lastIs_app. change ("{" +:+ spec +:+ "}" +:+ l2) with (String "{" (spec +:+ "}" +:+ l2)).
      cbn [String.eqb]. change (String "{" (spec +:+ "}" +:+ l2)) with ("{" +:+ (spec +:+ "}" +:+ l2)).
      rewrite lastIs_app.
      assert (Hne : String.eqb (spec +:+ "}" +:+ l2) EmptyString = false) by (by destruct spec).
      rewrite Hne, lastIs_app.
      change ("}" +:+ l2) with (String "}" l2). cbn [String.eqb].
      change (String "}" l2) with ("}" +:+ l2). rewrite lastIs_app.
      destruct (String.eqb l2 EmptyString); [done|done]. }
  assert (Hne : String.eqb (l1 +:+ "{" +:+ spec +:+ "}" +:+ l2) EmptyString = false)
    by (by destruct l1).
  rewrite Hne.
  pose proof (scan_tokens [TLit l1; TParam spec] l2) as Hscan.
  cbn [forallb wfToken render renderToken sourceOf namesOf] in Hscan.
  rewrite H1, Hs in Hscan.
  specialize (Hscan eq_refl (no_open_noPlaceholder _ H2)).
  rewrite !app_empty_r in Hscan.
  specialize (Hscan (String.length (l1 +:+ "{" +:+ spec +:+ "}" +:+ l2)) "^" []).
  rewrite !app_assoc_s in Hscan. rewrite !app_assoc_s.
  rewrite Hscan by lia. rewrite !app_assoc_s. done.
Qed.

Lemma matchOf_one_param l1 spec l2 gtext R :
  isASCII l1 = true -> isASCII l2 = true ->
  occurs "{" l1 = false -> occurs "}" spec = false -> occurs "{" l2 = false ->
  lastIs "/" l2 = false ->
  "(" +:+ snd (paramOf spec) +:+ ")" = gtext -> isASCII gtext = true ->
  (forall f tail ng alts stack inGroup,
      parse (S (S (S (S f)))) (bytesN gtext ++ tail) ng alts stack false inGroup
      = parse (S (S (S f))) tail (S ng) alts
          (Group (S ng) (Cat R Eps) :: stack) false inGroup) ->
  forall path,
    matchOf (l1 +:+ "{" +:+ spec +:+ "}" +:+ l2) path
    = Ok (match FindStringSubmatch (oneParam R l1 l2) path with
          | None => None
          | Some matches => Some (Route.matchLoop [fst (paramOf spec)] 0 matches ∅)
          end).
Proof.
  intros H1 H2 Ho1 Hs Ho2 Hlast Hg Hga Hparse path.
  unfold matchOf, routeOf, parsePattern.
  rewrite patternSource_one_param by done. rewrite Hg.
  rewrite (Compile_one_param l1 l2 gtext (Cat R Eps)) by done.
  unfold Route.match_. cbn [Route.regex Route.paramNames]. done.
Qed.

(** X12: a pattern of ASCII literal text around one placeholder [{name}],
    the text after the placeholder empty or starting with the separator,
    accepts exactly the paths made of the first text, one non-empty
    segment without separator, the second text, and at most one more
    separator; the parameter is that segment, byte for byte. *)
Theorem default_parameter_takes_one_segment (l1 name l2 : string) :
  isASCII l1 = true -> isASCII l2 = true ->
  occurs "{" l1 = false -> occurs "{" l2 = false ->
  occurs "}" name = false -> occurs ":" name = false ->
  (l2 = EmptyString \/ exists t, l2 = String "/" t) -> lastIs "/" l2 = false ->
  (forall seg,
      seg <> EmptyString -> occurs "/" seg = false ->
      matchOf (l1 +:+ "{" +:+ name +:+ "}" +:+ l2) (l1 +:+ seg +:+ l2)
      = Ok (Some {[ name := seg ]}) /\
      matchOf (l1 +:+ "{" +:+ name +:+ "}" +:+ l2) (l1 +:+ seg +:+ l2 +:+ "/")
      = Ok (Some {[ name := seg ]})) /\
  (forall path,
      matchOf (l1 +:+ "{" +:+ name +:+ "}" +:+ l2) path = Ok None \/
      exists seg,
        seg <> EmptyString /\ occurs "/" seg = false /\
        (path = l1 +:+ seg +:+ l2 \/ path = l1 +:+ seg +:+ l2 +:+ "/") /\
        matchOf (l1 +:+ "{" +:+ name +:+ "}" +:+ l2) path = Ok (Some {[ name := seg ]})).
Proof.
  intros H1 H2 Ho1 Ho2 Hn1 Hn2 Hl2 Hlast.
  assert (Hm : forall path,
             matchOf (l1 +:+ "{" +:+ name +:+ "}" +:+ l2) path
             = Ok (match FindStringSubmatch (oneParam (Plus true notSlash) l1 l2) path with
                   | None => None
                   | Some matches => Some (Route.matchLoop [name] 0 matches ∅)
                   end)).
  { intros path.
    pose proof (matchOf_one_param l1 name l2 "([^/]+)" (Plus true notSlash)
                  H1 H2 Ho1 Hn1 Ho2 Hlast) as Hx.
    rewrite (paramOf_plain _ Hn2) in Hx.
    exact (Hx eq_refl eq_refl parse_default_param path). }
  assert (Hrem : forall tail, (tail = EmptyString \/ tail = "/") ->
             l2 +:+ tail = EmptyString \/ exists rem', l2 +:+ tail = String "/" rem').
  { intros tail Ht. destruct Hl2 as [->|[t ->]].
    - rewrite app_nil_s. destruct Ht as [->| ->]; [by left|right; by exists EmptyString].
    - right. rewrite app_cons. eauto. }
  assert (Hacc : forall seg tail,
             seg <> EmptyString -> occurs "/" seg = false ->
             (tail = EmptyString \/ tail = "/") ->
             matchOf (l1 +:+ "{" +:+ name +:+ "}" +:+ l2) (l1 +:+ seg +:+ l2 +:+ tail)
             = Ok (Some {[ name := seg ]})).
  { intros seg tail Hne Hseg Ht. rewrite Hm.
    rewrite (Find_default_param l1 l2 seg (l2 +:+ tail)) by (done || by apply Hrem).
    replace (String.eqb seg EmptyString) with false
      by (symmetry; by apply String.eqb_neq).
    destruct Ht as [->| ->].
    - rewrite app_empty_r, String.eqb_refl. cbn [negb andb orb]. done.
    - rewrite String.eqb_refl, orb_true_r. cbn [negb andb]. done. }
  split.
  - intros seg Hne Hseg. split.
    + rewrite <- (app_empty_r l2) at 2. apply Hacc; auto.
    + apply Hacc; auto.
  - intros path. destruct (String.prefix l1 path) eqn:Hp.
    + pose proof (prefix_skip _ _ Hp) as Hpath.
      destruct (split_at "/" (skip (String.length l1) path)) as (seg & rem & Hs & Hseg & Hr).
      rewrite Hs in Hpath.
      destruct (String.eqb_spec seg EmptyString) as [He|He].
      { left. rewrite Hm, Hpath, Find_default_param by done.
        subst seg. done. }
      destruct (String.eqb_spec rem l2) as [->|Hr1].
      { right. exists seg. rewrite Hpath. split; [done|]. split; [done|].
        split; [by left|]. rewrite <- (app_empty_r l2) at 2. apply Hacc; auto. }
      destruct (String.eqb_spec rem (l2 +:+ "/")) as [->|Hr2].
      { right. exists seg. rewrite Hpath. split; [done|]. split; [done|].
        split; [by right|]. apply Hacc; auto. }
      left. rewrite Hm, Hpath, Find_default_param by done.
      replace (String.eqb rem l2) with false by (symmetry; by apply String.eqb_neq).
      replace (String.eqb rem (l2 +:+ "/")) with false
        by (symmetry; by apply String.eqb_neq).
      by rewrite andb_false_r.
    + left. rewrite Hm. by rewrite Find_no_prefix.
Qed.

Lemma run_catch_all seg rem pos cs :
  occurs newline seg = false ->
  (rem = EmptyString \/ exists rem', rem = String newline rem') ->
  run (Cat (Group 1 (Cat (Star true AnyNotNL) Eps)) (litChain (bytesN EmptyString) slashEnd))
    (seg +:+ rem) pos cs wholeMatch
  = if String.eqb rem EmptyString
    then afterCapture pos EmptyString EmptyString (pos + String.length seg)%nat cs
    else None.
Proof.
  intros Hseg Hrem. rewrite run_capture_star.
  assert (Hb : (byteN newline < 0x80)%N) by (vm_compute; reflexivity).
  destruct (String.eqb_spec rem EmptyString) as [->|Hne].
  - destruct (afterCapture pos EmptyString EmptyString (pos + String.length seg)%nat cs)
      as [res|] eqn:HK; [|by rewrite afterCapture_eval in HK].
    apply (star_success newline AnyNotNL _ allBut_AnyNotNL Hb); try done.
    rewrite app_length. lia.
  - apply (star_failure newline AnyNotNL _ allBut_AnyNotNL Hb); try done.
    intros s1 s2 p _. rewrite afterCapture_eval by done. rewrite app_nil_s.
    destruct Hrem as [->|[rem' ->]]; [done|].
    destruct s2 as [|x [|y s2]]; try done.
    + rewrite app_cons, app_nil_s. cbn [String.eqb].
      by destruct (Ascii.eqb x "/").
    + rewrite !app_cons. cbn [String.eqb].
      by destruct (Ascii.eqb x "/").
Qed.

Lemma Find_catch_all l1 seg rem :
  isASCII l1 = true ->
  occurs newline seg = false ->
  (rem = EmptyString \/ exists rem', rem = String newline rem') ->
  FindStringSubmatch (oneParam (Star true AnyNotNL) l1 EmptyString) (l1 +:+ seg +:+ rem)
  = if String.eqb rem EmptyString then Some [l1 +:+ seg +:+ rem; seg] else None.
Proof.
  intros H1 Hseg Hrem. unfold FindStringSubmatch.
  change (search ?f (oneParam ?R l1 EmptyString) ?p 0)
    with (search f (mkRegexp (Cat BeginText
                                (litChain (bytesN l1)
                                   (Cat (Group 1 (Cat R Eps))
                                      (litChain (bytesN EmptyString) slashEnd)))) 1) p 0).
  rewrite search_anchored_0.
  change (run (Cat BeginText ?X) ?p 0 ?cs ?k)
    with (run (prog (oneParam (Star true AnyNotNL) l1 EmptyString)) p 0 cs k).
  rewrite run_oneParam by done. rewrite prefix_app, skip_app.
  rewrite run_catch_all by done.
  destruct (String.eqb_spec rem EmptyString) as [->|Hne]; [|done].
  rewrite afterCapture_eval by done. cbn [String.eqb replicate]. simpl list_insert.
  cbv beta iota. f_equal. apply (captures_text l1 seg EmptyString).
  rewrite !app_length. simpl. lia.
Qed.

Lemma occurs_split b s :
  occurs b s = true ->
  exists seg rem', s = seg +:+ String b rem' /\ occurs b seg = false.
Proof.
  intros H. destruct (split_first b s H) as (u & v & -> & Hu). eauto.
Qed.

Lemma matchOf_catch_all (l1 name : string) :
  isASCII l1 = true -> occurs "{" l1 = false ->
  occurs "}" name = false -> occurs ":" name = false ->
  forall path,
    matchOf (l1 +:+ "{" +:+ name +:+ ":.*}") path
    = Ok (if String.prefix l1 path && negb (occurs newline (skip (String.length l1) path))
          then Some {[ name := skip (String.length l1) path ]}
          else None).
Proof.
  intros H1 Ho1 Hn1 Hn2 path.
  assert (Hspec : occurs "}" (name +:+ ":" +:+ ".*") = false).
  { rewrite occurs_app, Hn1. reflexivity. }
  pose proof (matchOf_one_param l1 (name +:+ ":" +:+ ".*") EmptyString "(.*)"
                (Star true AnyNotNL) H1 eq_refl Ho1 Hspec eq_refl eq_refl) as Hm.
  rewrite (paramOf_constrained _ _ Hn2) in Hm.
  specialize (Hm eq_refl eq_refl parse_catch_all path).
  rewrite !app_assoc_s, app_empty_r in Hm.
  change (":" +:+ ".*" +:+ "}") with ":.*}" in Hm. rewrite Hm. clear Hm.
  cbn [fst]. f_equal.
  destruct (String.prefix l1 path) eqn:Hp.
  - pose proof (prefix_skip _ _ Hp) as Hpath. cbn [andb].
    set (rest := skip (String.length l1) path) in *.
    destruct (occurs newline rest) eqn:Hnl.
    + destruct (occurs_split _ _ Hnl) as (seg & rem' & Hr & Hseg).
      rewrite Hpath, Hr, Find_catch_all; [done|done|done|right; eauto].
    + rewrite Hpath. rewrite <- (app_empty_r rest) at 1.
      rewrite Find_catch_all by (done || by left). done.
  - by rewrite Find_no_prefix.
Qed.

(** X14: a parameter written [{name:.*}] at the end of a pattern takes
    the whole rest of the path, separators included and empty or not; the
    path is rejected only when it does not start with the literal text or
    when the rest holds a line feed, which [.] does not take. *)
Theorem catch_all_parameter_takes_the_rest (l1 name : string) :
  isASCII l1 = true -> occurs "{" l1 = false ->
  occurs "}" name = false -> occurs ":" name = false ->
  (forall rest,
      occurs newline rest = false ->
      matchOf (l1 +:+ "{" +:+ name +:+ ":.*}") (l1 +:+ rest)
      = Ok (Some {[ name := rest ]})) /\
  (forall rest,
      occurs newline rest = true ->
      matchOf (l1 +:+ "{" +:+ name +:+ ":.*}") (l1 +:+ rest) = Ok None) /\
  (forall path,
      String.prefix l1 path = false ->
      matchOf (l1 +:+ "{" +:+ name +:+ ":.*}") path = Ok None).
Proof.
  intros H1 Ho1 Hn1 Hn2. split; [|split].
  - intros rest Hr. rewrite matchOf_catch_all by done.
    by rewrite prefix_app, skip_app, Hr.
  - intros rest Hr. rewrite matchOf_catch_all by done.
    by rewrite prefix_app, skip_app, Hr.
  - intros path Hp. rewrite matchOf_catch_all by done. by rewrite Hp.
Qed.

(** X15: [Static(prefix, root)] registers one GET route; unless an
    earlier route serves the request, GET [prefix/rest] goes to the file
    handler with [filepath = rest], for every [rest] without a line feed
    ([rest] may be empty or hold separators); other GET paths are answered
    as before, so [prefix] alone, without the separator, is not served by
    this route.  The handler sends what the file server sends and leaves
    the written flag of the context as it was. *)
Theorem Static_serves_below_the_prefix
    (r : Router.t) (prefix : string) (files : Request -> list WriterEvent) :
  isASCII prefix = true -> occurs "{" prefix = false ->
  exists r' route,
    Router.Static r prefix files = Ok r' /\
    Router.routes r' = Router.routes r ++ [route] /\
    Route.method route = "GET" /\
    (forall c, exists c',
        Route.handler route c = Return c' None /\
        Writer c' = Writer c ++ files (Req c) /\
        Ctx.IsWritten c' = Ctx.IsWritten c) /\
    forall path,
      Router.find r' "GET" path
      = match Router.find r "GET" path with
        | (Some won, ps, flag) => (Some won, ps, flag)
        | (None, _, matched) =>
            if String.prefix (prefix +:+ "/") path
               && negb (occurs newline (skip (String.length (prefix +:+ "/")) path))
            then (Some route,
                  Some {[ "filepath" := skip (String.length (prefix +:+ "/")) path ]},
                  false)
            else (None, None, matched)
        end.
Proof.
  intros Ha Ho.
  assert (Ha' : isASCII (prefix +:+ "/") = true) by (by rewrite isASCII_app, Ha).
  assert (Ho' : occurs "{" (prefix +:+ "/") = false) by (by rewrite occurs_app, Ho).
  pose proof (matchOf_catch_all (prefix +:+ "/") "filepath" Ha' Ho' eq_refl eq_refl) as Hm.
  rewrite !app_assoc_s in Hm.
  change ("/" +:+ "{" +:+ "filepath" +:+ ":.*}") with "/{filepath:.*}" in Hm.
  unfold Router.Static, Router.GET, Router.Handle.
  unfold matchOf, routeOf in Hm.
  destruct (parsePattern (prefix +:+ "/{filepath:.*}")) as [[re names]|e] eqn:Hp.
  2:{ specialize (Hm EmptyString). discriminate. }
  eexists _, _. split; [reflexivity|]. cbn [Router.routes Route.method Route.handler].
  split; [reflexivity|]. split; [reflexivity|]. split.
  - intros c. eexists. split; [reflexivity|]. done.
  - intros path. unfold Router.find. cbn [Router.routes]. rewrite findLoop_snoc.
    destruct (Router.findLoop (Router.routes r) "GET" path false) as [[[won|] ps] f]; [done|].
    specialize (Hm path). injection Hm as Hm.
    cbn [Router.findLoop].
    change (Route.match_ _ path)
      with (Route.match_ (Route.mk "GET" (prefix +:+ "/{filepath:.*}") okHandler
                            Slice.nil re names) path).
    rewrite Hm.
    by destruct (String.prefix (prefix +:+ "/") path
                 && negb (occurs newline (skip (String.length (prefix +:+ "/")) path))).
Qed.

Lemma parse_digits_param f tail ng alts stack inGroup :
  parse (S (S (S (S f)))) (bytesN "([0-9]+)" ++ tail) ng alts stack false inGroup
  = parse (S (S (S f))) tail (S ng) alts
      (Group (S ng) (Cat (Plus true digit) Eps) :: stack) false inGroup.
Proof. reflexivity. Qed.

Lemma run_digit c rest pos cs k :
  run digit (String c rest) pos cs k
  = if isDigit c then k rest (pos + 1)%nat cs else None.
Proof.
  unfold digit. cbn [run]. unfold step, isDigit.
  destruct (byteN c <? 0x80)%N eqn:Hc.
  - rewrite (decodeRune_ascii _ _ Hc). unfold inClass. cbn [existsb skip Nat.ltb].
    rewrite orb_false_r. cbn [xorb]. simpl Nat.leb. cbv iota.
    change (ch "0") with 48%N. change (ch "9") with 57%N.
    by destruct ((48 <=? byteN c)%N && (byteN c <=? 57)%N).
  - apply N.ltb_ge in Hc. pose proof (decodeRune_high c rest Hc) as Hh.
    destruct (decodeRune (String c rest)) as [r w]. simpl in Hh.
    replace ((48 <=? byteN c)%N && (byteN c <=? 57)%N) with false
      by (symmetry; apply andb_false_iff; right; apply N.leb_gt; lia).
    replace (inClass false [(ch "0", ch "9")] r) with false; [by rewrite andb_false_r|].
    unfold inClass. cbn [existsb xorb]. rewrite orb_false_r. symmetry.
    apply andb_false_iff. right. apply N.leb_gt. change (ch "9") with 57%N. lia.
Qed.

Lemma run_digit_nil pos cs k : run digit EmptyString pos cs k = None.
Proof. reflexivity. Qed.

Lemma digit_stop rem pos cs k :
  (rem = EmptyString \/ exists x rem', rem = String x rem' /\ isDigit x = false) ->
  run digit rem pos cs k = None.
Proof.
  intros [->|(x & rem' & -> & Hx)]; [done|]. by rewrite run_digit, Hx.
Qed.

Lemma digits_success K :
  forall seg n rem pos cs res,
    allDigits seg = true ->
    (rem = EmptyString \/ exists x rem', rem = String x rem' /\ isDigit x = false) ->
    (String.length seg <= n)%nat ->
    K rem (pos + String.length seg)%nat cs = Some res ->
    starLoop true digit K n (seg +:+ rem) pos cs = Some res.
Proof.
  induction seg as [|c seg IH]; intros n rem pos cs res Hseg Hrem Hn HK.
  - rewrite app_nil_s. simpl in HK. rewrite Nat.add_0_r in HK.
    destruct n as [|n]; [done|]. cbn [starLoop]. by rewrite digit_stop.
  - destruct n as [|n]; [simpl in Hn; lia|]. simpl in Hseg.
    apply andb_true_iff in Hseg as [Hc Hseg].
    cbn [starLoop]. rewrite app_cons, run_digit, Hc.
    replace (pos <? pos + 1)%nat with true by (symmetry; apply Nat.ltb_lt; lia).
    rewrite (IH n rem (pos + 1)%nat cs res); try done.
    + simpl in Hn. lia.
    + simpl in HK. by replace (pos + 1 + String.length seg)%nat
                        with (pos + S (String.length seg))%nat by lia.
Qed.

Lemma digits_failure K :
  forall seg n rem pos cs,
    allDigits seg = true ->
    (rem = EmptyString \/ exists x rem', rem = String x rem' /\ isDigit x = false) ->
    (forall s1 s2 p, seg = s1 +:+ s2 -> K (s2 +:+ rem) p cs = None) ->
    starLoop true digit K n (seg +:+ rem) pos cs = None.
Proof.
  induction seg as [|c seg IH]; intros n rem pos cs Hseg Hrem HK.
  - rewrite app_nil_s. pose proof (HK EmptyString EmptyString pos eq_refl) as H0.
    rewrite app_nil_s in H0.
    destruct n as [|n]; [done|]. cbn [starLoop]. by rewrite digit_stop, H0.
  - pose proof (HK EmptyString (String c seg) pos eq_refl) as H0.
    destruct n as [|n]; [done|]. simpl in Hseg.
    apply andb_true_iff in Hseg as [Hc Hseg].
    cbn [starLoop]. rewrite H0. rewrite app_cons, run_digit, Hc.
    replace (pos <? pos + 1)%nat with true by (symmetry; apply Nat.ltb_lt; lia).
    rewrite IH; try done.
    intros s1 s2 p Hs. apply (HK (String c s1) s2). by rewrite Hs.
Qed.

Lemma isDigit_not_slash x : isDigit x = true -> x <> "/"%char.
Proof. intros H ->. discriminate. Qed.

Lemma allDigits_app a b : allDigits (a +:+ b) = allDigits a && allDigits b.
Proof.
  induction a as [|c a IH]; [done|]. rewrite app_cons. simpl.
  by rewrite IH, andb_assoc.
Qed.

Lemma run_digits_param l2 seg rem pos cs :
  isASCII l2 = true ->
  (l2 = EmptyString \/ exists t, l2 = String "/" t) ->
  allDigits seg = true ->
  (rem = EmptyString \/ exists x rem', rem = String x rem' /\ isDigit x = false) ->
  run (Cat (Group 1 (Cat (Plus true digit) Eps)) (litChain (bytesN l2) slashEnd))
    (seg +:+ rem) pos cs wholeMatch
  = if String.eqb seg EmptyString then None
    else afterCapture pos l2 rem (pos + String.length seg)%nat cs.
Proof.
  intros Hl Hl2 Hseg Hrem. rewrite run_capture_plus.
  destruct seg as [|c seg'].
  - rewrite app_nil_s. by rewrite digit_stop.
  - cbn [String.eqb]. simpl in Hseg. apply andb_true_iff in Hseg as [Hc Hseg].
    rewrite app_cons, run_digit, Hc.
    destruct (afterCapture pos l2 rem (pos + String.length (String c seg'))%nat cs)
      as [res|] eqn:HK.
    + apply digits_success; try done.
      * rewrite app_length. lia.
      * simpl in HK. by replace (pos + 1 + String.length seg')%nat
                          with (pos + S (String.length seg'))%nat by lia.
    + apply digits_failure; try done.
      intros s1 s2 p Hs. destruct s2 as [|x s2].
      * rewrite app_nil_s. rewrite afterCapture_eval in * by done.
        destruct (String.eqb rem l2); [done|].
        by destruct (String.eqb rem (l2 +:+ "/")).
      * rewrite app_cons. apply afterCapture_needs_slash; try done.
        apply isDigit_not_slash. rewrite Hs, allDigits_app in Hseg.
        apply andb_true_iff in Hseg as [_ Hseg]. simpl in Hseg.
        by apply andb_true_iff in Hseg as [Hx _].
Qed.

Lemma split_digits s :
  exists seg rem, s = seg +:+ rem /\ allDigits seg = true /\
                  (rem = EmptyString \/
                   exists x rem', rem = String x rem' /\ isDigit x = false).
Proof.
  induction s as [|x s (seg & rem & Hs & Ho & Hr)].
  - exists EmptyString, EmptyString. split; [done|]. split; [done|]. by left.
  - destruct (isDigit x) eqn:Hx.
    + exists (String x seg), rem. rewrite app_cons, <- Hs.
      split; [done|]. split; [|done]. simpl. by rewrite Hx, Ho.
    + exists EmptyString, (String x s). split; [done|]. split; [done|].
      right. eauto.
Qed.

Lemma Find_digits_param l1 l2 seg rem :
  isASCII l1 = true -> isASCII l2 = true ->
  (l2 = EmptyString \/ exists t, l2 = String "/" t) ->
  allDigits seg = true ->
  (rem = EmptyString \/ exists x rem', rem = String x rem' /\ isDigit x = false) ->
  FindStringSubmatch (oneParam (Plus true digit) l1 l2) (l1 +:+ seg +:+ rem)
  = if negb (String.eqb seg EmptyString)
       && (String.eqb rem l2 || String.eqb rem (l2 +:+ "/"))
    then Some [l1 +:+ seg +:+ rem; seg] else None.
Proof.
  intros H1 H2 Hl2 Hseg Hrem. unfold FindStringSubmatch.
  change (search ?f (oneParam ?R l1 l2) ?p 0)
    with (search f (mkRegexp (Cat BeginText
                                (litChain (bytesN l1)
                                   (Cat (Group 1 (Cat R Eps))
                                      (litChain (bytesN l2) slashEnd)))) 1) p 0).
  rewrite search_anchored_0.
  change (run (Cat BeginText ?X) ?p 0 ?cs ?k)
    with (run (prog (oneParam (Plus true digit) l1 l2)) p 0 cs k).
  rewrite run_oneParam by done. rewrite prefix_app, skip_app.
  rewrite run_digits_param by done.
  destruct (String.eqb seg EmptyString); [done|]. cbn [negb andb].
  rewrite afterCapture_eval by done.
  destruct (String.eqb_spec rem l2) as [->|Hne].
  - cbn [orb]. cbn [replicate]. simpl list_insert.
    cbv beta iota. f_equal. apply captures_text.
    rewrite !app_length. lia.
  - cbn [orb]. destruct (String.eqb_spec rem (l2 +:+ "/")) as [->|Hne2]; [|done].
    cbn [replicate]. simpl list_insert.
    cbv beta iota. f_equal.
    apply (captures_text l1 seg (l2 +:+ "/")).
    rewrite !app_length. simpl. lia.
Qed.

(** X13: with the constraint [[0-9]+] the placeholder takes a non-empty
    run of ASCII digits and nothing else: the pattern accepts exactly the
    paths made of the first text, the digits, the second text and at most
    one more separator. *)
Theorem digits_parameter_takes_digits_only (l1 name l2 : string) :
  isASCII l1 = true -> isASCII l2 = true ->
  occurs "{" l1 = false -> occurs "{" l2 = false ->
  occurs "}" name = false -> occurs ":" name = false ->
  (l2 = EmptyString \/ exists t, l2 = String "/" t) -> lastIs "/" l2 = false ->
  (forall seg,
      seg <> EmptyString -> allDigits seg = true ->
      matchOf (l1 +:+ "{" +:+ name +:+ ":[0-9]+}" +:+ l2) (l1 +:+ seg +:+ l2)
      = Ok (Some {[ name := seg ]}) /\
      matchOf (l1 +:+ "{" +:+ name +:+ ":[0-9]+}" +:+ l2) (l1 +:+ seg +:+ l2 +:+ "/")
      = Ok (Some {[ name := seg ]})) /\
  (forall path,
      matchOf (l1 +:+ "{" +:+ name +:+ ":[0-9]+}" +:+ l2) path = Ok None \/
      exists seg,
        seg <> EmptyString /\ allDigits seg = true /\
        (path = l1 +:+ seg +:+ l2 \/ path = l1 +:+ seg +:+ l2 +:+ "/") /\
        matchOf (l1 +:+ "{" +:+ name +:+ ":[0-9]+}" +:+ l2) path
        = Ok (Some {[ name := seg ]})).
Proof.
  intros H1 H2 Ho1 Ho2 Hn1 Hn2 Hl2 Hlast.
  assert (Hm : forall path,
             matchOf (l1 +:+ "{" +:+ name +:+ ":[0-9]+}" +:+ l2) path
             = Ok (match FindStringSubmatch (oneParam (Plus true digit) l1 l2) path with
                   | None => None
                   | Some matches => Some (Route.matchLoop [name] 0 matches ∅)
                   end)).
  { intros path.
    assert (Hspec : occurs "}" (name +:+ ":" +:+ "[0-9]+") = false).
    { rewrite occurs_app, Hn1. reflexivity. }
    pose proof (matchOf_one_param l1 (name +:+ ":" +:+ "[0-9]+") l2 "([0-9]+)"
                  (Plus true digit) H1 H2 Ho1 Hspec Ho2 Hlast) as Hx.
    rewrite (paramOf_constrained _ _ Hn2) in Hx.
    specialize (Hx eq_refl eq_refl parse_digits_param path).
    rewrite !app_assoc_s in Hx.
    change (":" +:+ "[0-9]+" +:+ "}" +:+ l2) with (":[0-9]+}" +:+ l2) in Hx.
    exact Hx. }
  assert (Hrem : forall tail, (tail = EmptyString \/ tail = "/") ->
             l2 +:+ tail = EmptyString \/
             exists x rem', l2 +:+ tail = String x rem' /\ isDigit x = false).
  { intros tail Ht. destruct Hl2 as [->|[t ->]].
    - rewrite app_nil_s. destruct Ht as [->| ->]; [by left|right; by exists "/"%char, EmptyString].
    - right. rewrite app_cons. eauto. }
  assert (Hacc : forall seg tail,
             seg <> EmptyString -> allDigits seg = true ->
             (tail = EmptyString \/ tail = "/") ->
             matchOf (l1 +:+ "{" +:+ name +:+ ":[0-9]+}" +:+ l2) (l1 +:+ seg +:+ l2 +:+ tail)
             = Ok (Some {[ name := seg ]})).
  { intros seg tail Hne Hseg Ht. rewrite Hm.
    rewrite (Find_digits_param l1 l2 seg (l2 +:+ tail)) by (done || by apply Hrem).
    replace (String.eqb seg EmptyString) with false
      by (symmetry; by apply String.eqb_neq).
    destruct Ht as [->| ->].
    - rewrite app_empty_r, String.eqb_refl. cbn [negb andb orb]. done.
    - rewrite String.eqb_refl, orb_true_r. cbn [negb andb]. done. }
  split.
  - intros seg Hne Hseg. split.
    + rewrite <- (app_empty_r l2) at 2. apply Hacc; auto.
    + apply Hacc; auto.
  - intros path. destruct (String.prefix l1 path) eqn:Hp.
    + pose proof (prefix_skip _ _ Hp) as Hpath.
      destruct (split_digits (skip (String.length l1) path)) as (seg & rem & Hs & Hseg & Hr).
      rewrite Hs in Hpath.
      destruct (String.eqb_spec seg EmptyString) as [He|He].
      { left. rewrite Hm, Hpath, Find_digits_param by done.
        subst seg. done. }
      destruct (String.eqb_spec rem l2) as [->|Hr1].
      { right. exists seg. rewrite Hpath. split; [done|]. split; [done|].
        split; [by left|]. rewrite <- (app_empty_r l2) at 2. apply Hacc; auto. }
      destruct (String.eqb_spec rem (l2 +:+ "/")) as [->|Hr2].
      { right. exists seg. rewrite Hpath. split; [done|]. split; [done|].
        split; [by right|]. apply Hacc; auto. }
      left. rewrite Hm, Hpath, Find_digits_param by done.
      replace (String.eqb rem l2) with false by (symmetry; by apply String.eqb_neq).
      replace (String.eqb rem (l2 +:+ "/")) with false
        by (symmetry; by apply String.eqb_neq).
      by rewrite andb_false_r.
    + left. rewrite Hm. by rewrite Find_no_prefix.
Qed.

Lemma default_parameter_takes_one_segment_witness :
  (isASCII "/users/" = true /\ isASCII "/posts" = true /\
   occurs "{" "/users/" = false /\ occurs "{" "/posts" = false /\
   occurs "}" "id" = false /\ occurs ":" "id" = false /\
   ("/posts" = EmptyString \/ exists t, "/posts" = String "/" t) /\
   lastIs "/" "/posts" = false) /\
  (forall seg,
      seg <> EmptyString -> occurs "/" seg = false ->
      matchOf ("/users/" +:+ "{" +:+ "id" +:+ "}" +:+ "/posts") ("/users/" +:+ seg +:+ "/posts")
      = Ok (Some {[ "id" := seg ]}) /\
      matchOf ("/users/" +:+ "{" +:+ "id" +:+ "}" +:+ "/posts")
        ("/users/" +:+ seg +:+ "/posts" +:+ "/")
      = Ok (Some {[ "id" := seg ]})) /\
  (forall path,
      matchOf ("/users/" +:+ "{" +:+ "id" +:+ "}" +:+ "/posts") path = Ok None \/
      exists seg,
        seg <> EmptyString /\ occurs "/" seg = false /\
        (path = "/users/" +:+ seg +:+ "/posts" \/
         path = "/users/" +:+ seg +:+ "/posts" +:+ "/") /\
        matchOf ("/users/" +:+ "{" +:+ "id" +:+ "}" +:+ "/posts") path
        = Ok (Some {[ "id" := seg ]})).
Proof.
  assert (H7 : "/posts" = EmptyString \/ exists t, "/posts" = String "/" t)
    by (right; by exists "posts").
  split; [by repeat split|].
  exact (default_parameter_takes_one_segment "/users/" "id" "/posts"
           eq_refl eq_refl eq_refl eq_refl eq_refl eq_refl H7 eq_refl).
Defined.

Lemma digits_parameter_takes_digits_only_witness :
  (isASCII "/users/" = true /\ isASCII EmptyString = true /\
   occurs "{" "/users/" = false /\ occurs "{" EmptyString = false /\
   occurs "}" "id" = false /\ occurs ":" "id" = false /\
   (EmptyString = EmptyString \/ exists t, EmptyString = String "/" t) /\
   lastIs "/" EmptyString = false) /\
  (forall seg,
      seg <> EmptyString -> allDigits seg = true ->
      matchOf ("/users/" +:+ "{" +:+ "id" +:+ ":[0-9]+}" +:+ EmptyString)
        ("/users/" +:+ seg +:+ EmptyString)
      = Ok (Some {[ "id" := seg ]}) /\
      matchOf ("/users/" +:+ "{" +:+ "id" +:+ ":[0-9]+}" +:+ EmptyString)
        ("/users/" +:+ seg +:+ EmptyString +:+ "/")
      = Ok (Some {[ "id" := seg ]})) /\
  (forall path,
      matchOf ("/users/" +:+ "{" +:+ "id" +:+ ":[0-9]+}" +:+ EmptyString) path = Ok None \/
      exists seg,
        seg <> EmptyString /\ allDigits seg = true /\
        (path = "/users/" +:+ seg +:+ EmptyString \/
         path = "/users/" +:+ seg +:+ EmptyString +:+ "/") /\
        matchOf ("/users/" +:+ "{" +:+ "id" +:+ ":[0-9]+}" +:+ EmptyString) path
        = Ok (Some {[ "id" := seg ]})).
Proof.
  assert (H7 : EmptyString = EmptyString \/ exists t, EmptyString = String "/" t)
    by (by left).
  split; [by repeat split|].
  exact (digits_parameter_takes_digits_only "/users/" "id" EmptyString
           eq_refl eq_refl eq_refl eq_refl eq_refl eq_refl H7 eq_refl).
Defined.

Lemma catch_all_parameter_takes_the_rest_witness :
  (isASCII "/files/" = true /\ occurs "{" "/files/" = false /\
   occurs "}" "path" = false /\ occurs ":" "path" = false) /\
  (forall rest,
      occurs newline rest = false ->
      matchOf ("/files/" +:+ "{" +:+ "path" +:+ ":.*}") ("/files/" +:+ rest)
      = Ok (Some {[ "path" := rest ]})) /\
  (forall rest,
      occurs newline rest = true ->
      matchOf ("/files/" +:+ "{" +:+ "path" +:+ ":.*}") ("/files/" +:+ rest) = Ok None) /\
  (forall path,
      String.prefix "/files/" path = false ->
      matchOf ("/files/" +:+ "{" +:+ "path" +:+ ":.*}") path = Ok None).
Proof.
  split; [by repeat split|].
  exact (catch_all_parameter_takes_the_rest "/files/" "path"
           eq_refl eq_refl eq_refl eq_refl).
Defined.

Lemma Static_serves_below_the_prefix_witness :
  (isASCII "/static" = true /\ occurs "{" "/static" = false) /\
  exists r' route,
    Router.Static Router.NewRouter "/static" noFiles = Ok r' /\
    Router.routes r' = Router.routes Router.NewRouter ++ [route] /\
    Route.method route = "GET" /\
    (forall c, exists c',
        Route.handler route c = Return c' None /\
        Writer c' = Writer c ++ noFiles (Req c) /\
        Ctx.IsWritten c' = Ctx.IsWritten c) /\
    forall path,
      Router.find r' "GET" path
      = match Router.find Router.NewRouter "GET" path with
        | (Some won, ps, flag) => (Some won, ps, flag)
        | (None, _, matched) =>
            if String.prefix ("/static" +:+ "/") path
               && negb (occurs newline (skip (String.length ("/static" +:+ "/")) path))
            then (Some route,
                  Some {[ "filepath" := skip (String.length ("/static" +:+ "/")) path ]},
                  false)
            else (None, None, matched)
        end.
Proof.
  split; [by split|].
  exact (Static_serves_below_the_prefix Router.NewRouter "/static" noFiles
           eq_refl eq_refl).
Defined.

(** ** The service container *)

Lemma Get_locked fuel c name :
  Container.locked c = true -> Container.Get (S fuel) c name = Container.Blocked.
Proof. intros H. simpl. by rewrite H. Qed.

Lemma Get_fuel n c name :
  Container.Get (S (S n)) c name = Container.Get 2 c name.
Proof.
  cbn [Container.Get]. destruct (Container.locked c); [done|].
  destruct (Container.instances c !! name); [done|].
  destruct (Container.factories c !! name) as [[instance err|dep k]|]; done.
Qed.

Lemma Get_cached fuel c name v :
  Container.locked c = false -> Container.instances c !! name = Some v ->
  Container.Get (S fuel) c name = Container.Returned c (v, None).
Proof. intros Hl Hi. simpl. by rewrite Hl, Hi. Qed.

(** X16: on an unlocked container Get returns the cached instance of a
    name without running anything; a name with neither instance nor
    factory gives the error "service not found: <name>"; a factory that
    fails gives "failed to create service <name>: <error>" and caches
    nothing; a factory that succeeds has its instance cached.  Once Get
    has returned an instance, every later Get of the name returns that
    same instance and leaves the container as it is, also after a new
    factory is registered under the name. *)
Theorem Get_creates_once (c : Container.t) (name : string) (n : nat) :
  Container.locked c = false ->
  (forall v,
      Container.instances c !! name = Some v ->
      Container.Get (S n) c name = Container.Returned c (v, None)) /\
  (Container.instances c !! name = None ->
   Container.factories c !! name = None ->
   Container.Get (S n) c name
   = Container.Returned c (JNil, Some ("service not found: " +:+ name))) /\
  (forall v e,
      Container.instances c !! name = None ->
      Container.factories c !! name = Some (Container.FReturn v (Some e)) ->
      Container.Get (S n) c name
      = Container.Returned c
          (JNil, Some ("failed to create service " +:+ name +:+ ": " +:+ e))) /\
  (forall v,
      Container.instances c !! name = None ->
      Container.factories c !! name = Some (Container.FReturn v None) ->
      Container.Get (S n) c name
      = Container.Returned
          (Container.mk (Container.factories c) (<[name := v]> (Container.instances c))
             false) (v, None)) /\
  (forall c' v,
      Container.Get (S n) c name = Container.Returned c' (v, None) ->
      Container.instances c' !! name = Some v /\
      (forall m, Container.Get (S m) c' name = Container.Returned c' (v, None)) /\
      (forall m factory c2,
          Container.Register c' name factory = Container.Returned c2 tt ->
          Container.Get (S m) c2 name = Container.Returned c2 (v, None))).
Proof.
  intros Hl. split; [|split; [|split; [|split]]].
  - intros v Hi. by apply Get_cached.
  - intros Hi Hf. simpl. by rewrite Hl, Hi, Hf.
  - intros v e Hi Hf. cbn [Container.Get]. rewrite Hl, Hi, Hf.
    destruct c as [f i l]. simpl in Hl. subst l. reflexivity.
  - intros v Hi Hf. simpl. by rewrite Hl, Hi, Hf.
  - intros c' v HG.
    assert (Hc' : Container.locked c' = false /\ Container.instances c' !! name = Some v).
    { simpl in HG. rewrite Hl in HG.
      destruct (Container.instances c !! name) as [v0|] eqn:Hi.
      - injection HG as <- <-. done.
      - destruct (Container.factories c !! name) as [[instance err|dep k]|]; [| |done].
        + destruct err; [done|]. injection HG as <- <-. simpl.
          by rewrite lookup_insert_eq.
        + destruct n; simpl in HG; done. }
    destruct Hc' as [Hl' Hi']. split; [done|]. split.
    + intros m. by apply Get_cached.
    + intros m factory c2. unfold Container.Register. rewrite Hl'.
      intros [= <-]. by apply Get_cached.
Qed.

(** X17: Get runs the factory while it holds the write lock of the
    container, and the lock is not reentrant: a factory that asks the
    container for a service makes Get block for ever (MustGet too), so
    resolving a name registered by Alias never returns.  Nested calls
    never go deeper than that, whatever the factory. *)
Theorem Get_inside_a_factory_blocks (c : Container.t) (name : string) :
  Container.locked c = false ->
  Container.instances c !! name = None ->
  (forall dep k n,
      Container.factories c !! name = Some (Container.FGet dep k) ->
      Container.Get (S (S n)) c name = Container.Blocked /\
      Container.MustGet (S (S n)) c name = Container.Hangs) /\
  (forall target c' n,
      Container.Alias c name target = Container.Returned c' tt ->
      Container.Get (S (S n)) c' name = Container.Blocked) /\
  (forall n, Container.Get (S (S n)) c name = Container.Get 2 c name /\
             Container.Get (S (S n)) c name <> Container.OutOfFuel).
Proof.
  intros Hl Hi.
  assert (HB : forall dep k n c0,
             Container.locked c0 = false -> Container.instances c0 !! name = None ->
             Container.factories c0 !! name = Some (Container.FGet dep k) ->
             Container.Get (S (S n)) c0 name = Container.Blocked).
  { intros dep k n c0 Hl0 Hi0 Hf. cbn [Container.Get]. by rewrite Hl0, Hi0, Hf. }
  split; [|split].
  - intros dep k n Hf. split; [by apply (HB dep k)|].
    unfold Container.MustGet. by rewrite (HB dep k).
  - intros target c' n. unfold Container.Alias, Container.Register. rewrite Hl.
    intros [= <-]. apply (HB target (fun v e => Container.FReturn v e)); try done.
    simpl. by rewrite lookup_insert_eq.
  - intros n. split; [apply Get_fuel|]. rewrite Get_fuel.
    cbn [Container.Get]. rewrite Hl, Hi.
    destruct (Container.factories c !! name) as [[instance [e|]|dep k]|]; done.
Qed.

(** X18: Keys lists every name that has a factory or an instance, each
    once, and Has answers true exactly for the names Keys lists.  Reset
    drops the instances and keeps the factories: a name that only had an
    instance is not found any more.  After Clear no name is
    registered. *)
Theorem Has_Keys_Reset (c : Container.t) :
  Container.locked c = false ->
  (exists keys,
      Container.Keys c = Container.Returned c keys /\
      NoDup keys /\
      forall name, Container.Has c name = Container.Returned c (bool_decide (name ∈ keys))) /\
  (exists c',
      Container.Reset c = Container.Returned c' tt /\
      Container.factories c' = Container.factories c /\
      forall name,
        Container.Has c' name
        = Container.Returned c' (bool_decide (is_Some (Container.factories c !! name))) /\
        (Container.factories c !! name = None ->
         forall n, Container.Get (S n) c' name
                   = Container.Returned c' (JNil, Some ("service not found: " +:+ name)))) /\
  (exists c',
      Container.Clear c = Container.Returned c' tt /\
      forall name, Container.Has c' name = Container.Returned c' false).
Proof.
  intros Hl. split; [|split].
  - eexists. unfold Container.Keys. rewrite Hl. split; [reflexivity|].
    split; [apply NoDup_elements|].
    intros name. unfold Container.Has. rewrite Hl. f_equal.
    destruct (Container.instances c !! name) as [v|] eqn:Hi.
    + symmetry. apply bool_decide_eq_true. apply elem_of_elements, elem_of_union.
      right. apply elem_of_dom. eauto.
    + apply bool_decide_ext. rewrite elem_of_elements, elem_of_union, !elem_of_dom.
      rewrite Hi. split; [by left|]. intros [H|H]; [exact H|]. by destruct H as [x Hx].
  - eexists. unfold Container.Reset. rewrite Hl. split; [reflexivity|].
    split; [reflexivity|]. intros name. split.
    + unfold Container.Has. simpl. by rewrite lookup_empty.
    + intros Hf n. simpl. by rewrite lookup_empty, Hf.
  - eexists. unfold Container.Clear. rewrite Hl. split; [reflexivity|].
    intros name. unfold Container.Has. simpl. by rewrite !lookup_empty.
Qed.

Lemma eachProvider_app step pre post c :
  Container.eachProvider step (pre ++ post) c
  = match Container.eachProvider step pre c with
    | (c', Some err) => (c', Some err)
    | (c', None) => Container.eachProvider step post c'
    end.
Proof.
  revert c. induction pre as [|p pre IH]; intros c; simpl; [done|].
  destruct (step p c) as [c' [err|]]; [done|]. apply IH.
Qed.

(** X19: RegisterProviders registers every provider, in order, before
    it boots any: the first Register that fails ends the call with
    "provider registration failed: <error>", no later provider being
    registered and none booted; the first Boot that fails, after every
    registration, ends it with "provider boot failed: <error>", no later
    provider being booted; otherwise the error is nil. *)
Theorem RegisterProviders_registers_before_booting
    (c : Container.t) (pre post : list Container.ServiceProvider)
    (p : Container.ServiceProvider) :
  (forall c1 c2 e,
      Container.eachProvider Container.RegisterIn pre c = (c1, None) ->
      Container.RegisterIn p c1 = (c2, Some e) ->
      Container.RegisterProviders c (pre ++ p :: post)
      = (c2, Some ("provider registration failed: " +:+ e))) /\
  (forall c1 c2 c3 e,
      Container.eachProvider Container.RegisterIn (pre ++ p :: post) c = (c1, None) ->
      Container.eachProvider Container.Boot pre c1 = (c2, None) ->
      Container.Boot p c2 = (c3, Some e) ->
      Container.RegisterProviders c (pre ++ p :: post)
      = (c3, Some ("provider boot failed: " +:+ e))) /\
  (forall c1 c2,
      Container.eachProvider Container.RegisterIn (pre ++ p :: post) c = (c1, None) ->
      Container.eachProvider Container.Boot (pre ++ p :: post) c1 = (c2, None) ->
      Container.RegisterProviders c (pre ++ p :: post) = (c2, None)).
Proof.
  split; [|split].
  - intros c1 c2 e Hpre Hp. unfold Container.RegisterProviders.
    rewrite eachProvider_app, Hpre. simpl. by rewrite Hp.
  - intros c1 c2 c3 e Hreg Hpre Hp. unfold Container.RegisterProviders.
    rewrite Hreg. rewrite eachProvider_app, Hpre. simpl. by rewrite Hp.
  - intros c1 c2 Hreg Hboot. unfold Container.RegisterProviders.
    by rewrite Hreg, Hboot.
Qed.

Lemma Get_creates_once_witness :
  Container.locked originalContainer = false /\
  (forall v,
      Container.instances originalContainer !! "original" = Some v ->
      Container.Get 1 originalContainer "original"
      = Container.Returned originalContainer (v, None)) /\
  (Container.instances originalContainer !! "original" = None ->
   Container.factories originalContainer !! "original" = None ->
   Container.Get 1 originalContainer "original"
   = Container.Returned originalContainer
       (JNil, Some ("service not found: " +:+ "original"))) /\
  (forall v e,
      Container.instances originalContainer !! "original" = None ->
      Container.factories originalContainer !! "original"
      = Some (Container.FReturn v (Some e)) ->
      Container.Get 1 originalContainer "original"
      = Container.Returned originalContainer
          (JNil, Some ("failed to create service " +:+ "original" +:+ ": " +:+ e))) /\
  (forall v,
      Container.instances originalContainer !! "original" = None ->
      Container.factories originalContainer !! "original"
      = Some (Container.FReturn v None) ->
      Container.Get 1 originalContainer "original"
      = Container.Returned
          (Container.mk (Container.factories originalContainer)
             (<["original" := v]> (Container.instances originalContainer)) false)
          (v, None)) /\
  (forall c' v,
      Container.Get 1 originalContainer "original" = Container.Returned c' (v, None) ->
      Container.instances c' !! "original" = Some v /\
      (forall m, Container.Get (S m) c' "original" = Container.Returned c' (v, None)) /\
      (forall m factory c2,
          Container.Register c' "original" factory = Container.Returned c2 tt ->
          Container.Get (S m) c2 "original" = Container.Returned c2 (v, None))).
Proof.
  assert (H : Container.locked originalContainer = false) by reflexivity.
  split; [exact H|]. exact (Get_creates_once originalContainer "original" 0 H).
Defined.

Lemma Get_inside_a_factory_blocks_witness :
  (Container.locked originalContainer = false /\
   Container.instances originalContainer !! "alias" = None) /\
  (forall dep k n,
      Container.factories originalContainer !! "alias" = Some (Container.FGet dep k) ->
      Container.Get (S (S n)) originalContainer "alias" = Container.Blocked /\
      Container.MustGet (S (S n)) originalContainer "alias" = Container.Hangs) /\
  (forall target c' n,
      Container.Alias originalContainer "alias" target = Container.Returned c' tt ->
      Container.Get (S (S n)) c' "alias" = Container.Blocked) /\
  (forall n, Container.Get (S (S n)) originalContainer "alias"
             = Container.Get 2 originalContainer "alias" /\
             Container.Get (S (S n)) originalContainer "alias" <> Container.OutOfFuel).
Proof.
  assert (H1 : Container.locked originalContainer = false) by reflexivity.
  assert (H2 : Container.instances originalContainer !! "alias" = None) by reflexivity.
  split; [by split|].
  exact (Get_inside_a_factory_blocks originalContainer "alias" H1 H2).
Defined.

Lemma Has_Keys_Reset_witness :
  Container.locked originalContainer = false /\
  (exists keys,
      Container.Keys originalContainer = Container.Returned originalContainer keys /\
      NoDup keys /\
      forall name, Container.Has originalContainer name
                   = Container.Returned originalContainer (bool_decide (name ∈ keys))) /\
  (exists c',
      Container.Reset originalContainer = Container.Returned c' tt /\
      Container.factories c' = Container.factories originalContainer /\
      forall name,
        Container.Has c' name
        = Container.Returned c'
            (bool_decide (is_Some (Container.factories originalContainer !! name))) /\
        (Container.factories originalContainer !! name = None ->
         forall n, Container.Get (S n) c' name
                   = Container.Returned c' (JNil, Some ("service not found: " +:+ name)))) /\
  (exists c',
      Container.Clear originalContainer = Container.Returned c' tt /\
      forall name, Container.Has c' name = Container.Returned c' false).
Proof.
  assert (H : Container.locked originalContainer = false) by reflexivity.
  split; [exact H|]. exact (Has_Keys_Reset originalContainer H).
Defined.

Lemma RegisterProviders_registers_before_booting_witness :
  (Container.eachProvider Container.RegisterIn [Container.BaseProvider]
     Container.NewContainer = (Container.NewContainer, None) /\
   Container.RegisterIn failingProvider Container.NewContainer
   = (Container.NewContainer, Some "register failed")) /\
  Container.RegisterProviders Container.NewContainer
    ([Container.BaseProvider] ++ failingProvider :: [Container.BaseProvider])
  = (Container.NewContainer, Some ("provider registration failed: " +:+ "register failed")).
Proof.
  assert (H1 : Container.eachProvider Container.RegisterIn [Container.BaseProvider]
                 Container.NewContainer = (Container.NewContainer, None)) by reflexivity.
  assert (H2 : Container.RegisterIn failingProvider Container.NewContainer
               = (Container.NewContainer, Some "register failed")) by reflexivity.
  split; [by split|].
  exact (proj1 (RegisterProviders_registers_before_booting Container.NewContainer
                  [Container.BaseProvider] [Container.BaseProvider] failingProvider)
           _ _ _ H1 H2).
Defined.

(** ** Decimal numbers: [strconv] *)
Lemma byteN_digitChar d : 0 <= d <= 9 -> Z.of_N (byteN (digitChar d)) = 48 + d.
Proof.
  intros Hd. unfold byteN, digitChar.
  rewrite N_ascii_embedding.
  - rewrite Z2N.id; lia.
  - lia.
Qed.

Lemma valueOf_ge ds : forall a, 0 <= a -> Forall (fun d => 0 <= d <= 9) ds -> a <= valueOf a ds.
Proof.
  induction ds as [|d ds IH]; intros a Ha Hds; [simpl; lia|].
  apply Forall_cons in Hds as [Hd Hds]. unfold valueOf in *. simpl.
  specialize (IH (a * 10 + d) ltac:(lia) Hds). lia.
Qed.

Lemma valueOf_snoc a ds d : valueOf a (ds ++ [d]) = valueOf a ds * 10 + d.
Proof. unfold valueOf. by rewrite foldl_app. Qed.

Lemma valueOf_scale ds : forall a, valueOf a ds = a * 10 ^ Z.of_nat (length ds) + valueOf 0 ds.
Proof.
  induction ds as [|d ds IH] using rev_ind; intros a.
  - simpl. unfold valueOf. simpl. lia.
  - rewrite !valueOf_snoc, (IH a), length_app. simpl length.
    rewrite Nat2Z.inj_add, Z.pow_add_r by lia. simpl Z.of_nat. lia.
Qed.

Lemma renderDigits_app ds ds' :
  renderDigits (ds ++ ds') = renderDigits ds +:+ renderDigits ds'.
Proof. induction ds as [|d ds IH]; [done|]. simpl. rewrite app_cons. by rewrite IH. Qed.

Lemma parseUintLoop_digits ds : forall a rest,
  Forall (fun d => 0 <= d <= 9) ds -> 0 <= a ->
  valueOf a ds <= Strconv.maxUint64 ->
  Strconv.parseUintLoop (renderDigits ds +:+ rest) a
  = Strconv.parseUintLoop rest (valueOf a ds).
Proof.
  induction ds as [|d ds IH]; intros a rest Hds Ha Hmax; [done|].
  apply Forall_cons in Hds as [Hd Hds].
  cbn [renderDigits]. rewrite app_cons. cbn [Strconv.parseUintLoop].
  rewrite (byteN_digitChar d Hd).
  replace ((48 <=? 48 + d) && (48 + d <=? 57)) with true
    by (symmetry; apply andb_true_iff; split; apply Z.leb_le; lia).
  replace (48 + d - 48) with d by lia.
  assert (Hstep : a * 10 + d <= valueOf a (d :: ds)).
  { unfold valueOf. simpl. apply (valueOf_ge ds (a * 10 + d)); [lia|done]. }
  unfold Strconv.maxUint64 in *.
  assert (Hmod : (a * 10 + d) mod 2 ^ 64 = a * 10 + d) by (apply Z.mod_small; lia).
  replace ((2 ^ 64 - 1) / 10 + 1 <=? a) with false.
  2:{ symmetry. apply Z.leb_gt.
      assert (a <= (2 ^ 64 - 1) / 10); [|lia].
      apply Z.div_le_lower_bound; lia. }
  cbv zeta. rewrite Hmod.
  replace ((a * 10 + d <? a * 10) || (2 ^ 64 - 1 <? a * 10 + d)) with false
    by (symmetry; apply orb_false_iff; split; apply Z.ltb_ge; lia).
  rewrite IH; [done|done|lia|exact Hmax].
Qed.

Lemma atoiLoop_digits ds : forall a,
  Forall (fun d => 0 <= d <= 9) ds ->
  Strconv.atoiLoop (renderDigits ds) a = Some (valueOf a ds).
Proof.
  induction ds as [|d ds IH]; intros a Hds; [done|].
  apply Forall_cons in Hds as [Hd Hds].
  cbn [renderDigits Strconv.atoiLoop]. rewrite (byteN_digitChar d Hd).
  replace ((48 + d - 48) mod 256) with d by (rewrite Z.mod_small; lia).
  replace (9 <? d) with false by (symmetry; apply Z.ltb_ge; lia).
  by rewrite IH.
Qed.

Lemma digitsOf_render fuel : forall n acc,
  0 <= n < 10 ^ Z.of_nat (S fuel) ->
  exists ds,
    Strconv.digitsOf fuel n acc = renderDigits ds +:+ acc /\
    Forall (fun d => 0 <= d <= 9) ds /\ ds <> [] /\
    (length ds <= S fuel)%nat /\ valueOf 0 ds = n.
Proof.
  induction fuel as [|fuel IH]; intros n acc Hn.
  - exists [n]. change (10 ^ Z.of_nat 1) with 10 in Hn.
    cbn [Strconv.digitsOf]. rewrite Z.mod_small by lia.
    split; [done|]. split; [repeat constructor; lia|]. split; [done|].
    split; [simpl; lia|]. unfold valueOf. simpl. lia.
  - cbn [Strconv.digitsOf]. destruct (Z.ltb_spec n 10) as [Hlt|Hge].
    + exists [n]. rewrite Z.mod_small by lia.
      split; [done|]. split; [repeat constructor; lia|]. split; [done|].
      split; [simpl; lia|]. unfold valueOf. simpl. lia.
    + assert (Hdiv : 0 <= n / 10 < 10 ^ Z.of_nat (S fuel)).
      { split; [apply Z.div_pos; lia|].
        apply Z.div_lt_upper_bound; [lia|].
        replace (Z.of_nat (S (S fuel))) with (1 + Z.of_nat (S fuel)) in Hn by lia.
        rewrite Z.pow_add_r in Hn by lia. lia. }
      destruct (IH (n / 10) (String (ascii_of_N (Z.to_N (48 + n mod 10))) acc) Hdiv)
        as (ds & Hr & Hds & Hne & Hlen & Hv).
      exists (ds ++ [n mod 10]). rewrite Hr.
      assert (Hm : 0 <= n mod 10 <= 9) by (pose proof (Z.mod_pos_bound n 10); lia).
      split.
      { rewrite renderDigits_app, app_assoc_s. done. }
      split; [apply Forall_app; split; [done|repeat constructor; lia]|].
      split; [by destruct ds|].
      split; [rewrite length_app; simpl; lia|].
      rewrite valueOf_snoc, Hv. pose proof (Z.div_mod n 10). lia.
Qed.

Lemma parseUintLoop_overflow ds : forall a rest,
  Forall (fun d => 0 <= d <= 9) ds -> 0 <= a <= Strconv.maxUint64 ->
  Strconv.maxUint64 < valueOf a ds ->
  Strconv.parseUintLoop (renderDigits ds +:+ rest) a
  = (Strconv.maxUint64, Some Strconv.ErrRange).
Proof.
  induction ds as [|d ds IH]; intros a rest Hds Ha Hmax.
  - unfold valueOf in Hmax. simpl in Hmax. lia.
  - apply Forall_cons in Hds as [Hd Hds].
    cbn [renderDigits]. rewrite app_cons. cbn [Strconv.parseUintLoop].
    rewrite (byteN_digitChar d Hd).
    replace ((48 <=? 48 + d) && (48 + d <=? 57)) with true
      by (symmetry; apply andb_true_iff; split; apply Z.leb_le; lia).
    replace (48 + d - 48) with d by lia.
    unfold Strconv.maxUint64 in *.
    destruct (Z.leb_spec ((2 ^ 64 - 1) / 10 + 1) a) as [Hc|Hc]; [done|].
    assert (Ha10 : a * 10 <= 2 ^ 64 - 1).
    { assert (a <= (2 ^ 64 - 1) / 10) by lia.
      pose proof (Z.mul_div_le (2 ^ 64 - 1) 10). lia. }
    cbv zeta.
    destruct (Z.le_gt_cases (a * 10 + d) (2 ^ 64 - 1)) as [Hfit|Hover].
    + rewrite Z.mod_small by lia.
      replace ((a * 10 + d <? a * 10) || (2 ^ 64 - 1 <? a * 10 + d)) with false
        by (symmetry; apply orb_false_iff; split; apply Z.ltb_ge; lia).
      apply IH; [done|lia|exact Hmax].
    + replace ((a * 10 + d) mod 2 ^ 64) with (a * 10 + d - 2 ^ 64).
      2:{ apply (Z.mod_unique _ _ 1); lia. }
      replace (a * 10 + d - 2 ^ 64 <? a * 10) with true
        by (symmetry; apply Z.ltb_lt; lia).
      done.
Qed.

Lemma parseUintLoop_value ds a :
  Forall (fun d => 0 <= d <= 9) ds -> 0 <= a <= Strconv.maxUint64 ->
  Strconv.parseUintLoop (renderDigits ds) a
  = if valueOf a ds <=? Strconv.maxUint64 then (valueOf a ds, None)
    else (Strconv.maxUint64, Some Strconv.ErrRange).
Proof.
  intros Hds Ha. rewrite <- (app_empty_r (renderDigits ds)).
  destruct (Z.leb_spec (valueOf a ds) Strconv.maxUint64) as [H|H].
  - rewrite parseUintLoop_digits by (done || lia). done.
  - by apply parseUintLoop_overflow.
Qed.

Lemma digitChar_not_sign d :
  0 <= d <= 9 ->
  Ascii.eqb (digitChar d) "+" = false /\ Ascii.eqb (digitChar d) "-" = false.
Proof.
  intros Hd. pose proof (byteN_digitChar d Hd) as Hb.
  assert (Hp : Z.of_N (byteN "+") = 43) by reflexivity.
  assert (Hm : Z.of_N (byteN "-") = 45) by reflexivity.
  split; apply Ascii.eqb_neq; intros He; rewrite He in Hb; lia.
Qed.

Lemma valueOf_nonneg ds a :
  Forall (fun d => 0 <= d <= 9) ds -> 0 <= a -> 0 <= valueOf a ds.
Proof. intros Hds Ha. pose proof (valueOf_ge ds a Ha Hds). lia. Qed.

Lemma parseInt_decimal sgn ds :
  Forall (fun d => 0 <= d <= 9) ds -> ds <> [] ->
  Strconv.parseInt (decimal sgn ds) = clamped (signed sgn (valueOf 0 ds)).
Proof.
  intros Hds Hne. destruct ds as [|d0 ds']; [done|].
  pose proof (valueOf_nonneg _ 0 Hds ltac:(lia)) as Hv.
  pose proof Hds as Hds0. apply Forall_cons in Hds0 as [Hd0 _].
  destruct (digitChar_not_sign d0 Hd0) as [Hp Hm].
  assert (HU : Strconv.ParseUint (renderDigits (d0 :: ds'))
               = if valueOf 0 (d0 :: ds') <=? Strconv.maxUint64
                 then (valueOf 0 (d0 :: ds'), None)
                 else (Strconv.maxUint64, Some Strconv.ErrRange)).
  { unfold Strconv.ParseUint. cbn [renderDigits].
    change (String (digitChar d0) (renderDigits ds')) with (renderDigits (d0 :: ds')).
    apply parseUintLoop_value; [done|]. unfold Strconv.maxUint64. lia. }
  set (v := valueOf 0 (d0 :: ds')) in *.
  unfold clamped, minInt64, maxInt64, Strconv.maxUint64 in *.
  destruct sgn; unfold decimal, signText, signed.
  - rewrite app_nil_s. cbn [renderDigits]. unfold Strconv.parseInt. cbv zeta.
    rewrite Hp, Hm. cbn [orb].
    change (String (digitChar d0) (renderDigits ds')) with (renderDigits (d0 :: ds')).
    rewrite HU.
    destruct (Z.leb_spec v (2 ^ 64 - 1)); cbn [negb andb].
    + destruct (Z.leb_spec (2 ^ 63) v); destruct (Z.ltb_spec v (- 2 ^ 63));
        destruct (Z.ltb_spec (2 ^ 63 - 1) v); try lia; done.
    + destruct (Z.leb_spec (2 ^ 63) (2 ^ 64 - 1)); [|lia].
      destruct (Z.ltb_spec v (- 2 ^ 63)); destruct (Z.ltb_spec (2 ^ 63 - 1) v);
        try lia; done.
  - change ("+" +:+ renderDigits (d0 :: ds')) with (String "+" (renderDigits (d0 :: ds'))).
    unfold Strconv.parseInt. cbv zeta.
    change (Ascii.eqb "+" "+") with true. change (Ascii.eqb "+" "-") with false.
    cbn [orb]. rewrite HU.
    destruct (Z.leb_spec v (2 ^ 64 - 1)); cbn [negb andb].
    + destruct (Z.leb_spec (2 ^ 63) v); destruct (Z.ltb_spec v (- 2 ^ 63));
        destruct (Z.ltb_spec (2 ^ 63 - 1) v); try lia; done.
    + destruct (Z.leb_spec (2 ^ 63) (2 ^ 64 - 1)); [|lia].
      destruct (Z.ltb_spec v (- 2 ^ 63)); destruct (Z.ltb_spec (2 ^ 63 - 1) v);
        try lia; done.
  - change ("-" +:+ renderDigits (d0 :: ds')) with (String "-" (renderDigits (d0 :: ds'))).
    unfold Strconv.parseInt. cbv zeta.
    change (Ascii.eqb "-" "+") with false. change (Ascii.eqb "-" "-") with true.
    cbn [orb]. rewrite HU.
    destruct (Z.leb_spec v (2 ^ 64 - 1)); cbn [negb andb].
    + destruct (Z.ltb_spec (2 ^ 63) v); destruct (Z.ltb_spec (- v) (- 2 ^ 63));
        destruct (Z.ltb_spec (2 ^ 63 - 1) (- v)); try lia; done.
    + destruct (Z.ltb_spec (2 ^ 63) (2 ^ 64 - 1)); [|lia].
      destruct (Z.ltb_spec (- v) (- 2 ^ 63)); destruct (Z.ltb_spec (2 ^ 63 - 1) (- v));
        try lia; done.
Qed.

Lemma isDigit_range c :
  isDigit c = (48 <=? Z.of_N (byteN c)) && (Z.of_N (byteN c) <=? 57).
Proof.
  unfold isDigit. apply eq_true_iff_eq.
  rewrite !andb_true_iff, !N.leb_le, !Z.leb_le. lia.
Qed.

Lemma byteN_bound c : 0 <= Z.of_N (byteN c) < 256.
Proof. unfold byteN. pose proof (N_ascii_bounded c). lia. Qed.

Lemma digitChar_byte c :
  isDigit c = true -> c = digitChar (Z.of_N (byteN c) - 48).
Proof.
  rewrite isDigit_range. intros [H1 H2]%andb_true_iff.
  apply Z.leb_le in H1, H2. unfold digitChar.
  replace (48 + (Z.of_N (byteN c) - 48)) with (Z.of_N (byteN c)) by lia.
  rewrite N2Z.id. unfold byteN. by rewrite ascii_N_embedding.
Qed.

Lemma allDigits_render s :
  allDigits s = true ->
  exists ds, Forall (fun d => 0 <= d <= 9) ds /\ s = renderDigits ds.
Proof.
  induction s as [|c s IH]; intros H.
  - by exists [].
  - cbn [allDigits] in H. apply andb_true_iff in H as [Hc Hs].
    destruct (IH Hs) as (ds & Hds & ->).
    exists (Z.of_N (byteN c) - 48 :: ds). split.
    + constructor; [|done]. rewrite isDigit_range in Hc.
      apply andb_true_iff in Hc as [H1 H2]. apply Z.leb_le in H1, H2. lia.
    + cbn [renderDigits]. by rewrite <- digitChar_byte.
Qed.

Lemma parseUintLoop_nondigit s : forall a,
  allDigits s = false ->
  Strconv.parseUintLoop s a = (0, Some Strconv.ErrSyntax) \/
  Strconv.parseUintLoop s a = (Strconv.maxUint64, Some Strconv.ErrRange).
Proof.
  induction s as [|c s IH]; intros a H; [done|].
  cbn [allDigits] in H. cbn [Strconv.parseUintLoop]. cbv zeta.
  rewrite <- isDigit_range. destruct (isDigit c); [|by left].
  cbn [andb] in H.
  destruct (_ <=? a); [by right|].
  destruct (_ || _); [by right|]. by apply IH.
Qed.

Lemma atoiLoop_nondigit s : forall a,
  allDigits s = false -> Strconv.atoiLoop s a = None.
Proof.
  induction s as [|c s IH]; intros a H; [done|].
  cbn [allDigits] in H. cbn [Strconv.atoiLoop]. cbv zeta.
  pose proof (byteN_bound c) as Hb.
  destruct (isDigit c) eqn:Hc.
  - cbn [andb] in H. destruct (9 <? _); [done|]. by apply IH.
  - rewrite isDigit_range in Hc. apply andb_false_iff in Hc.
    replace (9 <? (Z.of_N (byteN c) - 48) mod 256) with true; [done|].
    symmetry. apply Z.ltb_lt.
    destruct Hc as [Hc|Hc]; [apply Z.leb_gt in Hc|apply Z.leb_gt in Hc].
    + replace ((Z.of_N (byteN c) - 48) mod 256) with (Z.of_N (byteN c) - 48 + 256).
      * lia.
      * apply (Z.mod_unique _ _ (-1)); lia.
    + rewrite Z.mod_small; lia.
Qed.

Lemma decimal_or_malformed s : isDecimal s \/ malformed s.
Proof.
  unfold malformed.
  destruct (unsignedPart s) as [|c u] eqn:Hu; [by right; left|].
  destruct (allDigits (String c u)) eqn:Hd; [left|by right; right].
  destruct (allDigits_render _ Hd) as (ds & Hds & Hr).
  assert (Hne : ds <> []) by (intros ->; discriminate Hr).
  destruct s as [|c0 s']; [done|]. unfold unsignedPart in Hu.
  destruct (Ascii.eqb c0 "+") eqn:Hp.
  - apply Ascii.eqb_eq in Hp as ->. cbn [orb] in Hu. subst s'.
    exists PlusSign, ds. by rewrite Hr.
  - destruct (Ascii.eqb c0 "-") eqn:Hm; cbn [orb] in Hu.
    + apply Ascii.eqb_eq in Hm as ->. subst s'.
      exists MinusSign, ds. by rewrite Hr.
    + exists NoSign, ds. unfold decimal, signText. rewrite app_nil_s.
      by rewrite <- Hr, Hu.
Qed.

Lemma not_decimal s : ~ isDecimal s -> malformed s.
Proof. intros Hn. by destruct (decimal_or_malformed s). Qed.

Lemma parseInt_malformed s :
  malformed s -> exists n e, Strconv.parseInt s = (n, Some e).
Proof.
  intros Hn.
  destruct s as [|c0 s']; [by eexists _, _|].
  unfold Strconv.parseInt. cbv zeta. unfold malformed, unsignedPart in Hn.
  set (digits := if Ascii.eqb c0 "+" || Ascii.eqb c0 "-" then s' else String c0 s') in *.
  destruct Hn as [->|Hn]; [by eexists _, _|].
  unfold Strconv.ParseUint. destruct digits as [|c u] eqn:Hd; [by eexists _, _|].
  destruct (parseUintLoop_nondigit _ 0 Hn) as [->| ->]; [by eexists _, _|].
  unfold Strconv.maxUint64.
  destruct (Ascii.eqb c0 "-"); cbn [negb andb].
  - destruct (Z.ltb_spec (2 ^ 63) (2 ^ 64 - 1)); [by eexists _, _|lia].
  - destruct (Z.leb_spec (2 ^ 63) (2 ^ 64 - 1)); [by eexists _, _|lia].
Qed.

Lemma len_renderDigits ds : len (renderDigits ds) = Z.of_nat (length ds).
Proof.
  unfold len. f_equal. induction ds as [|d ds IH]; [done|]. simpl. by rewrite IH.
Qed.

Lemma valueOf_lt ds :
  Forall (fun d => 0 <= d <= 9) ds -> valueOf 0 ds < 10 ^ Z.of_nat (length ds).
Proof.
  induction ds as [|d ds IH] using rev_ind; intros Hds.
  - unfold valueOf. simpl. lia.
  - apply Forall_app in Hds as [Hds Hd]. apply Forall_cons in Hd as [Hd _].
    rewrite valueOf_snoc, length_app. simpl length.
    rewrite Nat2Z.inj_add, Z.pow_add_r by lia. specialize (IH Hds).
    change (10 ^ Z.of_nat 1) with 10. lia.
Qed.

Lemma skip_one c s : sliceFrom (String c s) 1 = s.
Proof.
  unfold sliceFrom, slice, len. cbn [String.length].
  replace (Z.to_nat (Z.of_nat (S (String.length s)) - 1)) with (String.length s) by lia.
  change (Z.to_nat 1) with 1%nat. cbn [substring].
  induction s as [|x s IH]; [done|]. cbn [String.length substring]. by rewrite IH.
Qed.

Lemma Atoi_decimal sgn ds :
  Forall (fun d => 0 <= d <= 9) ds -> ds <> [] ->
  Strconv.Atoi (decimal sgn ds)
  = (let '(n, e) := clamped (signed sgn (valueOf 0 ds)) in
     (n, option_map (Strconv.mkNumError "Atoi" (decimal sgn ds)) e)).
Proof.
  intros Hds Hne. unfold Strconv.Atoi. cbv zeta.
  destruct ((0 <? len (decimal sgn ds)) && (len (decimal sgn ds) <? 19)) eqn:Hfast.
  2:{ by rewrite parseInt_decimal. }
  apply andb_true_iff in Hfast as [_ Hlen]. apply Z.ltb_lt in Hlen.
  pose proof (valueOf_lt ds Hds) as Hlt.
  pose proof (valueOf_nonneg ds 0 Hds ltac:(lia)) as Hge.
  assert (Hl : Z.of_nat (length ds) <= 18).
  { destruct sgn; unfold decimal, signText in Hlen.
    - rewrite app_nil_s, len_renderDigits in Hlen. lia.
    - change ("+" +:+ renderDigits ds) with (String "+" (renderDigits ds)) in Hlen.
      unfold len in Hlen. cbn [String.length] in Hlen.
      pose proof (len_renderDigits ds) as Hr. unfold len in Hr. lia.
    - change ("-" +:+ renderDigits ds) with (String "-" (renderDigits ds)) in Hlen.
      unfold len in Hlen. cbn [String.length] in Hlen.
      pose proof (len_renderDigits ds) as Hr. unfold len in Hr. lia. }
  assert (Hpow : 10 ^ Z.of_nat (length ds) <= 10 ^ 18)
    by (apply Z.pow_le_mono_r; lia).
  assert (Hv : valueOf 0 ds < 2 ^ 63) by lia.
  assert (Hc : forall v, - 2 ^ 63 < v < 2 ^ 63 -> clamped v = (v, None)).
  { intros v Hvr. unfold clamped, minInt64, maxInt64.
    destruct (Z.ltb_spec v (- 2 ^ 63)); [lia|].
    destruct (Z.ltb_spec (2 ^ 63 - 1) v); [lia|done]. }
  assert (Hlen1 : (len (renderDigits ds) <? 1) = false).
  { rewrite len_renderDigits. apply Z.ltb_ge. destruct ds; [done|]. simpl length. lia. }
  destruct ds as [|d0 ds']; [done|].
  pose proof Hds as Hds0. apply Forall_cons in Hds0 as [Hd0 _].
  destruct (digitChar_not_sign d0 Hd0) as [Hp Hm].
  destruct sgn; unfold decimal, signText, signed.
  - rewrite app_nil_s. cbn [renderDigits]. rewrite Hp, Hm. cbn [orb andb].
    change (String (digitChar d0) (renderDigits ds')) with (renderDigits (d0 :: ds')).
    rewrite atoiLoop_digits by done. rewrite Hc by lia. done.
  - change ("+" +:+ renderDigits (d0 :: ds')) with (String "+" (renderDigits (d0 :: ds'))).
    cbv beta iota.
    change (Ascii.eqb "+" "+") with true. change (Ascii.eqb "+" "-") with false.
    cbn [orb]. rewrite skip_one, Hlen1. cbn [andb].
    rewrite atoiLoop_digits by done. rewrite Hc by lia. done.
  - change ("-" +:+ renderDigits (d0 :: ds')) with (String "-" (renderDigits (d0 :: ds'))).
    cbv beta iota.
    change (Ascii.eqb "-" "+") with false. change (Ascii.eqb "-" "-") with true.
    cbn [orb]. rewrite skip_one, Hlen1. cbn [andb].
    rewrite atoiLoop_digits by done. rewrite Hc by lia. done.
Qed.

Lemma Atoi_malformed s :
  malformed s -> exists n e, Strconv.Atoi s = (n, Some e).
Proof.
  intros Hn. unfold Strconv.Atoi. cbv zeta.
  destruct ((0 <? len s) && (len s <? 19)) eqn:Hfast.
  2:{ destruct (parseInt_malformed s Hn) as (n & e & ->). by eexists _, _. }
  destruct s as [|c0 s']; [done|]. cbv beta iota.
  unfold malformed, unsignedPart in Hn. rewrite (orb_comm (Ascii.eqb c0 "-")).
  destruct (Ascii.eqb c0 "+" || Ascii.eqb c0 "-").
  - rewrite skip_one. destruct Hn as [->|Hn]; [by eexists _, _|].
    cbn [andb]. destruct (len s' <? 1); [by eexists _, _|].
    rewrite atoiLoop_nondigit by done. by eexists _, _.
  - destruct Hn as [Hn|Hn]; [done|]. cbn [andb].
    rewrite atoiLoop_nondigit by done. by eexists _, _.
Qed.

Lemma Itoa_decimal n :
  inInt64 n ->
  exists sgn ds, Forall (fun d => 0 <= d <= 9) ds /\ ds <> [] /\
                 Strconv.Itoa n = decimal sgn ds /\ signed sgn (valueOf 0 ds) = n.
Proof.
  unfold inInt64, minInt64, maxInt64. intros Hn. unfold Strconv.Itoa.
  destruct (Z.ltb_spec n 0).
  - destruct (digitsOf_render 20 (- n) EmptyString) as (ds & Hr & Hds & Hne & _ & Hv).
    { split; [lia|]. change (10 ^ Z.of_nat 21) with 1000000000000000000000. lia. }
    exists MinusSign, ds. rewrite Hr, app_empty_r. repeat split; try done.
    unfold signed. lia.
  - destruct (digitsOf_render 20 n EmptyString) as (ds & Hr & Hds & Hne & _ & Hv).
    { split; [lia|]. change (10 ^ Z.of_nat 21) with 1000000000000000000000. lia. }
    exists NoSign, ds. rewrite Hr, app_empty_r. repeat split; try done.
Qed.

Lemma clamped_ok v n : clamped v = (n, None) <-> n = v /\ inInt64 v.
Proof.
  unfold clamped, inInt64.
  destruct (Z.ltb_spec v minInt64); [split; [done|lia]|].
  destruct (Z.ltb_spec maxInt64 v); [split; [done|lia]|].
  split; [intros [= <-]; lia|by intros [-> _]].
Qed.

Lemma clamped_in v : inInt64 v -> clamped v = (v, None).
Proof. intros H. by apply clamped_ok. Qed.

Lemma clamped_out v :
  ~ inInt64 v ->
  clamped v = (if v <? 0 then minInt64 else maxInt64, Some Strconv.ErrRange).
Proof.
  unfold clamped, inInt64, minInt64, maxInt64. intros H.
  destruct (Z.ltb_spec v (- 2 ^ 63)).
  - destruct (Z.ltb_spec v 0); [done|lia].
  - destruct (Z.ltb_spec (2 ^ 63 - 1) v); [|lia].
    destruct (Z.ltb_spec v 0); [lia|done].
Qed.

Lemma wrap64_id z : inInt64 z -> wrap64 z = z.
Proof.
  unfold inInt64, minInt64, maxInt64, wrap64. intros H.
  rewrite Z.mod_small; lia.
Qed.

Lemma wrap64_add z b : wrap64 (wrap64 z + b) = wrap64 (z + b).
Proof.
  unfold wrap64. f_equal.
  replace ((z + 2 ^ 63) mod 2 ^ 64 - 2 ^ 63 + b + 2 ^ 63)
    with ((z + 2 ^ 63) mod 2 ^ 64 + b) by lia.
  rewrite Zplus_mod_idemp_l. f_equal. lia.
Qed.

Lemma QueryInt_value q name def :
  Ctx.QueryInt q name def = def \/
  exists sgn ds, Forall (fun d => 0 <= d <= 9) ds /\ ds <> [] /\
    Ctx.Query q name = decimal sgn ds /\
    Ctx.QueryInt q name def = signed sgn (valueOf 0 ds) /\
    inInt64 (signed sgn (valueOf 0 ds)).
Proof.
  unfold Ctx.QueryInt. cbv zeta.
  destruct (String.eqb _ _); [by left|].
  destruct (decimal_or_malformed (Ctx.Query q name)) as [(sgn & ds & Hds & Hne & Hs)|Hm].
  - rewrite Hs, Atoi_decimal by done.
    destruct (clamped (signed sgn (valueOf 0 ds))) as [n [e|]] eqn:Hc; [by left|].
    apply clamped_ok in Hc as [-> Hin]. right. by exists sgn, ds.
  - destruct (Atoi_malformed _ Hm) as (n & e & ->). by left.
Qed.

Lemma QueryInt_inInt64 q name def : inInt64 def -> inInt64 (Ctx.QueryInt q name def).
Proof.
  intros Hd. destruct (QueryInt_value q name def) as [->|(sgn & ds & _ & _ & _ & -> & H)]; done.
Qed.

(** ** Numbers in the path and in the query *)
(** X20: ParamInt answers a missing (or empty) path parameter with the
    400 error "missing parameter: <name>"; it returns a number without an
    error exactly when the parameter is an optional sign followed by
    decimal digits whose value fits in 64 bits, and that number is the
    value; digits beyond 64 bits give the nearest bound and a range
    error of ParseInt on that text. *)
Theorem ParamInt_reads_decimals (c : Context) (name : string) :
  (Ctx.Param c name = EmptyString ->
     Ctx.ParamInt c name
     = (0, Some (inl (HTTPError 400 ("missing parameter: " +:+ name) None)))) /\
  (forall n, Ctx.ParamInt c name = (n, None) <->
     exists sgn ds, Forall (fun d => 0 <= d <= 9) ds /\ ds <> [] /\
       Ctx.Param c name = decimal sgn ds /\
       n = signed sgn (valueOf 0 ds) /\ inInt64 n) /\
  (forall sgn ds, Forall (fun d => 0 <= d <= 9) ds -> ds <> [] ->
     Ctx.Param c name = decimal sgn ds ->
     ~ inInt64 (signed sgn (valueOf 0 ds)) ->
     Ctx.ParamInt c name
     = (if signed sgn (valueOf 0 ds) <? 0 then minInt64 else maxInt64,
        Some (inr (Strconv.mkNumError "ParseInt" (Ctx.Param c name) Strconv.ErrRange)))).
Proof.
  assert (Hdec : forall sgn ds, Forall (fun d => 0 <= d <= 9) ds -> ds <> [] ->
            Ctx.Param c name = decimal sgn ds ->
            Ctx.ParamInt c name
            = (let '(n, e) := clamped (signed sgn (valueOf 0 ds)) in
               (n, option_map (fun r => inr (Strconv.mkNumError "ParseInt"
                                               (Ctx.Param c name) r)) e))).
  { intros sgn ds Hds Hne Hs. unfold Ctx.ParamInt. cbv zeta. rewrite Hs.
    destruct ds as [|d0 ds']; [done|].
    replace (String.eqb (decimal sgn (d0 :: ds')) EmptyString) with false
      by (by destruct sgn).
    unfold Strconv.ParseInt. rewrite parseInt_decimal by done.
    by destruct (clamped _) as [n [e|]]. }
  split; [|split].
  - intros He. unfold Ctx.ParamInt. cbv zeta. by rewrite He.
  - intros n. split.
    + intros Hp.
      destruct (decimal_or_malformed (Ctx.Param c name))
        as [(sgn & ds & Hds & Hne & Hs)|Hm].
      * rewrite (Hdec sgn ds Hds Hne Hs) in Hp.
        destruct (clamped (signed sgn (valueOf 0 ds))) as [m [e|]] eqn:Hc; [done|].
        apply clamped_ok in Hc as [-> Hin]. injection Hp as <-.
        by exists sgn, ds.
      * exfalso. unfold Ctx.ParamInt in Hp. cbv zeta in Hp.
        destruct (String.eqb _ _); [done|].
        unfold Strconv.ParseInt in Hp.
        destruct (parseInt_malformed _ Hm) as (m & e & He).
        by rewrite He in Hp.
    + intros (sgn & ds & Hds & Hne & Hs & -> & Hin).
      rewrite (Hdec sgn ds Hds Hne Hs). by rewrite clamped_in.
  - intros sgn ds Hds Hne Hs Hout.
    rewrite (Hdec sgn ds Hds Hne Hs). by rewrite clamped_out.
Qed.

(** X21: ParamIntDefault returns the value of a parameter that is a
    decimal number fitting in 64 bits, and the default in every other
    case: a missing parameter, a text that is not a decimal number, a
    number beyond 64 bits. *)
Theorem ParamIntDefault_value (c : Context) (name : string) (def : Z) :
  (forall sgn ds, Forall (fun d => 0 <= d <= 9) ds -> ds <> [] ->
     Ctx.Param c name = decimal sgn ds ->
     (inInt64 (signed sgn (valueOf 0 ds)) ->
        Ctx.ParamIntDefault c name def = signed sgn (valueOf 0 ds)) /\
     (~ inInt64 (signed sgn (valueOf 0 ds)) -> Ctx.ParamIntDefault c name def = def)) /\
  (~ isDecimal (Ctx.Param c name) -> Ctx.ParamIntDefault c name def = def).
Proof.
  split.
  - intros sgn ds Hds Hne Hs. unfold Ctx.ParamIntDefault, Ctx.ParamInt. cbv zeta.
    rewrite Hs. destruct ds as [|d0 ds']; [done|].
    replace (String.eqb (decimal sgn (d0 :: ds')) EmptyString) with false
      by (by destruct sgn).
    unfold Strconv.ParseInt. rewrite parseInt_decimal by done.
    split; intros H.
    + by rewrite clamped_in.
    + by rewrite clamped_out.
  - intros Hn. apply not_decimal in Hn.
    unfold Ctx.ParamIntDefault, Ctx.ParamInt. cbv zeta.
    destruct (String.eqb _ _); [done|]. unfold Strconv.ParseInt.
    by destruct (parseInt_malformed _ Hn) as (m & e & ->).
Qed.

(** X22: QueryInt and QueryInt64 return the same number for every query
    (on a platform whose int has 64 bits): the value of a query
    parameter that is a decimal number fitting in 64 bits, and the
    default in every other case, an absent parameter included. *)
Theorem QueryInt_reads_decimals (q : URL.Values) (name : string) (def : Z) :
  Ctx.QueryInt q name def = Ctx.QueryInt64 q name def /\
  (forall sgn ds, Forall (fun d => 0 <= d <= 9) ds -> ds <> [] ->
     Ctx.Query q name = decimal sgn ds ->
     (inInt64 (signed sgn (valueOf 0 ds)) ->
        Ctx.QueryInt q name def = signed sgn (valueOf 0 ds)) /\
     (~ inInt64 (signed sgn (valueOf 0 ds)) -> Ctx.QueryInt q name def = def)) /\
  (~ isDecimal (Ctx.Query q name) -> Ctx.QueryInt q name def = def) /\
  (q !! name = None -> Ctx.QueryInt q name def = def).
Proof.
  assert (Hdec : forall sgn ds, Forall (fun d => 0 <= d <= 9) ds -> ds <> [] ->
            Ctx.Query q name = decimal sgn ds ->
            Ctx.QueryInt q name def
            = (match clamped (signed sgn (valueOf 0 ds)) with
               | (n, None) => n | _ => def end) /\
            Ctx.QueryInt64 q name def
            = (match clamped (signed sgn (valueOf 0 ds)) with
               | (n, None) => n | _ => def end)).
  { intros sgn ds Hds Hne Hs. unfold Ctx.QueryInt, Ctx.QueryInt64. cbv zeta.
    rewrite Hs. destruct ds as [|d0 ds']; [done|].
    replace (String.eqb (decimal sgn (d0 :: ds')) EmptyString) with false
      by (by destruct sgn).
    unfold Strconv.ParseInt. rewrite Atoi_decimal, parseInt_decimal by done.
    by destruct (clamped _) as [n [e|]]. }
  assert (Hmal : malformed (Ctx.Query q name) ->
            Ctx.QueryInt q name def = def /\ Ctx.QueryInt64 q name def = def).
  { intros Hm. unfold Ctx.QueryInt, Ctx.QueryInt64. cbv zeta.
    destruct (String.eqb _ _); [done|]. unfold Strconv.ParseInt.
    destruct (parseInt_malformed _ Hm) as (m & e & ->).
    by destruct (Atoi_malformed _ Hm) as (m' & e' & ->). }
  split; [|split; [|split]].
  - destruct (decimal_or_malformed (Ctx.Query q name))
      as [(sgn & ds & Hds & Hne & Hs)|Hm].
    + destruct (Hdec sgn ds Hds Hne Hs) as [-> ->]. done.
    + destruct (Hmal Hm) as [-> ->]. done.
  - intros sgn ds Hds Hne Hs. destruct (Hdec sgn ds Hds Hne Hs) as [-> _].
    split; intros H.
    + by rewrite clamped_in.
    + by rewrite clamped_out.
  - intros Hn. by apply Hmal, not_decimal.
  - intros Hq. unfold Ctx.QueryInt, Ctx.Query, URL.Get. cbv zeta. by rewrite Hq.
Qed.

(** X23: a number written by Itoa is read back: as a path parameter by
    ParamInt and ParamIntDefault, as a query parameter by QueryInt and
    QueryInt64, whatever the default. *)
Theorem Itoa_is_read_back (n : Z) :
  inInt64 n ->
  (forall c name, Ctx.Param c name = Strconv.Itoa n ->
     Ctx.ParamInt c name = (n, None) /\
     forall def, Ctx.ParamIntDefault c name def = n) /\
  (forall q name def, Ctx.Query q name = Strconv.Itoa n ->
     Ctx.QueryInt q name def = n /\ Ctx.QueryInt64 q name def = n).
Proof.
  intros Hin. destruct (Itoa_decimal n Hin) as (sgn & ds & Hds & Hne & Hi & Hv).
  assert (HP : Strconv.parseInt (Strconv.Itoa n) = (n, None)).
  { rewrite Hi, parseInt_decimal, Hv by done. by apply clamped_in. }
  assert (HA : Strconv.Atoi (Strconv.Itoa n) = (n, None)).
  { rewrite Hi, Atoi_decimal, Hv by done. by rewrite clamped_in. }
  assert (HE : String.eqb (Strconv.Itoa n) EmptyString = false).
  { rewrite Hi. destruct ds; [done|]. by destruct sgn. }
  split.
  - intros c name Hs.
    assert (Ctx.ParamInt c name = (n, None)) as Hp.
    { unfold Ctx.ParamInt. cbv zeta. rewrite Hs, HE.
      unfold Strconv.ParseInt. by rewrite HP. }
    split; [done|]. intros def. unfold Ctx.ParamIntDefault. by rewrite Hp.
  - intros q name def Hs. unfold Ctx.QueryInt, Ctx.QueryInt64. cbv zeta.
    rewrite Hs, HE, HA. unfold Strconv.ParseInt. by rewrite HP.
Qed.

Lemma Itoa_is_read_back_witness :
  inInt64 (-42) /\
  ((forall c name, Ctx.Param c name = Strconv.Itoa (-42) ->
     Ctx.ParamInt c name = (-42, None) /\
     forall def, Ctx.ParamIntDefault c name def = -42) /\
   (forall q name def, Ctx.Query q name = Strconv.Itoa (-42) ->
     Ctx.QueryInt q name def = -42 /\ Ctx.QueryInt64 q name def = -42)).
Proof.
  assert (H : inInt64 (-42)) by (unfold inInt64, minInt64, maxInt64; lia).
  split; [exact H|exact (Itoa_is_read_back (-42) H)].
Defined.

(** X24: with a default and a maximum of at least 1, Pagination returns a
    page of at least 1 and a page size between 1 and the maximum; a
    per_page of at least 1 is taken (up to the maximum) whatever limit
    says; the offset is (page - 1) * size when that product fits in 64
    bits. It need not fit: the query page=9223372036854775807&per_page=20
    gets a negative offset. *)
Theorem Pagination_bounds (q : URL.Values) (defaultPerPage maxPerPage : Z) :
  1 <= defaultPerPage -> 1 <= maxPerPage ->
  inInt64 defaultPerPage -> inInt64 maxPerPage ->
  let p := Ctx.Pagination q defaultPerPage maxPerPage in
  1 <= Ctx.Page p /\ inInt64 (Ctx.Page p) /\
  1 <= Ctx.PerPage p <= maxPerPage /\
  (1 <= Ctx.QueryInt q "per_page" 0 ->
     Ctx.PerPage p = Z.min (Ctx.QueryInt q "per_page" 0) maxPerPage) /\
  (Ctx.QueryInt q "page" 1 < 1 -> Ctx.Page p = 1) /\
  ((Ctx.Page p - 1) * Ctx.PerPage p <= maxInt64 ->
     Ctx.Offset p = (Ctx.Page p - 1) * Ctx.PerPage p /\ 0 <= Ctx.Offset p) /\
  Ctx.Offset (Ctx.Pagination farQuery 20 100) < 0.
Proof.
  intros Hd Hm Hdi Hmi p.
  pose proof (QueryInt_inInt64 q "page" 1 ltac:(unfold inInt64, minInt64, maxInt64; lia)) as Hpage.
  pose proof (QueryInt_inInt64 q "per_page" 0 ltac:(unfold inInt64, minInt64, maxInt64; lia)) as Hpp.
  pose proof (QueryInt_inInt64 q "limit" defaultPerPage Hdi) as Hlim.
  subst p. unfold Ctx.Pagination. cbv zeta. cbn [Ctx.Page Ctx.PerPage Ctx.Offset].
  set (page0 := Ctx.QueryInt q "page" 1) in *.
  set (pp0 := Ctx.QueryInt q "per_page" 0) in *.
  set (lim := Ctx.QueryInt q "limit" defaultPerPage) in *.
  set (page := if page0 <? 1 then 1 else page0).
  set (pp1 := if pp0 =? 0 then lim else pp0).
  set (pp2 := if pp1 <? 1 then defaultPerPage else pp1).
  set (pp3 := if maxPerPage <? pp2 then maxPerPage else pp2).
  assert (Hpage1 : 1 <= page /\ inInt64 page).
  { subst page. destruct (Z.ltb_spec page0 1); [|done].
    unfold inInt64, minInt64, maxInt64. lia. }
  assert (Hpp3 : 1 <= pp3 <= maxPerPage).
  { subst pp3 pp2.
    destruct (Z.ltb_spec pp1 1);
      [destruct (Z.ltb_spec maxPerPage defaultPerPage)
      |destruct (Z.ltb_spec maxPerPage pp1)]; lia. }
  split; [apply Hpage1|]. split; [apply Hpage1|]. split; [done|].
  split; [|split; [|split]].
  - intros H1. subst pp3 pp2 pp1.
    destruct (Z.eqb_spec pp0 0); [lia|].
    destruct (Z.ltb_spec pp0 1); [lia|].
    destruct (Z.ltb_spec maxPerPage pp0); lia.
  - intros H1. subst page. destruct (Z.ltb_spec page0 1); [done|lia].
  - intros Hfit. destruct Hpage1 as [H1 Hin].
    unfold inInt64, minInt64, maxInt64 in *.
    rewrite (wrap64_id (page - 1)) by (unfold inInt64, minInt64, maxInt64; lia).
    rewrite wrap64_id by (unfold inInt64, minInt64, maxInt64; nia).
    split; [done|nia].
  - by vm_compute.
Qed.

Lemma Pagination_bounds_witness :
  (1 <= 20 /\ 1 <= 100 /\ inInt64 20 /\ inInt64 100) /\
  Ctx.Pagination pageQuery 20 100 = Ctx.mkPaginationParams 3 100 200 /\
  1 <= Ctx.Page (Ctx.Pagination pageQuery 20 100) /\
  1 <= Ctx.PerPage (Ctx.Pagination pageQuery 20 100) <= 100.
Proof.
  assert (H1 : 1 <= 20) by lia. assert (H2 : 1 <= 100) by lia.
  assert (H3 : inInt64 20) by (unfold inInt64, minInt64, maxInt64; lia).
  assert (H4 : inInt64 100) by (unfold inInt64, minInt64, maxInt64; lia).
  split; [repeat split; assumption|]. split; [vm_compute; reflexivity|].
  pose proof (Pagination_bounds pageQuery 20 100 H1 H2 H3 H4) as H.
  cbv zeta in H. destruct H as (Ha & _ & Hb & _).
  split; [exact Ha|exact Hb].
Defined.

(** X25: JSONPaginated reports, for a page size of at least 1 and a total
    that is not negative (and does not overflow), the number of pages
    needed for the total, rounded up, and has_more exactly when rows
    remain after the page; a page size below 1 gives no page at all.
    After Pagination, has_more says whether rows remain beyond
    offset + size. *)
Theorem JSONPaginated_totals (page perPage total : Z) :
  0 <= total -> inInt64 (total + perPage - 1) ->
  let m := Ctx.paginationMeta page perPage total in
  (0 < perPage ->
     (Ctx.TotalPages m - 1) * perPage < total <= Ctx.TotalPages m * perPage /\
     (Ctx.HasMore m = true <-> page * perPage < total)) /\
  (perPage <= 0 -> Ctx.TotalPages m = 0 /\ Ctx.HasMore m = (page <? 0)) /\
  (forall q d mx, 1 <= d -> 1 <= mx -> inInt64 d -> inInt64 mx ->
     let p := Ctx.Pagination q d mx in
     page = Ctx.Page p -> perPage = Ctx.PerPage p ->
     (Ctx.Page p - 1) * Ctx.PerPage p <= maxInt64 ->
     (Ctx.HasMore m = true <-> Ctx.Offset p + Ctx.PerPage p < total)).
Proof.
  intros Htot Hfit m.
  assert (Hpos : 0 < perPage ->
     (Ctx.TotalPages m - 1) * perPage < total <= Ctx.TotalPages m * perPage /\
     (Ctx.HasMore m = true <-> page * perPage < total)).
  { intros Hpp. subst m. unfold Ctx.paginationMeta. cbv zeta.
    cbn [Ctx.TotalPages Ctx.HasMore].
    destruct (Z.ltb_spec 0 perPage); [|lia].
    unfold inInt64, minInt64, maxInt64 in Hfit.
    change (wrap64 (total + perPage) - 1) with (wrap64 (total + perPage) + - 1).
    rewrite wrap64_add. replace (total + perPage + - 1) with (total + perPage - 1) by lia.
    rewrite (wrap64_id (total + perPage - 1)) by (unfold inInt64, minInt64, maxInt64; lia).
    rewrite Z.quot_div_nonneg by lia.
    pose proof (Z.div_mod (total + perPage - 1) perPage ltac:(lia)) as Hdm.
    pose proof (Z.mod_pos_bound (total + perPage - 1) perPage Hpp) as Hmb.
    set (t := (total + perPage - 1) / perPage) in *.
    assert (Ht : 0 <= t) by (apply Z.div_pos; lia).
    assert (Htl : t <= total + perPage - 1) by nia.
    rewrite wrap64_id by (unfold inInt64, minInt64, maxInt64; lia).
    split; [nia|]. rewrite Z.ltb_lt. split; intros Hlt; nia. }
  split; [exact Hpos|]. split.
  - intros Hpp. subst m. unfold Ctx.paginationMeta. cbv zeta.
    cbn [Ctx.TotalPages Ctx.HasMore].
    by destruct (Z.ltb_spec 0 perPage); [lia|].
  - intros q d mx Hd Hmx Hdi Hmi p Hpage Hper Hprod.
    assert (Hb : 1 <= Ctx.PerPage p /\
                 Ctx.Offset p = (Ctx.Page p - 1) * Ctx.PerPage p).
    { subst p. unfold Ctx.Pagination in *. cbv zeta in *.
      cbn [Ctx.Page Ctx.PerPage Ctx.Offset] in *.
      pose proof (QueryInt_inInt64 q "page" 1
                    ltac:(unfold inInt64, minInt64, maxInt64; lia)) as Hp0.
      set (page0 := Ctx.QueryInt q "page" 1) in *.
      set (pg := if page0 <? 1 then 1 else page0) in *.
      set (pp1 := if Ctx.QueryInt q "per_page" 0 =? 0
                  then Ctx.QueryInt q "limit" d else Ctx.QueryInt q "per_page" 0) in *.
      set (pp2 := if pp1 <? 1 then d else pp1) in *.
      set (pp3 := if mx <? pp2 then mx else pp2) in *.
      assert (1 <= pg /\ inInt64 pg) as [Hg1 Hg2].
      { subst pg. destruct (Z.ltb_spec page0 1); [|done].
        unfold inInt64, minInt64, maxInt64. lia. }
      assert (1 <= pp3).
      { subst pp3 pp2.
        destruct (Z.ltb_spec pp1 1);
          [destruct (Z.ltb_spec mx d)|destruct (Z.ltb_spec mx pp1)]; lia. }
      split; [done|].
      unfold inInt64, minInt64, maxInt64 in *.
      rewrite (wrap64_id (pg - 1)) by (unfold inInt64, minInt64, maxInt64; lia).
      rewrite wrap64_id by (unfold inInt64, minInt64, maxInt64; nia). done. }
    destruct Hb as [Hb1 Hb2].
    destruct (Hpos ltac:(lia)) as [_ ->]. rewrite Hb2, Hpage, Hper. split; intros; nia.
Qed.

Lemma JSONPaginated_totals_witness :
  (0 <= 25 /\ inInt64 (25 + 10 - 1)) /\
  Ctx.paginationMeta 2 10 25 = Ctx.mkPaginationMeta 2 10 25 3 true /\
  (Ctx.HasMore (Ctx.paginationMeta 2 10 25) = true <-> 2 * 10 < 25).
Proof.
  assert (H1 : 0 <= 25) by lia.
  assert (H2 : inInt64 (25 + 10 - 1)) by (unfold inInt64, minInt64, maxInt64; lia).
  split; [split; assumption|]. split; [vm_compute; reflexivity|].
  pose proof (JSONPaginated_totals 2 10 25 H1 H2) as H. cbv zeta in H.
  destruct H as [H _]. apply H. lia.
Defined.

(** ** The line of the logger *)
Lemma Index_unfold s t :
  Index s t = if HasPrefix s t then 0
              else match s with
                   | EmptyString => -1
                   | String _ s' => let r := Index s' t in if r <? 0 then -1 else r + 1
                   end.
Proof. by destruct s. Qed.

Lemma Index_ge s t : -1 <= Index s t.
Proof.
  induction s as [|c s IH]; rewrite Index_unfold.
  - destruct (HasPrefix _ _); lia.
  - destruct (HasPrefix _ _); [lia|]. cbv zeta.
    destruct (Z.ltb_spec (Index s t) 0); lia.
Qed.

Lemma prefix_length t : forall s,
  String.prefix t s = true -> (String.length t <= String.length s)%nat.
Proof.
  induction t as [|c t IH]; intros s H; [simpl; lia|].
  destruct s as [|x s]; [done|]. simpl in H.
  destruct (ascii_dec c x); [|done]. simpl. specialize (IH s H). lia.
Qed.

Lemma Index_short s : forall t, len s < len t -> Index s t = -1.
Proof.
  induction s as [|c s IH]; intros t H; rewrite Index_unfold.
  - destruct (HasPrefix EmptyString t) eqn:Hp; [|done].
    apply prefix_length in Hp. unfold len in H. lia.
  - destruct (HasPrefix (String c s) t) eqn:Hp.
    + apply prefix_length in Hp. unfold len in H. lia.
    + cbv zeta. rewrite IH; [done|]. unfold len in *. simpl String.length in H. lia.
Qed.

Lemma Index_occ u : forall t v, 0 <= Index (u +:+ t +:+ v) t <= len u.
Proof.
  induction u as [|c u IH]; intros t v.
  - rewrite app_nil_s, Index_unfold. unfold HasPrefix. rewrite prefix_app.
    unfold len. simpl. lia.
  - rewrite app_cons, Index_unfold.
    unfold len. simpl String.length.
    destruct (HasPrefix _ _); [lia|]. cbv zeta.
    specialize (IH t v). unfold len in IH.
    destruct (Z.ltb_spec (Index (u +:+ t +:+ v) t) 0); lia.
Qed.

Lemma Index_split_gen s : forall t,
  0 <= Index s t -> exists u v, s = u +:+ t +:+ v /\ Index s t = len u.
Proof.
  induction s as [|c s IH]; intros t H; rewrite Index_unfold in H |- *.
  - destruct (HasPrefix EmptyString t) eqn:Hp; [|lia].
    exists EmptyString, (skip (String.length t) EmptyString).
    split; [|done]. rewrite app_nil_s. by apply prefix_skip.
  - destruct (HasPrefix (String c s) t) eqn:Hp.
    + exists EmptyString, (skip (String.length t) (String c s)).
      split; [|done]. rewrite app_nil_s. by apply prefix_skip.
    + cbv zeta in *. destruct (Z.ltb_spec (Index s t) 0) as [|Hge]; [lia|].
      destruct (IH t Hge) as (u & v & Hs & Hi).
      exists (String c u), v. split; [by rewrite app_cons, <- Hs|].
      rewrite Hi. unfold len. simpl String.length. lia.
Qed.

Lemma Index_first s t pre post :
  firstOccurrence s t pre post -> Index s t = len pre.
Proof.
  intros [Hs Hmin]. pose proof (Index_occ pre t post) as Ho. rewrite <- Hs in Ho.
  destruct (Index_split_gen s t ltac:(lia)) as (u & v & Hu & Hi).
  specialize (Hmin u v Hu). lia.
Qed.

Lemma Index_absent_gen s t : absent s t -> Index s t = -1.
Proof.
  intros Ha. pose proof (Index_ge s t).
  destruct (Z.eq_dec (Index s t) (-1)) as [|Hne]; [done|].
  destruct (Index_split_gen s t ltac:(lia)) as (u & v & Hu & _).
  by destruct (Ha u v).
Qed.

Lemma first_or_absent s t :
  (exists pre post, firstOccurrence s t pre post) \/ absent s t.
Proof.
  destruct (Z.eq_dec (Index s t) (-1)) as [He|Hne].
  - right. intros pre post Hs. pose proof (Index_occ pre t post) as Ho.
    rewrite <- Hs in Ho. lia.
  - left. pose proof (Index_ge s t).
    destruct (Index_split_gen s t ltac:(lia)) as (u & v & Hu & Hi).
    exists u, v. split; [done|]. intros pre' post' Hs.
    pose proof (Index_occ pre' t post') as Ho. rewrite <- Hs in Ho. lia.
Qed.

Lemma slice_at_suffix pre suf n :
  slice (pre +:+ suf) (len pre) (len pre + Z.of_nat n) = String.substring 0 n suf.
Proof.
  unfold slice, len.
  replace (Z.to_nat (Z.of_nat (String.length pre) + Z.of_nat n - Z.of_nat (String.length pre)))
    with n by lia.
  rewrite Nat2Z.id.
  replace (String.length pre) with (String.length pre + 0)%nat at 1 by lia.
  by rewrite substring_skip, skip_app.
Qed.

Lemma slice_prefix_all pre suf : slice (pre +:+ suf) 0 (len pre) = pre.
Proof.
  unfold slice, len. rewrite Z.sub_0_r, Nat2Z.id. change (Z.to_nat 0) with 0%nat.
  apply substring_0_app.
Qed.

Lemma sliceFrom_suffix pre suf n :
  (n <= String.length suf)%nat ->
  sliceFrom (pre +:+ suf) (len pre + Z.of_nat n) = skip n suf.
Proof.
  intros Hn. rewrite sliceFrom_skip.
  - unfold len. replace (Z.to_nat (Z.of_nat (String.length pre) + Z.of_nat n))
      with (String.length pre + n)%nat by lia.
    by rewrite <- skip_skip, skip_app.
  - unfold len. rewrite app_length. lia.
Qed.

Lemma snoc_app pre c suf : pre +:+ String c suf = (pre +:+ String c EmptyString) +:+ suf.
Proof. by rewrite app_assoc_s. Qed.

Lemma replaceLoop_spec suf : forall pre old new,
  (Index suf old = -1 ->
   Logger.replaceLoop (Z.to_nat (len suf - len old + 1)) (pre +:+ suf) old new (len pre)
   = pre +:+ suf) /\
  (forall u v, suf = u +:+ old +:+ v -> Index suf old = len u ->
   Logger.replaceLoop (Z.to_nat (len suf - len old + 1)) (pre +:+ suf) old new (len pre)
   = pre +:+ u +:+ new +:+ v).
Proof.
  induction suf as [|c suf IH]; intros pre old new.
  - destruct old as [|o old].
    + split; [intros H; vm_compute in H; discriminate H|].
      intros u v Hs Hi. destruct u; [|discriminate Hs]. destruct v; [|discriminate Hs].
      simpl. unfold len. simpl String.length.
      change (Z.of_nat 0) with 0. rewrite Z.add_0_r.
      change (slice (pre +:+ "") (Z.of_nat (String.length pre))
                (Z.of_nat (String.length pre))) with
        (slice (pre +:+ "") (len pre) (len pre)).
      replace (slice (pre +:+ "") (len pre) (len pre)) with EmptyString.
      2:{ pose proof (slice_at_suffix pre "" 0) as Hx. rewrite Z.add_0_r in Hx.
          by rewrite Hx. }
      cbn [String.eqb].
      rewrite slice_prefix_all.
      pose proof (sliceFrom_suffix pre "" 0 ltac:(simpl; lia)) as Hx.
      rewrite Z.add_0_r in Hx. unfold len in Hx. rewrite Hx. done.
    + replace (Z.to_nat (len EmptyString - len (String o old) + 1)) with 0%nat
        by (unfold len; simpl String.length; lia).
      split; [done|]. intros u v Hs. destruct u; discriminate Hs.
  - destruct (Z.ltb_spec (len (String c suf)) (len old)) as [Hshort|Hlong].
    + replace (Z.to_nat (len (String c suf) - len old + 1)) with 0%nat by lia.
      split; [done|]. intros u v Hs _. exfalso.
      apply (f_equal String.length) in Hs. rewrite !app_length in Hs.
      unfold len in Hshort. lia.
    + replace (Z.to_nat (len (String c suf) - len old + 1))
        with (S (Z.to_nat (len suf - len old + 1)))
        by (unfold len in *; simpl String.length in *; lia).
      cbn [Logger.replaceLoop].
      replace (len pre + len old) with (len pre + Z.of_nat (String.length old))
        by (unfold len; lia).
      rewrite slice_at_suffix.
      rewrite (Index_unfold (String c suf) old). unfold HasPrefix.
      destruct (String.prefix old (String c suf)) eqn:Hp.
      * pose proof Hp as Hp'. apply prefix_correct in Hp'. rewrite Hp', String.eqb_refl.
        split; [done|]. intros u v Hs Hi. destruct u; [|unfold len in Hi; simpl in Hi; lia].
        rewrite app_nil_s in Hs. rewrite slice_prefix_all, sliceFrom_suffix.
        2:{ by apply prefix_length. }
        rewrite Hs at 1. rewrite skip_app. by rewrite app_nil_s.
      * assert (Hne : String.eqb (substring 0 (String.length old) (String c suf)) old = false).
        { apply String.eqb_neq. intros He. apply prefix_correct in He. congruence. }
        rewrite Hne. cbv zeta.
        rewrite snoc_app.
        replace (len pre + 1) with (len (pre +:+ String c EmptyString))
          by (unfold len; rewrite app_length; simpl; lia).
        destruct (IH (pre +:+ String c EmptyString) old new) as [IH1 IH2].
        pose proof (Index_ge suf old) as Hge.
        destruct (Z.ltb_spec (Index suf old) 0) as [Hneg|Hpos].
        -- split; [intros _; apply IH1; lia|].
           intros u v _ Hi. unfold len in Hi. lia.
        -- split; [lia|]. intros u v Hs Hi.
           destruct u as [|x u].
           { unfold len in Hi. simpl in Hi. lia. }
           rewrite app_cons in Hs. injection Hs as <- Hs.
           rewrite (IH2 u v Hs); [by rewrite !app_assoc_s|].
           unfold len in *. simpl String.length in Hi. lia.
Qed.

Lemma replaceLoop_whole s old new :
  (Index s old = -1 ->
   Logger.replaceLoop (Z.to_nat (len s - len old + 1)) s old new 0 = s) /\
  (forall u v, s = u +:+ old +:+ v -> Index s old = len u ->
   Logger.replaceLoop (Z.to_nat (len s - len old + 1)) s old new 0 = u +:+ new +:+ v).
Proof. exact (replaceLoop_spec s EmptyString old new). Qed.

Lemma replaceTag_first format tag value pre post :
  firstOccurrence format tag pre post ->
  Logger.replaceTag format tag value = pre +:+ value +:+ post.
Proof.
  intros H. pose proof (Index_first _ _ _ _ H) as Hi. destruct H as [Hs _].
  unfold Logger.replaceTag. by apply replaceLoop_whole.
Qed.

Lemma replaceTag_absent format tag value :
  absent format tag -> Logger.replaceTag format tag value = format.
Proof.
  intros H. unfold Logger.replaceTag. apply replaceLoop_whole.
  by apply Index_absent_gen.
Qed.

(** X26: replaceTag replaces the first occurrence of the tag, and only
    that one: when the format is pre + tag + post and the tag starts
    nowhere before that place, the result is pre + value + post, with
    post as it is, further occurrences of the tag included; a format in
    which the tag does not occur is returned unchanged.  One of the two
    cases always applies. *)
Theorem replaceTag_replaces_first_occurrence (format tag value : string) :
  (forall pre post, firstOccurrence format tag pre post ->
     Logger.replaceTag format tag value = pre +:+ value +:+ post) /\
  (absent format tag -> Logger.replaceTag format tag value = format) /\
  ((exists pre post, firstOccurrence format tag pre post) \/ absent format tag).
Proof.
  split; [|split].
  - intros pre post. apply replaceTag_first.
  - apply replaceTag_absent.
  - apply first_or_absent.
Qed.

(** X27: colorizeStatus wraps the first occurrence of the decimal digits
    of the status in the line, wherever that is, in the colour of the
    status class and the reset code, and leaves the rest of the line,
    later occurrences included, as it is; a line without these digits is
    returned unchanged.  It is replaceTag with the digits as the tag.
    The colour is red from 500, yellow from 400, cyan from 300, green
    from 200 and blue below. *)
Theorem colorizeStatus_colours_first_occurrence (log : string) (status : Z) :
  (forall pre post, firstOccurrence log (Strconv.Itoa status) pre post ->
     Logger.colorizeStatus log status
     = pre +:+ (Logger.colorOf status +:+ Strconv.Itoa status +:+ Logger.reset) +:+ post) /\
  (absent log (Strconv.Itoa status) -> Logger.colorizeStatus log status = log) /\
  Logger.colorizeStatus log status
  = Logger.replaceTag log (Strconv.Itoa status)
      (Logger.colorOf status +:+ Strconv.Itoa status +:+ Logger.reset) /\
  (500 <= status -> Logger.colorOf status = Logger.red) /\
  (400 <= status < 500 -> Logger.colorOf status = Logger.yellow) /\
  (300 <= status < 400 -> Logger.colorOf status = Logger.cyan) /\
  (200 <= status < 300 -> Logger.colorOf status = Logger.green) /\
  (status < 200 -> Logger.colorOf status = Logger.blue).
Proof.
  assert (He : Logger.colorizeStatus log status
               = Logger.replaceTag log (Strconv.Itoa status)
                   (Logger.colorOf status +:+ Strconv.Itoa status +:+ Logger.reset))
    by reflexivity.
  split; [|split; [|split; [exact He|]]].
  - intros pre post H. rewrite He. by apply replaceTag_first.
  - intros H. rewrite He. by apply replaceTag_absent.
  - unfold Logger.colorOf.
    repeat split; intros H;
      repeat match goal with
             | |- context [?a <=? ?b] => destruct (Z.leb_spec a b); try lia
             end; reflexivity.
Qed.

Lemma mismatch_prefix a : forall t b,
  mismatch a t = true -> String.prefix t (a +:+ b) = false.
Proof.
  induction a as [|x a IH]; intros t b H; [done|].
  destruct t as [|y t]; [done|]. rewrite app_cons. simpl in *.
  destruct (Ascii.eqb x y) eqn:Hxy.
  - apply Ascii.eqb_eq in Hxy as ->. destruct (ascii_dec y y); [|done]. by apply IH.
  - apply Ascii.eqb_neq in Hxy. destruct (ascii_dec y x); [congruence|done].
Qed.

Lemma mismatch_app a : forall t b, mismatch a t = true -> mismatch (a +:+ b) t = true.
Proof.
  induction a as [|x a IH]; intros t b H; [done|].
  destruct t as [|y t]; [done|]. rewrite app_cons. simpl in *.
  destruct (Ascii.eqb x y); [by apply IH|done].
Qed.

Lemma startsNowhere_app a b t :
  startsNowhere a t = true -> startsNowhere b t = true ->
  startsNowhere (a +:+ b) t = true.
Proof.
  induction a as [|x a IH]; intros Ha Hb; [done|].
  rewrite app_cons. cbn [startsNowhere] in *.
  apply andb_true_iff in Ha as [Hm Ha]. apply andb_true_iff. split.
  - rewrite <- app_cons. by apply mismatch_app.
  - by apply IH.
Qed.

Lemma startsNowhere_no_byte c a t :
  occurs c a = false -> startsNowhere a (String c t) = true.
Proof.
  induction a as [|x a IH]; intros H; [done|]. simpl in H.
  apply orb_false_iff in H as [Hx Ha]. cbn [startsNowhere mismatch].
  rewrite Hx. by apply IH.
Qed.

Lemma Index_past a : forall b t,
  startsNowhere a t = true ->
  Index (a +:+ b) t = if Index b t <? 0 then -1 else len a + Index b t.
Proof.
  induction a as [|x a IH]; intros b t H.
  - rewrite app_nil_s. pose proof (Index_ge b t).
    destruct (Z.ltb_spec (Index b t) 0); unfold len; simpl; lia.
  - cbn [startsNowhere] in H. apply andb_true_iff in H as [Hm Ha].
    rewrite app_cons, Index_unfold. unfold HasPrefix.
    rewrite <- app_cons, (mismatch_prefix _ _ b Hm). cbv zeta.
    rewrite (IH b t Ha). unfold len. simpl String.length.
    destruct (Z.ltb_spec (Index b t) 0); [done|].
    destruct (Z.ltb_spec (Z.of_nat (String.length a) + Index b t) 0); lia.
Qed.

Lemma replaceTag_Index s t v :
  (Index s t = -1 -> Logger.replaceTag s t v = s) /\
  (forall u w, s = u +:+ t +:+ w -> Index s t = len u ->
     Logger.replaceTag s t v = u +:+ v +:+ w).
Proof. exact (replaceLoop_whole s t v). Qed.

Lemma replaceTag_past a b t v :
  startsNowhere a t = true ->
  Logger.replaceTag (a +:+ b) t v = a +:+ Logger.replaceTag b t v.
Proof.
  intros Ha. pose proof (Index_past a b t Ha) as Hi. pose proof (Index_ge b t) as Hge.
  destruct (Z.eq_dec (Index b t) (-1)) as [He|Hne].
  - rewrite He in Hi. simpl in Hi.
    rewrite (proj1 (replaceTag_Index (a +:+ b) t v) Hi).
    by rewrite (proj1 (replaceTag_Index b t v) He).
  - destruct (Index_split_gen b t ltac:(lia)) as (u & w & Hb & Hu).
    destruct (Z.ltb_spec (Index b t) 0); [lia|].
    rewrite (proj2 (replaceTag_Index b t v) u w Hb Hu).
    rewrite (proj2 (replaceTag_Index (a +:+ b) t v) (a +:+ u) w).
    + by rewrite app_assoc_s.
    + by rewrite Hb at 1; rewrite app_assoc_s.
    + rewrite Hi, Hu. unfold len. rewrite app_length. lia.
Qed.

Lemma replaceTag_here t b v : Logger.replaceTag (t +:+ b) t v = v +:+ b.
Proof.
  apply (proj2 (replaceTag_Index (t +:+ b) t v) EmptyString b); [done|].
  rewrite Index_unfold. unfold HasPrefix. by rewrite prefix_app.
Qed.

Lemma replaceTag_at a t b v :
  startsNowhere a t = true ->
  Logger.replaceTag (a +:+ t +:+ b) t v = a +:+ v +:+ b.
Proof. intros H. by rewrite replaceTag_past, replaceTag_here. Qed.

Lemma occurs_renderDigits c ds :
  Forall (fun d => 0 <= d <= 9) ds -> isDigit c = false ->
  occurs c (renderDigits ds) = false.
Proof.
  intros Hds Hc. induction Hds as [|d ds Hd _ IH]; [done|].
  cbn [renderDigits occurs]. rewrite IH, orb_false_r.
  apply Ascii.eqb_neq. intros He. rewrite <- He in Hc.
  rewrite isDigit_range, (byteN_digitChar d Hd) in Hc.
  apply andb_false_iff in Hc as [Hc|Hc]; apply Z.leb_gt in Hc; lia.
Qed.

Lemma occurs_Itoa c n :
  inInt64 n -> isDigit c = false -> c <> "-"%char -> c <> "+"%char ->
  occurs c (Strconv.Itoa n) = false.
Proof.
  intros Hn Hd Hm Hp.
  destruct (Itoa_decimal n Hn) as (sgn & ds & Hds & _ & -> & _).
  unfold decimal. rewrite occurs_app, (occurs_renderDigits c ds Hds Hd), orb_false_r.
  destruct sgn; unfold signText; cbn [occurs]; [done| |];
    rewrite orb_false_r; apply Ascii.eqb_neq; congruence.
Qed.

Lemma prefix_barrier a : forall t sp b,
  String.prefix t (a +:+ String sp b) = true -> occurs sp t = false ->
  String.prefix t a = true.
Proof.
  induction a as [|x a IH]; intros t sp b H Ho.
  - rewrite app_nil_s in H. destruct t as [|y t]; [done|]. simpl in *.
    destruct (ascii_dec y sp) as [->|]; [|done].
    by rewrite Ascii.eqb_refl in Ho.
  - destruct t as [|y t]; [done|]. rewrite app_cons in H. simpl in *.
    destruct (ascii_dec y x); [|done].
    apply orb_false_iff in Ho as [_ Ho]. by apply (IH t sp b).
Qed.

Lemma Index_none_prefix a t : Index a t = -1 -> String.prefix t a = false.
Proof.
  rewrite Index_unfold. unfold HasPrefix. by destruct (String.prefix t a).
Qed.

Lemma Index_barrier a : forall sp b t,
  Index a t = -1 -> occurs sp t = false ->
  Index (a +:+ String sp b) t = if Index b t <? 0 then -1 else len a + 1 + Index b t.
Proof.
  induction a as [|x a IH]; intros sp b t Ha Ho.
  - pose proof (Index_none_prefix _ _ Ha) as Hp.
    rewrite app_nil_s, Index_unfold. unfold HasPrefix.
    destruct (String.prefix t (String sp b)) eqn:Hq.
    + apply (prefix_barrier EmptyString t sp b) in Hq; [congruence|done].
    + cbv zeta. pose proof (Index_ge b t).
      destruct (Z.ltb_spec (Index b t) 0); unfold len; simpl; lia.
  - pose proof (Index_none_prefix _ _ Ha) as Hp.
    rewrite Index_unfold in Ha. unfold HasPrefix in Ha. rewrite Hp in Ha. cbv zeta in Ha.
    pose proof (Index_ge a t) as Hge.
    assert (Ha' : Index a t = -1) by (destruct (Z.ltb_spec (Index a t) 0); lia).
    rewrite app_cons, Index_unfold. unfold HasPrefix.
    destruct (String.prefix t (String x (a +:+ String sp b))) eqn:Hq.
    + rewrite <- app_cons in Hq. apply prefix_barrier in Hq; [congruence|done].
    + cbv zeta. rewrite (IH sp b t Ha' Ho). unfold len. simpl String.length.
      pose proof (Index_ge b t).
      destruct (Z.ltb_spec (Index b t) 0); [done|].
      destruct (Z.ltb_spec (Z.of_nat (String.length a) + 1 + Index b t) 0); lia.
Qed.

Lemma prefix_app_mono t : forall a b,
  String.prefix t a = true -> String.prefix t (a +:+ b) = true.
Proof.
  induction t as [|y t IH]; intros a b H; [by destruct (a +:+ b)|].
  destruct a as [|x a]; [done|]. rewrite app_cons. simpl in *.
  destruct (ascii_dec y x); [|done]. by apply IH.
Qed.

Lemma prefix_app_inv t : forall a b,
  String.prefix t (a +:+ b) = true -> (String.length t <= String.length a)%nat ->
  String.prefix t a = true.
Proof.
  induction t as [|y t IH]; intros a b H Hl; [by destruct a|].
  destruct a as [|x a]; [simpl in Hl; lia|]. rewrite app_cons in H. simpl in *.
  destruct (ascii_dec y x); [|done]. apply (IH a b H). lia.
Qed.

Lemma Index_app_l a : forall b t, 0 <= Index a t -> Index (a +:+ b) t = Index a t.
Proof.
  induction a as [|x a IH]; intros b t H.
  - rewrite Index_unfold in H. unfold HasPrefix in H.
    destruct (String.prefix t EmptyString) eqn:Hp; [|lia].
    destruct t; [|done]. rewrite app_nil_s, !Index_unfold. unfold HasPrefix.
    by destruct b.
  - rewrite app_cons, (Index_unfold (String x (a +:+ b))), (Index_unfold (String x a)).
    rewrite Index_unfold in H. unfold HasPrefix in *.
    destruct (String.prefix t (String x a)) eqn:Hp.
    + pose proof (prefix_app_mono _ _ b Hp) as Hq. rewrite app_cons in Hq.
      by rewrite Hq.
    + cbv zeta in *. destruct (Z.ltb_spec (Index a t) 0) as [|Hge]; [lia|].
      destruct (Index_split_gen a t Hge) as (u & w & Ha & _).
      destruct (String.prefix t (String x (a +:+ b))) eqn:Hq.
      * rewrite <- app_cons in Hq. apply prefix_app_inv in Hq; [congruence|].
        apply (f_equal String.length) in Ha. rewrite !app_length in Ha.
        simpl String.length. lia.
      * rewrite (IH b t Hge). by destruct (Z.ltb_spec (Index a t) 0); [lia|].
Qed.

Lemma Index_nil_gen t : t <> EmptyString -> Index EmptyString t = -1.
Proof. by destruct t. Qed.

Lemma Itoa_nonempty n : inInt64 n -> Strconv.Itoa n <> EmptyString.
Proof.
  intros Hn. destruct (Itoa_decimal n Hn) as (sgn & ds & _ & Hne & -> & _).
  destruct ds; [done|]. by destruct sgn.
Qed.

Lemma default_line_plain timeStr method path status latencyStr ip userAgent :
  inInt64 status ->
  occurs "$" timeStr = false -> occurs "$" method = false ->
  occurs "$" latencyStr = false -> occurs "$" ip = false ->
  Logger.logLine EmptyString timeStr method path status latencyStr ip userAgent
  = Logger.colorizeStatus
      (plainLine timeStr method (Logger.replaceTag path "${user_agent}" userAgent)
         status latencyStr ip) status.
Proof.
  intros Hin Ht Hm Hl Hi.
  assert (Hd : occurs "$" (Strconv.Itoa status) = false) by (by apply occurs_Itoa).
  unfold Logger.logLine, plainLine. cbv zeta. f_equal.
  change (if String.eqb EmptyString EmptyString then Logger.DefaultFormat else EmptyString)
    with ("${time}" +:+ " | ${status} | ${latency} | ${ip} | ${method} ${path}").
  rewrite replaceTag_here.
  change (timeStr +:+ " | ${status} | ${latency} | ${ip} | ${method} ${path}")
    with (timeStr +:+ " | ${status} | ${latency} | ${ip} | " +:+ "${method}" +:+ " ${path}").
  rewrite (replaceTag_past timeStr) by (by apply startsNowhere_no_byte).
  rewrite (replaceTag_past " | ${status} | ${latency} | ${ip} | ") by reflexivity.
  rewrite replaceTag_here.
  change (" ${path}") with (" " +:+ "${path}" +:+ EmptyString).
  rewrite (replaceTag_past timeStr) by (by apply startsNowhere_no_byte).
  rewrite (replaceTag_past " | ${status} | ${latency} | ${ip} | ") by reflexivity.
  rewrite (replaceTag_past method) by (by apply startsNowhere_no_byte).
  rewrite (replaceTag_past " ") by reflexivity.
  rewrite replaceTag_here, app_empty_r.
  change (" | ${status} | ${latency} | ${ip} | " +:+ method +:+ " " +:+ path)
    with (" | " +:+ "${status}" +:+ " | ${latency} | ${ip} | " +:+ method +:+ " " +:+ path).
  rewrite (replaceTag_past timeStr) by (by apply startsNowhere_no_byte).
  rewrite (replaceTag_past " | ") by reflexivity.
  rewrite replaceTag_here.
  change (" | ${latency} | ${ip} | " +:+ method +:+ " " +:+ path)
    with (" | " +:+ "${latency}" +:+ " | ${ip} | " +:+ method +:+ " " +:+ path).
  rewrite (replaceTag_past timeStr) by (by apply startsNowhere_no_byte).
  rewrite (replaceTag_past " | ") by reflexivity.
  rewrite (replaceTag_past (Strconv.Itoa status)) by (by apply startsNowhere_no_byte).
  rewrite (replaceTag_past " | ") by reflexivity.
  rewrite replaceTag_here.
  change (" | ${ip} | " +:+ method +:+ " " +:+ path)
    with (" | " +:+ "${ip}" +:+ " | " +:+ method +:+ " " +:+ path).
  rewrite (replaceTag_past timeStr) by (by apply startsNowhere_no_byte).
  rewrite (replaceTag_past " | ") by reflexivity.
  rewrite (replaceTag_past (Strconv.Itoa status)) by (by apply startsNowhere_no_byte).
  rewrite (replaceTag_past " | ") by reflexivity.
  rewrite (replaceTag_past latencyStr) by (by apply startsNowhere_no_byte).
  rewrite (replaceTag_past " | ") by reflexivity.
  rewrite replaceTag_here.
  rewrite (replaceTag_past timeStr) by (by apply startsNowhere_no_byte).
  rewrite (replaceTag_past " | ") by reflexivity.
  rewrite (replaceTag_past (Strconv.Itoa status)) by (by apply startsNowhere_no_byte).
  rewrite (replaceTag_past " | ") by reflexivity.
  rewrite (replaceTag_past latencyStr) by (by apply startsNowhere_no_byte).
  rewrite (replaceTag_past " | ") by reflexivity.
  rewrite (replaceTag_past ip) by (by apply startsNowhere_no_byte).
  rewrite (replaceTag_past " | ") by reflexivity.
  rewrite (replaceTag_past method) by (by apply startsNowhere_no_byte).
  rewrite (replaceTag_past " ") by reflexivity.
  reflexivity.
Qed.

Lemma colorize_after_time timeStr status rest :
  inInt64 status -> absent timeStr (Strconv.Itoa status) ->
  Logger.colorizeStatus (timeStr +:+ " | " +:+ Strconv.Itoa status +:+ rest) status
  = timeStr +:+ " | " +:+
    (Logger.colorOf status +:+ Strconv.Itoa status +:+ Logger.reset) +:+ rest.
Proof.
  intros Hin Ha. set (digits := Strconv.Itoa status).
  assert (Hsp : occurs " " digits = false) by (by apply occurs_Itoa).
  assert (Hbar : occurs "|" digits = false) by (by apply occurs_Itoa).
  assert (Hne : Index EmptyString digits = -1) by (by apply Index_nil_gen, Itoa_nonempty).
  assert (H0 : Index (digits +:+ rest) digits = 0).
  { rewrite Index_unfold. unfold HasPrefix. by rewrite prefix_app. }
  assert (Hi : Index (timeStr +:+ " | " +:+ digits +:+ rest) digits = len (timeStr +:+ " | ")).
  { change (timeStr +:+ " | " +:+ digits +:+ rest)
      with (timeStr +:+ String " " (EmptyString +:+ String "|"
              (EmptyString +:+ String " " (digits +:+ rest)))).
    rewrite (Index_barrier timeStr) by (done || by apply Index_absent_gen).
    rewrite (Index_barrier EmptyString) by done.
    rewrite (Index_barrier EmptyString) by done.
    rewrite H0. unfold len. rewrite app_length. simpl. lia. }
  change (Logger.colorizeStatus (timeStr +:+ " | " +:+ digits +:+ rest) status)
    with (Logger.replaceTag (timeStr +:+ " | " +:+ digits +:+ rest) digits
            (Logger.colorOf status +:+ digits +:+ Logger.reset)).
  rewrite (proj2 (replaceTag_Index _ digits _) (timeStr +:+ " | ") rest).
  - by rewrite !app_assoc_s.
  - by rewrite !app_assoc_s.
  - exact Hi.
Qed.

Lemma colorize_inside_time timeStr status rest pre post :
  firstOccurrence timeStr (Strconv.Itoa status) pre post ->
  Logger.colorizeStatus (timeStr +:+ rest) status
  = pre +:+ (Logger.colorOf status +:+ Strconv.Itoa status +:+ Logger.reset) +:+
    post +:+ rest.
Proof.
  intros Hf. pose proof (Index_first _ _ _ _ Hf) as Hi. destruct Hf as [Hs _].
  change (Logger.colorizeStatus (timeStr +:+ rest) status)
    with (Logger.replaceTag (timeStr +:+ rest) (Strconv.Itoa status)
            (Logger.colorOf status +:+ Strconv.Itoa status +:+ Logger.reset)).
  rewrite (proj2 (replaceTag_Index _ (Strconv.Itoa status) _) pre (post +:+ rest)).
  - done.
  - rewrite Hs at 1. by rewrite !app_assoc_s.
  - rewrite Index_app_l; [done|]. rewrite Hi. unfold len. lia.
Qed.

(** X28: the line of the default format.  When the time, the method,
    the latency and the address hold no dollar sign, the line is
    time | status | latency | address | method path, whatever the path
    holds, except that the tag of the user agent, which the default
    format does not have, is replaced inside the path.  The colour goes
    around the status field when the digits of the status do not occur
    in the time; when they do (202 in the year 2026), it goes around
    their first occurrence in the time, and the status field stays
    plain. *)
Theorem default_log_line (timeStr method path latencyStr ip userAgent : string)
    (status : Z) :
  inInt64 status ->
  occurs "$" timeStr = false -> occurs "$" method = false ->
  occurs "$" latencyStr = false -> occurs "$" ip = false ->
  let digits := Strconv.Itoa status in
  let coloured := Logger.colorOf status +:+ digits +:+ Logger.reset in
  let rest := " | " +:+ latencyStr +:+ " | " +:+ ip +:+ " | " +:+ method +:+ " " +:+
              Logger.replaceTag path "${user_agent}" userAgent in
  (absent timeStr digits ->
     Logger.logLine EmptyString timeStr method path status latencyStr ip userAgent
     = timeStr +:+ " | " +:+ coloured +:+ rest) /\
  (forall pre post, firstOccurrence timeStr digits pre post ->
     Logger.logLine EmptyString timeStr method path status latencyStr ip userAgent
     = pre +:+ coloured +:+ post +:+ " | " +:+ digits +:+ rest).
Proof.
  intros Hin Ht Hm Hl Hi digits coloured rest.
  rewrite (default_line_plain _ _ _ _ _ _ _ Hin Ht Hm Hl Hi). unfold plainLine.
  split.
  - intros Ha. by rewrite colorize_after_time.
  - intros pre post Hf. by rewrite (colorize_inside_time _ _ _ pre post Hf).
Qed.

Lemma default_log_line_witness :
  (inInt64 202 /\ occurs "$" "2026/10/31 10:00:00" = false /\
   occurs "$" "POST" = false /\ occurs "$" "1.50ms" = false /\
   occurs "$" "10.0.0.1" = false) /\
  firstOccurrence "2026/10/31 10:00:00" (Strconv.Itoa 202) EmptyString "6/10/31 10:00:00" /\
  Logger.logLine EmptyString "2026/10/31 10:00:00" "POST" "/jobs" 202 "1.50ms"
    "10.0.0.1" "curl"
  = Logger.green +:+ "202" +:+ Logger.reset +:+
    "6/10/31 10:00:00 | 202 | 1.50ms | 10.0.0.1 | POST /jobs".
Proof.
  assert (H1 : inInt64 202) by (unfold inInt64, minInt64, maxInt64; lia).
  assert (H2 : occurs "$" "2026/10/31 10:00:00" = false) by reflexivity.
  assert (H3 : occurs "$" "POST" = false) by reflexivity.
  assert (H4 : occurs "$" "1.50ms" = false) by reflexivity.
  assert (H5 : occurs "$" "10.0.0.1" = false) by reflexivity.
  assert (H6 : firstOccurrence "2026/10/31 10:00:00" (Strconv.Itoa 202)
                 EmptyString "6/10/31 10:00:00").
  { split; [reflexivity|]. intros pre' post' _. unfold len. simpl. lia. }
  split; [exact (conj H1 (conj H2 (conj H3 (conj H4 H5))))|]. split; [exact H6|].
  rewrite (proj2 (default_log_line "2026/10/31 10:00:00" "POST" "/jobs" "1.50ms"
                    "10.0.0.1" "curl" 202 H1 H2 H3 H4 H5) EmptyString
             "6/10/31 10:00:00" H6).
  reflexivity.
Defined.

(** ** The CORS middleware *)
Lemma originsLoop_spec origins : forall m,
  fst (CORS.originsLoop origins m) = bool_decide ("*" ∈ origins) /\
  ("*" ∉ origins ->
   forall o, default false (snd (CORS.originsLoop origins m) !! o)
             = bool_decide (o ∈ origins) || default false (m !! o)).
Proof.
  induction origins as [|x origins IH]; intros m.
  - split; [done|]. intros _ o. cbn [CORS.originsLoop snd].
    rewrite bool_decide_eq_false_2 by (by intros ?%elem_of_nil). done.
  - cbn [CORS.originsLoop]. destruct (String.eqb x "*") eqn:Hx.
    + apply String.eqb_eq in Hx as ->. split.
      * cbn [fst]. symmetry. apply bool_decide_eq_true. by left.
      * intros Hn. exfalso. apply Hn. by left.
    + apply String.eqb_neq in Hx. destruct (IH (<[x := true]> m)) as [IH1 IH2]. split.
      * rewrite IH1. apply bool_decide_ext. rewrite elem_of_cons.
        split; [by right|]. intros [He|He]; [congruence|done].
      * intros Hn o. rewrite IH2 by (intros H; apply Hn; by right).
        destruct (decide (o = x)) as [->|Hox].
        -- rewrite lookup_insert_eq. simpl. rewrite orb_true_r.
           symmetry. apply orb_true_iff. left. apply bool_decide_eq_true. by left.
        -- rewrite lookup_insert_ne by done. f_equal.
           apply bool_decide_ext. rewrite elem_of_cons.
           split; [by right|]. intros [He|He]; [congruence|done].
Qed.

Lemma wrote_wrote c xs ys : wrote (wrote c xs) ys = wrote c (xs ++ ys).
Proof. unfold wrote. simpl. by rewrite app_assoc. Qed.

Lemma wrote_nil c : wrote c [] = c.
Proof. unfold wrote. rewrite app_nil_r. by destruct c. Qed.

Lemma Method_wrote c evs : Ctx.Method_ (wrote c evs) = Ctx.Method_ c.
Proof. reflexivity. Qed.

Lemma SetHeader_wrote c name value :
  Ctx.SetHeader c name value = wrote c [SetHeaderEv name value].
Proof. reflexivity. Qed.

Lemma emit_wrote c ev : Ctx.emit c ev = wrote c [ev].
Proof. reflexivity. Qed.

Lemma CORS_wrapped (Header : Context -> string -> string) (config : CORS.CORSConfig)
    (next : HandlerFunc) :
  exists wrapped,
    CORS.CORS Header config next = Some wrapped /\
    forall c,
      wrapped c
      = if String.eqb (Ctx.Method_ c) "OPTIONS"
        then Return (wrote c (originHeaders config
                                (allowedOriginOf config (Header c "Origin")) ++
                              preflightEvents config
                                (allowedOriginOf config (Header c "Origin")))) None
        else next (wrote c (originHeaders config
                              (allowedOriginOf config (Header c "Origin")))).
Proof.
  unfold CORS.CORS.
  destruct (originsLoop_spec (CORS.AllowOrigins config) ∅) as [H1 H2].
  destruct (CORS.originsLoop (CORS.AllowOrigins config) ∅) as [allowAll allowed].
  simpl in H1, H2. eexists. split; [reflexivity|]. intros c. cbv beta zeta.
  set (origin := Header c "Origin").
  assert (Ha : (if negb (String.eqb origin EmptyString)
                then if allowAll
                     then if CORS.AllowCredentials config then origin else "*"
                     else if default false (allowed !! origin) then origin else EmptyString
                else EmptyString) = allowedOriginOf config origin).
  { unfold allowedOriginOf. destruct (String.eqb origin EmptyString); [done|]. simpl.
    rewrite H1. destruct (bool_decide ("*" ∈ CORS.AllowOrigins config)) eqn:Hs; [done|].
    apply bool_decide_eq_false in Hs. rewrite (H2 Hs origin).
    rewrite lookup_empty. simpl. by rewrite orb_false_r. }
  rewrite Ha. set (a := allowedOriginOf config origin).
  unfold originHeaders, preflightEvents.
  destruct (String.eqb a EmptyString); cbn [negb].
  - rewrite wrote_nil. destruct (String.eqb (Ctx.Method_ c) "OPTIONS"); [|done].
    by rewrite SetHeader_wrote, emit_wrote, wrote_wrote.
  - destruct (CORS.AllowCredentials config);
      destruct (String.eqb (CORS.Join (CORS.ExposeHeaders config) ", ") EmptyString);
      cbn [negb]; rewrite !SetHeader_wrote, ?emit_wrote, ?wrote_wrote, ?Method_wrote;
      destruct (String.eqb (Ctx.Method_ c) "OPTIONS");
      rewrite ?SetHeader_wrote, ?emit_wrote, ?wrote_wrote; reflexivity.
Qed.

Lemma allowedOriginOf_empty config origin :
  allowedOriginOf config origin = EmptyString <->
  origin = EmptyString \/
  (("*" ∉ CORS.AllowOrigins config) /\ (origin ∉ CORS.AllowOrigins config)).
Proof.
  unfold allowedOriginOf.
  destruct (String.eqb origin EmptyString) eqn:He.
  { apply String.eqb_eq in He. split; [by left|done]. }
  apply String.eqb_neq in He.
  destruct (bool_decide ("*" ∈ CORS.AllowOrigins config)) eqn:Hs.
  - apply bool_decide_eq_true in Hs.
    split.
    + by destruct (CORS.AllowCredentials config).
    + intros [?|[? _]]; done.
  - apply bool_decide_eq_false in Hs.
    destruct (bool_decide (origin ∈ CORS.AllowOrigins config)) eqn:Ho.
    + apply bool_decide_eq_true in Ho. split; [done|]. intros [?|[_ ?]]; done.
    + apply bool_decide_eq_false in Ho. split; [by right|done].
Qed.

(** X29: what the CORS middleware does with a request.  It allows the
    origin of the request when the origin is not empty and the
    configured list holds ["*"] or the origin itself; the allowed value
    is ["*"], or the origin itself when it is listed or when
    credentials are allowed, so that ["*"] with credentials echoes any
    origin.  For a request that is not OPTIONS it sets the origin
    headers (none for an origin that is not allowed) and calls the next
    handler: it never refuses a request.  An OPTIONS request is answered
    with the headers of the preflight and the status 204, allowed
    origin or not, and the next handler is not called. *)
Theorem CORS_headers_and_preflight (Header : Context -> string -> string)
    (config : CORS.CORSConfig) (next : HandlerFunc) :
  exists wrapped,
    CORS.CORS Header config next = Some wrapped /\
    forall c,
      let allowed := allowedOriginOf config (Header c "Origin") in
      (Ctx.Method_ c = "OPTIONS" ->
         wrapped c = Return (wrote c (originHeaders config allowed ++
                                      preflightEvents config allowed)) None) /\
      (Ctx.Method_ c <> "OPTIONS" ->
         wrapped c = next (wrote c (originHeaders config allowed))) /\
      (allowed = EmptyString <->
         Header c "Origin" = EmptyString \/
         (("*" ∉ CORS.AllowOrigins config) /\
          (Header c "Origin" ∉ CORS.AllowOrigins config))) /\
      (allowed = EmptyString -> originHeaders config allowed = []) /\
      (allowed <> EmptyString ->
         exists more,
           originHeaders config allowed
           = SetHeaderEv "Access-Control-Allow-Origin" allowed :: more /\
           (allowed = "*" \/ allowed = Header c "Origin") /\
           (CORS.AllowCredentials config = true -> allowed = Header c "Origin")).
Proof.
  destruct (CORS_wrapped Header config next) as (wrapped & Hw & Hc).
  exists wrapped. split; [exact Hw|]. intros c allowed.
  split; [|split; [|split; [|split]]].
  - intros Hm. rewrite Hc, Hm. done.
  - intros Hm. rewrite Hc. apply String.eqb_neq in Hm. by rewrite Hm.
  - apply allowedOriginOf_empty.
  - intros He. unfold originHeaders. by rewrite He.
  - intros Hne. unfold originHeaders.
    apply String.eqb_neq in Hne. rewrite Hne. eexists. split; [reflexivity|].
    subst allowed. unfold allowedOriginOf in *.
    destruct (String.eqb (Header c "Origin") EmptyString); [done|].
    destruct (bool_decide ("*" ∈ CORS.AllowOrigins config)).
    + destruct (CORS.AllowCredentials config); [by split; [right|]|by split; [left|]].
    + destruct (bool_decide (Header c "Origin" ∈ CORS.AllowOrigins config)); [|done].
      by split; [right|].
Qed.

Lemma globalLoop_first m rest handler c :
  App.globalLoop (m :: rest) (S (length rest)) handler c
  = match m (fun c0 => App.globalLoop rest (length rest) handler c0) with
    | Some wrapped => wrapped c
    | None => Panic c "invalid memory address or nil pointer dereference"
    end.
Proof. rewrite globalLoop_cons by lia. reflexivity. Qed.

(** X30: CORS as the first global middleware of an application.  Every
    OPTIONS request is answered by the preflight answer, with status 204,
    whatever the path, the routes and the middleware registered after
    it: no route is looked up and no handler runs, so an OPTIONS route
    of the application is never reached.  The answer goes to the writer
    directly: the context is not marked as written.  For the other
    requests, with CORS as the only global middleware, the router gets
    the context with the origin headers already set. *)
Theorem CORS_first_answers_every_preflight (Header : Context -> string -> string)
    (config : CORS.CORSConfig) (a : App.t) (h : Slice.heap)
    (rest : list MiddlewareFunc) (r : Request) :
  Slice.view h (App.middleware a) = CORS.CORS Header config :: rest ->
  let c := Ctx.newContext r in
  let allowed := allowedOriginOf config (Header c "Origin") in
  (Method r = "OPTIONS" ->
     answer (App.ServeHTTP a h r)
     = (wrote c (originHeaders config allowed ++ preflightEvents config allowed), None) /\
     Ctx.IsWritten (fst (answer (App.ServeHTTP a h r))) = false) /\
  (Method r <> "OPTIONS" -> rest = [] ->
     App.chain a h c
     = Router.handleRequest (App.router a) h (wrote c (originHeaders config allowed))).
Proof.
  intros Hv c allowed.
  assert (Hchain : forall c0,
            App.chain a h c0
            = match CORS.CORS Header config
                      (fun c1 => App.globalLoop rest (length rest)
                                   (Router.handleRequest (App.router a) h) c1) with
              | Some wrapped => wrapped c0
              | None => Panic c0 "invalid memory address or nil pointer dereference"
              end).
  { intros c0. unfold App.chain. cbv zeta. rewrite Hv. cbn [length].
    apply globalLoop_first. }
  destruct (CORS_wrapped Header config
              (fun c1 => App.globalLoop rest (length rest)
                           (Router.handleRequest (App.router a) h) c1))
    as (wrapped & Hw & Hc).
  split.
  - intros Hm.
    assert (HR : App.chain a h (acquired a r)
                 = Return (wrote c (originHeaders config allowed ++
                                    preflightEvents config allowed)) None).
    { rewrite Hchain, Hw, Hc.
      change (Ctx.Method_ (acquired a r)) with (Method r). rewrite Hm. reflexivity. }
    destruct (ServeHTTP_Return a h r _ None _ None HR eq_refl) as (a' & HS & _).
    rewrite HS. done.
  - intros Hm ->. rewrite Hchain, Hw, Hc.
    change (Ctx.Method_ c) with (Method r).
    apply String.eqb_neq in Hm. by rewrite Hm.
Qed.

Lemma CORS_first_answers_every_preflight_witness :
  (Slice.view corsHeap (App.middleware corsApp)
   = [CORS.CORS (originOnly "https://app.example") CORS.DefaultCORSConfig] /\
   Method (mkRequest "OPTIONS" "/nowhere") = "OPTIONS") /\
  answer (App.ServeHTTP corsApp corsHeap (mkRequest "OPTIONS" "/nowhere"))
  = (wrote (Ctx.newContext (mkRequest "OPTIONS" "/nowhere"))
       [SetHeaderEv "Access-Control-Allow-Origin" "*";
        SetHeaderEv "Access-Control-Allow-Methods"
          "GET, POST, PUT, PATCH, DELETE, OPTIONS, HEAD";
        SetHeaderEv "Access-Control-Allow-Headers"
          "Origin, Content-Type, Accept, Authorization, X-Requested-With";
        SetHeaderEv "Access-Control-Max-Age" "86400";
        SetHeaderEv "Content-Length" "0";
        WriteHeaderEv 204], None).
Proof.
  assert (H1 : Slice.view corsHeap (App.middleware corsApp)
               = [CORS.CORS (originOnly "https://app.example") CORS.DefaultCORSConfig])
    by reflexivity.
  assert (H2 : Method (mkRequest "OPTIONS" "/nowhere") = "OPTIONS") by reflexivity.
  split; [exact (conj H1 H2)|].
  exact (proj1 (proj1 (CORS_first_answers_every_preflight
                         (originOnly "https://app.example") CORS.DefaultCORSConfig
                         corsApp corsHeap [] (mkRequest "OPTIONS" "/nowhere") H1) H2)).
Defined.
